(** * A shallow embedding of the os1test-dev AArch64 kernel

    The development follows the kernel sources module by module:
    the round-robin scheduler (sched.c), the physical page allocator
    (pmm.c), the kernel heap (kmalloc.c), the page-table flags of the
    virtual memory manager and the ELF loader (vmm.h, vmm.c, elf.c), the
    synchronous VirtIO block protocol (virtio_blk.c), the window
    compositor with its terminal emulator (compositor.c) and the
    supervisor-call dispatcher (syscall.c). After these come the
    library routines they rest on and further facts about the same
    code: the string and memory routines (string.c), the fixed-point
    arithmetic (math.c), page frames and heap blocks through a whole
    allocate-and-free cycle, the window table and the drawing order of
    the compositor, the page-table walk with mapping, unmapping and
    new address spaces (vmm.c), and formatted output (printk.c).

    Machine integers are mathematical integers with the wrap-around of
    the C type written out; pointers are integers, [0] is [NULL]; memory
    that the C code reaches through pointers is a finite map from
    addresses to the objects stored there. Where the code can store,
    load or copy outside the object a pointer points into (the drawing
    code of the compositor), each access is checked against the bounds
    of its buffer and the first one outside is recorded. *)

From Stdlib Require Import ZArith List Lia Bool.
From stdpp Require Import base option list gmap.

Open Scope Z_scope.

(** ** Machine integers *)

Definition u16 (x : Z) : Z := x mod 2 ^ 16.
Definition u32 (x : Z) : Z := x mod 2 ^ 32.
Definition u64 (x : Z) : Z := x mod 2 ^ 64.
(** [int]: two's complement on 32 bits. *)
Definition s32 (x : Z) : Z := (x + 2 ^ 31) mod 2 ^ 32 - 2 ^ 31.
(** [long]: two's complement on 64 bits. *)
Definition s64 (x : Z) : Z := (x + 2 ^ 63) mod 2 ^ 64 - 2 ^ 63.

Lemma s32_small x : - 2 ^ 31 <= x < 2 ^ 31 -> s32 x = x.
Proof. intros H. unfold s32. rewrite Z.mod_small; lia. Qed.

Lemma s32_range x : - 2 ^ 31 <= s32 x < 2 ^ 31.
Proof. unfold s32. pose proof (Z.mod_pos_bound (x + 2 ^ 31) (2 ^ 32)). lia. Qed.

Lemma u64_small x : 0 <= x < 2 ^ 64 -> u64 x = x.
Proof. intros H. unfold u64. rewrite Z.mod_small; lia. Qed.

Lemma u64_s64 x : 0 <= x < 2 ^ 64 -> u64 (s64 x) = x.
Proof.
  intros H. unfold u64, s64.
  destruct (Z_lt_ge_dec x (2 ^ 63)) as [Hlt | Hge].
  - rewrite (Z.mod_small (x + 2 ^ 63)) by lia.
    replace (x + 2 ^ 63 - 2 ^ 63) with x by lia. apply Z.mod_small; lia.
  - replace (x + 2 ^ 63) with (x - 2 ^ 63 + 1 * 2 ^ 64) by lia.
    rewrite Z.mod_add by lia. rewrite (Z.mod_small (x - 2 ^ 63)) by lia.
    replace (x - 2 ^ 63 - 2 ^ 63) with (x + (-1) * 2 ^ 64) by lia.
    rewrite Z.mod_add by lia. apply Z.mod_small; lia.
Qed.

(** ** Counted loops *)

(** [n] iterations of [body], the counter starting at [i]. *)
Fixpoint for_loop {A : Type} (i : Z) (n : nat) (body : Z → A → A) (a : A) : A :=
  match n with
  | O => a
  | S n' => for_loop (i + 1) n' body (body i a)
  end.

(** [for (i = lo; i < hi; i++) body] *)
Definition for_range {A : Type} (lo hi : Z) (body : Z → A → A) (a : A) : A :=
  for_loop lo (Z.to_nat (hi - lo)) body a.

Lemma for_loop_invariant {A : Type} (P : Z → A → Prop) (body : Z → A → A) (n : nat) :
  ∀ i a, P i a →
    (∀ j b, i <= j < i + Z.of_nat n → P j b → P (j + 1) (body j b)) →
    P (i + Z.of_nat n) (for_loop i n body a).
Proof.
  induction n as [| n IH]; intros i a Ha Hstep; cbn [for_loop].
  - change (Z.of_nat 0) with 0. by rewrite Z.add_0_r.
  - replace (i + Z.of_nat (S n)) with (i + 1 + Z.of_nat n) by lia.
    apply IH; [apply Hstep; [lia | done] |].
    intros j b Hj. apply Hstep. lia.
Qed.

Lemma for_range_invariant {A : Type} (P : Z → A → Prop) (body : Z → A → A) lo hi a :
  lo <= hi → P lo a →
  (∀ j b, lo <= j < hi → P j b → P (j + 1) (body j b)) →
  P hi (for_range lo hi body a).
Proof.
  intros Hle Ha Hstep. unfold for_range.
  replace hi with (lo + Z.of_nat (Z.to_nat (hi - lo))) at 1 by lia.
  apply for_loop_invariant; [done |]. intros j b Hj. apply Hstep. lia.
Qed.

Lemma for_range_empty {A : Type} (body : Z → A → A) lo hi a :
  hi <= lo → for_range lo hi body a = a.
Proof. intros H. unfold for_range. by replace (Z.to_nat (hi - lo)) with O by lia. Qed.

(** ** The scheduler (sched.c) *)

Module Sched.

Definition MAX_PROCESSES : Z := 16.

Definition PROC_UNUSED : Z := 0.
Definition PROC_CREATED : Z := 1.
Definition PROC_RUNNING : Z := 2.
Definition PROC_ZOMBIE : Z := 3.

(** [struct process]; [context] is the address of the saved
    [struct pt_regs]. *)
Record process := mkProcess {
  pid : Z;
  page_table : Z;
  kernel_stack : Z;
  context : Z;
  user_entry : Z;
  user_stack : Z;
  state : Z
}.

Definition set_context (v : Z) (p : process) : process :=
  mkProcess (pid p) (page_table p) (kernel_stack p) v
            (user_entry p) (user_stack p) (state p).

Definition set_state (v : Z) (p : process) : process :=
  mkProcess (pid p) (page_table p) (kernel_stack p) (context p)
            (user_entry p) (user_stack p) v.

(** The file-scope variables of sched.c, the process control blocks they
    point to, and the translation-table base register. *)
Record sched := mkSched {
  pcb : gmap Z process;
  process_pool : list Z;
  process_count : Z;
  current_pid : Z;
  current_process : Z;
  ttbr0_el1 : Z
}.

Definition virt_to_phys (virt : Z) : Z := virt.

(** [process_pool[i]]; an index outside the array is a fault. *)
Definition pool_at (s : sched) (i : Z) : option Z :=
  if (0 <=? i) && (i <? MAX_PROCESSES) then process_pool s !! Z.to_nat i
  else None.

(** Lines 87-91: save the interrupted context in the current process. *)
Definition save_current (regs : Z) (s : sched) : option sched :=
  if current_process s =? 0 then Some s
  else
    p ← pcb s !! current_process s;
    Some (mkSched
            (<[current_process s := set_state PROC_RUNNING (set_context regs p)]> (pcb s))
            (process_pool s) (process_count s) (current_pid s)
            (current_process s) (ttbr0_el1 s)).

(** [schedule(regs)]; [None] is a fault (a wild pointer or index). The
    C remainder truncates toward zero ([Z.rem]). *)
Definition schedule (regs : Z) (s : sched) : option (Z * sched) :=
  if process_count s =? 0 then Some (regs, s)
  else
    s1 ← save_current regs s;
    let cp := Z.rem (s32 (current_pid s1 + 1)) (process_count s1) in
    next ← pool_at s1 cp;
    np ← pcb s1 !! next;
    Some (context np,
          mkSched (pcb s1) (process_pool s1) (process_count s1) cp next
                  (virt_to_phys (page_table np))).

(** A window of timer ticks: each tick enters [schedule] with the frame
    the exception entry saved; the trace records the pool index and the
    process installed by each tick. *)
Fixpoint run_ticks (frames : list Z) (s : sched) : option (list (Z * Z) * sched) :=
  match frames with
  | [] => Some ([], s)
  | f :: fs =>
      r ← schedule f s;
      r' ← run_ticks fs r.2;
      Some ((current_pid r.2, current_process r.2) :: r'.1, r'.2)
  end.

(** How often pool slot [i] was selected in a trace. *)
Definition times_selected (i : Z) (tr : list (Z * Z)) : nat :=
  length (filter (λ x, x = i) (tr.*1)).

(** The state between ticks: a populated prefix of live control blocks,
    the current index inside it (or -1 before the first process is
    started), the current pointer null or live. *)
Record wf (s : sched) : Prop := mkWf {
  wf_count : 0 < process_count s <= MAX_PROCESSES;
  wf_pool_len : length (process_pool s) = Z.to_nat MAX_PROCESSES;
  wf_cur : -1 <= current_pid s < process_count s;
  wf_live : ∀ i p, (i < Z.to_nat (process_count s))%nat →
                   process_pool s !! i = Some p → is_Some (pcb s !! p);
  wf_curp : current_process s = 0 ∨ is_Some (pcb s !! current_process s)
}.

(** *** Counting residues in a window of consecutive integers *)

Lemma div_succ_step N y i x :
  0 < N → 0 <= i < N → 0 <= x → y = x + N - 1 - i →
  (y + 1) / N - y / N = if decide (x mod N = i) then 1 else 0.
Proof.
  intros HN Hi Hx ->.
  pose proof (Z.div_mod x N ltac:(lia)) as Hx'.
  pose proof (Z.mod_pos_bound x N HN) as Hr.
  set (q := x / N) in *. set (r := x mod N) in *.
  case_decide as Hd.
  - rewrite <- (Z.div_unique_pos (x + N - 1 - i + 1) N (q + 1) 0) by lia.
    rewrite <- (Z.div_unique_pos (x + N - 1 - i) N q (N - 1)) by lia. lia.
  - destruct (Z_lt_ge_dec i r) as [Hlt | Hge].
    + rewrite <- (Z.div_unique_pos (x + N - 1 - i + 1) N (q + 1) (r - i)) by lia.
      rewrite <- (Z.div_unique_pos (x + N - 1 - i) N (q + 1) (r - i - 1)) by lia. lia.
    + rewrite <- (Z.div_unique_pos (x + N - 1 - i + 1) N q (N - i + r)) by lia.
      rewrite <- (Z.div_unique_pos (x + N - 1 - i) N q (N - 1 - i + r)) by lia. lia.
Qed.

Lemma count_residue N a i (n : nat) :
  0 < N → 0 <= a → 0 <= i < N →
  Z.of_nat (length (filter (λ x, x = i)
                      (map (λ j : nat, (a + Z.of_nat j) mod N) (seq 0 n))))
  = (a + Z.of_nat n + N - 1 - i) / N - (a + N - 1 - i) / N.
Proof.
  intros HN Ha Hi. induction n as [| n IH].
  - simpl. change (Z.of_nat 0) with 0. rewrite Z.add_0_r. lia.
  - rewrite seq_S, map_app, filter_app, length_app, Nat2Z.inj_add, IH.
    simpl map. rewrite filter_cons, filter_nil.
    pose proof (div_succ_step N (a + Z.of_nat n + N - 1 - i) i (a + Z.of_nat n)
                  HN Hi ltac:(lia) eq_refl) as Hs.
    replace (a + Z.of_nat (S n) + N - 1 - i)
      with (a + Z.of_nat n + N - 1 - i + 1) by lia.
    case_decide; simpl length; lia.
Qed.

Lemma count_full_windows N a i (k : nat) :
  0 < N → 0 <= a → 0 <= i < N →
  length (filter (λ x, x = i)
            (map (λ j : nat, (a + Z.of_nat j) mod N) (seq 0 (Z.to_nat N * k)))) = k.
Proof.
  intros HN Ha Hi. apply Nat2Z.inj. rewrite count_residue by done.
  replace (a + Z.of_nat (Z.to_nat N * k) + N - 1 - i)
    with (a + N - 1 - i + Z.of_nat k * N) by lia.
  rewrite Z.div_add by lia. lia.
Qed.

(** *** One tick *)

Lemma save_current_wf regs s :
  wf s → ∃ s1, save_current regs s = Some s1 ∧ wf s1 ∧
    process_pool s1 = process_pool s ∧ process_count s1 = process_count s ∧
    current_pid s1 = current_pid s ∧ current_process s1 = current_process s.
Proof.
  intros Hwf. pose proof Hwf as [Hc Hl Hcur Hlive Hp]. unfold save_current.
  destruct (Z.eqb_spec (current_process s) 0) as [He | Hne].
  - exists s. done.
  - destruct Hp as [Hp | [p Hp]]; [done |]. rewrite Hp. simpl.
    eexists. split; [reflexivity |].
    split; [| done]. constructor; simpl; auto.
    + intros i q Hi Hq. destruct (decide (current_process s = q)) as [-> | Hq'].
      * rewrite lookup_insert_eq. eauto.
      * rewrite lookup_insert_ne by done. eauto.
    + right. rewrite lookup_insert_eq. eauto.
Qed.

Lemma schedule_step regs s :
  wf s → ∃ r s', schedule regs s = Some (r, s') ∧ wf s' ∧
    process_pool s' = process_pool s ∧ process_count s' = process_count s ∧
    current_pid s' = (current_pid s + 1) mod process_count s ∧
    process_pool s !! Z.to_nat (current_pid s') = Some (current_process s').
Proof.
  intros Hwf. destruct (save_current_wf regs s Hwf)
    as (s1 & Hs1 & Hwf1 & Hpool & Hcount & Hcp & Hcur).
  unfold schedule. destruct Hwf as [Hc Hl Hcu Hlive Hp].
  destruct (Z.eqb_spec (process_count s) 0) as [He | _]; [lia |].
  rewrite Hs1. simpl. rewrite Hcp, Hcount.
  rewrite s32_small by (unfold MAX_PROCESSES in *; lia).
  rewrite Z.rem_mod_nonneg by lia.
  set (cp := (current_pid s + 1) mod process_count s).
  assert (Hcpr : 0 <= cp < process_count s) by (apply Z.mod_pos_bound; lia).
  unfold pool_at.
  replace ((0 <=? cp) && (cp <? MAX_PROCESSES)) with true
    by (symmetry; apply andb_true_intro; split; [apply Z.leb_le | apply Z.ltb_lt]; lia).
  destruct (lookup_lt_is_Some_2 (process_pool s1) (Z.to_nat cp)) as [next Hnext].
  { rewrite Hpool, Hl. lia. }
  rewrite Hnext. simpl.
  destruct Hwf1 as [Hc1 Hl1 Hcu1 Hlive1 Hp1].
  destruct (Hlive1 (Z.to_nat cp) next ltac:(lia) Hnext) as [np Hnp].
  rewrite Hnp. simpl. do 2 eexists. split; [reflexivity |].
  split; [| simpl; rewrite <- Hpool; auto].
  constructor; simpl; [lia | done | lia | | right; eauto].
  intros i p Hi. apply Hlive1. lia.
Qed.

(** *** A window of ticks *)

Lemma run_ticks_trace frames : ∀ s,
  wf s → ∃ tr s', run_ticks frames s = Some (tr, s') ∧ wf s' ∧
    process_pool s' = process_pool s ∧ process_count s' = process_count s ∧
    tr.*1 = map (λ j : nat, (current_pid s + 1 + Z.of_nat j) mod process_count s)
                (seq 0 (length frames)) ∧
    Forall (λ e, process_pool s !! Z.to_nat e.1 = Some e.2) tr.
Proof.
  induction frames as [| f fs IH]; intros s Hwf.
  - exists [], s. simpl. split; [done |]. split; [done |]. repeat split; constructor.
  - destruct (schedule_step f s Hwf) as (r & s1 & Hs & Hwf1 & Hpool & Hcount & Hcp & Hsel).
    destruct (IH s1 Hwf1) as (tr & s2 & Hrun & Hwf2 & Hpool2 & Hcount2 & Htr & Hall).
    simpl run_ticks. rewrite Hs. simpl. rewrite Hrun. simpl.
    do 2 eexists. split; [reflexivity |].
    split; [done |]. split; [congruence |]. split; [congruence |]. split.
    + rewrite fmap_cons. simpl fst. simpl length. simpl seq. simpl map.
      rewrite Htr, Hcount. f_equal.
      * rewrite Hcp. f_equal. lia.
      * rewrite <- seq_shift, map_map. apply map_ext. intros j.
        rewrite Hcp. destruct Hwf as [Hc _ _ _ _].
        rewrite Nat2Z.inj_succ.
        replace (current_pid s + 1 + Z.succ (Z.of_nat j))
          with (current_pid s + 1 + 1 + Z.of_nat j) by lia.
        rewrite <- (Zplus_mod_idemp_l (current_pid s + 1 + 1)).
        rewrite <- (Zplus_mod_idemp_l (current_pid s + 1) 1).
        rewrite (Zplus_mod_idemp_l ((current_pid s + 1) mod process_count s + 1)).
        reflexivity.
    + constructor; [done |]. rewrite <- Hpool. done.
Qed.

(** *** A concrete process table: three processes, the first running *)

Definition demo_process (n : Z) : process :=
  mkProcess n (n * 65536) (n * 4096 + 4096) (n * 4096 + 4096 - 288) 4194304 3222274048
            PROC_CREATED.

Definition demo : sched :=
  mkSched (<[4096 := demo_process 1]> (<[8192 := demo_process 2]>
             (<[12288 := demo_process 3]> ∅)))
          ([4096; 8192; 12288] ++ replicate 13 0) 3 0 4096 65536.

Lemma demo_wf : wf demo.
Proof.
  constructor; simpl; try (unfold MAX_PROCESSES; lia); try reflexivity.
  - intros i p Hi Hp.
    destruct i as [| [| [| i]]]; simpl in Hp; try lia;
      injection Hp as <-; eexists; reflexivity.
  - right. eexists. reflexivity.
Qed.

(** C1. Scheduling is round-robin through the populated prefix of the
    process table: from any state between ticks with [N] populated
    slots, every call of [schedule] returns and moves the current index
    to its successor modulo [N]; over any window of [N * k] consecutive
    ticks the trace of selected slots exists, follows that successor
    order, installs the pool entry of the selected slot, and selects
    every slot [0 <= i < N] exactly [k] times. *)
Theorem schedule_round_robin (s : sched) (frames : list Z) (k : nat) :
  wf s →
  length frames = (Z.to_nat (process_count s) * k)%nat →
  (∀ regs, ∃ r s1, schedule regs s = Some (r, s1) ∧
     current_pid s1 = (current_pid s + 1) mod process_count s) ∧
  ∃ tr s', run_ticks frames s = Some (tr, s') ∧
    (∀ (j : nat) e, tr !! j = Some e →
       e.1 = (current_pid s + 1 + Z.of_nat j) mod process_count s ∧
       process_pool s !! Z.to_nat e.1 = Some e.2) ∧
    ∀ i, 0 <= i < process_count s → times_selected i tr = k.
Proof.
  intros Hwf Hlen. split.
  - intros regs. destruct (schedule_step regs s Hwf) as (r & s1 & Hs & _ & _ & _ & Hcp & _).
    eauto.
  - destruct (run_ticks_trace frames s Hwf) as (tr & s' & Hrun & _ & _ & _ & Htr & Hall).
    exists tr, s'. split; [done |]. split.
    + intros j e Hj. split.
      * assert (Hfst : tr.*1 !! j = Some e.1) by (rewrite list_lookup_fmap, Hj; done).
        rewrite Htr in Hfst. apply list_lookup_fmap_Some in Hfst as (j' & Heq & Hj').
        apply lookup_seq in Hj' as [-> _]. exact Heq.
      * rewrite Forall_lookup in Hall. exact (Hall j e Hj).
    + intros i Hi. unfold times_selected. rewrite Htr, Hlen.
      destruct Hwf as [Hc _ Hcu _ _]. apply count_full_windows; lia.
Qed.

Lemma schedule_round_robin_witness :
  (∀ regs, ∃ r s1, schedule regs demo = Some (r, s1) ∧
     current_pid s1 = (current_pid demo + 1) mod process_count demo) ∧
  ∃ tr s', run_ticks [1; 2; 3; 4; 5; 6] demo = Some (tr, s') ∧
    (∀ (j : nat) e, tr !! j = Some e →
       e.1 = (current_pid demo + 1 + Z.of_nat j) mod process_count demo ∧
       process_pool demo !! Z.to_nat e.1 = Some e.2) ∧
    ∀ i, 0 <= i < process_count demo → times_selected i tr = 2%nat.
Proof. exact (schedule_round_robin demo [1; 2; 3; 4; 5; 6] 2 demo_wf eq_refl). Defined.

(** C6, as the code has it. With a current process installed,
    [schedule(regs)] returns, and its first step stores [regs] in the
    current process's saved-frame pointer and sets its state to
    [PROC_RUNNING] (sched.h has no runnable state); the index is still
    the old one after that step, and the rest of [schedule] advances it
    and leaves the control blocks as the first step wrote them. *)
Theorem schedule_saves_frame (regs : Z) (s : sched) :
  wf s → current_process s ≠ 0 →
  ∃ p s1 r s',
    pcb s !! current_process s = Some p ∧
    save_current regs s = Some s1 ∧
    pcb s1 !! current_process s = Some (set_state PROC_RUNNING (set_context regs p)) ∧
    current_pid s1 = current_pid s ∧
    schedule regs s = Some (r, s') ∧
    pcb s' = pcb s1 ∧
    current_pid s' = (current_pid s + 1) mod process_count s.
Proof.
  intros Hwf Hne. pose proof Hwf as [Hc Hl Hcu Hlive Hp].
  destruct Hp as [Hp | [p Hp]]; [done |].
  destruct (schedule_step regs s Hwf) as (r & s' & Hs & _ & _ & _ & Hcp & _).
  assert (Hsave : save_current regs s = Some (mkSched
            (<[current_process s := set_state PROC_RUNNING (set_context regs p)]> (pcb s))
            (process_pool s) (process_count s) (current_pid s)
            (current_process s) (ttbr0_el1 s))).
  { unfold save_current. destruct (Z.eqb_spec (current_process s) 0); [done |].
    rewrite Hp. reflexivity. }
  exists p. eexists. exists r, s'. split; [done |]. split; [exact Hsave |].
  split; [simpl; apply lookup_insert_eq |]. split; [done |]. split; [done |].
  split; [| done].
  unfold schedule in Hs. rewrite Hsave in Hs.
  destruct (Z.eqb_spec (process_count s) 0); [lia |].
  simpl in Hs.
  destruct (pool_at _ _) as [next |]; simpl in Hs; [| done].
  destruct (_ !! next) as [np |]; simpl in Hs; [| done].
  injection Hs as _ <-. reflexivity.
Qed.

Lemma schedule_saves_frame_witness :
  ∃ p s1 r s',
    pcb demo !! current_process demo = Some p ∧
    save_current 777 demo = Some s1 ∧
    pcb s1 !! current_process demo = Some (set_state PROC_RUNNING (set_context 777 p)) ∧
    current_pid s1 = current_pid demo ∧
    schedule 777 demo = Some (r, s') ∧
    pcb s' = pcb s1 ∧
    current_pid s' = (current_pid demo + 1) mod process_count demo.
Proof. apply (schedule_saves_frame 777 demo demo_wf). simpl. lia. Defined.

(** C6 as stated fails: after [schedule] the interrupted process is
    marked [PROC_RUNNING], the same value [start_user_process] gives a
    process that is running. *)
Lemma schedule_marks_running :
  ∃ r s', schedule 777 demo = Some (r, s') ∧
    state <$> pcb s' !! current_process demo = Some PROC_RUNNING ∧
    current_process s' = 8192.
Proof. do 2 eexists. split; [reflexivity |]. split; reflexivity. Qed.

End Sched.

(** ** The physical page allocator (pmm.c) *)

Module Pmm.

Definition PAGE_SHIFT : Z := 12.
Definition PAGE_SIZE : Z := Z.shiftl 1 PAGE_SHIFT.
Definition MEMORY_BASE : Z := 0x40000000.
Definition MAX_MEMORY : Z := Z.shiftl 1 30.
Definition MAX_PAGES : Z := MAX_MEMORY / PAGE_SIZE.
Definition PG_RESERVED : Z := Z.shiftl 1 0.

Definition phys_to_pfn (phys : Z) : Z := Z.shiftr phys PAGE_SHIFT.
Definition pfn_to_phys (pfn : Z) : Z := u64 (Z.shiftl pfn PAGE_SHIFT).

(** [struct page]: the fields the allocator reads and writes. *)
Record page := mkPage { flags : Z; refcount : Z }.

(** [struct zone]; [bitmap] is the array of [uint64_t] words. *)
Record zone := mkZone {
  start_pfn : Z;
  end_pfn : Z;
  zone_free_pages : Z;
  bitmap : list Z
}.

Inductive zone_id := ZONE_DMA | ZONE_NORMAL.

(** The file-scope state of pmm.c. The contents of physical memory
    (zeroed by every allocation) are not part of this state. *)
Record pmm := mkPmm {
  page_array : list page;
  zone_dma : zone;
  zone_normal : zone;
  total_pages : Z;
  free_pages : Z;
  warned : list Z
}.

Definition get_zone (z : zone_id) (s : pmm) : zone :=
  match z with ZONE_DMA => zone_dma s | ZONE_NORMAL => zone_normal s end.

Definition set_zone (z : zone_id) (v : zone) (s : pmm) : pmm :=
  match z with
  | ZONE_DMA => mkPmm (page_array s) v (zone_normal s) (total_pages s) (free_pages s) (warned s)
  | ZONE_NORMAL => mkPmm (page_array s) (zone_dma s) v (total_pages s) (free_pages s) (warned s)
  end.

Definition set_page (pfn : Z) (v : page) (s : pmm) : pmm :=
  mkPmm (<[Z.to_nat pfn := v]> (page_array s)) (zone_dma s) (zone_normal s)
        (total_pages s) (free_pages s) (warned s).

Definition set_free_pages (v : Z) (s : pmm) : pmm :=
  mkPmm (page_array s) (zone_dma s) (zone_normal s) (total_pages s) v (warned s).

Definition get_page (s : pmm) (pfn : Z) : page :=
  default (mkPage 0 0) (page_array s !! Z.to_nat pfn).

(** *** The bitmap, one bit per page, in 64-bit words *)

Definition word_at (b : list Z) (i : Z) : Z := default 0 (b !! Z.to_nat i).

Definition bitmap_set (b : list Z) (bit : Z) : list Z :=
  <[Z.to_nat (bit / 64) := Z.lor (word_at b (bit / 64)) (Z.shiftl 1 (bit mod 64))]> b.

Definition bitmap_clear (b : list Z) (bit : Z) : list Z :=
  <[Z.to_nat (bit / 64) :=
      Z.land (word_at b (bit / 64)) (u64 (Z.lnot (Z.shiftl 1 (bit mod 64))))]> b.

Definition bitmap_test (b : list Z) (bit : Z) : bool :=
  negb (Z.land (word_at b (bit / 64)) (Z.shiftl 1 (bit mod 64)) =? 0).

(** [for (i = start; i < end; i++)] with [fuel] iterations left. *)
Fixpoint find_free_from (b : list Z) (i : Z) (fuel : nat) : Z :=
  match fuel with
  | O => -1
  | S fuel' => if negb (bitmap_test b i) then i else find_free_from b (i + 1) fuel'
  end.

Definition bitmap_find_free (b : list Z) (start stop : Z) : Z :=
  find_free_from b start (Z.to_nat (stop - start)).

Fixpoint find_contiguous_from (b : list Z) (count : Z) (i : Z) (fuel : nat)
    (found first : Z) : Z :=
  match fuel with
  | O => -1
  | S fuel' =>
      if negb (bitmap_test b i) then
        let first' := if found =? 0 then i else first in
        let found' := u64 (found + 1) in
        if found' =? count then first'
        else find_contiguous_from b count (i + 1) fuel' found' first'
      else find_contiguous_from b count (i + 1) fuel' 0 first
  end.

Definition bitmap_find_contiguous (b : list Z) (start stop count : Z) : Z :=
  find_contiguous_from b count start (Z.to_nat (stop - start)) 0 0.

(** [for (i = 0; i < count; i++) bitmap_set(bitmap, pfn + i)] *)
Fixpoint set_run (b : list Z) (pfn : Z) (count : nat) : list Z :=
  match count with
  | O => b
  | S n => set_run (bitmap_set b pfn) (pfn + 1) n
  end.

(** [for (i = 0; i < count; i++) page_array[abs_pfn + i] = {0, 1}] *)
Fixpoint init_pages (s : pmm) (pfn : Z) (count : nat) : pmm :=
  match count with
  | O => s
  | S n => init_pages (set_page pfn (mkPage 0 1) s) (pfn + 1) n
  end.

(** *** Allocation *)

Definition zone_alloc_page (zid : zone_id) (s : pmm) : Z * pmm :=
  let z := get_zone zid s in
  let pfn := bitmap_find_free (bitmap z) 0 (end_pfn z - start_pfn z) in
  if pfn <? 0 then (0, s)
  else
    let z' := mkZone (start_pfn z) (end_pfn z) (u64 (zone_free_pages z - 1))
                     (bitmap_set (bitmap z) pfn) in
    let s1 := set_zone zid z' s in
    let abs_pfn := start_pfn z + pfn in
    let s2 := set_page abs_pfn (mkPage 0 1) s1 in
    let addr := MEMORY_BASE + pfn_to_phys abs_pfn in
    (addr, set_free_pages (u64 (free_pages s2 - 1)) s2).

Definition pmm_alloc_page (s : pmm) : Z * pmm :=
  let r := zone_alloc_page ZONE_NORMAL s in
  if r.1 =? 0 then zone_alloc_page ZONE_DMA r.2 else r.

Definition pmm_alloc_pages (count : Z) (s : pmm) : Z * pmm :=
  if count =? 0 then (0, s)
  else if count =? 1 then pmm_alloc_page s
  else
    let z := zone_normal s in
    let pfn := bitmap_find_contiguous (bitmap z) 0 (end_pfn z - start_pfn z) count in
    if pfn <? 0 then (0, s)
    else
      let z' := mkZone (start_pfn z) (end_pfn z) (u64 (zone_free_pages z - count))
                       (set_run (bitmap z) pfn (Z.to_nat count)) in
      let s1 := set_zone ZONE_NORMAL z' s in
      let abs_pfn := start_pfn z + pfn in
      let s2 := init_pages s1 abs_pfn (Z.to_nat count) in
      let addr := MEMORY_BASE + pfn_to_phys abs_pfn in
      (addr, set_free_pages (u64 (free_pages s2 - count)) s2).

(** *** Release *)

Definition pmm_free_page (pg : Z) (s : pmm) : pmm :=
  if pg =? 0 then s
  else
    let phys := pg in
    if phys <? MEMORY_BASE then s
    else
      let pfn := phys_to_pfn (phys - MEMORY_BASE) in
      if total_pages s <=? pfn then s
      else
        let d := get_page s pfn in
        if negb (Z.land (flags d) PG_RESERVED =? 0) then
          mkPmm (page_array s) (zone_dma s) (zone_normal s) (total_pages s)
                (free_pages s) (phys :: warned s)
        else
          let rc := u32 (refcount d - 1) in
          let s1 := set_page pfn (mkPage (flags d) rc) s in
          if 0 <? rc then s1
          else
            let zid := if pfn <? end_pfn (zone_dma s1) then ZONE_DMA else ZONE_NORMAL in
            let zone_pfn :=
              if pfn <? end_pfn (zone_dma s1) then pfn
              else pfn - end_pfn (zone_dma s1) in
            let z := get_zone zid s1 in
            let z' := mkZone (start_pfn z) (end_pfn z) (u64 (zone_free_pages z + 1))
                             (bitmap_clear (bitmap z) zone_pfn) in
            let s2 := set_zone zid z' s1 in
            set_free_pages (u64 (free_pages s2 + 1)) s2.

(** [for (i = 0; i < count; i++) pmm_free_page(phys + i * PAGE_SIZE)] *)
Fixpoint free_from (phys : Z) (i : Z) (fuel : nat) (s : pmm) : pmm :=
  match fuel with
  | O => s
  | S n => free_from phys (i + 1) n (pmm_free_page (u64 (phys + i * PAGE_SIZE)) s)
  end.

Definition pmm_free_pages (pg : Z) (count : Z) (s : pmm) : pmm :=
  free_from pg 0 (Z.to_nat count) s.

(** *** Aligned allocation *)

Definition pmm_alloc_aligned (size align : Z) (s : pmm) : Z * pmm :=
  let pages := u64 (size + PAGE_SIZE - 1) / PAGE_SIZE in
  let align_pages := u64 (align + PAGE_SIZE - 1) / PAGE_SIZE in
  if align_pages <=? 1 then pmm_alloc_pages pages s
  else
    let total := u64 (pages + align_pages - 1) in
    let r := pmm_alloc_pages total s in
    let mem := r.1 in
    if mem =? 0 then (0, r.2)
    else
      let addr := mem in
      let aligned := Z.land (u64 (addr + align - 1)) (u64 (Z.lnot (u64 (align - 1)))) in
      let skip := u64 (aligned - addr) / PAGE_SIZE in
      let s1 := if 0 <? skip then pmm_free_pages mem skip r.2 else r.2 in
      let unused := u64 (total - skip - pages) in
      let s2 :=
        if 0 <? unused then pmm_free_pages (u64 (aligned + pages * PAGE_SIZE)) unused s1
        else s1 in
      (aligned, s2).

(** *** What the bitmaps say about a page frame *)

(** The bit of absolute page frame [pfn], found the way [pmm_free_page]
    finds it. *)
Definition pfn_used (s : pmm) (pfn : Z) : bool :=
  if pfn <? end_pfn (zone_dma s) then bitmap_test (bitmap (zone_dma s)) pfn
  else bitmap_test (bitmap (zone_normal s)) (pfn - end_pfn (zone_dma s)).

Definition in_run (first count pfn : Z) : bool :=
  (first <=? pfn) && (pfn <? first + count).

(** The layout [pmm_init] sets up: the DMA zone from frame 0, the normal
    zone after it up to [total_pages], bitmaps and descriptor array long
    enough. *)
Record wf (s : pmm) : Prop := mkWf {
  wf_dma_start : start_pfn (zone_dma s) = 0;
  wf_dma_end : 0 <= end_pfn (zone_dma s) <= total_pages s;
  wf_normal_start : start_pfn (zone_normal s) = end_pfn (zone_dma s);
  wf_normal_end : end_pfn (zone_normal s) = total_pages s;
  wf_total : total_pages s <= MAX_PAGES;
  wf_pages : total_pages s <= Z.of_nat (length (page_array s));
  wf_dma_bitmap : end_pfn (zone_dma s) <= 64 * Z.of_nat (length (bitmap (zone_dma s)));
  wf_normal_bitmap :
    total_pages s - end_pfn (zone_dma s) <= 64 * Z.of_nat (length (bitmap (zone_normal s)))
}.

(** *** Bit-level facts *)

Lemma land_bit_eqb w k :
  0 <= k → (Z.land w (Z.shiftl 1 k) =? 0) = negb (Z.testbit w k).
Proof.
  intros Hk. rewrite Z.shiftl_1_l.
  destruct (Z.testbit w k) eqn:Hb; simpl.
  - apply Z.eqb_neq. intros H0.
    assert (Ht : Z.testbit (Z.land w (2 ^ k)) k = true)
      by (rewrite Z.land_spec, Hb, Z.pow2_bits_true; auto).
    rewrite H0, Z.bits_0 in Ht. discriminate.
  - apply Z.eqb_eq. apply Z.bits_inj'. intros n Hn.
    rewrite Z.land_spec, Z.bits_0, Z.pow2_bits_eqb by done.
    destruct (Z.eqb_spec k n) as [-> |]; [rewrite Hb |]; auto using andb_false_r.
Qed.

Lemma bitmap_test_testbit b bit :
  0 <= bit → bitmap_test b bit = Z.testbit (word_at b (bit / 64)) (bit mod 64).
Proof.
  intros Hb. unfold bitmap_test. rewrite land_bit_eqb, negb_involutive; [done |].
  apply Z.mod_pos_bound. lia.
Qed.

Lemma split_bit i j :
  i / 64 = j / 64 → i mod 64 = j mod 64 → i = j.
Proof.
  intros Hq Hr. rewrite (Z.div_mod i 64), (Z.div_mod j 64) by lia. congruence.
Qed.

Lemma word_at_insert_eq b i v :
  0 <= i < Z.of_nat (length b) → word_at (<[Z.to_nat i := v]> b) i = v.
Proof.
  intros Hi. unfold word_at. rewrite list_lookup_insert_eq by lia. done.
Qed.

Lemma word_at_insert_ne b i j v :
  0 <= i → 0 <= j → i ≠ j → word_at (<[Z.to_nat i := v]> b) j = word_at b j.
Proof.
  intros Hi Hj Hne. unfold word_at. rewrite list_lookup_insert_ne by lia. done.
Qed.

Lemma bitmap_set_length b i : length (bitmap_set b i) = length b.
Proof. apply length_insert. Qed.

Lemma bitmap_clear_length b i : length (bitmap_clear b i) = length b.
Proof. apply length_insert. Qed.

Lemma bitmap_test_set b i j :
  0 <= i < 64 * Z.of_nat (length b) → 0 <= j →
  bitmap_test (bitmap_set b i) j = (i =? j) || bitmap_test b j.
Proof.
  intros Hi Hj. rewrite !bitmap_test_testbit by lia. unfold bitmap_set.
  assert (Hiq : 0 <= i / 64 < Z.of_nat (length b))
    by (split; [apply Z.div_pos; lia | apply Z.div_lt_upper_bound; lia]).
  assert (Hjq : 0 <= j / 64) by (apply Z.div_pos; lia).
  pose proof (Z.mod_pos_bound i 64 ltac:(lia)) as Hir.
  pose proof (Z.mod_pos_bound j 64 ltac:(lia)) as Hjr.
  destruct (Z.eq_dec (i / 64) (j / 64)) as [Hq | Hq].
  - rewrite <- Hq, word_at_insert_eq by lia.
    rewrite Z.lor_spec, Z.shiftl_1_l, Z.pow2_bits_eqb by lia.
    rewrite orb_comm. f_equal.
    destruct (Z.eqb_spec (i mod 64) (j mod 64)) as [Hr | Hr];
      destruct (Z.eqb_spec i j) as [He | He]; try done.
    + exfalso. apply He. by apply split_bit.
    + subst j. done.
  - rewrite word_at_insert_ne by lia.
    destruct (Z.eqb_spec i j) as [-> |]; [done | reflexivity].
Qed.

Lemma bitmap_test_clear b i j :
  0 <= i < 64 * Z.of_nat (length b) → 0 <= j →
  bitmap_test (bitmap_clear b i) j = negb (i =? j) && bitmap_test b j.
Proof.
  intros Hi Hj. rewrite !bitmap_test_testbit by lia. unfold bitmap_clear.
  assert (Hiq : 0 <= i / 64 < Z.of_nat (length b))
    by (split; [apply Z.div_pos; lia | apply Z.div_lt_upper_bound; lia]).
  assert (Hjq : 0 <= j / 64) by (apply Z.div_pos; lia).
  pose proof (Z.mod_pos_bound i 64 ltac:(lia)) as Hir.
  pose proof (Z.mod_pos_bound j 64 ltac:(lia)) as Hjr.
  destruct (Z.eq_dec (i / 64) (j / 64)) as [Hq | Hq].
  - rewrite <- Hq, word_at_insert_eq by lia.
    rewrite Z.land_spec. unfold u64.
    rewrite Z.mod_pow2_bits_low by lia.
    rewrite Z.lnot_spec, Z.shiftl_1_l, Z.pow2_bits_eqb by lia.
    rewrite andb_comm. f_equal. f_equal.
    destruct (Z.eqb_spec (i mod 64) (j mod 64)) as [Hr | Hr];
      destruct (Z.eqb_spec i j) as [He | He]; try done.
    + exfalso. apply He. by apply split_bit.
    + subst j. done.
  - rewrite word_at_insert_ne by lia.
    destruct (Z.eqb_spec i j) as [-> |]; [done | reflexivity].
Qed.

Lemma set_run_length n : ∀ b p, length (set_run b p n) = length b.
Proof.
  induction n as [| n IH]; intros b p; simpl; [done |].
  rewrite IH. apply bitmap_set_length.
Qed.

Lemma bitmap_test_set_run n : ∀ b p j,
  0 <= p → p + Z.of_nat n <= 64 * Z.of_nat (length b) → 0 <= j →
  bitmap_test (set_run b p n) j = in_run p (Z.of_nat n) j || bitmap_test b j.
Proof.
  induction n as [| n IH]; intros b p j Hp Hlen Hj; simpl set_run.
  - unfold in_run.
    destruct (Z.leb_spec p j), (Z.ltb_spec j (p + Z.of_nat 0)); simpl; try done; lia.
  - rewrite IH by (rewrite ?bitmap_set_length; lia).
    rewrite bitmap_test_set by lia. unfold in_run.
    destruct (Z.eqb_spec p j), (Z.leb_spec (p + 1) j), (Z.leb_spec p j),
      (Z.ltb_spec j (p + 1 + Z.of_nat n)), (Z.ltb_spec j (p + Z.of_nat (S n)));
      simpl; try done; lia.
Qed.

(** *** The two bitmap searches *)

Lemma find_free_from_spec fuel : ∀ b i,
  0 <= i →
  find_free_from b i fuel = -1 ∨
  (i <= find_free_from b i fuel < i + Z.of_nat fuel ∧
   bitmap_test b (find_free_from b i fuel) = false).
Proof.
  induction fuel as [| fuel IH]; intros b i Hi; simpl; [by left |].
  destruct (bitmap_test b i) eqn:Hb; simpl.
  - destruct (IH b (i + 1) ltac:(lia)) as [-> | [Hr Hf]]; [by left | right].
    split; [lia | done].
  - right. split; [lia | done].
Qed.

Lemma find_contiguous_from_spec fuel : ∀ b count i found first,
  0 < count < 2 ^ 64 → 0 <= found < count → found <= i →
  (0 < found → first = i - found) →
  (∀ j, i - found <= j < i → bitmap_test b j = false) →
  0 <= find_contiguous_from b count i fuel found first →
  i - found <= find_contiguous_from b count i fuel found first ∧
  find_contiguous_from b count i fuel found first + count <= i + Z.of_nat fuel ∧
  ∀ j, find_contiguous_from b count i fuel found first <= j
       < find_contiguous_from b count i fuel found first + count →
       bitmap_test b j = false.
Proof.
  induction fuel as [| fuel IH]; intros b count i found first Hc Hf Hi Hfirst Hfree;
    simpl; [lia |].
  destruct (bitmap_test b i) eqn:Hb; simpl.
  - intros Hr.
    destruct (IH b count (i + 1) 0 first Hc ltac:(lia) ltac:(lia) ltac:(lia)
                ltac:(intros; lia) Hr) as (H1 & H2 & H3).
    split; [lia |]. split; [lia | done].
  - rewrite (u64_small (found + 1)) by lia.
    assert (Hfirst' : (if found =? 0 then i else first) = i - found).
    { destruct (Z.eqb_spec found 0); [lia | apply Hfirst; lia]. }
    rewrite Hfirst'.
    destruct (Z.eqb_spec (found + 1) count) as [He | Hne].
    + intros _. split; [lia |]. split; [lia |]. intros j Hj.
      destruct (Z.eq_dec j i) as [-> |]; [done | apply Hfree; lia].
    + intros Hr.
      assert (Hfree' : ∀ j, i + 1 - (found + 1) <= j < i + 1 → bitmap_test b j = false).
      { intros j Hj. destruct (Z.eq_dec j i) as [-> |]; [done | apply Hfree; lia]. }
      destruct (IH b count (i + 1) (found + 1) (i - found) Hc ltac:(lia) ltac:(lia)
                  ltac:(intros; lia) Hfree' Hr) as (H1 & H2 & H3).
      split; [lia |]. split; [lia | done].
Qed.

(** *** Page descriptors *)

Lemma get_set_page s q v p :
  0 <= q < Z.of_nat (length (page_array s)) → 0 <= p →
  get_page (set_page q v s) p = if p =? q then v else get_page s p.
Proof.
  intros Hq Hp. unfold get_page, set_page. simpl.
  destruct (Z.eqb_spec p q) as [-> | Hne].
  - rewrite list_lookup_insert_eq by lia. done.
  - rewrite list_lookup_insert_ne by lia. done.
Qed.

Lemma init_pages_frame n : ∀ s p,
  zone_dma (init_pages s p n) = zone_dma s ∧
  zone_normal (init_pages s p n) = zone_normal s ∧
  total_pages (init_pages s p n) = total_pages s ∧
  free_pages (init_pages s p n) = free_pages s ∧
  length (page_array (init_pages s p n)) = length (page_array s).
Proof.
  induction n as [| n IH]; intros s p; simpl; [done |].
  destruct (IH (set_page p (mkPage 0 1) s) (p + 1)) as (-> & -> & -> & -> & ->).
  simpl. by rewrite length_insert.
Qed.

Lemma get_init_pages n : ∀ s p q,
  0 <= p → p + Z.of_nat n <= Z.of_nat (length (page_array s)) → 0 <= q →
  get_page (init_pages s p n) q =
    if in_run p (Z.of_nat n) q then mkPage 0 1 else get_page s q.
Proof.
  induction n as [| n IH]; intros s p q Hp Hlen Hq; simpl init_pages.
  - unfold in_run.
    destruct (Z.leb_spec p q), (Z.ltb_spec q (p + Z.of_nat 0)); simpl; try done; lia.
  - rewrite IH by (simpl; rewrite ?length_insert; lia).
    rewrite get_set_page by lia. unfold in_run.
    destruct (Z.eqb_spec q p), (Z.leb_spec (p + 1) q), (Z.leb_spec p q),
      (Z.ltb_spec q (p + 1 + Z.of_nat n)), (Z.ltb_spec q (p + Z.of_nat (S n)));
      simpl; try done; lia.
Qed.

Lemma pfn_phys_roundtrip pfn :
  0 <= pfn <= MAX_PAGES →
  pfn_to_phys pfn = pfn * 4096 ∧
  phys_to_pfn (MEMORY_BASE + pfn * 4096 - MEMORY_BASE) = pfn.
Proof.
  intros H. unfold pfn_to_phys, phys_to_pfn, PAGE_SHIFT, MAX_PAGES, MAX_MEMORY,
    PAGE_SIZE, PAGE_SHIFT in *.
  rewrite Z.shiftl_mul_pow2, Z.shiftr_div_pow2 by lia.
  change (Z.shiftl 1 30 / Z.shiftl 1 12) with 262144 in H.
  change (2 ^ 12) with 4096. split.
  - apply u64_small. lia.
  - replace (MEMORY_BASE + pfn * 4096 - MEMORY_BASE) with (pfn * 4096) by lia.
    apply Z.div_mul. lia.
Qed.

(** *** What a successful allocation leaves behind *)

(** [allocated s s' addr first n]: the [n] frames from [first] were free
    in [s], are the only bits that differ in [s'], lie in one zone, have
    fresh descriptors, and [addr] is the address of the first. *)
Record allocated (s s' : pmm) (addr first n : Z) : Prop := mkAllocated {
  al_addr : addr = MEMORY_BASE + first * 4096;
  al_wf : wf s';
  al_total : total_pages s' = total_pages s;
  al_dma_end : end_pfn (zone_dma s') = end_pfn (zone_dma s);
  al_range : 0 <= first ∧ first + n <= total_pages s;
  al_zone : first + n <= end_pfn (zone_dma s) ∨ end_pfn (zone_dma s) <= first;
  al_used : ∀ p, 0 <= p → pfn_used s' p = in_run first n p || pfn_used s p;
  al_fresh : ∀ p, first <= p < first + n → pfn_used s p = false;
  al_desc : ∀ p, first <= p < first + n → get_page s' p = mkPage 0 1
}.

Lemma in_run_one first p : in_run first 1 p = (first =? p).
Proof.
  unfold in_run.
  destruct (Z.leb_spec first p), (Z.ltb_spec p (first + 1)), (Z.eqb_spec first p);
    simpl; try done; lia.
Qed.

Lemma zone_alloc_page_spec zid s addr s' :
  wf s → zone_alloc_page zid s = (addr, s') →
  (addr = 0 ∧ s' = s) ∨ (addr ≠ 0 ∧ ∃ first, allocated s s' addr first 1).
Proof.
  intros Hwf. pose proof Hwf as [Hds Hde Hns Hne Htot Hpg Hdb Hnb].
  unfold zone_alloc_page, bitmap_find_free.
  set (z := get_zone zid s).
  set (stop := end_pfn z - start_pfn z).
  destruct (find_free_from_spec (Z.to_nat (stop - 0)) (bitmap z) 0 ltac:(lia))
    as [Hr | [Hr Hfree]].
  { rewrite Hr. simpl. intros [= <- <-]. by left. }
  set (pfn := find_free_from (bitmap z) 0 (Z.to_nat (stop - 0))) in *.
  destruct (Z.ltb_spec pfn 0) as [Hneg | _]; [lia |].
  assert (Hstop : pfn < stop) by lia.
  assert (Hbits : stop <= 64 * Z.of_nat (length (bitmap z)) ∧
                  0 <= start_pfn z ∧ start_pfn z + stop <= total_pages s).
  { subst stop z. destruct zid; simpl in *; lia. }
  destruct Hbits as (Hbits & Hstart & Hend).
  destruct (pfn_phys_roundtrip (start_pfn z + pfn) ltac:(lia)) as [Hphys _].
  intros [= <- <-]. right. rewrite Hphys. split.
  { unfold MEMORY_BASE. lia. }
  exists (start_pfn z + pfn). constructor.
  - done.
  - subst z. destruct zid; constructor; simpl;
      rewrite ?length_insert, ?bitmap_set_length; auto.
  - subst z. by destruct zid.
  - subst z. by destruct zid.
  - lia.
  - subst stop z. destruct zid; simpl in *; lia.
  - intros p Hp. rewrite in_run_one. unfold pfn_used.
    subst stop z. destruct zid; simpl in *.
    + destruct (Z.ltb_spec p (end_pfn (zone_dma s))).
      * rewrite bitmap_test_set by lia. by rewrite Hds.
      * destruct (Z.eqb_spec (start_pfn (zone_dma s) + pfn) p); [lia | done].
    + destruct (Z.ltb_spec p (end_pfn (zone_dma s))).
      * destruct (Z.eqb_spec (start_pfn (zone_normal s) + pfn) p); [lia | done].
      * rewrite bitmap_test_set by lia. f_equal.
        destruct (Z.eqb_spec pfn (p - end_pfn (zone_dma s))),
          (Z.eqb_spec (start_pfn (zone_normal s) + pfn) p); try done; lia.
  - intros p Hp. assert (p = start_pfn z + pfn) as -> by lia.
    unfold pfn_used. subst stop z. destruct zid; simpl in *.
    + destruct (Z.ltb_spec (start_pfn (zone_dma s) + pfn) (end_pfn (zone_dma s))); [| lia].
      rewrite Hds. exact Hfree.
    + destruct (Z.ltb_spec (start_pfn (zone_normal s) + pfn) (end_pfn (zone_dma s))); [lia |].
      replace (start_pfn (zone_normal s) + pfn - end_pfn (zone_dma s)) with pfn by lia.
      exact Hfree.
  - intros p Hp. assert (p = start_pfn z + pfn) as -> by lia.
    unfold get_page. simpl.
    assert (Hlen : 0 <= start_pfn z + pfn < Z.of_nat (length (page_array s))) by lia.
    subst z. destruct zid; simpl in *; rewrite list_lookup_insert_eq by lia; done.
Qed.

Lemma pmm_alloc_page_spec s addr s' :
  wf s → pmm_alloc_page s = (addr, s') →
  (addr = 0 ∧ s' = s) ∨ (addr ≠ 0 ∧ ∃ first, allocated s s' addr first 1).
Proof.
  intros Hwf. unfold pmm_alloc_page.
  destruct (zone_alloc_page ZONE_NORMAL s) as [a1 s1] eqn:H1.
  destruct (zone_alloc_page_spec ZONE_NORMAL s a1 s1 Hwf H1) as [[-> ->] | [Hne Hal]]; simpl.
  - intros H2. exact (zone_alloc_page_spec ZONE_DMA s addr s' Hwf H2).
  - destruct (Z.eqb_spec a1 0); [done |]. intros [= <- <-]. by right.
Qed.

Lemma pmm_alloc_pages_spec n s addr s' :
  wf s → 0 <= n < 2 ^ 64 → pmm_alloc_pages n s = (addr, s') →
  (addr = 0 ∧ s' = s) ∨ (addr ≠ 0 ∧ 0 < n ∧ ∃ first, allocated s s' addr first n).
Proof.
  intros Hwf Hn. pose proof Hwf as [Hds Hde Hns Hne Htot Hpg Hdb Hnb].
  unfold pmm_alloc_pages.
  destruct (Z.eqb_spec n 0) as [-> | Hn0]; [intros [= <- <-]; by left |].
  destruct (Z.eqb_spec n 1) as [-> | Hn1].
  { intros H. destruct (pmm_alloc_page_spec s addr s' Hwf H) as [? | [? ?]];
      [by left | right; split; [done | split; [lia | done]]]. }
  unfold bitmap_find_contiguous. cbv zeta.
  set (z := zone_normal s). set (stop := end_pfn z - start_pfn z).
  set (r := find_contiguous_from (bitmap z) n 0 (Z.to_nat (stop - 0)) 0 0).
  destruct (Z.ltb_spec r 0) as [Hneg | Hpos]; [intros [= <- <-]; by left |].
  destruct (find_contiguous_from_spec (Z.to_nat (stop - 0)) (bitmap z) n 0 0 0
              ltac:(lia) ltac:(lia) ltac:(lia) ltac:(lia) ltac:(intros; lia) Hpos)
    as (Hr0 & Hr1 & Hfree).
  fold r in Hr0, Hr1, Hfree.
  assert (Hstop : r + n <= stop) by lia.
  assert (Hbits : stop <= 64 * Z.of_nat (length (bitmap z)) ∧
                  start_pfn z + stop = total_pages s ∧
                  start_pfn z = end_pfn (zone_dma s)).
  { subst stop z. lia. }
  destruct Hbits as (Hbits & Hend & Hstart).
  destruct (pfn_phys_roundtrip (start_pfn z + r) ltac:(lia)) as [Hphys _].
  intros [= <- <-]. right. rewrite Hphys.
  split; [unfold MEMORY_BASE; lia |]. split; [lia |].
  exists (start_pfn z + r).
  match goal with
  | |- allocated _ (set_free_pages _ (init_pages ?x _ _)) _ _ _ => set (s1 := x)
  end.
  destruct (init_pages_frame (Z.to_nat n) s1 (start_pfn z + r))
    as (Hfd & Hfn & Hft & Hff & Hfl).
  constructor.
  - done.
  - constructor; simpl; rewrite ?Hfd, ?Hfn, ?Hft, ?Hfl; simpl;
      rewrite ?set_run_length; auto.
  - simpl. by rewrite Hft.
  - simpl. by rewrite Hfd.
  - lia.
  - right. lia.
  - intros p Hp. unfold pfn_used. simpl. rewrite Hfd, Hfn. simpl.
    fold z. rewrite <- Hstart.
    destruct (Z.ltb_spec p (start_pfn z)) as [Hlt | Hge].
    + unfold in_run. destruct (Z.leb_spec (start_pfn z + r) p); [lia | done].
    + rewrite bitmap_test_set_run by lia. rewrite Z2Nat.id by lia. f_equal.
      unfold in_run.
      destruct (Z.leb_spec r (p - start_pfn z)), (Z.leb_spec (start_pfn z + r) p),
        (Z.ltb_spec (p - start_pfn z) (r + n)), (Z.ltb_spec p (start_pfn z + r + n));
        simpl; try done; lia.
  - intros p Hp. unfold pfn_used. fold z. rewrite <- Hstart.
    destruct (Z.ltb_spec p (start_pfn z)); [lia |]. apply Hfree. lia.
  - intros p Hp. unfold get_page at 1. simpl. fold (get_page (init_pages s1 (start_pfn z + r) (Z.to_nat n)) p).
    rewrite get_init_pages by (subst s1; simpl; lia).
    rewrite Z2Nat.id by lia. unfold in_run.
    destruct (Z.leb_spec (start_pfn z + r) p), (Z.ltb_spec p (start_pfn z + r + n));
      simpl; try done; lia.
Qed.

(** *** What releasing a freshly allocated run leaves behind *)

Lemma pmm_free_page_spec s p :
  wf s → 0 <= p < total_pages s → get_page s p = mkPage 0 1 →
  wf (pmm_free_page (MEMORY_BASE + p * 4096) s) ∧
  total_pages (pmm_free_page (MEMORY_BASE + p * 4096) s) = total_pages s ∧
  end_pfn (zone_dma (pmm_free_page (MEMORY_BASE + p * 4096) s)) = end_pfn (zone_dma s) ∧
  (∀ q, 0 <= q → pfn_used (pmm_free_page (MEMORY_BASE + p * 4096) s) q
                 = negb (p =? q) && pfn_used s q) ∧
  (∀ q, 0 <= q → q ≠ p → get_page (pmm_free_page (MEMORY_BASE + p * 4096) s) q = get_page s q).
Proof.
  intros Hwf Hp Hd. pose proof Hwf as [Hds Hde Hns Hne Htot Hpg Hdb Hnb].
  unfold pmm_free_page.
  assert (Hmax : MAX_PAGES = 262144) by reflexivity.
  destruct (Z.eqb_spec (MEMORY_BASE + p * 4096) 0); [unfold MEMORY_BASE in *; lia |].
  destruct (Z.ltb_spec (MEMORY_BASE + p * 4096) MEMORY_BASE); [lia |].
  destruct (pfn_phys_roundtrip p ltac:(lia)) as [_ ->].
  destruct (Z.leb_spec (total_pages s) p); [lia |].
  rewrite Hd. simpl flags. simpl refcount.
  change (negb (Z.land 0 PG_RESERVED =? 0)) with false. cbv iota.
  change (u32 (1 - 1)) with 0. change (0 <? 0) with false. cbv iota. simpl.
  destruct (Z.ltb_spec p (end_pfn (zone_dma s))) as [Hlt | Hge]; simpl.
  - split; [constructor; simpl; rewrite ?length_insert, ?bitmap_clear_length; auto |].
    split; [done |]. split; [done |]. split.
    + intros q Hq. unfold pfn_used. simpl.
      destruct (Z.ltb_spec q (end_pfn (zone_dma s))).
      * by rewrite bitmap_test_clear by lia.
      * destruct (Z.eqb_spec p q); [lia | done].
    + intros q Hq Hne'. unfold get_page. simpl.
      rewrite list_lookup_insert_ne by lia. done.
  - split; [constructor; simpl; rewrite ?length_insert, ?bitmap_clear_length; auto |].
    split; [done |]. split; [done |]. split.
    + intros q Hq. unfold pfn_used. simpl.
      destruct (Z.ltb_spec q (end_pfn (zone_dma s))).
      * destruct (Z.eqb_spec p q); [lia | done].
      * rewrite bitmap_test_clear by lia. f_equal.
        destruct (Z.eqb_spec (p - end_pfn (zone_dma s)) (q - end_pfn (zone_dma s))),
          (Z.eqb_spec p q); try done; lia.
    + intros q Hq Hne'. unfold get_page. simpl.
      rewrite list_lookup_insert_ne by lia. done.
Qed.

Lemma free_from_spec fuel : ∀ s p0 i,
  wf s → 0 <= p0 → 0 <= i → p0 + i + Z.of_nat fuel <= total_pages s →
  (∀ q, p0 + i <= q < p0 + i + Z.of_nat fuel → get_page s q = mkPage 0 1) →
  wf (free_from (MEMORY_BASE + p0 * 4096) i fuel s) ∧
  total_pages (free_from (MEMORY_BASE + p0 * 4096) i fuel s) = total_pages s ∧
  end_pfn (zone_dma (free_from (MEMORY_BASE + p0 * 4096) i fuel s)) = end_pfn (zone_dma s) ∧
  (∀ q, 0 <= q → pfn_used (free_from (MEMORY_BASE + p0 * 4096) i fuel s) q
                 = negb (in_run (p0 + i) (Z.of_nat fuel) q) && pfn_used s q) ∧
  (∀ q, 0 <= q → ¬ (p0 + i <= q < p0 + i + Z.of_nat fuel) →
        get_page (free_from (MEMORY_BASE + p0 * 4096) i fuel s) q = get_page s q).
Proof.
  induction fuel as [| fuel IH]; intros s p0 i Hwf Hp0 Hi Hend Hd; simpl free_from.
  - split; [done |]. split; [done |]. split; [done |]. split; [| done].
    intros q Hq. unfold in_run.
    destruct (Z.leb_spec (p0 + i) q), (Z.ltb_spec q (p0 + i + Z.of_nat 0)); simpl; try done; lia.
  - pose proof Hwf as [_ _ _ _ Htot _ _ _].
    assert (Hmax : MAX_PAGES = 262144) by reflexivity.
    change PAGE_SIZE with 4096.
    replace (u64 (MEMORY_BASE + p0 * 4096 + i * 4096)) with (MEMORY_BASE + (p0 + i) * 4096)
      by (rewrite u64_small; unfold MEMORY_BASE; lia).
    destruct (pmm_free_page_spec s (p0 + i) Hwf ltac:(lia) (Hd (p0 + i) ltac:(lia)))
      as (Hwf1 & Ht1 & He1 & Hu1 & Hg1).
    set (s1 := pmm_free_page (MEMORY_BASE + (p0 + i) * 4096) s) in *.
    destruct (IH s1 p0 (i + 1) Hwf1 Hp0 ltac:(lia) ltac:(lia)) as (Hwf2 & Ht2 & He2 & Hu2 & Hg2).
    { intros q Hq. rewrite Hg1 by lia. apply Hd. lia. }
    split; [done |]. split; [congruence |]. split; [congruence |]. split.
    + intros q Hq. rewrite Hu2, Hu1 by lia. unfold in_run.
      destruct (Z.leb_spec (p0 + (i + 1)) q), (Z.leb_spec (p0 + i) q),
        (Z.ltb_spec q (p0 + (i + 1) + Z.of_nat fuel)),
        (Z.ltb_spec q (p0 + i + Z.of_nat (S fuel))), (Z.eqb_spec (p0 + i) q);
        simpl; try done; lia.
    + intros q Hq Hout. rewrite Hg2, Hg1 by lia. done.
Qed.

Lemma pmm_free_pages_spec s p0 n :
  wf s → 0 <= p0 → 0 <= n → p0 + n <= total_pages s →
  (∀ q, p0 <= q < p0 + n → get_page s q = mkPage 0 1) →
  wf (pmm_free_pages (MEMORY_BASE + p0 * 4096) n s) ∧
  total_pages (pmm_free_pages (MEMORY_BASE + p0 * 4096) n s) = total_pages s ∧
  end_pfn (zone_dma (pmm_free_pages (MEMORY_BASE + p0 * 4096) n s)) = end_pfn (zone_dma s) ∧
  (∀ q, 0 <= q → pfn_used (pmm_free_pages (MEMORY_BASE + p0 * 4096) n s) q
                 = negb (in_run p0 n q) && pfn_used s q) ∧
  (∀ q, 0 <= q → ¬ (p0 <= q < p0 + n) →
        get_page (pmm_free_pages (MEMORY_BASE + p0 * 4096) n s) q = get_page s q).
Proof.
  intros Hwf Hp0 Hn Hend Hd. unfold pmm_free_pages.
  destruct (free_from_spec (Z.to_nat n) s p0 0 Hwf Hp0 ltac:(lia) ltac:(lia))
    as (H1 & H2 & H3 & H4 & H5).
  { intros q Hq. apply Hd. lia. }
  split; [done |]. split; [done |]. split; [done |]. split.
  - intros q Hq. rewrite H4 by done. rewrite Z2Nat.id, Z.add_0_r by lia. done.
  - intros q Hq Hout. apply H5; [done | lia].
Qed.

(** *** Rounding an address up to a power of two *)

Lemma align_up_spec x k :
  0 <= k < 64 → 0 <= x → x + 2 ^ k - 1 < 2 ^ 64 →
  Z.land (u64 (x + 2 ^ k - 1)) (u64 (Z.lnot (u64 (2 ^ k - 1))))
  = (x + 2 ^ k - 1) / 2 ^ k * 2 ^ k.
Proof.
  intros Hk Hx Hlt.
  assert (Hpow : 0 < 2 ^ k < 2 ^ 64)
    by (split; [apply Z.pow_pos_nonneg; lia | apply Z.pow_lt_mono_r; lia]).
  rewrite (u64_small (x + 2 ^ k - 1)), (u64_small (2 ^ k - 1)) by lia.
  set (y := x + 2 ^ k - 1) in *.
  rewrite <- Z.shiftl_mul_pow2, <- Z.shiftr_div_pow2 by lia.
  replace (2 ^ k - 1) with (Z.ones k) by (rewrite Z.ones_equiv; lia).
  apply Z.bits_inj'. intros n Hn.
  rewrite Z.land_spec. unfold u64.
  destruct (Z_lt_ge_dec n 64) as [Hn64 | Hn64].
  - rewrite Z.mod_pow2_bits_low, Z.lnot_spec by lia.
    destruct (Z_lt_ge_dec n k) as [Hnk | Hnk].
    + rewrite Z.ones_spec_low, Z.shiftl_spec_low by lia. apply andb_false_r.
    + rewrite Z.ones_spec_high, Z.shiftl_spec, Z.shiftr_spec by lia.
      simpl. rewrite andb_true_r. f_equal. lia.
  - rewrite Z.mod_pow2_bits_high by lia. rewrite andb_false_r.
    rewrite Z.shiftl_spec, Z.shiftr_spec by lia.
    replace (n - k + k) with n by lia. symmetry.
    apply (Z.bits_above_log2 y n); [lia |].
    destruct (Z.eq_dec y 0) as [-> |]; [simpl; lia |].
    apply Z.log2_lt_pow2; [lia |].
    apply Z.lt_le_trans with (2 ^ 64); [lia | apply Z.pow_le_mono_r; lia].
Qed.

Lemma free_pages_zero pg s : pmm_free_pages pg 0 s = s.
Proof. reflexivity. Qed.

Lemma pow2_pages k :
  12 <= k < 64 →
  2 ^ k = 2 ^ (k - 12) * 4096 ∧ 1 <= 2 ^ (k - 12) <= 2 ^ 51 ∧
  (13 <= k → 2 <= 2 ^ (k - 12)).
Proof.
  intros Hk. split; [| split].
  - replace k with (k - 12 + 12) at 1 by lia. rewrite Z.pow_add_r by lia. reflexivity.
  - split.
    + pose proof (Z.pow_pos_nonneg 2 (k - 12) ltac:(lia) ltac:(lia)). lia.
    + apply Z.pow_le_mono_r; lia.
  - intros H13. change 2 with (2 ^ 1) at 1. apply Z.pow_le_mono_r; lia.
Qed.

(** C8, as the code has it. For a size whose rounding to pages does not
    wrap ([size <= 2^64 - 4096]) and an alignment [2^k] of at least the
    page size, a successful call returns an address that is a multiple
    of the alignment; the frames that are marked used afterwards are
    those marked before plus exactly the [ceil(size / 4096)] frames from
    the returned address, which were free before (so the over-allocated
    head and tail are free again); and that run lies inside one zone. *)
Theorem pmm_alloc_aligned_ok (s : pmm) (size k addr : Z) (s' : pmm) :
  wf s → 12 <= k < 64 → 0 <= size <= 2 ^ 64 - PAGE_SIZE →
  pmm_alloc_aligned size (2 ^ k) s = (addr, s') → addr ≠ 0 →
  addr mod 2 ^ k = 0 ∧
  ∃ first,
    addr = MEMORY_BASE + first * PAGE_SIZE ∧
    (∀ p, 0 <= p →
       pfn_used s' p = in_run first ((size + PAGE_SIZE - 1) / PAGE_SIZE) p || pfn_used s p) ∧
    (∀ p, first <= p < first + (size + PAGE_SIZE - 1) / PAGE_SIZE → pfn_used s p = false) ∧
    0 <= first ∧ first + (size + PAGE_SIZE - 1) / PAGE_SIZE <= total_pages s ∧
    (first + (size + PAGE_SIZE - 1) / PAGE_SIZE <= end_pfn (zone_dma s) ∨
     end_pfn (zone_dma s) <= first).
Proof.
  change PAGE_SIZE with 4096. intros Hwf Hk Hsize Hcall Hnz.
  destruct (pow2_pages k Hk) as (HA & Hap & Hap2).
  set (ap := 2 ^ (k - 12)) in *.
  unfold pmm_alloc_aligned in Hcall. change PAGE_SIZE with 4096 in Hcall.
  rewrite (u64_small (size + 4096 - 1)) in Hcall by lia.
  rewrite (u64_small (2 ^ k + 4096 - 1)) in Hcall by lia.
  replace (size + 4096 - 1) with (size + 4095) in * by lia.
  set (pages := (size + 4095) / 4096) in *.
  assert (Hpages : 0 <= pages <= 2 ^ 52).
  { subst pages. split; [apply Z.div_pos; lia |].
    apply Z.div_le_upper_bound; lia. }
  assert (Hapd : (2 ^ k + 4096 - 1) / 4096 = ap).
  { symmetry. apply (Z.div_unique_pos _ _ _ 4095); lia. }
  rewrite Hapd in Hcall.
  destruct (Z.leb_spec ap 1) as [Hle | Hgt].
  - (* the alignment is the page size *)
    assert (k = 12) as -> by lia.
    destruct (pmm_alloc_pages_spec pages s addr s' Hwf ltac:(lia) Hcall)
      as [[-> _] | (_ & Hpos & first & Hal)]; [done |].
    destruct Hal as [Ha _ _ _ Hr Hz Hu Hf _].
    split.
    + rewrite Ha. change (2 ^ 12) with 4096. unfold MEMORY_BASE.
      rewrite Z.mod_add by lia. reflexivity.
    + exists first. repeat split; auto; try lia. all: apply Hr.
  - (* over-allocate, then trim *)
    rewrite (u64_small (pages + ap - 1)) in Hcall by lia.
    set (total := pages + ap - 1) in *.
    destruct (pmm_alloc_pages total s) as [mem s0] eqn:Halloc. simpl in Hcall.
    destruct (pmm_alloc_pages_spec total s mem s0 Hwf ltac:(lia) Halloc)
      as [[-> ->] | (Hmem & Hpos & first0 & Hal)].
    { simpl in Hcall. injection Hcall as <- _. done. }
    destruct (Z.eqb_spec mem 0) as [| _]; [done |].
    destruct Hal as [Ha Hwf0 Ht0 He0 Hr0 Hz0 Hu0 Hf0 Hd0].
    pose proof Hwf as [_ _ _ _ Htot _ _ _].
    assert (Hmax : MAX_PAGES = 262144) by reflexivity.
    assert (Hbase : MEMORY_BASE = 262144 * 4096) by reflexivity.
    rewrite (u64_small (2 ^ k - 1)) in Hcall by lia.
    replace (u64 (Z.lnot (2 ^ k - 1))) with (u64 (Z.lnot (u64 (2 ^ k - 1)))) in Hcall
      by (rewrite (u64_small (2 ^ k - 1)) by lia; done).
    rewrite align_up_spec in Hcall by lia.
    set (q := (mem + 2 ^ k - 1) / 2 ^ k) in *.
    pose proof (Z.mul_div_le (mem + 2 ^ k - 1) (2 ^ k) ltac:(lia)) as Hq1.
    pose proof (Z.mul_succ_div_gt (mem + 2 ^ k - 1) (2 ^ k) ltac:(lia)) as Hq2.
    fold q in Hq1, Hq2.
    assert (Hal : q * 2 ^ k = q * ap * 4096) by (rewrite HA; ring).
    rewrite Hal in Hcall.
    set (X := q * ap) in *.
    assert (HX : first0 + 262144 <= X <= first0 + 262144 + ap - 1) by nia.
    set (skip := X - 262144 - first0).
    assert (Hskip : u64 (X * 4096 - mem) / 4096 = skip).
    { rewrite u64_small by lia. replace (X * 4096 - mem) with (skip * 4096) by (subst skip; lia).
      apply Z.div_mul. lia. }
    rewrite Hskip in Hcall.
    assert (Hunused : u64 (total - skip - pages) = ap - 1 - skip)
      by (rewrite u64_small; subst total skip; lia).
    rewrite Hunused in Hcall.
    assert (Htail : u64 (X * 4096 + pages * 4096)
                    = MEMORY_BASE + (first0 + skip + pages) * 4096)
      by (rewrite u64_small; subst skip; lia).
    rewrite Htail in Hcall.
    assert (Hs1 : (if 0 <? skip then pmm_free_pages mem skip s0 else s0)
                  = pmm_free_pages mem skip s0).
    { destruct (Z.ltb_spec 0 skip); [done |]. assert (skip = 0) as -> by (subst skip; lia). done. }
    rewrite Hs1 in Hcall. clear Hs1. rewrite Ha in Hcall.
    destruct (pmm_free_pages_spec s0 first0 skip Hwf0 ltac:(lia) ltac:(subst skip; lia))
      as (Hwf1 & Ht1 & He1 & Hu1 & Hg1).
    { subst skip total. lia. }
    { intros p Hp. apply Hd0. subst skip total. lia. }
    set (s1 := pmm_free_pages (MEMORY_BASE + first0 * 4096) skip s0) in *.
    assert (Hs2 : (if 0 <? ap - 1 - skip
                   then pmm_free_pages (MEMORY_BASE + (first0 + skip + pages) * 4096)
                          (ap - 1 - skip) s1
                   else s1)
                  = pmm_free_pages (MEMORY_BASE + (first0 + skip + pages) * 4096)
                      (ap - 1 - skip) s1).
    { destruct (Z.ltb_spec 0 (ap - 1 - skip)); [done |].
      assert (ap - 1 - skip = 0) as -> by (subst skip; lia). done. }
    rewrite Hs2 in Hcall. clear Hs2.
    destruct (pmm_free_pages_spec s1 (first0 + skip + pages) (ap - 1 - skip) Hwf1
                ltac:(subst skip; lia) ltac:(subst skip; lia))
      as (Hwf2 & Ht2 & He2 & Hu2 & Hg2).
    { subst skip total. lia. }
    { intros p Hp. rewrite Hg1 by (subst skip; lia). apply Hd0. subst skip total. lia. }
    injection Hcall as <- <-. split.
    + rewrite <- Hal. apply Z.mod_mul. lia.
    + exists (first0 + skip). split; [subst skip; lia |]. split; [| split].
      * intros p Hp. rewrite Hu2, Hu1, Hu0 by done.
        destruct (pfn_used s p) eqn:Hused.
        -- assert (Hout : in_run first0 total p = false).
           { unfold in_run. destruct (Z.leb_spec first0 p), (Z.ltb_spec p (first0 + total));
               simpl; try done. rewrite Hf0 in Hused by lia. done. }
           unfold in_run in *.
           destruct (Z.leb_spec first0 p), (Z.ltb_spec p (first0 + total)),
             (Z.leb_spec (first0 + skip + pages) p),
             (Z.ltb_spec p (first0 + skip + pages + (ap - 1 - skip))),
             (Z.ltb_spec p (first0 + skip)), (Z.leb_spec (first0 + skip) p),
             (Z.ltb_spec p (first0 + skip + pages));
             simpl in *; try done; subst total skip; lia.
        -- unfold in_run.
           destruct (Z.leb_spec first0 p), (Z.ltb_spec p (first0 + total)),
             (Z.leb_spec (first0 + skip + pages) p),
             (Z.ltb_spec p (first0 + skip + pages + (ap - 1 - skip))),
             (Z.ltb_spec p (first0 + skip)), (Z.leb_spec (first0 + skip) p),
             (Z.ltb_spec p (first0 + skip + pages));
             simpl; try done; subst total skip; lia.
      * intros p Hp. apply Hf0. subst total skip. lia.
      * subst total skip. destruct Hz0 as [Hz0 | Hz0]; repeat split; lia.
Qed.

(** *** A small machine: 64 DMA frames, 128 normal frames, the first
    three normal frames reserved for the kernel image *)

Definition pmm_demo : pmm :=
  mkPmm (replicate 64 (mkPage 0 0) ++ replicate 3 (mkPage 3 1) ++ replicate 125 (mkPage 0 0))
        (mkZone 0 64 64 [0])
        (mkZone 64 192 125 [7; 0])
        192 189 [].

Lemma pmm_demo_wf : wf pmm_demo.
Proof.
  constructor; vm_compute; try reflexivity; try discriminate; split; discriminate.
Qed.

Lemma pmm_alloc_aligned_ok_witness :
  (pmm_alloc_aligned 8192 (2 ^ 14) pmm_demo).1 mod 2 ^ 14 = 0 ∧
  ∃ first,
    (pmm_alloc_aligned 8192 (2 ^ 14) pmm_demo).1 = MEMORY_BASE + first * PAGE_SIZE ∧
    (∀ p, 0 <= p →
       pfn_used (pmm_alloc_aligned 8192 (2 ^ 14) pmm_demo).2 p
       = in_run first ((8192 + PAGE_SIZE - 1) / PAGE_SIZE) p || pfn_used pmm_demo p) ∧
    (∀ p, first <= p < first + (8192 + PAGE_SIZE - 1) / PAGE_SIZE →
       pfn_used pmm_demo p = false) ∧
    0 <= first ∧ first + (8192 + PAGE_SIZE - 1) / PAGE_SIZE <= total_pages pmm_demo ∧
    (first + (8192 + PAGE_SIZE - 1) / PAGE_SIZE <= end_pfn (zone_dma pmm_demo) ∨
     end_pfn (zone_dma pmm_demo) <= first).
Proof.
  apply (pmm_alloc_aligned_ok pmm_demo 8192 14 _ _ pmm_demo_wf).
  - lia.
  - vm_compute. split; discriminate.
  - apply surjective_pairing.
  - vm_compute. discriminate.
Defined.

(** C8 as stated fails for a size within 4095 bytes of [2^64]: the
    rounding [size + PAGE_SIZE - 1] wraps, the call over-allocates for
    zero pages, succeeds with an aligned address, and holds no frame at
    all, although [ceil(size / 4096)] is [2^52]. *)
Lemma pmm_alloc_aligned_wraps :
  (pmm_alloc_aligned (2 ^ 64 - 1) (2 ^ 13) pmm_demo).1 = 0x40044000 ∧
  0x40044000 mod 2 ^ 13 = 0 ∧
  forallb (λ p, Bool.eqb (pfn_used (pmm_alloc_aligned (2 ^ 64 - 1) (2 ^ 13) pmm_demo).2 p)
                         (pfn_used pmm_demo p))
          (seqZ 0 192) = true ∧
  pfn_used (pmm_alloc_aligned (2 ^ 64 - 1) (2 ^ 13) pmm_demo).2 68 = false ∧
  (2 ^ 64 - 1 + PAGE_SIZE - 1) / PAGE_SIZE = 2 ^ 52.
Proof. vm_compute. repeat split; reflexivity. Qed.

End Pmm.

(** ** The kernel heap (kmalloc.c) *)

Module Kmalloc.

Definition HEAP_SIZE : Z := 8 * 1024 * 1024.
Definition BLOCK_MAGIC : Z := 0xDEADBEEF.
Definition FREED_MAGIC : Z := 0xFEEEFEEE.
(** [sizeof(struct block_header)]: 20 bytes of fields, aligned to 16. *)
Definition HEADER_SIZE : Z := 32.

Record block_header := mkHeader {
  magic : Z;
  size : Z;
  next : Z;
  reserved : Z
}.

(** Messages of [pr_err] and [pr_info]. *)
Inductive kmsg :=
  | Init_failed
  | Init_ok (base : Z)
  | Out_of_memory
  | Invalid_block (ptr magic : Z).

(** The file-scope state of kmalloc.c, the block headers inside the heap
    by address, and the page allocator underneath. *)
Record kheap := mkHeap {
  headers : gmap Z block_header;
  heap_base : Z;
  heap_end : Z;
  heap_ptr : Z;
  free_list : Z;
  heap_initialized : bool;
  klog : list kmsg;
  frames : Pmm.pmm
}.

Definition kmalloc_init (h : kheap) : kheap :=
  if heap_initialized h then h
  else
    let pages := u32 ((HEAP_SIZE + 4095) / 4096) in
    let r := Pmm.pmm_alloc_pages pages (frames h) in
    if r.1 =? 0 then
      mkHeap (headers h) r.1 (heap_end h) (heap_ptr h) (free_list h) false
             (Init_failed :: klog h) r.2
    else
      mkHeap (headers h) r.1 (u64 (r.1 + HEAP_SIZE)) r.1 0 true
             (Init_ok r.1 :: klog h) r.2.

(** The walk over the free list through the link pointer [pp]: [prev]
    is the block whose [next] field [pp] points into ([0] when [pp] is
    the address of [free_list]), [cur] is the block [pp] points to. The
    result is the block taken and the heap with it unlinked and
    re-armed; the inner [None] says that no block fits, the outer
    [None] is a fault or a list that never ends. *)
Fixpoint take_first_fit (fuel : nat) (total : Z) (prev cur : Z) (h : kheap)
    : option (option (Z * kheap)) :=
  if cur =? 0 then Some None
  else
    match fuel with
    | O => None
    | S fuel' =>
        b ← headers h !! cur;
        if total <=? size b then
          let unlinked :=
            if prev =? 0 then Some (headers h, next b)
            else pb ← headers h !! prev;
                 Some (<[prev := mkHeader (magic pb) (size pb) (next b) (reserved pb)]>
                         (headers h), free_list h) in
          u ← unlinked;
          bh ← u.1 !! cur;
          Some (Some (cur,
                      mkHeap (<[cur := mkHeader BLOCK_MAGIC (size bh) 0 (reserved bh)]> u.1)
                             (heap_base h) (heap_end h) (heap_ptr h) u.2
                             (heap_initialized h) (klog h) (frames h)))
        else take_first_fit fuel' total cur (next b) h
    end.

(** [kmalloc(size)]: the pointer returned ([0] is [NULL]) and the heap
    after the call. The out-of-memory test compares [heap_ptr + total],
    an addition of pointers that wraps at [2^64], with [heap_end]. *)
Definition kmalloc (sz : Z) (h : kheap) : option (Z * kheap) :=
  let h := kmalloc_init h in
  if sz =? 0 then Some (0, h)
  else
    let sz := Z.land (u64 (sz + 15)) (u64 (Z.lnot 15)) in
    let total := u64 (sz + HEADER_SIZE) in
    fit ← take_first_fit (S (base.size (headers h))) total 0 (free_list h) h;
    match fit with
    | Some (block, h') => Some (u64 (block + HEADER_SIZE), h')
    | None =>
        if heap_end h <? u64 (heap_ptr h + total) then
          Some (0, mkHeap (headers h) (heap_base h) (heap_end h) (heap_ptr h)
                          (free_list h) (heap_initialized h)
                          (Out_of_memory :: klog h) (frames h))
        else
          let block := heap_ptr h in
          Some (u64 (block + HEADER_SIZE),
                mkHeap (<[block := mkHeader BLOCK_MAGIC (u32 total) 0
                                     (default 0 (reserved <$> headers h !! block))]>
                          (headers h))
                       (heap_base h) (heap_end h) (u64 (heap_ptr h + total))
                       (free_list h) (heap_initialized h) (klog h) (frames h))
    end.

Definition log_msg (m : kmsg) (h : kheap) : kheap :=
  mkHeap (headers h) (heap_base h) (heap_end h) (heap_ptr h) (free_list h)
         (heap_initialized h) (m :: klog h) (frames h).

(** [kfree(ptr)]; [None] when the header in front of [ptr] is not heap
    memory. *)
Definition kfree (ptr : Z) (h : kheap) : option kheap :=
  if ptr =? 0 then Some h
  else
    let block := u64 (ptr - HEADER_SIZE) in
    b ← headers h !! block;
    if negb (magic b =? BLOCK_MAGIC) then Some (log_msg (Invalid_block ptr (magic b)) h)
    else
      Some (mkHeap (<[block := mkHeader FREED_MAGIC (size b) (free_list h) (reserved b)]>
                      (headers h))
                   (heap_base h) (heap_end h) (heap_ptr h) block
                   (heap_initialized h) (klog h) (frames h)).

(** A heap with two live blocks at the start of its region, over the
    small machine of [Pmm.pmm_demo]. *)
Definition heap_demo : kheap :=
  mkHeap (<[0x40100000 := mkHeader BLOCK_MAGIC 48 0 0]>
            (<[0x40100030 := mkHeader BLOCK_MAGIC 64 0 0]> ∅))
         0x40100000 0x40900000 0x40100070 0 true [] Pmm.pmm_demo.

(** C10. Freeing a live heap pointer twice: the first [kfree(p)]
    overwrites the magic word of the block in front of [p], puts the
    block at the head of the free list and logs nothing; the second
    [kfree(p)] fails the magic check, adds the error message
    [Invalid_block p 0xFEEEFEEE] to the log and leaves every other part
    of the heap as the first call left it, free list and block headers
    included. *)
Theorem kfree_twice (p : Z) (h : kheap) (b : block_header) :
  p ≠ 0 →
  headers h !! u64 (p - HEADER_SIZE) = Some b →
  magic b = BLOCK_MAGIC →
  ∃ h1 h2,
    kfree p h = Some h1 ∧
    headers h1 !! u64 (p - HEADER_SIZE)
      = Some (mkHeader FREED_MAGIC (size b) (free_list h) (reserved b)) ∧
    free_list h1 = u64 (p - HEADER_SIZE) ∧
    klog h1 = klog h ∧
    kfree p h1 = Some h2 ∧
    klog h2 = Invalid_block p FREED_MAGIC :: klog h1 ∧
    free_list h2 = free_list h1 ∧
    headers h2 = headers h1 ∧
    heap_base h2 = heap_base h1 ∧
    heap_end h2 = heap_end h1 ∧
    heap_ptr h2 = heap_ptr h1 ∧
    heap_initialized h2 = heap_initialized h1 ∧
    frames h2 = frames h1.
Proof.
  intros Hp Hb Hm. unfold kfree.
  destruct (Z.eqb_spec p 0) as [| _]; [done |].
  rewrite Hb. simpl. rewrite Hm. rewrite Z.eqb_refl. simpl.
  eexists. eexists. split; [reflexivity |]. simpl.
  rewrite lookup_insert_eq. simpl.
  split; [reflexivity |]. split; [reflexivity |]. split; [reflexivity |].
  split; [reflexivity |]. simpl.
  split; [reflexivity |]. split; [reflexivity |]. split; [reflexivity |].
  split; [reflexivity |]. split; [reflexivity |]. split; [reflexivity |].
  split; reflexivity.
Qed.

Lemma kfree_twice_witness :
  ∃ h1 h2,
    kfree 0x40100020 heap_demo = Some h1 ∧
    headers h1 !! u64 (0x40100020 - HEADER_SIZE)
      = Some (mkHeader FREED_MAGIC 48 (free_list heap_demo) 0) ∧
    free_list h1 = u64 (0x40100020 - HEADER_SIZE) ∧
    klog h1 = klog heap_demo ∧
    kfree 0x40100020 h1 = Some h2 ∧
    klog h2 = Invalid_block 0x40100020 FREED_MAGIC :: klog h1 ∧
    free_list h2 = free_list h1 ∧
    headers h2 = headers h1 ∧
    heap_base h2 = heap_base h1 ∧
    heap_end h2 = heap_end h1 ∧
    heap_ptr h2 = heap_ptr h1 ∧
    heap_initialized h2 = heap_initialized h1 ∧
    frames h2 = frames h1.
Proof.
  apply (kfree_twice 0x40100020 heap_demo (mkHeader BLOCK_MAGIC 48 0 0)).
  - lia.
  - reflexivity.
  - reflexivity.
Defined.

End Kmalloc.

(** ** Page-table entries: vmm.h, vmm.c and the mappings of elf.c *)

Module Vmm.

Definition PTE_VALID : Z := Z.shiftl 1 0.
Definition PTE_TABLE : Z := Z.shiftl 1 1.
Definition PTE_PAGE : Z := Z.shiftl 1 1.
Definition PTE_ATTR_NORMAL : Z := 0.
Definition PTE_ATTR_DEVICE : Z := 1.
Definition PTE_ATTR_INDX (x : Z) : Z := Z.shiftl x 2.
Definition PTE_RW : Z := Z.shiftl 0 6.
Definition PTE_RO : Z := Z.shiftl 2 6.
Definition PTE_USER : Z := Z.shiftl 1 6.
Definition PTE_AP_EL1_RW : Z := Z.shiftl 0 6.
Definition PTE_AP_EL1_RO : Z := Z.shiftl 2 6.
Definition PTE_AP_EL0_RW : Z := Z.shiftl 1 6.
Definition PTE_AP_EL0_RO : Z := Z.shiftl 3 6.
Definition PTE_INNER_SHARE : Z := Z.shiftl 3 8.
Definition PTE_AF : Z := Z.shiftl 1 10.
Definition PTE_UXN : Z := Z.shiftl 1 54.
Definition PTE_PXN : Z := Z.shiftl 1 53.

Definition lor_all (l : list Z) : Z := foldr Z.lor 0 l.

Definition PAGE_KERNEL : Z :=
  lor_all [PTE_VALID; PTE_PAGE; PTE_ATTR_INDX PTE_ATTR_NORMAL; PTE_INNER_SHARE;
           PTE_AF; PTE_AP_EL1_RW; PTE_UXN].
Definition PAGE_KERNEL_RO : Z :=
  lor_all [PTE_VALID; PTE_PAGE; PTE_ATTR_INDX PTE_ATTR_NORMAL; PTE_INNER_SHARE;
           PTE_AF; PTE_AP_EL1_RO; PTE_UXN].
Definition PAGE_KERNEL_EXEC : Z :=
  lor_all [PTE_VALID; PTE_PAGE; PTE_ATTR_INDX PTE_ATTR_NORMAL; PTE_INNER_SHARE;
           PTE_AF; PTE_AP_EL1_RW].
Definition PAGE_DEVICE : Z :=
  lor_all [PTE_VALID; PTE_PAGE; PTE_ATTR_INDX PTE_ATTR_DEVICE; PTE_INNER_SHARE;
           PTE_AF; PTE_AP_EL1_RW; PTE_UXN; PTE_PXN].
Definition PAGE_USER : Z :=
  lor_all [PTE_VALID; PTE_PAGE; PTE_ATTR_INDX PTE_ATTR_NORMAL; PTE_INNER_SHARE;
           PTE_AF; PTE_AP_EL0_RW; PTE_PXN].

(** The template of an intermediate-table entry in [get_next_table]. *)
Definition TABLE_ENTRY : Z :=
  lor_all [PTE_TABLE; PTE_VALID; PTE_AF; PTE_INNER_SHARE; PTE_RW; PTE_AP_EL1_RW;
           PTE_UXN; PTE_PXN].

Definition PGD_INDEX (x : Z) : Z := Z.land (Z.shiftr x 39) 0x1FF.
Definition PUD_INDEX (x : Z) : Z := Z.land (Z.shiftr x 30) 0x1FF.
Definition PMD_INDEX (x : Z) : Z := Z.land (Z.shiftr x 21) 0x1FF.
Definition PT_INDEX (x : Z) : Z := Z.land (Z.shiftr x 12) 0x1FF.

(** How the hardware reads a leaf: bit 0 valid, AP[2] (bit 7) clear
    means writable at EL1, bit 54 forbids execution at EL0. *)
Definition pte_valid (e : Z) : bool := Z.testbit e 0.
Definition el1_writable (e : Z) : bool := negb (Z.testbit e 7).
Definition uxn (e : Z) : bool := Z.testbit e 54.

(** Physical memory as 64-bit words by address (absent words read as
    zero), with the page allocator that hands out table frames. *)
Record vm := mkVm {
  words : gmap Z Z;
  frames : Pmm.pmm
}.

Definition read64 (m : gmap Z Z) (a : Z) : Z := default 0 (m !! a).

(** The [memset(addr, 0, PAGE_SIZE)] of [zone_alloc_page]. *)
Definition zero_page (page : Z) (m : gmap Z Z) : gmap Z Z :=
  foldr (λ i acc, <[page + 8 * i := 0]> acc) m (seqZ 0 512).

Definition get_next_table (table index : Z) (alloc : bool) (st : vm) : Z * vm :=
  let e := read64 (words st) (table + 8 * index) in
  if negb (Z.land e PTE_VALID =? 0) then (Z.land e 0x0000FFFFFFFFF000, st)
  else if negb alloc then (0, st)
  else
    let r := Pmm.pmm_alloc_page (frames st) in
    if r.1 =? 0 then (0, mkVm (words st) r.2)
    else
      (r.1, mkVm (<[table + 8 * index := Z.lor r.1 TABLE_ENTRY]> (zero_page r.1 (words st)))
                 r.2).

(** [vmm_map_page]: the return value ([0] or [-1]), the slot of the leaf
    it wrote (when it got that far) and the memory after the call. *)
Definition vmm_map_page (pgd virt phys flags : Z) (st : vm) : Z * option Z * vm :=
  let r1 := get_next_table pgd (PGD_INDEX virt) true st in
  if r1.1 =? 0 then (-1, None, r1.2)
  else
    let r2 := get_next_table r1.1 (PUD_INDEX virt) true r1.2 in
    if r2.1 =? 0 then (-1, None, r2.2)
    else
      let r3 := get_next_table r2.1 (PMD_INDEX virt) true r2.2 in
      if r3.1 =? 0 then (-1, None, r3.2)
      else
        let slot := r3.1 + 8 * PT_INDEX virt in
        (0, Some slot,
         mkVm (<[slot := Z.lor phys flags]> (words r3.2)) (frames r3.2)).

Section Loader.

(** The segment permission bits of elf.h (not among the sources). *)
Variables PF_X PF_W : Z.

(** elf.c lines 47-57: the leaf flags of a [PT_LOAD] segment. *)
Definition segment_flags (p_flags : Z) : Z :=
  let flags := lor_all [PTE_VALID; PTE_AF; PTE_INNER_SHARE; PAGE_USER] in
  let flags :=
    if negb (Z.land p_flags PF_W =? 0) then Z.lor flags PTE_RW
    else Z.lor flags PTE_RO in
  if Z.land p_flags PF_X =? 0 then Z.lor flags PTE_UXN else flags.

(** elf.c lines 68-81: one page of a segment. *)
Definition map_segment_page (pgd vaddr p_flags : Z) (st : vm) : Z * option Z * vm :=
  let r := Pmm.pmm_alloc_page (frames st) in
  if r.1 =? 0 then (-1, None, mkVm (words st) r.2)
  else
    let m := vmm_map_page pgd vaddr r.1 (segment_flags p_flags)
                          (mkVm (zero_page r.1 (words st)) r.2) in
    if m.1.1 =? 0 then m
    else (-1, None, mkVm (words m.2) (Pmm.pmm_free_page r.1 (frames m.2))).

(** elf.c lines 123-133: one page of the user stack. *)
Definition map_stack_page (pgd vaddr : Z) (st : vm) : Z * option Z * vm :=
  let r := Pmm.pmm_alloc_page (frames st) in
  if r.1 =? 0 then (-1, None, mkVm (words st) r.2)
  else
    let m := vmm_map_page pgd vaddr r.1 PAGE_USER
                          (mkVm (zero_page r.1 (words st)) r.2) in
    if m.1.1 =? 0 then m
    else (-1, None, mkVm (words m.2) (Pmm.pmm_free_page r.1 (frames m.2))).

End Loader.

(** vmm.c lines 138-146: one page of the initial kernel map, RAM or
    device. *)
Definition map_kernel_page (kernel_pgd addr : Z) (st : vm) : Z * option Z * vm :=
  vmm_map_page kernel_pgd addr addr PAGE_KERNEL st.

Definition map_device_page (kernel_pgd addr : Z) (st : vm) : Z * option Z * vm :=
  vmm_map_page kernel_pgd addr addr PAGE_DEVICE st.

(** *** The leaf a successful [vmm_map_page] writes *)

Lemma vmm_map_page_leaf pgd virt phys flags st :
  (vmm_map_page pgd virt phys flags st).1.1 = 0 →
  ∃ slot, (vmm_map_page pgd virt phys flags st).1.2 = Some slot ∧
          read64 (words (vmm_map_page pgd virt phys flags st).2) slot = Z.lor phys flags.
Proof.
  unfold vmm_map_page.
  destruct (get_next_table pgd (PGD_INDEX virt) true st) as [t1 st1]. simpl.
  destruct (t1 =? 0); simpl; [done |].
  destruct (get_next_table t1 (PUD_INDEX virt) true st1) as [t2 st2]. simpl.
  destruct (t2 =? 0); simpl; [done |].
  destruct (get_next_table t2 (PMD_INDEX virt) true st2) as [t3 st3]. simpl.
  destruct (t3 =? 0); simpl; [done |].
  intros _. eexists. split; [reflexivity |].
  unfold read64. by rewrite lookup_insert_eq.
Qed.

(** A frame address has no bit below 12 and none from 48 up, so the
    permission bits of a leaf are those of the flags. *)
Lemma frame_bits phys n :
  0 <= phys < 2 ^ 48 → phys mod 4096 = 0 → 0 <= n < 12 ∨ 48 <= n →
  Z.testbit phys n = false.
Proof.
  intros Hr Hal [Hn | Hn].
  - rewrite <- (Z.mod_pow2_bits_low phys 12 n) by lia.
    change (2 ^ 12) with 4096. rewrite Hal. apply Z.bits_0.
  - destruct (Z.eq_dec phys 0) as [-> |]; [apply Z.bits_0 |].
    apply Z.bits_above_log2; [lia |].
    apply Z.lt_le_trans with 48; [apply Z.log2_lt_pow2; lia | lia].
Qed.

Lemma leaf_bit phys flags n :
  0 <= phys < 2 ^ 48 → phys mod 4096 = 0 → 0 <= n < 12 ∨ 48 <= n →
  Z.testbit (Z.lor phys flags) n = Z.testbit flags n.
Proof. intros. rewrite Z.lor_spec, frame_bits by done. reflexivity. Qed.

Lemma segment_flags_bits PF_X PF_W p_flags :
  Z.testbit (segment_flags PF_X PF_W p_flags) 0 = true ∧
  Z.testbit (segment_flags PF_X PF_W p_flags) 7 = (Z.land p_flags PF_W =? 0) ∧
  Z.testbit (segment_flags PF_X PF_W p_flags) 54 = (Z.land p_flags PF_X =? 0).
Proof.
  unfold segment_flags.
  destruct (Z.land p_flags PF_W =? 0), (Z.land p_flags PF_X =? 0); simpl negb; cbv iota;
    repeat split; reflexivity.
Qed.

(** The leaf entry a call of one of the mapping functions installed:
    the word in the slot it reports. *)
Definition installed_leaf (r : Z * option Z * vm) : option Z :=
  slot ← r.1.2; Some (read64 (words r.2) slot).

Lemma vmm_map_page_installed pgd virt phys flags st :
  (vmm_map_page pgd virt phys flags st).1.1 = 0 →
  installed_leaf (vmm_map_page pgd virt phys flags st) = Some (Z.lor phys flags).
Proof.
  intros H. destruct (vmm_map_page_leaf _ _ _ _ _ H) as (slot & Hs & Hr).
  unfold installed_leaf. rewrite Hs. simpl. by rewrite Hr.
Qed.

(** The frame [pmm_alloc_page] hands out is a frame address. *)
Lemma pmm_alloc_page_frame s :
  Pmm.wf s → (Pmm.pmm_alloc_page s).1 ≠ 0 →
  0 <= (Pmm.pmm_alloc_page s).1 < 2 ^ 48 ∧ (Pmm.pmm_alloc_page s).1 mod 4096 = 0.
Proof.
  intros Hwf Hne. destruct (Pmm.pmm_alloc_page s) as [addr s'] eqn:Ha. simpl in *.
  destruct (Pmm.pmm_alloc_page_spec _ _ _ Hwf Ha) as [[-> _] | [_ [first Hal]]]; [done |].
  destruct Hal as [Haddr _ Htot _ Hrange _ _ _ _].
  pose proof (Pmm.wf_total _ Hwf) as Hmax.
  assert (Hm : Pmm.MAX_PAGES = 262144) by reflexivity.
  unfold Pmm.MEMORY_BASE in Haddr. subst addr.
  split; [lia |]. rewrite Z.mod_add by lia. reflexivity.
Qed.

Lemma loader_page_installed pgd vaddr flags st :
  Pmm.wf (frames st) →
  let r := Pmm.pmm_alloc_page (frames st) in
  let m := vmm_map_page pgd vaddr r.1 flags (mkVm (zero_page r.1 (words st)) r.2) in
  (if r.1 =? 0 then (-1, None, mkVm (words st) r.2)
   else if m.1.1 =? 0 then m
        else (-1, None, mkVm (words m.2) (Pmm.pmm_free_page r.1 (frames m.2)))).1.1 = 0 →
  ∃ phys, 0 <= phys < 2 ^ 48 ∧ phys mod 4096 = 0 ∧
    installed_leaf
      (if r.1 =? 0 then (-1, None, mkVm (words st) r.2)
       else if m.1.1 =? 0 then m
            else (-1, None, mkVm (words m.2) (Pmm.pmm_free_page r.1 (frames m.2))))
      = Some (Z.lor phys flags).
Proof.
  intros Hwf r m.
  destruct (Z.eqb_spec r.1 0) as [| Hne]; [done |].
  destruct (Z.eqb_spec m.1.1 0) as [Hok |]; [| done].
  intros _. exists r.1.
  destruct (pmm_alloc_page_frame _ Hwf Hne) as [Hr Hal].
  split; [exact Hr |]. split; [exact Hal |].
  by apply vmm_map_page_installed.
Qed.

(** C3, as the code has it. Every leaf the kernel installs, read back
    from the slot the call wrote. In the initial kernel map of
    [vmm_init], each page of the RAM loop (the 262144 pages from
    [0x40000000]) and of the device loop (the 10240 pages from
    [0x08000000]) that is mapped gets a valid leaf with the
    user-execute-never bit. In the loader, over a well-formed page
    allocator, a page of an ELF segment that is mapped gets a valid leaf
    that is writable at EL1 exactly when the segment has the write flag
    and carries user-execute-never exactly when the segment lacks the
    execute flag; a page of the user stack that is mapped gets a valid
    leaf that is writable at EL1 and does not carry
    user-execute-never. *)
Theorem installed_leaf_permissions (PF_X PF_W pgd : Z) (st : vm) :
  Pmm.wf (frames st) →
  (∀ k, 0 <= k < 262144 →
     (map_kernel_page pgd (0x40000000 + 4096 * k) st).1.1 = 0 →
     ∃ e, installed_leaf (map_kernel_page pgd (0x40000000 + 4096 * k) st) = Some e ∧
       pte_valid e = true ∧ uxn e = true) ∧
  (∀ k, 0 <= k < 10240 →
     (map_device_page pgd (0x08000000 + 4096 * k) st).1.1 = 0 →
     ∃ e, installed_leaf (map_device_page pgd (0x08000000 + 4096 * k) st) = Some e ∧
       pte_valid e = true ∧ uxn e = true) ∧
  (∀ vaddr p_flags,
     (map_segment_page PF_X PF_W pgd vaddr p_flags st).1.1 = 0 →
     ∃ e, installed_leaf (map_segment_page PF_X PF_W pgd vaddr p_flags st) = Some e ∧
       pte_valid e = true ∧
       el1_writable e = negb (Z.land p_flags PF_W =? 0) ∧
       uxn e = (Z.land p_flags PF_X =? 0)) ∧
  (∀ vaddr,
     (map_stack_page pgd vaddr st).1.1 = 0 →
     ∃ e, installed_leaf (map_stack_page pgd vaddr st) = Some e ∧
       pte_valid e = true ∧ el1_writable e = true ∧ uxn e = false).
Proof.
  intros Hwf. unfold pte_valid, el1_writable, uxn.
  split; [| split; [| split]].
  - intros k Hk Hok. unfold map_kernel_page in *.
    rewrite (vmm_map_page_installed _ _ _ _ _ Hok). eexists. split; [reflexivity |].
    assert (Hal : (0x40000000 + 4096 * k) mod 4096 = 0)
      by (rewrite (Z.mul_comm 4096 k), Z.mod_add by lia; reflexivity).
    rewrite !leaf_bit by (auto; lia). split; reflexivity.
  - intros k Hk Hok. unfold map_device_page in *.
    rewrite (vmm_map_page_installed _ _ _ _ _ Hok). eexists. split; [reflexivity |].
    assert (Hal : (0x08000000 + 4096 * k) mod 4096 = 0)
      by (rewrite (Z.mul_comm 4096 k), Z.mod_add by lia; reflexivity).
    rewrite !leaf_bit by (auto; lia). split; reflexivity.
  - intros vaddr p_flags Hok. unfold map_segment_page in *.
    destruct (loader_page_installed pgd vaddr (segment_flags PF_X PF_W p_flags) st Hwf Hok)
      as (phys & Hr & Hal & ->).
    eexists. split; [reflexivity |].
    destruct (segment_flags_bits PF_X PF_W p_flags) as (H0 & H7 & H54).
    rewrite !leaf_bit by (auto; lia). rewrite H0, H7, H54. done.
  - intros vaddr Hok. unfold map_stack_page in *.
    destruct (loader_page_installed pgd vaddr PAGE_USER st Hwf Hok)
      as (phys & Hr & Hal & ->).
    eexists. split; [reflexivity |].
    rewrite !leaf_bit by (auto; lia). done.
Qed.

(** An empty memory over the small machine of [Pmm.pmm_demo]; the
    top-level table of the process is the frame at [0x40040000]. *)
Definition vm_demo : vm := mkVm ∅ Pmm.pmm_demo.

Lemma installed_leaf_permissions_witness :
  (∃ e, installed_leaf (map_kernel_page 0x40040000 (0x40000000 + 4096 * 5) vm_demo) = Some e ∧
     pte_valid e = true ∧ uxn e = true) ∧
  (∃ e, installed_leaf (map_device_page 0x40040000 (0x08000000 + 4096 * 5) vm_demo) = Some e ∧
     pte_valid e = true ∧ uxn e = true) ∧
  (∃ e, installed_leaf (map_segment_page 1 2 0x40040000 0x400000 6 vm_demo) = Some e ∧
     pte_valid e = true ∧
     el1_writable e = negb (Z.land 6 2 =? 0) ∧
     uxn e = (Z.land 6 1 =? 0)) ∧
  (∃ e, installed_leaf (map_stack_page 0x40040000 0xC0000000 vm_demo) = Some e ∧
     pte_valid e = true ∧ el1_writable e = true ∧ uxn e = false).
Proof.
  destruct (installed_leaf_permissions 1 2 0x40040000 vm_demo Pmm.pmm_demo_wf)
    as (Hk & Hd & Hs & Ht).
  split; [apply (Hk 5); [lia | vm_compute; reflexivity] |].
  split; [apply (Hd 5); [lia | vm_compute; reflexivity] |].
  split; [apply (Hs 0x400000 6); vm_compute; reflexivity |].
  apply (Ht 0xC0000000); vm_compute; reflexivity.
Defined.

(** C3 as stated fails: the first page of the user stack, and a page of
    a segment with flags [PF_R | PF_W | PF_X], are mapped with a valid
    leaf that is writable at EL1 and executable at EL0. *)
Lemma stack_leaf_writable_and_executable :
  (map_stack_page 0x40040000 0xC0000000 vm_demo).1.1 = 0 ∧
  pte_valid (read64 (words (map_stack_page 0x40040000 0xC0000000 vm_demo).2)
               (default 0 (map_stack_page 0x40040000 0xC0000000 vm_demo).1.2)) = true ∧
  el1_writable (read64 (words (map_stack_page 0x40040000 0xC0000000 vm_demo).2)
                  (default 0 (map_stack_page 0x40040000 0xC0000000 vm_demo).1.2)) = true ∧
  uxn (read64 (words (map_stack_page 0x40040000 0xC0000000 vm_demo).2)
         (default 0 (map_stack_page 0x40040000 0xC0000000 vm_demo).1.2)) = false ∧
  (map_segment_page 1 2 0x40040000 0x400000 7 vm_demo).1.1 = 0 ∧
  el1_writable (read64 (words (map_segment_page 1 2 0x40040000 0x400000 7 vm_demo).2)
                  (default 0 (map_segment_page 1 2 0x40040000 0x400000 7 vm_demo).1.2)) = true ∧
  uxn (read64 (words (map_segment_page 1 2 0x40040000 0x400000 7 vm_demo).2)
         (default 0 (map_segment_page 1 2 0x40040000 0x400000 7 vm_demo).1.2)) = false.
Proof. vm_compute. repeat split; reflexivity. Qed.

End Vmm.

(** ** The synchronous VirtIO block protocol (virtio_blk.c) *)

Module Virtio.

Definition VRING_DESC_F_NEXT : Z := 1.
Definition VRING_DESC_F_WRITE : Z := 2.
Definition VIRTIO_BLK_T_IN : Z := 0.
Definition VIRTIO_BLK_T_OUT : Z := 1.
Definition VIRTIO_BLK_S_OK : Z := 0.
Definition VIRTIO_MMIO_QUEUE_NOTIFY : Z := 0x050.
(** [sizeof(struct virtio_blk_req)] *)
Definition REQ_SIZE : Z := 16.

Record vring_desc := mkDesc { addr : Z; len : Z; flags : Z; next : Z }.
Record virtio_blk_req := mkReq { type : Z; reserved : Z; sector : Z }.

(** What the driver does to the memory it shares with the device and to
    the device registers, in program order. *)
Inductive access :=
  | Write_desc (i : Z) (d : vring_desc)
  | Write_avail_ring (slot head : Z)
  | Barrier
  | Write_avail_idx (v : Z)
  | Write_notify (offset value : Z)
  | Sample_used_idx (v : Z)
  | Poll_used_idx (v : Z)
  | Read_status (v : Z).

(** The driver's variables and the rings. [used_idx] and the status
    bytes are written by the device. *)
Record blk := mkBlk {
  virtio_blk_base : Z;
  virtio_blk_qsize : Z;
  desc : Z;
  avail : Z;
  used : Z;
  desc_table : list vring_desc;
  avail_idx : Z;
  avail_ring : list Z;
  used_idx : Z;
  req : virtio_blk_req;
  status : Z;
  req_w : virtio_blk_req;
  status_w : Z;
  trace : list access
}.

Definition set_descs (f : list vring_desc → list vring_desc) (s : blk) : blk :=
  mkBlk (virtio_blk_base s) (virtio_blk_qsize s) (desc s) (avail s) (used s)
        (f (desc_table s)) (avail_idx s) (avail_ring s) (used_idx s)
        (req s) (status s) (req_w s) (status_w s) (trace s).

Definition set_avail (idx : Z) (ring : list Z) (s : blk) : blk :=
  mkBlk (virtio_blk_base s) (virtio_blk_qsize s) (desc s) (avail s) (used s)
        (desc_table s) idx ring (used_idx s)
        (req s) (status s) (req_w s) (status_w s) (trace s).

Definition set_req (r : virtio_blk_req) (s : blk) : blk :=
  mkBlk (virtio_blk_base s) (virtio_blk_qsize s) (desc s) (avail s) (used s)
        (desc_table s) (avail_idx s) (avail_ring s) (used_idx s)
        r (status s) (req_w s) (status_w s) (trace s).

Definition set_req_w (r : virtio_blk_req) (s : blk) : blk :=
  mkBlk (virtio_blk_base s) (virtio_blk_qsize s) (desc s) (avail s) (used s)
        (desc_table s) (avail_idx s) (avail_ring s) (used_idx s)
        (req s) (status s) r (status_w s) (trace s).

Definition did (a : access) (s : blk) : blk :=
  mkBlk (virtio_blk_base s) (virtio_blk_qsize s) (desc s) (avail s) (used s)
        (desc_table s) (avail_idx s) (avail_ring s) (used_idx s)
        (req s) (status s) (req_w s) (status_w s) (trace s ++ [a]).

(** [desc[i] = d] *)
Definition write_desc (i : Z) (d : vring_desc) (s : blk) : blk :=
  did (Write_desc i d) (set_descs (λ t, <[Z.to_nat i := d]> t) s).

Section Driver.

(** The device: what it does to the shared memory when the notify
    register is written, and between two reads of [used->idx] by the
    polling loop. *)
Variables on_notify on_poll : blk → blk.
(** The addresses of the function-static request and status objects. *)
Variables req_addr status_addr req_w_addr status_w_addr : Z.

(** Lines 181-193 and 257-264: publish head descriptor 0 and notify. *)
Definition submit (s : blk) : blk :=
  let idx := u16 (u16 (avail_idx s) mod virtio_blk_qsize s) in
  let s := did (Write_avail_ring idx 0)
             (set_avail (avail_idx s) (<[Z.to_nat idx := 0]> (avail_ring s)) s) in
  let s := did Barrier s in
  let s := did (Write_avail_idx (u16 (avail_idx s + 1)))
             (set_avail (u16 (avail_idx s + 1)) (avail_ring s) s) in
  let s := did Barrier s in
  on_notify (did (Write_notify VIRTIO_MMIO_QUEUE_NOTIFY 0) s).

(** [while (used->idx == wait_idx) nop;] with [fuel] iterations at most;
    [false] when the fuel ran out with the loop still spinning. *)
Fixpoint wait_used (fuel : nat) (wait_idx : Z) (s : blk) : bool * blk :=
  match fuel with
  | O => (false, s)
  | S n =>
      let s := did (Poll_used_idx (used_idx s)) s in
      if used_idx s =? wait_idx then wait_used n wait_idx (on_poll s)
      else (true, s)
  end.

(** Lines 207-211 and 266-269: sample, then spin. *)
Definition sample_and_wait (fuel : nat) (s : blk) : bool * blk :=
  let wait_idx := used_idx s in
  wait_used fuel wait_idx (did (Sample_used_idx wait_idx) s).

Definition uninitialised (s : blk) : bool :=
  (virtio_blk_base s =? 0) || (desc s =? 0) || (avail s =? 0) || (used s =? 0).

(** [virtio_blk_read]; the result is [None] when the polling loop has
    not ended within [fuel] iterations. *)
Definition virtio_blk_read (fuel : nat) (buf sector count : Z) (s : blk)
    : option Z * blk :=
  if uninitialised s then (Some (-1), s)
  else
    let s := set_req (mkReq VIRTIO_BLK_T_IN 0 sector) s in
    let s := write_desc 0 (mkDesc req_addr REQ_SIZE VRING_DESC_F_NEXT 1) s in
    let s := write_desc 1 (mkDesc buf (u32 (count * 512))
                                  (Z.lor VRING_DESC_F_WRITE VRING_DESC_F_NEXT) 2) s in
    let s := write_desc 2 (mkDesc status_addr 1 VRING_DESC_F_WRITE 0) s in
    let w := sample_and_wait fuel (submit s) in
    if w.1 then
      let s := did (Read_status (status w.2)) w.2 in
      if negb (status s =? VIRTIO_BLK_S_OK) then (Some (-1), s) else (Some 0, s)
    else (None, w.2).

Definition virtio_blk_write (fuel : nat) (buf sector count : Z) (s : blk)
    : option Z * blk :=
  if uninitialised s then (Some (-1), s)
  else
    let s := set_req_w (mkReq VIRTIO_BLK_T_OUT 0 sector) s in
    let s := write_desc 0 (mkDesc req_w_addr REQ_SIZE VRING_DESC_F_NEXT 1) s in
    let s := write_desc 1 (mkDesc buf (u32 (count * 512)) VRING_DESC_F_NEXT 2) s in
    let s := write_desc 2 (mkDesc status_w_addr 1 VRING_DESC_F_WRITE 0) s in
    let w := sample_and_wait fuel (submit s) in
    if w.1 then
      let s := did (Read_status (status_w w.2)) w.2 in
      if negb (status_w s =? VIRTIO_BLK_S_OK) then (Some (-1), s) else (Some 0, s)
    else (None, w.2).

End Driver.

(** A device that serves the request while the notify write is still in
    flight: it stores the status bytes and advances [used->idx]. *)
Definition eager_notify (s : blk) : blk :=
  mkBlk (virtio_blk_base s) (virtio_blk_qsize s) (desc s) (avail s) (used s)
        (desc_table s) (avail_idx s) (avail_ring s) (u16 (used_idx s + 1))
        (req s) VIRTIO_BLK_S_OK (req_w s) VIRTIO_BLK_S_OK (trace s).

(** A device that serves the request only after the driver has looked at
    [used->idx] once. *)
Definition lazy_poll (s : blk) : blk :=
  if u16 (used_idx s) =? u16 (avail_idx s) then s else eager_notify s.

(** The queue as [virtio_blk_init] leaves it: 16 descriptors, nothing
    submitted yet. *)
Definition blk_demo : blk :=
  mkBlk 0x0a000000 16 0x40050000 0x40050100 0x40051000
        (replicate 16 (mkDesc 0 0 0 0)) 0 (replicate 16 0) 0
        (mkReq 0 0 0) 0 (mkReq 0 0 0) 0 [].

(** The state after [n] more looks at an index that stays at [w]. *)
Definition spun (n : nat) (w : Z) (s : blk) : blk :=
  mkBlk (virtio_blk_base s) (virtio_blk_qsize s) (desc s) (avail s) (used s)
        (desc_table s) (avail_idx s) (avail_ring s) (used_idx s)
        (req s) (status s) (req_w s) (status_w s)
        (trace s ++ replicate n (Poll_used_idx w)).

Lemma wait_used_idle fuel : ∀ w s,
  used_idx s = w → wait_used (λ x, x) fuel w s = (false, spun fuel w s).
Proof.
  induction fuel as [| fuel IH]; intros w s Hw; simpl.
  - unfold spun. rewrite app_nil_r. by destruct s.
  - rewrite Hw, Z.eqb_refl. rewrite IH by done.
    unfold spun, did. simpl. rewrite Hw, <- app_assoc. reflexivity.
Qed.

(** With a device that advances the index only after the driver has
    looked once, the same code returns 0 after two looks: the model of
    the loop is not stuck by construction. *)
Lemma virtio_blk_read_lazy_device :
  (virtio_blk_read (λ x, x) lazy_poll 0x40002000 0x40002010 2 0x40060000 0 1 blk_demo).1
  = Some 0.
Proof. reflexivity. Qed.

(** C2 on the code. The driver reads [used->idx] for the first time
    after the notify register has been written. With a device that has
    served the request by then, read and write publish the chain,
    notify, sample the index the device has already advanced to 1, and
    spin on it for as long as they are given: they do not return,
    although the status byte says the request succeeded. *)
Theorem virtio_blk_samples_after_notify (fuel : nat) :
  (virtio_blk_read eager_notify (λ x, x) 0x40002000 0x40002010 fuel
                   0x40060000 0 1 blk_demo).1 = None ∧
  status (virtio_blk_read eager_notify (λ x, x) 0x40002000 0x40002010 fuel
                          0x40060000 0 1 blk_demo).2 = VIRTIO_BLK_S_OK ∧
  drop 3 (take 9 (trace (virtio_blk_read eager_notify (λ x, x) 0x40002000 0x40002010 fuel
                                         0x40060000 0 1 blk_demo).2))
  = [Write_avail_ring 0 0; Barrier; Write_avail_idx 1; Barrier;
     Write_notify VIRTIO_MMIO_QUEUE_NOTIFY 0; Sample_used_idx 1] ∧
  (virtio_blk_write eager_notify (λ x, x) 0x40002020 0x40002030 fuel
                    0x40060000 0 1 blk_demo).1 = None ∧
  drop 3 (take 9 (trace (virtio_blk_write eager_notify (λ x, x) 0x40002020 0x40002030 fuel
                                          0x40060000 0 1 blk_demo).2))
  = [Write_avail_ring 0 0; Barrier; Write_avail_idx 1; Barrier;
     Write_notify VIRTIO_MMIO_QUEUE_NOTIFY 0; Sample_used_idx 1].
Proof.
  unfold virtio_blk_read, virtio_blk_write, sample_and_wait.
  change (uninitialised blk_demo) with false. cbv iota zeta.
  rewrite !wait_used_idle by (vm_compute; reflexivity).
  vm_compute. repeat split; reflexivity.
Qed.

End Virtio.

(** ** The window compositor (compositor.c, graphics.c) *)

Module Compositor.

Definition MAX_WINDOWS : Z := 16.
Definition TITLE_BAR_HEIGHT : Z := 20.
Definition CLOSE_BUTTON_SIZE : Z := 16.
Definition BACKGROUND : Z := 0xFF17171A.
Definition WHITE : Z := 0xFFFFFFFF.

(** [struct window]. [title] holds the bytes of the title before its
    terminator; [buffer] is the address of the pixel buffer. *)
Record window := mkWindow {
  id : Z;
  x : Z;
  y : Z;
  width : Z;
  height : Z;
  z_order : Z;
  visible : Z;
  pid : Z;
  protected : Z;
  buffer : Z;
  bg_color : Z;
  title : list Z;
  cursor_x : Z;
  cursor_y : Z;
  fg_color : Z;
  escape_state : Z;
  escape_buf : list Z;
  escape_len : Z
}.

(** A slot after [memset(.., 0, ..)]. *)
Definition zero_window : window :=
  mkWindow 0 0 0 0 0 0 0 0 0 0 0 [] 0 0 0 0 (replicate 32 0) 0.

(** The terminal fields of a window, replaced together. *)
Definition set_terminal (cx cy fg es : Z) (eb : list Z) (el : Z) (w : window) : window :=
  mkWindow (id w) (x w) (y w) (width w) (height w) (z_order w) (visible w) (pid w)
           (protected w) (buffer w) (bg_color w) (title w) cx cy fg es eb el.

Definition set_cursor (cx cy : Z) (w : window) : window :=
  set_terminal cx cy (fg_color w) (escape_state w) (escape_buf w) (escape_len w) w.

Definition set_fg_color (fg : Z) (w : window) : window :=
  set_terminal (cursor_x w) (cursor_y w) fg (escape_state w) (escape_buf w) (escape_len w) w.

Definition set_escape (es : Z) (eb : list Z) (el : Z) (w : window) : window :=
  set_terminal (cursor_x w) (cursor_y w) (fg_color w) es eb el w.

Definition set_escape_state (es : Z) (w : window) : window :=
  set_escape es (escape_buf w) (escape_len w) w.

(** [struct graphics_context] *)
Record graphics_context := mkCtx {
  ctx_width : Z;
  ctx_height : Z;
  ctx_bpp : Z;
  ctx_stride : Z;
  ctx_buffer : Z
}.

(** Messages of [pr_err], [pr_warn] and [pr_info]. *)
Inductive cmsg :=
  | Max_windows_reached
  | Buffer_allocation_failed
  | Created (title : list Z) (w h x y : Z)
  | Draw_denied (caller window owner : Z).

(** The pixel memory: the buffers by base address, and whether every
    store and every copy so far stayed inside the buffer it was aimed
    at. Once [intact] is false the run has written or copied outside a
    buffer: the C program has overwritten neighbouring heap memory or
    faulted, and the cells say nothing about the machine any more. *)
Record pixmem := mkPix {
  cells : gmap Z (list Z);
  intact : bool
}.

#[global] Instance pixmem_lookup : Lookup Z (list Z) pixmem := λ k m, cells m !! k.
#[global] Instance pixmem_insert : Insert Z (list Z) pixmem :=
  λ k l m, mkPix (<[k := l]> (cells m)) (intact m).
#[global] Instance pixmem_empty : Empty pixmem := mkPix ∅ true.

(** An access outside a buffer. *)
Definition spoil (m : pixmem) : pixmem := mkPix (cells m) false.

(** The file-scope state of compositor.c and graphics.c, the pixel
    memory the buffers point to (by base address), the interrupt mask
    of the hart ([irq_enabled]: DAIF.I clear), the kernel log, the
    flushes handed to the GPU driver and the kernel heap. *)
Record comp := mkComp {
  windows : list window;
  window_count : Z;
  next_window_id : Z;
  mouse_x : Z;
  mouse_y : Z;
  g_ctx : graphics_context;
  fb_base_addr : Z;
  pixels : pixmem;
  irq_enabled : bool;
  clog : list cmsg;
  gpu_flushes : list (Z * Z * Z * Z);
  heap : Kmalloc.kheap
}.

Definition set_windows (v : list window) (st : comp) : comp :=
  mkComp v (window_count st) (next_window_id st) (mouse_x st) (mouse_y st) (g_ctx st)
         (fb_base_addr st) (pixels st) (irq_enabled st) (clog st) (gpu_flushes st) (heap st).

Definition set_counters (count next : Z) (st : comp) : comp :=
  mkComp (windows st) count next (mouse_x st) (mouse_y st) (g_ctx st)
         (fb_base_addr st) (pixels st) (irq_enabled st) (clog st) (gpu_flushes st) (heap st).

Definition set_ctx (v : graphics_context) (st : comp) : comp :=
  mkComp (windows st) (window_count st) (next_window_id st) (mouse_x st) (mouse_y st) v
         (fb_base_addr st) (pixels st) (irq_enabled st) (clog st) (gpu_flushes st) (heap st).

Definition set_pixels (v : pixmem) (st : comp) : comp :=
  mkComp (windows st) (window_count st) (next_window_id st) (mouse_x st) (mouse_y st)
         (g_ctx st) (fb_base_addr st) v (irq_enabled st) (clog st) (gpu_flushes st) (heap st).

Definition set_irq (v : bool) (st : comp) : comp :=
  mkComp (windows st) (window_count st) (next_window_id st) (mouse_x st) (mouse_y st)
         (g_ctx st) (fb_base_addr st) (pixels st) v (clog st) (gpu_flushes st) (heap st).

Definition log_cmsg (m : cmsg) (st : comp) : comp :=
  mkComp (windows st) (window_count st) (next_window_id st) (mouse_x st) (mouse_y st)
         (g_ctx st) (fb_base_addr st) (pixels st) (irq_enabled st) (m :: clog st)
         (gpu_flushes st) (heap st).

Definition log_flush (r : Z * Z * Z * Z) (st : comp) : comp :=
  mkComp (windows st) (window_count st) (next_window_id st) (mouse_x st) (mouse_y st)
         (g_ctx st) (fb_base_addr st) (pixels st) (irq_enabled st) (clog st)
         (r :: gpu_flushes st) (heap st).

Definition set_heap (v : Kmalloc.kheap) (st : comp) : comp :=
  mkComp (windows st) (window_count st) (next_window_id st) (mouse_x st) (mouse_y st)
         (g_ctx st) (fb_base_addr st) (pixels st) (irq_enabled st) (clog st)
         (gpu_flushes st) v.

(** cpu.c: [msr daifclr, #2] and [msr daifset, #2]. *)
Definition local_irq_enable (st : comp) : comp := set_irq true st.
Definition local_irq_disable (st : comp) : comp := set_irq false st.

(** [windows[i]] and [windows[i] = w] *)
Definition win_at (st : comp) (i : nat) : window := default zero_window (windows st !! i).
Definition set_win (i : nat) (w : window) (st : comp) : comp :=
  set_windows (<[i := w]> (windows st)) st.

(** *** Pixel memory *)

(** [p[idx] = v] for a buffer at address [p]: a store at an index
    inside the buffer changes that cell; a store at any other index, or
    to an address that is no buffer, is an access outside a buffer. *)
Definition poke (p idx v : Z) (m : pixmem) : pixmem :=
  match m !! p with
  | Some l =>
      if (0 <=? idx) && (idx <? Z.of_nat (length l))
      then <[p := <[Z.to_nat idx := v]> l]> m
      else spoil m
  | None => spoil m
  end.

(** Whether [p[idx]] lies inside the buffer at [p]. *)
Definition in_buffer (m : pixmem) (p idx : Z) : bool :=
  match m !! p with
  | Some l => (0 <=? idx) && (idx <? Z.of_nat (length l))
  | None => false
  end.

(** [p[idx]], for an index inside the buffer (outside it the value is
    0 here; the loads of the code are checked where they are made). *)
Definition peek (m : pixmem) (p idx : Z) : Z :=
  if 0 <=? idx then default 0 (m !! p ≫= λ l, l !! Z.to_nat idx) else 0.

(** [for (i = lo; i < hi; i++) p[i] = v] *)
Definition fill (p lo hi v : Z) (m : pixmem) : pixmem :=
  for_range lo hi (λ i acc, poke p i v acc) m.

(** [memmove(p, p + src, n * 4)] on pixels, [src] and [n] unsigned: it
    reads the [n] pixels from index [src] and writes the first [n]. A
    length of 0 touches nothing; any other length needs the pixels up
    to [src + n] inside the buffer. *)
Definition move_up (p src n : Z) (m : pixmem) : pixmem :=
  if n =? 0 then m
  else
    match m !! p with
    | Some l =>
        if src + n <=? Z.of_nat (length l)
        then <[p := take (Z.to_nat n) (drop (Z.to_nat src) l) ++ drop (Z.to_nat n) l]> m
        else spoil m
    | None => spoil m
    end.

Section Terminal.

(** Modelled from the spec: the 8x16 bitmap font table of font.c, which
    is not among the sources; [font c row col] says whether the glyph of
    byte [c] has the pixel in row [row], column [col] set. *)
Variable font : Z → Z → Z → bool.

(** graphics.c: [graphics_put_pixel], on the current context. *)
Definition graphics_put_pixel (px py color : Z) (st : comp) : comp :=
  let c := g_ctx st in
  if ctx_buffer c =? 0 then st
  else if (ctx_width c <=? px) || (ctx_height c <=? py) then st
  else set_pixels (poke (ctx_buffer c) (u32 (u32 (py * ctx_width c) + px)) color (pixels st)) st.

(** Modelled from the spec: [graphics_draw_char] of font.c, which is not
    among the sources. "Printable ASCII draws the glyph at cursor ...
    with its current foreground color": the set pixels of the 8x16
    glyph are put, clipped, at [(px + col, py + row)]. *)
Definition graphics_draw_char (px py c color : Z) (st : comp) : comp :=
  for_range 0 16 (λ row st,
    for_range 0 8 (λ col st,
      if font c row col then graphics_put_pixel (u32 (px + col)) (u32 (py + row)) color st
      else st) st) st.

(** Lines 723-732: the clipped fill of [compositor_draw_rect]. *)
Definition fill_rect (win : window) (rx ry rw rh color : Z) (m : pixmem)
    : pixmem :=
  for_range 0 rh (λ dy m,
    for_range 0 rw (λ dx m,
      let px := s32 (rx + dx) in
      let py := s32 (ry + dy) in
      if (0 <=? px) && (px <? width win) && (0 <=? py) && (py <? height win)
      then poke (buffer win) (s32 (s32 (py * width win) + px)) color m
      else m) m) m.

(** [compositor_draw_rect] *)
Definition compositor_draw_rect (window_id rx ry rw rh color caller_pid : Z) (st : comp)
    : comp :=
  let st := local_irq_disable st in
  match list_find (λ win, id win = window_id ∧ buffer win ≠ 0) (take 16 (windows st)) with
  | Some (_, win) =>
      if negb (pid win =? caller_pid) && negb (caller_pid =? 1) then
        local_irq_enable (log_cmsg (Draw_denied caller_pid window_id (pid win)) st)
      else
        local_irq_enable (set_pixels (fill_rect win rx ry rw rh color (pixels st)) st)
  | None => local_irq_enable st
  end.

(** [compositor_get_window_by_pid] *)
Definition compositor_get_window_by_pid (p : Z) (st : comp) : Z * comp :=
  let st := local_irq_disable st in
  match list_find (λ win, id win ≠ 0 ∧ pid win = p) (take 16 (windows st)) with
  | Some (_, win) => (id win, local_irq_enable st)
  | None => (-1, local_irq_enable st)
  end.

(** *** The terminal emulator *)

Definition sgr_colors : list Z :=
  [0xFF000000; 0xFFBB0000; 0xFF00BB00; 0xFFBBBB00;
   0xFF0000BB; 0xFFBB00BB; 0xFF00BBBB; 0xFFBBBBBB].

Definition sgr_bright_colors : list Z :=
  [0xFF555555; 0xFFFF5555; 0xFF55FF55; 0xFFFFFF55;
   0xFF5555FF; 0xFFFF55FF; 0xFF55FFFF; 0xFFFFFFFF].

(** The loop of [handle_sgr]: the digits of the parameter bytes, read as
    one decimal number. *)
Definition sgr_value (buf : list Z) (len : Z) : Z :=
  for_range 0 len (λ i val,
    let ch := default 0 (buf !! Z.to_nat i) in
    if (48 <=? ch) && (ch <=? 57) then s32 (s32 (val * 10) + (ch - 48)) else val) 0.

Definition handle_sgr (win : window) : window :=
  if escape_len win =? 0 then set_fg_color WHITE win
  else
    let val := sgr_value (escape_buf win) (escape_len win) in
    if val =? 0 then set_fg_color WHITE win
    else if (30 <=? val) && (val <=? 37) then
      set_fg_color (default 0 (sgr_colors !! Z.to_nat (val - 30))) win
    else if (90 <=? val) && (val <=? 97) then
      set_fg_color (default 0 (sgr_bright_colors !! Z.to_nat (val - 90))) win
    else win.

Definition is_letter (c : Z) : bool :=
  (97 <=? c) && (c <=? 122) || (65 <=? c) && (c <=? 90).

(** Lines 397-444: one byte through the parser, on the window in slot
    [i]. *)
Definition terminal_byte (win_id : Z) (i : nat) (c : Z) (st : comp) : comp :=
  let win := win_at st i in
  if escape_state win =? 0 then
    if c =? 27 then set_win i (set_escape 1 (escape_buf win) 0 win) st
    else if c =? 10 then set_win i (set_cursor 0 (s32 (cursor_y win + 1)) win) st
    else if c =? 13 then set_win i (set_cursor 0 (cursor_y win) win) st
    else if (c =? 8) || (c =? 127) then
      if 0 <? cursor_x win
      then set_win i (set_cursor (s32 (cursor_x win - 1)) (cursor_y win) win) st
      else st
    else if (32 <=? c) && (c <? 127) then
      let st := compositor_draw_rect win_id (s32 (cursor_x win * 8)) (s32 (cursor_y win * 16))
                  8 16 (bg_color win) (pid win) st in
      let win := win_at st i in
      let st := graphics_draw_char (u32 (s32 (cursor_x win * 8))) (u32 (s32 (cursor_y win * 16)))
                  c (fg_color win) st in
      let win := win_at st i in
      set_win i (set_cursor (s32 (cursor_x win + 1)) (cursor_y win) win) st
    else st
  else if escape_state win =? 1 then
    if c =? 91 then set_win i (set_escape_state 2 win) st
    else set_win i (set_escape_state 0 win) st
  else if escape_state win =? 2 then
    if is_letter c then
      let st :=
        if c =? 109 then set_win i (handle_sgr win) st
        else if c =? 74 then
          let st := set_pixels (fill (buffer win) 0 (s32 (width win * height win))
                                     (bg_color win) (pixels st)) st in
          set_win i (set_cursor 0 0 win) st
        else if c =? 72 then set_win i (set_cursor 0 0 win) st
        else st in
      set_win i (set_escape_state 0 (win_at st i)) st
    else if escape_len win <? 31 then
      set_win i (set_escape (escape_state win)
                   (<[Z.to_nat (escape_len win) := c]> (escape_buf win))
                   (s32 (escape_len win + 1)) win) st
    else set_win i (set_escape_state 0 win) st
  else st.

(** Lines 446-461: wrap at the right edge, scroll at the bottom. *)
Definition wrap_and_scroll (i : nat) (cols rows : Z) (st : comp) : comp :=
  let win := win_at st i in
  let st :=
    if cols <=? cursor_x win then set_win i (set_cursor 0 (s32 (cursor_y win + 1)) win) st
    else st in
  let win := win_at st i in
  if rows <=? cursor_y win then
    let line_size := u64 (s32 (width win * 16)) in
    let bytes := u64 (s32 (s32 (width win * s32 (height win - 16)) * 4)) in
    let m := move_up (buffer win) line_size (bytes / 4) (pixels st) in
    let m := fill (buffer win) (s32 (width win * s32 (height win - 16)))
                  (s32 (width win * height win)) (bg_color win) m in
    set_win i (set_cursor (cursor_x win) (s32 (rows - 1)) win) (set_pixels m st)
  else st.

(** *** Rendering *)

Definition blend_pixel (fg bg : Z) : Z :=
  let alpha := Z.land (Z.shiftr fg 24) 0xFF in
  if alpha =? 255 then fg
  else if alpha =? 0 then bg
  else
    let inv_alpha := 255 - alpha in
    let r := Z.shiftr (u32 (Z.land (Z.shiftr fg 16) 0xFF * alpha
                            + Z.land (Z.shiftr bg 16) 0xFF * inv_alpha)) 8 in
    let g := Z.shiftr (u32 (Z.land (Z.shiftr fg 8) 0xFF * alpha
                            + Z.land (Z.shiftr bg 8) 0xFF * inv_alpha)) 8 in
    let b := Z.shiftr (u32 (Z.land fg 0xFF * alpha + Z.land bg 0xFF * inv_alpha)) 8 in
    Z.lor (Z.lor (Z.lor 0xFF000000 (u32 (Z.shiftl r 16))) (u32 (Z.shiftl g 8))) b.

(** [ctx->buffer[py * ctx->width + px] = color] *)
Definition ctx_store (px py color : Z) (st : comp) : comp :=
  set_pixels (poke (ctx_buffer (g_ctx st)) (u32 (u32 (py * ctx_width (g_ctx st)) + px))
                   color (pixels st)) st.

(** [px >= 0 && px < (int)ctx->width && py >= 0 && py < (int)ctx->height] *)
Definition on_screen (px py : Z) (st : comp) : bool :=
  (0 <=? px) && (px <? s32 (ctx_width (g_ctx st))) &&
  (0 <=? py) && (py <? s32 (ctx_height (g_ctx st))).

Definition draw_window_decorations (win : window) (st : comp) : comp :=
  if ctx_buffer (g_ctx st) =? 0 then st
  else
    let title_height := 20 in
    let title_color := 0xFF18181B in
    let border_color := 0xFF27272A in
    let st :=
      for_range 0 title_height (λ ty st,
        for_range 0 (s32 (width win + 2)) (λ tx st,
          let px := s32 (s32 (x win - 1) + tx) in
          let py := s32 (s32 (y win - title_height) + ty) in
          if on_screen px py st then ctx_store px py title_color st else st) st) st in
    let title_len := Z.of_nat (length (title win)) in
    let char_w := 8 in
    let text_w := s32 (title_len * char_w) in
    let start_x := s32 (x win + Z.quot (s32 (width win - text_w)) 2) in
    let start_y := s32 (s32 (y win - title_height) + 2) in
    let st :=
      for_range 0 title_len (λ k st,
        graphics_draw_char (u32 (s32 (start_x + s32 (k * char_w)))) (u32 start_y)
                           (default 0 (title win !! Z.to_nat k)) WHITE st) st in
    let st :=
      for_range (- title_height) (height win + 1) (λ by_ st,
        let px1 := s32 (x win - 1) in
        let px2 := s32 (x win + width win) in
        let py := s32 (y win + by_) in
        if (0 <=? py) && (py <? s32 (ctx_height (g_ctx st))) then
          let st := if 0 <=? px1 then ctx_store px1 py border_color st else st in
          if px2 <? s32 (ctx_width (g_ctx st)) then ctx_store px2 py border_color st else st
        else st) st in
    let st :=
      for_range (-1) (width win + 1) (λ bx st,
        let px := s32 (x win + bx) in
        let py1 := s32 (s32 (y win - title_height) - 1) in
        let py2 := s32 (y win + height win) in
        if (0 <=? px) && (px <? s32 (ctx_width (g_ctx st))) then
          let st := if 0 <=? py1 then ctx_store px py1 border_color st else st in
          if py2 <? s32 (ctx_height (g_ctx st)) then ctx_store px py2 border_color st else st
        else st) st in
    if protected win =? 0 then
      let btn_x := s32 (s32 (s32 (x win + width win) - CLOSE_BUTTON_SIZE) - 2) in
      let btn_y := s32 (s32 (y win - title_height) + 2) in
      let st :=
        for_range 0 CLOSE_BUTTON_SIZE (λ cy st,
          for_range 0 CLOSE_BUTTON_SIZE (λ cx st,
            let px := s32 (btn_x + cx) in
            let py := s32 (btn_y + cy) in
            if on_screen px py st then ctx_store px py 0xFFCC4444 st else st) st) st in
      for_range 2 (CLOSE_BUTTON_SIZE - 2) (λ d st,
        let px1 := s32 (btn_x + d) in
        let py1 := s32 (btn_y + d) in
        let px2 := s32 (s32 (s32 (btn_x + CLOSE_BUTTON_SIZE) - 1) - d) in
        let st := if on_screen px1 py1 st then ctx_store px1 py1 WHITE st else st in
        if on_screen px2 py1 st then ctx_store px2 py1 WHITE st else st) st
    else st.

(** The cursor bitmap of [draw_mouse_cursor], row by row, as character
    codes (88 is the border, 46 the filling, 32 nothing). *)
Definition cursor_shape : list (list Z) :=
  [[88; 32; 32; 32; 32; 32; 32; 32; 32; 32; 32; 32];
   [88; 88; 32; 32; 32; 32; 32; 32; 32; 32; 32; 32];
   [88; 46; 88; 32; 32; 32; 32; 32; 32; 32; 32; 32];
   [88; 46; 46; 88; 32; 32; 32; 32; 32; 32; 32; 32];
   [88; 46; 46; 46; 88; 32; 32; 32; 32; 32; 32; 32];
   [88; 46; 46; 46; 46; 88; 32; 32; 32; 32; 32; 32];
   [88; 46; 46; 46; 46; 46; 88; 32; 32; 32; 32; 32];
   [88; 46; 46; 46; 46; 46; 46; 88; 32; 32; 32; 32];
   [88; 46; 46; 46; 46; 46; 46; 46; 88; 32; 32; 32];
   [88; 46; 46; 46; 46; 46; 46; 46; 46; 88; 32; 32];
   [88; 46; 46; 46; 46; 46; 88; 88; 88; 88; 88; 32];
   [88; 46; 46; 88; 46; 46; 88; 32; 32; 32; 32; 32];
   [88; 46; 88; 32; 88; 46; 46; 88; 32; 32; 32; 32];
   [88; 88; 32; 32; 88; 46; 46; 88; 32; 32; 32; 32];
   [88; 32; 32; 32; 32; 88; 88; 32; 32; 32; 32; 32];
   [32; 32; 32; 32; 32; 88; 88; 32; 32; 32; 32; 32]].

Definition draw_mouse_cursor (st : comp) : comp :=
  for_range 0 16 (λ cy st,
    for_range 0 12 (λ cx st,
      let px := s32 (mouse_x st + cx) in
      let py := s32 (mouse_y st + cy) in
      if on_screen px py st then
        let pixel_type :=
          default 0 (cursor_shape !! Z.to_nat cy ≫= λ r, r !! Z.to_nat cx) in
        if pixel_type =? 88 then ctx_store px py (u32 0xFFFFFFFF) st
        else if pixel_type =? 46 then ctx_store px py (u32 0xFF000000) st
        else st
      else st) st) st.

(** graphics.c: [graphics_swap_buffers]. The [memcpy] to the
    framebuffer copies [width * height * 4] bytes (32-bit arithmetic)
    of the back buffer, which both buffers must hold; the GPU driver
    behind [virtio_gpu_flush] is the device boundary and is recorded as
    the rectangle flushed. *)
Definition graphics_swap_buffers (st : comp) : comp :=
  let c := g_ctx st in
  if (ctx_buffer c =? 0) || (fb_base_addr st =? 0) then st
  else
    let n := u32 (u32 (ctx_width c * ctx_height c) * 4) / 4 in
    let m :=
      if n =? 0 then pixels st
      else
        match pixels st !! ctx_buffer c, pixels st !! fb_base_addr st with
        | Some src, Some dst =>
            if (n <=? Z.of_nat (length src)) && (n <=? Z.of_nat (length dst))
            then <[fb_base_addr st := take (Z.to_nat n) src ++ drop (Z.to_nat n) dst]>
                   (pixels st)
            else spoil (pixels st)
        | _, _ => spoil (pixels st)
        end in
    log_flush (0, 0, ctx_width c, ctx_height c) (set_pixels m st).

(** One pass of the inner loop of the bubble sort, [j] from 0. *)
Definition bubble_pass (upto : Z) (l : list window) : list window :=
  for_range 0 upto (λ j l,
    match l !! Z.to_nat j, l !! Z.to_nat (j + 1) with
    | Some a, Some b =>
        if z_order b <? z_order a then <[Z.to_nat (j + 1) := a]> (<[Z.to_nat j := b]> l)
        else l
    | _, _ => l
    end) l.

Definition sort_by_z (l : list window) : list window :=
  let count := Z.of_nat (length l) in
  for_range 0 (count - 1) (λ k l, bubble_pass (count - k - 1) l) l.

(** The blit of one window: each pixel of the window that falls on
    the screen is loaded from the window's buffer (a load outside that
    buffer is an access outside a buffer), blended with the pixel of
    the back buffer at the place of the store, and stored there. *)
Definition blit_window (win : window) (st : comp) : comp :=
  for_range 0 (height win) (λ wy st,
    for_range 0 (width win) (λ wx st,
      let px := s32 (x win + wx) in
      let py := s32 (y win + wy) in
      if on_screen px py st then
        if in_buffer (pixels st) (buffer win) (s32 (s32 (wy * width win) + wx)) then
          let src := peek (pixels st) (buffer win) (s32 (s32 (wy * width win) + wx)) in
          let dst := peek (pixels st) (ctx_buffer (g_ctx st))
                          (u32 (u32 (py * ctx_width (g_ctx st)) + px)) in
          ctx_store px py (blend_pixel src dst) st
        else set_pixels (spoil (pixels st)) st
      else st) st) st.

(** [compositor_render] *)
Definition compositor_render (st : comp) : comp :=
  if ctx_buffer (g_ctx st) =? 0 then st
  else
    let c := g_ctx st in
    let st :=
      for_range 0 (ctx_height c) (λ gy st,
        for_range 0 (ctx_width c) (λ gx st,
          let r := 20 in
          let g := u32 (40 + u32 (gy * 40) / ctx_height c) in
          let b := u32 (80 + u32 (gy * 80) / ctx_height c) in
          ctx_store gx gy
            (Z.lor (Z.lor (Z.lor 0xFF000000 (u32 (Z.shiftl r 16))) (u32 (Z.shiftl g 8))) b)
            st) st) st in
    let shown :=
      filter (λ win, id win ≠ 0 ∧ visible win ≠ 0) (take 16 (windows st)) in
    let st :=
      foldl (λ st win, blit_window win (draw_window_decorations win st)) st
            (sort_by_z shown) in
    graphics_swap_buffers (draw_mouse_cursor st).

(** [compositor_window_write]; [buf] holds the [count] bytes the caller
    passed. *)
Definition compositor_window_write (win_id : Z) (buf : list Z) (st : comp) : comp :=
  match list_find (λ win, id win = win_id) (take 16 (windows st)) with
  | None => st
  | Some (i, win) =>
      if buffer win =? 0 then st
      else
        let st := local_irq_disable st in
        let cols := Z.quot (width win) 8 in
        let rows := Z.quot (height win) 16 in
        let screen := g_ctx st in
        let st := set_ctx (mkCtx (u32 (width win)) (u32 (height win)) (ctx_bpp screen)
                                 (ctx_stride screen) (buffer win)) st in
        let st := foldl (λ st c, wrap_and_scroll i cols rows (terminal_byte win_id i c st))
                        st buf in
        let st := set_ctx (mkCtx (ctx_width screen) (ctx_height screen) (ctx_bpp (g_ctx st))
                                 (ctx_stride (g_ctx st)) (ctx_buffer screen)) st in
        local_irq_enable (compositor_render st)
  end.

(** [compositor_create_window]; [title] holds the bytes of the title
    string. The result is the value returned and the state left; [None]
    is a fault inside the heap. *)
Definition compositor_create_window (wx wy w h : Z) (title : list Z) (p : Z) (st : comp)
    : option (Z * comp) :=
  let st := local_irq_disable st in
  if MAX_WINDOWS <=? window_count st then
    Some (-1, local_irq_enable (log_cmsg Max_windows_reached st))
  else
    match list_find (λ win, id win = 0) (take 16 (windows st)) with
    | None => Some (-1, st)
    | Some (slot, old) =>
        let buffer_size := u64 (u64 (s32 (s32 (w * h))) * 4) in
        r ← Kmalloc.kmalloc buffer_size (heap st);
        let st := set_heap r.2 st in
        if r.1 =? 0 then Some (-1, log_cmsg Buffer_allocation_failed st)
        else
          let st := set_pixels (fill r.1 0 (s32 (w * h)) BACKGROUND
                                  (<[r.1 := replicate (Z.to_nat (s32 (w * h))) 0]> (pixels st)))
                               st in
          let win :=
            mkWindow (next_window_id st) wx wy w h (window_count st) 1 p
                     (if p =? 2 then 1 else 0) r.1 BACKGROUND (take 63 title)
                     0 0 WHITE 0 (escape_buf old) 0 in
          let st := set_counters (window_count st) (s32 (next_window_id st + 1)) st in
          let st := set_win slot win st in
          let st := set_pixels (fill r.1 0 (s32 (w * h)) (bg_color win) (pixels st)) st in
          let st := set_counters (s32 (window_count st + 1)) (next_window_id st) st in
          Some (id win, local_irq_enable (log_cmsg (Created title w h wx wy) st))
    end.

End Terminal.

(** *** Pixel memory: what a store changes *)

Lemma pix_lookup_insert_eq (m : pixmem) k l : (<[k := l]> m : pixmem) !! k = Some l.
Proof. unfold lookup, insert, pixmem_lookup, pixmem_insert. simpl. apply lookup_insert_eq. Qed.

Lemma pix_lookup_insert_ne (m : pixmem) k k' l :
  k ≠ k' → (<[k := l]> m : pixmem) !! k' = m !! k'.
Proof.
  intros Hk. unfold lookup, insert, pixmem_lookup, pixmem_insert. simpl.
  by apply lookup_insert_ne.
Qed.

Lemma pix_insert_intact (m : pixmem) k l : intact (<[k := l]> m : pixmem) = intact m.
Proof. reflexivity. Qed.

Lemma lookup_spoil m k : spoil m !! k = m !! k.
Proof. reflexivity. Qed.

Lemma poke_other p idx v m k : k ≠ p → poke p idx v m !! k = m !! k.
Proof.
  intros Hk. unfold poke. destruct (m !! p); [| done].
  destruct ((0 <=? idx) && (idx <? Z.of_nat (length l))); [| done].
  by rewrite pix_lookup_insert_ne.
Qed.

Lemma poke_length p idx v m :
  length <$> poke p idx v m !! p = length <$> m !! p.
Proof.
  unfold poke. destruct (m !! p) as [l |] eqn:Hl; [| by rewrite lookup_spoil, Hl].
  destruct ((0 <=? idx) && (idx <? Z.of_nat (length l))); [| by rewrite lookup_spoil, Hl].
  rewrite pix_lookup_insert_eq. simpl. by rewrite length_insert.
Qed.

Lemma poke_intact p idx v m l :
  m !! p = Some l → 0 <= idx < Z.of_nat (length l) →
  intact (poke p idx v m) = intact m.
Proof.
  intros Hl Hidx. unfold poke. rewrite Hl.
  destruct (Z.leb_spec 0 idx); [| lia].
  destruct (Z.ltb_spec idx (Z.of_nat (length l))); [| lia]. done.
Qed.

Lemma peek_poke p idx v m j l :
  m !! p = Some l → 0 <= idx < Z.of_nat (length l) → 0 <= j →
  peek (poke p idx v m) p j = if j =? idx then v else peek m p j.
Proof.
  intros Hl Hidx Hj. unfold peek, poke. rewrite Hl.
  destruct (Z.leb_spec 0 idx); [| lia]. destruct (Z.leb_spec 0 j); [| lia].
  destruct (Z.ltb_spec idx (Z.of_nat (length l))); [| lia]. cbn [andb].
  rewrite pix_lookup_insert_eq. simpl.
  destruct (Z.eqb_spec j idx) as [-> | Hne].
  - rewrite list_lookup_insert_eq by lia. done.
  - rewrite list_lookup_insert_ne by lia. done.
Qed.

(** [same_shape p m m']: [m'] differs from [m] at most in the contents
    of the buffer at [p], which keeps its length, and no access on the
    way from [m] to [m'] went outside a buffer. *)
Definition same_shape (p : Z) (m m' : pixmem) : Prop :=
  (∀ k, k ≠ p → m' !! k = m !! k) ∧ length <$> m' !! p = length <$> m !! p ∧
  intact m' = intact m.

Lemma same_shape_refl p m : same_shape p m m.
Proof. by split. Qed.

Lemma same_shape_trans p m1 m2 m3 :
  same_shape p m1 m2 → same_shape p m2 m3 → same_shape p m1 m3.
Proof.
  intros (H1 & H1' & H1'') (H2 & H2' & H2''). split; [| split; congruence].
  intros k Hk. by rewrite H2, H1.
Qed.

Lemma same_shape_poke p idx v m l :
  m !! p = Some l → 0 <= idx < Z.of_nat (length l) → same_shape p m (poke p idx v m).
Proof.
  intros Hl Hidx.
  split; [intros; by apply poke_other |]. split; [apply poke_length |].
  by eapply poke_intact.
Qed.

(** *** Two nested loops that paint a masked rectangle *)

Section Paint.

Context {S : Type}.
Variable Inv : S → Prop.
Variable obs : S → Z → Z → Z.
Variable R : S → S → Prop.
Variable put : Z → Z → S → S.
Variable hit : Z → Z → bool.
Variables x0 y0 color ncols nrows W H : Z.

Hypothesis R_refl : ∀ s, R s s.
Hypothesis R_trans : ∀ a b c, R a b → R b c → R a c.
Hypothesis put_spec : ∀ col row s,
  0 <= col < ncols → 0 <= row < nrows → Inv s →
  Inv (put col row s) ∧ R s (put col row s) ∧
  ∀ px py, 0 <= px < W → 0 <= py < H →
    obs (put col row s) px py =
      if hit col row && (px =? x0 + col) && (py =? y0 + row) then color else obs s px py.

Definition painted (cols rows px py : Z) : bool :=
  (0 <=? px - x0) && (px - x0 <? cols) && (0 <=? py - y0) && (py - y0 <? rows) &&
  hit (px - x0) (py - y0).

Lemma paint_row row s :
  0 <= row < nrows → Inv s →
  Inv (for_range 0 ncols (λ col s, put col row s) s) ∧
  R s (for_range 0 ncols (λ col s, put col row s) s) ∧
  ∀ px py, 0 <= px < W → 0 <= py < H →
    obs (for_range 0 ncols (λ col s, put col row s) s) px py =
      if painted ncols (row + 1) px py && (py =? y0 + row) then color else obs s px py.
Proof.
  intros Hrow Hinv. destruct (Z_lt_ge_dec ncols 0) as [Hneg | Hpos].
  { rewrite for_range_empty by lia. split; [done |]. split; [apply R_refl |].
    intros px py Hpx Hpy.
    unfold painted. destruct (Z.ltb_spec (px - x0) ncols), (Z.leb_spec 0 (px - x0));
      simpl; try done; lia. }
  apply (for_range_invariant
    (λ k s', Inv s' ∧ R s s' ∧ ∀ px py, 0 <= px < W → 0 <= py < H →
       obs s' px py = if painted k (row + 1) px py && (py =? y0 + row) then color
                      else obs s px py)); [lia | |].
  - split; [done |]. split; [apply R_refl |]. intros px py Hpx Hpy. unfold painted.
    destruct (Z.ltb_spec (px - x0) 0), (Z.leb_spec 0 (px - x0)); simpl; try done; lia.
  - intros col s' Hcol (Hinv' & HR & Hobs).
    destruct (put_spec col row s' Hcol Hrow Hinv') as (Hinv'' & HR' & Hput).
    split; [done |]. split; [by eapply R_trans |]. intros px py Hpx Hpy.
    rewrite Hput, Hobs by done. unfold painted.
    destruct (Z.eqb_spec px (x0 + col)) as [-> | Hne];
      destruct (Z.eqb_spec py (y0 + row)) as [-> | Hne'].
    + replace (x0 + col - x0) with col by lia.
      replace (y0 + row - y0) with row by lia.
      destruct (hit col row); simpl.
      * destruct (Z.leb_spec 0 col), (Z.ltb_spec col (col + 1)),
          (Z.leb_spec 0 row), (Z.ltb_spec row (row + 1)); simpl; try done; lia.
      * by rewrite !andb_false_r.
    + rewrite !andb_false_r. done.
    + rewrite andb_false_r. simpl.
      destruct (Z.ltb_spec (px - x0) col), (Z.ltb_spec (px - x0) (col + 1));
        try done; try lia.
    + rewrite !andb_false_r. done.
Qed.

Lemma paint_spec s :
  Inv s →
  Inv (for_range 0 nrows (λ row s, for_range 0 ncols (λ col s, put col row s) s) s) ∧
  R s (for_range 0 nrows (λ row s, for_range 0 ncols (λ col s, put col row s) s) s) ∧
  ∀ px py, 0 <= px < W → 0 <= py < H →
    obs (for_range 0 nrows (λ row s, for_range 0 ncols (λ col s, put col row s) s) s) px py =
      if painted ncols nrows px py then color else obs s px py.
Proof.
  intros Hinv. destruct (Z_lt_ge_dec nrows 0) as [Hneg | Hpos].
  { rewrite for_range_empty by lia. split; [done |]. split; [apply R_refl |].
    intros px py Hpx Hpy.
    unfold painted. destruct (Z.ltb_spec (py - y0) nrows), (Z.leb_spec 0 (py - y0));
      simpl; rewrite ?andb_false_r; try done; lia. }
  apply (for_range_invariant
    (λ k s', Inv s' ∧ R s s' ∧ ∀ px py, 0 <= px < W → 0 <= py < H →
       obs s' px py = if painted ncols k px py then color else obs s px py)); [lia | |].
  - split; [done |]. split; [apply R_refl |]. intros px py Hpx Hpy. unfold painted.
    destruct (Z.ltb_spec (py - y0) 0), (Z.leb_spec 0 (py - y0));
      simpl; rewrite ?andb_false_r; try done; lia.
  - intros row s' Hrow (Hinv' & HR & Hobs).
    destruct (paint_row row s' Hrow Hinv') as (Hinv'' & HR' & Hput).
    split; [done |]. split; [by eapply R_trans |]. intros px py Hpx Hpy.
    rewrite Hput, Hobs by done. unfold painted.
    destruct (Z.eqb_spec py (y0 + row)) as [-> | Hne].
    + replace (y0 + row - y0) with row by lia.
      destruct (Z.leb_spec 0 row), (Z.ltb_spec row (row + 1)), (Z.ltb_spec row row);
        try lia. simpl. rewrite !andb_true_r, !andb_false_r. simpl.
      by destruct ((0 <=? px - x0) && (px - x0 <? ncols) && hit (px - x0) row).
    + rewrite andb_false_r.
      destruct (Z.ltb_spec (py - y0) row), (Z.ltb_spec (py - y0) (row + 1));
        try done; lia.
Qed.

End Paint.

(** *** The clipped fill *)

(** A window whose pixel buffer is there and [width * height] long. *)
Record buffer_ok (win : window) (m : pixmem) : Prop := mkBufferOk {
  bo_width : 0 <= width win < 2 ^ 31;
  bo_height : 0 <= height win < 2 ^ 31;
  bo_area : width win * height win < 2 ^ 31;
  bo_length : length <$> m !! buffer win = Some (Z.to_nat (width win * height win))
}.

Lemma buffer_ok_shape win m m' :
  same_shape (buffer win) m m' → buffer_ok win m → buffer_ok win m'.
Proof. intros (_ & Hl & _) [? ? ? ?]. constructor; auto. congruence. Qed.

Lemma pixel_index_inj W px py px' py' :
  0 <= px < W → 0 <= px' < W → py * W + px = py' * W + px' → px = px' ∧ py = py'.
Proof.
  intros Hpx Hpx' Heq.
  assert (py = py').
  { destruct (Z.lt_trichotomy py py') as [Hlt | [-> | Hgt]]; [| done |]; nia. }
  subst. lia.
Qed.

Lemma s32_clip a W :
  - 2 ^ 31 <= a < 2 ^ 32 → 0 <= W <= 2 ^ 31 →
  (0 <=? s32 a) && (s32 a <? W) = (0 <=? a) && (a <? W) ∧
  ((0 <=? a) && (a <? W) = true → s32 a = a).
Proof.
  intros Ha HW. destruct (Z_lt_ge_dec a (2 ^ 31)) as [Hlt | Hge].
  - rewrite s32_small by lia. done.
  - assert (Hs : s32 a = a - 2 ^ 32).
    { unfold s32. replace (a + 2 ^ 31) with (a - 2 ^ 31 + 1 * 2 ^ 32) by lia.
      rewrite Z.mod_add by lia. rewrite Z.mod_small by lia. lia. }
    rewrite Hs. split.
    + destruct (Z.leb_spec 0 (a - 2 ^ 32)), (Z.leb_spec 0 a), (Z.ltb_spec a W);
        simpl; try done; lia.
    + destruct (Z.leb_spec 0 a), (Z.ltb_spec a W); simpl; try done; lia.
Qed.

Lemma fill_rect_spec win rx ry rw rh color m :
  buffer_ok win m →
  - 2 ^ 31 <= rx < 2 ^ 31 → - 2 ^ 31 <= ry < 2 ^ 31 → rw < 2 ^ 31 → rh < 2 ^ 31 →
  buffer_ok win (fill_rect win rx ry rw rh color m) ∧
  same_shape (buffer win) m (fill_rect win rx ry rw rh color m) ∧
  ∀ px py, 0 <= px < width win → 0 <= py < height win →
    peek (fill_rect win rx ry rw rh color m) (buffer win) (py * width win + px) =
      if (rx <=? px) && (px <? rx + rw) && (ry <=? py) && (py <? ry + rh) then color
      else peek m (buffer win) (py * width win + px).
Proof.
  intros Hok Hrx Hry Hrw Hrh. unfold fill_rect.
  pose proof (paint_spec (buffer_ok win)
                (λ m px py, peek m (buffer win) (py * width win + px))
                (same_shape (buffer win))
                (λ dx dy m,
                   let px := s32 (rx + dx) in
                   let py := s32 (ry + dy) in
                   if (0 <=? px) && (px <? width win) && (0 <=? py) && (py <? height win)
                   then poke (buffer win) (s32 (s32 (py * width win) + px)) color m
                   else m)
                (λ dx dy, (0 <=? rx + dx) && (rx + dx <? width win) &&
                          (0 <=? ry + dy) && (ry + dy <? height win))
                rx ry color rw rh (width win) (height win)
                (same_shape_refl (buffer win)) (same_shape_trans (buffer win))) as Hpaint.
  destruct (Hpaint) with (s := m) as (Hinv & HR & Hobs); [| done |].
  - clear Hpaint. intros dx dy m' Hdx Hdy Hok'. cbv zeta.
    pose proof Hok' as [HW HH Harea Hlen].
    destruct (s32_clip (rx + dx) (width win) ltac:(lia) ltac:(lia)) as [Hcx Hsx].
    destruct (s32_clip (ry + dy) (height win) ltac:(lia) ltac:(lia)) as [Hcy Hsy].
    rewrite <- andb_assoc, Hcx, Hcy, andb_assoc.
    destruct ((0 <=? rx + dx) && (rx + dx <? width win)) eqn:Hx; simpl;
      [| split; [done |]; split; [apply same_shape_refl | done]].
    destruct ((0 <=? ry + dy) && (ry + dy <? height win)) eqn:Hy; simpl;
      [| split; [done |]; split; [apply same_shape_refl | done]].
    rewrite Hsx, Hsy by done.
    apply andb_prop in Hx as [Hx1 Hx2]. apply andb_prop in Hy as [Hy1 Hy2].
    apply Z.leb_le in Hx1, Hy1. apply Z.ltb_lt in Hx2, Hy2.
    assert (Hidx : 0 <= (ry + dy) * width win + (rx + dx) < width win * height win) by nia.
    rewrite (s32_small ((ry + dy) * width win)) by nia.
    rewrite s32_small by lia.
    destruct (m' !! buffer win) as [l |] eqn:Hl; [| done].
    simpl in Hlen. injection Hlen as Hlen.
    assert (Hshape : same_shape (buffer win) m' (poke (buffer win) ((ry + dy) * width win + (rx + dx)) color m'))
      by (apply (same_shape_poke _ _ _ _ l); [done | lia]).
    split; [eapply buffer_ok_shape; [exact Hshape | done] |].
    split; [exact Hshape |].
    intros px py Hpx Hpy.
    rewrite (peek_poke _ _ _ _ _ l) by (try done; nia).
    destruct (Z.eqb_spec (py * width win + px) ((ry + dy) * width win + (rx + dx)))
      as [Heq | Hne].
    + apply pixel_index_inj in Heq as [-> ->]; [| lia | lia].
      by rewrite !Z.eqb_refl.
    + destruct (Z.eqb_spec px (rx + dx)) as [-> |]; [| done].
      destruct (Z.eqb_spec py (ry + dy)) as [-> |]; [| done]. done.
  - split; [done |]. split; [done |]. intros px py Hpx Hpy.
    rewrite Hobs by done. unfold painted.
    replace (rx + (px - rx)) with px by lia. replace (ry + (py - ry)) with py by lia.
    destruct (Z.leb_spec 0 (px - rx)), (Z.leb_spec rx px), (Z.ltb_spec (px - rx) rw),
      (Z.ltb_spec px (rx + rw)), (Z.leb_spec 0 (py - ry)), (Z.leb_spec ry py),
      (Z.ltb_spec (py - ry) rh), (Z.ltb_spec py (ry + rh)),
      (Z.leb_spec 0 px), (Z.ltb_spec px (width win)),
      (Z.leb_spec 0 py), (Z.ltb_spec py (height win)); simpl; try done; lia.
Qed.

(** *** A small desktop: a 64x48 screen, a 24x32 window of process 2 and
    a 16x16 window of process 3 *)

Definition demo_window (n wx wy w h p buf : Z) : window :=
  mkWindow n wx wy w h (n - 1) 1 p (if p =? 2 then 1 else 0) buf BACKGROUND [119]
           0 0 WHITE 0 (replicate 32 0) 0.

Definition comp_demo : comp :=
  mkComp ([demo_window 1 4 24 24 32 2 0x40100020; demo_window 2 34 24 16 16 3 0x40100c40]
            ++ replicate 14 zero_window)
         2 3 32 24 (mkCtx 64 48 32 256 0x41000000) 0x42000000
         (<[0x40100020 := replicate 768 BACKGROUND]>
            (<[0x40100c40 := replicate 256 BACKGROUND]>
               (<[0x41000000 := replicate 3072 0]>
                  (<[0x42000000 := replicate 3072 0]> (∅ : pixmem)))))
         true [] [] Kmalloc.heap_demo.

Lemma comp_demo_buffer_ok :
  buffer_ok (demo_window 1 4 24 24 32 2 0x40100020) (pixels comp_demo).
Proof. constructor; vm_compute; repeat split; try reflexivity; discriminate. Qed.

(** C4. For a call of [compositor_draw_rect] (reached from syscall 211
    with the caller's process identifier) that names a window with a
    pixel buffer: if the caller is neither the owner nor process 1, the
    call logs a warning and leaves every pixel buffer, and every window
    record, as it was; otherwise nothing is logged, and each pixel of
    the window is the given color if it lies in the requested rectangle
    and keeps its value if not, nothing outside the window's buffer
    being written. *)
Theorem compositor_draw_rect_ownership
    (window_id rx ry rw rh color caller : Z) (st : comp) (i : nat) (win : window) :
  list_find (λ w, id w = window_id ∧ buffer w ≠ 0) (take 16 (windows st)) = Some (i, win) →
  buffer_ok win (pixels st) →
  - 2 ^ 31 <= rx < 2 ^ 31 → - 2 ^ 31 <= ry < 2 ^ 31 → rw < 2 ^ 31 → rh < 2 ^ 31 →
  (pid win ≠ caller ∧ caller ≠ 1 →
     clog (compositor_draw_rect window_id rx ry rw rh color caller st)
       = Draw_denied caller window_id (pid win) :: clog st ∧
     pixels (compositor_draw_rect window_id rx ry rw rh color caller st) = pixels st ∧
     windows (compositor_draw_rect window_id rx ry rw rh color caller st) = windows st) ∧
  (pid win = caller ∨ caller = 1 →
     clog (compositor_draw_rect window_id rx ry rw rh color caller st) = clog st ∧
     windows (compositor_draw_rect window_id rx ry rw rh color caller st) = windows st ∧
     same_shape (buffer win) (pixels st)
       (pixels (compositor_draw_rect window_id rx ry rw rh color caller st)) ∧
     ∀ px py, 0 <= px < width win → 0 <= py < height win →
       peek (pixels (compositor_draw_rect window_id rx ry rw rh color caller st))
            (buffer win) (py * width win + px) =
         if (rx <=? px) && (px <? rx + rw) && (ry <=? py) && (py <? ry + rh) then color
         else peek (pixels st) (buffer win) (py * width win + px)).
Proof.
  intros Hfind Hok Hrx Hry Hrw Hrh. unfold compositor_draw_rect.
  change (windows (local_irq_disable st)) with (windows st). rewrite Hfind. split.
  - intros [Hp Hc].
    destruct (Z.eqb_spec (pid win) caller); [done |].
    destruct (Z.eqb_spec caller 1); [done |]. simpl. done.
  - intros Hown.
    assert (Hpass : negb (pid win =? caller) && negb (caller =? 1) = false).
    { destruct Hown as [-> | ->]; [by rewrite Z.eqb_refl |]. apply andb_false_r. }
    rewrite Hpass. simpl.
    destruct (fill_rect_spec win rx ry rw rh color (pixels st) Hok Hrx Hry Hrw Hrh)
      as (_ & Hshape & Hpix).
    done.
Qed.

Lemma compositor_draw_rect_ownership_witness :
  (pid (demo_window 1 4 24 24 32 2 0x40100020) ≠ 3 ∧ 3 ≠ 1 →
     clog (compositor_draw_rect 1 2 2 10 10 0xFFFF0000 3 comp_demo)
       = Draw_denied 3 1 (pid (demo_window 1 4 24 24 32 2 0x40100020)) :: clog comp_demo ∧
     pixels (compositor_draw_rect 1 2 2 10 10 0xFFFF0000 3 comp_demo) = pixels comp_demo ∧
     windows (compositor_draw_rect 1 2 2 10 10 0xFFFF0000 3 comp_demo) = windows comp_demo) ∧
  (pid (demo_window 1 4 24 24 32 2 0x40100020) = 3 ∨ 3 = 1 →
     clog (compositor_draw_rect 1 2 2 10 10 0xFFFF0000 3 comp_demo) = clog comp_demo ∧
     windows (compositor_draw_rect 1 2 2 10 10 0xFFFF0000 3 comp_demo) = windows comp_demo ∧
     same_shape (buffer (demo_window 1 4 24 24 32 2 0x40100020)) (pixels comp_demo)
       (pixels (compositor_draw_rect 1 2 2 10 10 0xFFFF0000 3 comp_demo)) ∧
     ∀ px py, 0 <= px < width (demo_window 1 4 24 24 32 2 0x40100020) →
       0 <= py < height (demo_window 1 4 24 24 32 2 0x40100020) →
       peek (pixels (compositor_draw_rect 1 2 2 10 10 0xFFFF0000 3 comp_demo))
            (buffer (demo_window 1 4 24 24 32 2 0x40100020))
            (py * width (demo_window 1 4 24 24 32 2 0x40100020) + px) =
         if (2 <=? px) && (px <? 2 + 10) && (2 <=? py) && (py <? 2 + 10) then 0xFFFF0000
         else peek (pixels comp_demo) (buffer (demo_window 1 4 24 24 32 2 0x40100020))
                   (py * width (demo_window 1 4 24 24 32 2 0x40100020) + px)).
Proof.
  apply (compositor_draw_rect_ownership 1 2 2 10 10 0xFFFF0000 3 comp_demo 0
           (demo_window 1 4 24 24 32 2 0x40100020)).
  - reflexivity.
  - exact comp_demo_buffer_ok.
  - lia.
  - lia.
  - lia.
  - lia.
Defined.

(** C7 on the code. Of the four return paths of
    [compositor_create_window], two re-enable interrupts: the table-full
    path and the success path. A request whose pixel buffer cannot be
    allocated (here a window of width 0, for which [kmalloc(0)] returns
    [NULL]) and a request that finds no slot with identifier 0 return -1
    with interrupts still masked. *)
Theorem create_window_irq_on_return :
  (λ r, (r.1, irq_enabled r.2)) <$> compositor_create_window 10 10 0 0 [119] 2 comp_demo
    = Some (-1, false) ∧
  (λ r, (r.1, irq_enabled r.2)) <$>
    compositor_create_window 10 10 8 8 [119] 2
      (set_windows (replicate 16 (demo_window 1 4 24 24 32 2 0x40100020)) comp_demo)
    = Some (-1, false) ∧
  (λ r, (r.1, irq_enabled r.2)) <$>
    compositor_create_window 10 10 8 8 [119] 2 (set_counters 16 17 comp_demo)
    = Some (-1, true) ∧
  (λ r, (r.1, irq_enabled r.2)) <$> compositor_create_window 10 10 8 8 [119] 2 comp_demo
    = Some (3, true).
Proof. vm_compute. repeat split; reflexivity. Qed.

(** *** Loops that stay inside a relation, loops that commute with an
    embedding *)

Lemma for_range_rel {A : Type} (R : A → A → Prop) (body : Z → A → A) lo hi a :
  (∀ s, R s s) → (∀ s1 s2 s3, R s1 s2 → R s2 s3 → R s1 s3) →
  (∀ j s, R s (body j s)) → R a (for_range lo hi body a).
Proof.
  intros Hrefl Htrans Hbody. destruct (Z_lt_ge_dec hi lo) as [Hlt | Hge].
  - rewrite for_range_empty by lia. apply Hrefl.
  - apply (for_range_invariant (λ _ s, R a s)); [lia | apply Hrefl |].
    intros j b _ Hb. eapply Htrans; [exact Hb | apply Hbody].
Qed.

Lemma for_loop_embed {A B : Type} (g : A → B) (f : Z → B → B) (f' : Z → A → A) n :
  (∀ j a, f j (g a) = g (f' j a)) →
  ∀ i a, for_loop i n f (g a) = g (for_loop i n f' a).
Proof.
  intros Hf. induction n as [| n IH]; intros i a; simpl; [done |].
  by rewrite Hf, IH.
Qed.

Lemma for_range_embed {A B : Type} (g : A → B) (f : Z → B → B) (f' : Z → A → A) lo hi a :
  (∀ j a, f j (g a) = g (f' j a)) →
  for_range lo hi f (g a) = g (for_range lo hi f' a).
Proof. intros Hf. unfold for_range. by apply for_loop_embed. Qed.

(** *** Glyphs on the pixel memory *)

(** [graphics_put_pixel] and [graphics_draw_char] as functions of the
    pixel memory alone, for a fixed context. *)
Definition put_pixel_in (c : graphics_context) (px py color : Z) (m : pixmem)
    : pixmem :=
  if ctx_buffer c =? 0 then m
  else if (ctx_width c <=? px) || (ctx_height c <=? py) then m
  else poke (ctx_buffer c) (u32 (u32 (py * ctx_width c) + px)) color m.

Definition draw_char_in (font : Z → Z → Z → bool) (c : graphics_context)
    (px py ch color : Z) (m : pixmem) : pixmem :=
  for_range 0 16 (λ row m,
    for_range 0 8 (λ col m,
      if font ch row col then put_pixel_in c (u32 (px + col)) (u32 (py + row)) color m
      else m) m) m.

Lemma graphics_put_pixel_in px py color m st :
  graphics_put_pixel px py color (set_pixels m st)
  = set_pixels (put_pixel_in (g_ctx st) px py color m) st.
Proof.
  unfold graphics_put_pixel, put_pixel_in. simpl.
  destruct (ctx_buffer (g_ctx st) =? 0); [done |].
  destruct ((ctx_width (g_ctx st) <=? px) || (ctx_height (g_ctx st) <=? py)); done.
Qed.

Lemma graphics_draw_char_in font px py ch color m st :
  graphics_draw_char font px py ch color (set_pixels m st)
  = set_pixels (draw_char_in font (g_ctx st) px py ch color m) st.
Proof.
  unfold graphics_draw_char, draw_char_in.
  apply (for_range_embed (λ m, set_pixels m st)). intros row m'.
  apply (for_range_embed (λ m, set_pixels m st)). intros col m''.
  destruct (font ch row col); [apply graphics_put_pixel_in | done].
Qed.

Lemma set_pixels_id st : set_pixels (pixels st) st = st.
Proof. by destruct st. Qed.

(** The context [compositor_window_write] installs for a window. *)
Definition window_ctx (win : window) (screen : graphics_context) : graphics_context :=
  mkCtx (u32 (width win)) (u32 (height win)) (ctx_bpp screen) (ctx_stride screen)
        (buffer win).

Lemma u32_small a : 0 <= a < 2 ^ 32 → u32 a = a.
Proof. intros H. unfold u32. apply Z.mod_small. lia. Qed.

Lemma draw_char_in_spec font win screen x0 y0 ch color m :
  buffer_ok win m → buffer win ≠ 0 →
  0 <= x0 < 2 ^ 31 → 0 <= y0 < 2 ^ 31 →
  buffer_ok win (draw_char_in font (window_ctx win screen) x0 y0 ch color m) ∧
  same_shape (buffer win) m (draw_char_in font (window_ctx win screen) x0 y0 ch color m) ∧
  ∀ px py, 0 <= px < width win → 0 <= py < height win →
    peek (draw_char_in font (window_ctx win screen) x0 y0 ch color m)
         (buffer win) (py * width win + px) =
      if (x0 <=? px) && (px <? x0 + 8) && (y0 <=? py) && (py <? y0 + 16) &&
         font ch (py - y0) (px - x0)
      then color else peek m (buffer win) (py * width win + px).
Proof.
  intros Hok Hbuf Hx0 Hy0. unfold draw_char_in.
  pose proof (paint_spec (buffer_ok win)
                (λ m px py, peek m (buffer win) (py * width win + px))
                (same_shape (buffer win))
                (λ col row m,
                   if font ch row col
                   then put_pixel_in (window_ctx win screen) (u32 (x0 + col)) (u32 (y0 + row))
                          color m
                   else m)
                (λ col row, font ch row col && (x0 + col <? width win) &&
                            (y0 + row <? height win))
                x0 y0 color 8 16 (width win) (height win)
                (same_shape_refl (buffer win)) (same_shape_trans (buffer win))) as Hpaint.
  destruct (Hpaint) with (s := m) as (Hinv & HR & Hobs); [| done |].
  - clear Hpaint. intros col row m' Hcol Hrow Hok'.
    pose proof Hok' as [HW HH Harea Hlen].
    destruct (font ch row col); simpl;
      [| split; [done |]; split; [apply same_shape_refl | done]].
    unfold put_pixel_in, window_ctx. simpl.
    destruct (Z.eqb_spec (buffer win) 0); [done |].
    rewrite (u32_small (width win)), (u32_small (height win)) by lia.
    rewrite (u32_small (x0 + col)), (u32_small (y0 + row)) by lia.
    destruct (Z.leb_spec (width win) (x0 + col)), (Z.ltb_spec (x0 + col) (width win));
      try lia; simpl; [split; [done |]; split; [apply same_shape_refl | done] |].
    destruct (Z.leb_spec (height win) (y0 + row)), (Z.ltb_spec (y0 + row) (height win));
      try lia; simpl; [split; [done |]; split; [apply same_shape_refl | done] |].
    assert (Hidx : 0 <= (y0 + row) * width win + (x0 + col) < width win * height win) by nia.
    rewrite (u32_small ((y0 + row) * width win)) by nia.
    rewrite u32_small by lia.
    destruct (m' !! buffer win) as [l |] eqn:Hl; [| done].
    simpl in Hlen. injection Hlen as Hlen.
    assert (Hshape : same_shape (buffer win) m' (poke (buffer win) ((y0 + row) * width win + (x0 + col)) color m'))
      by (apply (same_shape_poke _ _ _ _ l); [done | lia]).
    split; [eapply buffer_ok_shape; [exact Hshape | done] |].
    split; [exact Hshape |].
    intros px py Hpx Hpy.
    rewrite (peek_poke _ _ _ _ _ l) by (try done; nia).
    destruct (Z.eqb_spec (py * width win + px) ((y0 + row) * width win + (x0 + col)))
      as [Heq | Hne].
    + apply pixel_index_inj in Heq as [-> ->]; [| lia | lia].
      by rewrite !Z.eqb_refl.
    + destruct (Z.eqb_spec px (x0 + col)) as [-> |]; [| done].
      destruct (Z.eqb_spec py (y0 + row)) as [-> |]; [| done]. done.
  - split; [done |]. split; [done |]. intros px py Hpx Hpy.
    rewrite Hobs by done. unfold painted.
    replace (x0 + (px - x0)) with px by lia. replace (y0 + (py - y0)) with py by lia.
    destruct (font ch (py - y0) (px - x0)); rewrite ?andb_false_r; [| done].
    destruct (Z.leb_spec 0 (px - x0)), (Z.leb_spec x0 px), (Z.ltb_spec (px - x0) 8),
      (Z.ltb_spec px (x0 + 8)), (Z.leb_spec 0 (py - y0)), (Z.leb_spec y0 py),
      (Z.ltb_spec (py - y0) 16), (Z.ltb_spec py (y0 + 16)),
      (Z.ltb_spec px (width win)), (Z.ltb_spec py (height win)); simpl; try done; lia.
Qed.

(** *** Rendering writes the screen and the framebuffer only *)

Record screen_only (st st' : comp) : Prop := mkScreenOnly {
  so_windows : windows st' = windows st;
  so_ctx : g_ctx st' = g_ctx st;
  so_fb : fb_base_addr st' = fb_base_addr st;
  so_mouse : mouse_x st' = mouse_x st ∧ mouse_y st' = mouse_y st;
  so_irq : irq_enabled st' = irq_enabled st;
  so_clog : clog st' = clog st;
  so_pixels : ∀ k, k ≠ ctx_buffer (g_ctx st) → k ≠ fb_base_addr st →
                   pixels st' !! k = pixels st !! k
}.

Lemma screen_only_refl st : screen_only st st.
Proof. by constructor. Qed.

Lemma screen_only_trans s1 s2 s3 :
  screen_only s1 s2 → screen_only s2 s3 → screen_only s1 s3.
Proof.
  intros [H1 H2 H3 [H4 H4'] H5 H6 H7] [G1 G2 G3 [G4 G4'] G5 G6 G7].
  constructor; try congruence; [split; congruence |].
  intros k Hk Hk'. rewrite G7, H7; auto; congruence.
Qed.

Lemma screen_only_ctx_store px py color st : screen_only st (ctx_store px py color st).
Proof.
  constructor; try done. intros k Hk _. unfold ctx_store. simpl. by apply poke_other.
Qed.

Lemma screen_only_spoil st : screen_only st (set_pixels (spoil (pixels st)) st).
Proof. by constructor. Qed.

Lemma screen_only_put_pixel px py color st :
  screen_only st (graphics_put_pixel px py color st).
Proof.
  unfold graphics_put_pixel.
  destruct (ctx_buffer (g_ctx st) =? 0); [apply screen_only_refl |].
  destruct ((ctx_width (g_ctx st) <=? px) || (ctx_height (g_ctx st) <=? py));
    [apply screen_only_refl |].
  constructor; try done. intros k Hk _. simpl. by apply poke_other.
Qed.

Lemma screen_only_if (b : bool) st s1 s2 :
  screen_only st s1 → screen_only st s2 → screen_only st (if b then s1 else s2).
Proof. by destruct b. Qed.

Ltac screen_loop :=
  apply (for_range_rel screen_only); [apply screen_only_refl | apply screen_only_trans | intros ? ?].

Ltac screen :=
  repeat match goal with
  | |- screen_only ?s ?t => constr_eq s t; apply screen_only_refl
  | |- screen_only _ (if _ then _ else _) => apply screen_only_if
  | |- screen_only ?s (for_range _ _ _ ?t) =>
      first [ constr_eq s t; screen_loop
            | apply screen_only_trans with t; [| screen_loop] ]
  | |- screen_only ?s (ctx_store _ _ _ ?t) =>
      first [ constr_eq s t; apply screen_only_ctx_store
            | apply screen_only_trans with t; [| apply screen_only_ctx_store] ]
  | |- screen_only ?s (graphics_put_pixel _ _ _ ?t) =>
      constr_eq s t; apply screen_only_put_pixel
  | |- screen_only ?s (set_pixels (spoil (pixels ?t)) ?t) =>
      constr_eq s t; apply screen_only_spoil
  end.







(** *** The terminal, byte by byte *)


Lemma win_at_set_win i w st :
  (i < length (windows st))%nat → win_at (set_win i w st) i = w.
Proof. intros Hi. unfold win_at, set_win. simpl. by rewrite list_lookup_insert_eq. Qed.

Lemma set_win_id i w st : windows st !! i = Some w → set_win i w st = st.
Proof.
  intros Hw. unfold set_win, set_windows. rewrite list_insert_id by done. by destruct st.
Qed.



Section Steps.

Variable font : Z → Z → Z → bool.
Variable wid : Z.
Variable i : nat.
Variable st0 : comp.
Hypothesis Hi : (i < length (windows st0))%nat.

(** The states the loop of [compositor_window_write] goes through: slot
    [i], the pixel memory and the interrupt mask change, the rest is that
    of the state the loop started in. *)
Definition tstate (w : window) (m : pixmem) (b : bool) : comp :=
  set_win i w (set_pixels m (set_irq b st0)).

Lemma win_at_tstate w m b : win_at (tstate w m b) i = w.
Proof. unfold tstate. by rewrite win_at_set_win. Qed.

Lemma set_win_tstate w' w m b : set_win i w' (tstate w m b) = tstate w' m b.
Proof. unfold tstate, set_win, set_windows. simpl. by rewrite list_insert_insert_eq. Qed.

Lemma tstate_self w : windows st0 !! i = Some w → tstate w (pixels st0) (irq_enabled st0) = st0.
Proof.
  intros Hw. unfold tstate.
  replace (set_pixels (pixels st0) (set_irq (irq_enabled st0) st0)) with st0 by (by destruct st0).
  by apply set_win_id.
Qed.











(** Printing needs the window found again by [compositor_draw_rect]. *)
Hypothesis Hi16 : (i < 16)%nat.
Hypothesis Hfirst : ∀ j wj, windows st0 !! j = Some wj → (j < i)%nat → id wj ≠ wid.

Lemma find_tstate w m b :
  id w = wid → buffer w ≠ 0 →
  list_find (λ win, id win = wid ∧ buffer win ≠ 0) (take 16 (windows (tstate w m b)))
    = Some (i, w).
Proof.
  intros Hid Hbuf. apply list_find_Some. split; [| split; [done |]].
  - rewrite lookup_take_lt by done. unfold tstate. simpl. by rewrite list_lookup_insert_eq.
  - intros j y Hj Hlt [Hy _]. apply lookup_take_Some in Hj as [Hj _].
    unfold tstate in Hj. simpl in Hj. rewrite list_lookup_insert_ne in Hj by lia.
    by eapply Hfirst.
Qed.

Lemma draw_rect_tstate w m b rx ry rw rh color :
  id w = wid → buffer w ≠ 0 →
  compositor_draw_rect wid rx ry rw rh color (pid w) (tstate w m b) =
    tstate w (fill_rect w rx ry rw rh color m) true.
Proof.
  intros Hid Hbuf. unfold compositor_draw_rect. cbv zeta.
  change (local_irq_disable (tstate w m b)) with (tstate w m false).
  rewrite find_tstate by done. rewrite Z.eqb_refl. cbn [negb andb]. done.
Qed.

Lemma draw_char_tstate w m b px py ch color :
  graphics_draw_char font px py ch color (tstate w m b) =
    tstate w (draw_char_in font (g_ctx st0) px py ch color m) b.
Proof.
  change (tstate w m b) with (set_pixels m (tstate w m b)) at 1.
  by rewrite graphics_draw_char_in.
Qed.


End Steps.

(** *** The stream ESC [ 3 2 m O K ESC [ 0 m LF *)


















(** A font for the examples: the bits of [c + row], low bit leftmost. *)
Definition demo_font (c row col : Z) : bool := Z.testbit (c + row) col.





End Compositor.

(** ** The write system call (syscall.c, printk.c, uart.c) *)

Module Syscall.

(** What [sys_write] reaches: the compositor, the scheduler's variables,
    and the bytes stored to the UART data register, oldest first. *)
Record kernel := mkKernel {
  gfx : Compositor.comp;
  procs : Sched.sched;
  uart_dr : list Z
}.

Definition set_gfx (v : Compositor.comp) (k : kernel) : kernel :=
  mkKernel v (procs k) (uart_dr k).

Definition set_uart_dr (v : list Z) (k : kernel) : kernel :=
  mkKernel (gfx k) (procs k) v.

(** uart.c: [uart_putc]. The wait for room in the transmit FIFO is the
    device's side and is taken to end. *)
Definition uart_putc (c : Z) (tx : list Z) : list Z :=
  let tx := tx ++ [c] in
  if c =? 10 then tx ++ [13] else tx.

(** printk.c: [printk("%c", c)]. [vsnprintf] stores [c] and the
    terminator, [kputs] sends the bytes before the first NUL. *)
Definition printk_c (c : Z) (tx : list Z) : list Z :=
  if c =? 0 then tx else uart_putc c tx.

(** [current_process ? current_process->pid : 0], as an [int]; a pointer
    to no process block is a fault. *)
Definition current_pid_or_0 (s : Sched.sched) : option Z :=
  if Sched.current_process s =? 0 then Some 0
  else p ← Sched.pcb s !! Sched.current_process s; Some (s32 (Sched.pid p)).

Section Write.

(** The font of the terminal (see [Compositor.graphics_draw_char]) and
    the byte at each address of the caller's memory. *)
Variable font : Z → Z → Z → bool.
Variable umem : Z → Z.

(** [buf[0]], ..., [buf[count - 1]] *)
Definition read_bytes (buf count : Z) : list Z :=
  (λ i, umem (u64 (buf + i))) <$> seqZ 0 count.

(** Lines 279-283: the fallback loop. *)
Definition write_console (buf count : Z) (k : kernel) : kernel :=
  set_uart_dr (foldl (λ tx c, printk_c c tx) (uart_dr k) (read_bytes buf count)) k.

(** [sys_write]; the result is the [long] returned. [None] is a call
    that does not come back with the memory the model describes:
    [current_process] points to no process block, or a store or a copy
    of the compositor went outside its pixel buffer (the [memmove] of a
    scroll whose length has wrapped runs through the address space and
    faults; a stray store overwrites neighbouring heap memory). *)
Definition sys_write (fd buf count : Z) (k : kernel) : option (Z * kernel) :=
  if (fd =? 1) || (fd =? 2) then
    p ← current_pid_or_0 (procs k);
    let r := Compositor.compositor_get_window_by_pid p (gfx k) in
    let k := set_gfx r.2 k in
    if 0 <=? r.1 then
      let g := Compositor.compositor_window_write font r.1 (read_bytes buf count) (gfx k) in
      if Compositor.intact (Compositor.pixels g) then Some (s64 count, set_gfx g k)
      else None
    else Some (s64 count, write_console buf count k)
  else Some (s64 count, write_console buf count k).

(** [syscall_handler] on a frame whose [x8] is 64, entered by an SVC
    (exception class 0x15): interrupts are enabled, the arguments are
    taken from [x0] to [x2], the result is stored to [x0]. *)
Definition syscall_handler_write (regs : list Z) (k : kernel) : option (list Z * kernel) :=
  let k := set_gfx (Compositor.local_irq_enable (gfx k)) k in
  arg0 ← regs !! 0%nat;
  arg1 ← regs !! 1%nat;
  arg2 ← regs !! 2%nat;
  r ← sys_write (s32 arg0) arg1 arg2 k;
  Some (<[0%nat := u64 r.1]> regs, r.2).

End Write.

(** What the UART receives for one byte handed to [printk("%c", ..)]. *)
Definition console_bytes (c : Z) : list Z :=
  if c =? 0 then [] else if c =? 10 then [10; 13] else [c].

Lemma foldl_printk_c l tx :
  foldl (λ tx c, printk_c c tx) tx l = tx ++ concat (map console_bytes l).
Proof.
  revert tx. induction l as [| c l IH]; intros tx; simpl.
  - by rewrite app_nil_r.
  - rewrite IH. unfold printk_c, uart_putc, console_bytes.
    destruct (c =? 0); [done |].
    destruct (Z.eqb_spec c 10) as [-> |]; by rewrite <- ?app_assoc.
Qed.

Lemma read_bytes_length umem buf count :
  length (read_bytes umem buf count) = Z.to_nat count.
Proof. unfold read_bytes. by rewrite length_fmap, length_seqZ. Qed.

(** Whether the process [p] owns a window the lookup of [sys_write]
    accepts: the first slot in use with that owner, its identifier not
    negative. *)
Definition owned_window (p : Z) (g : Compositor.comp) : option Z :=
  match list_find (λ win, Compositor.id win ≠ 0 ∧ Compositor.pid win = p)
                  (take 16 (Compositor.windows g)) with
  | Some (_, win) => if 0 <=? Compositor.id win then Some (Compositor.id win) else None
  | None => None
  end.

(** Where the bytes of a [sys_write] go: to the window [owned_window]
    finds when the descriptor is 1 or 2, to the console otherwise. *)
Definition write_route (fd p : Z) (g : Compositor.comp) : option Z :=
  if (fd =? 1) || (fd =? 2) then owned_window p g else None.

(** What [sys_write] does, by route. On the console route it returns
    [count]. On the window route it returns [count] when the pixel
    memory [compositor_window_write] leaves is intact, and does not
    return otherwise. *)
Lemma sys_write_routes font umem fd buf count k p :
  current_pid_or_0 (procs k) = Some p →
  match write_route fd p (gfx k) with
  | Some win_id =>
      let g := Compositor.compositor_window_write font win_id (read_bytes umem buf count)
                 (Compositor.local_irq_enable (gfx k)) in
      sys_write font umem fd buf count k =
        if Compositor.intact (Compositor.pixels g)
        then Some (s64 count, mkKernel g (procs k) (uart_dr k))
        else None
  | None =>
      sys_write font umem fd buf count k =
        Some (s64 count,
              mkKernel (if (fd =? 1) || (fd =? 2) then Compositor.local_irq_enable (gfx k)
                        else gfx k)
                       (procs k)
                       (uart_dr k ++ concat (map console_bytes (read_bytes umem buf count))))
  end.
Proof.
  intros Hp. unfold write_route, sys_write. destruct ((fd =? 1) || (fd =? 2)).
  - rewrite Hp. simpl. unfold owned_window, Compositor.compositor_get_window_by_pid.
    cbv zeta.
    change (Compositor.windows (Compositor.local_irq_disable (gfx k)))
      with (Compositor.windows (gfx k)).
    destruct (list_find _ _) as [[j win] |]; simpl.
    + destruct (0 <=? Compositor.id win); simpl; [done |].
      unfold write_console, set_uart_dr, set_gfx. simpl. by rewrite foldl_printk_c.
    + unfold write_console, set_uart_dr, set_gfx. simpl. by rewrite foldl_printk_c.
  - unfold write_console, set_uart_dr. by rewrite foldl_printk_c.
Qed.

(** The example compositor with process 2, the owner of window 1,
    running, and a caller whose memory holds 'O' at even addresses and
    'K' at odd ones. *)
Definition kernel_demo : kernel :=
  mkKernel Compositor.comp_demo
           (Sched.mkSched (Sched.pcb Sched.demo) (Sched.process_pool Sched.demo) 3 1 8192 131072)
           [].

Definition umem_demo (a : Z) : Z := if Z.even a then 79 else 75.

(** Process 1 running, after it has created a window of 8x8 pixels
    (syscall 210): a window lower than one character cell. *)
Definition kernel_small_window : kernel :=
  mkKernel (default (0, Compositor.comp_demo)
              (Compositor.compositor_create_window 10 10 8 8 [119] 1 Compositor.comp_demo)).2
           (Sched.mkSched (Sched.pcb Sched.demo) (Sched.process_pool Sched.demo) 3 0 4096 65536)
           [].

(** C9 on the code. Whenever [sys_write] returns, it returns [count],
    which is also what the handler of syscall 64 stores to [x0], and
    the bytes have gone to the caller's window exactly when the
    descriptor is 1 or 2 and the caller owns a window, and to the
    console ([printk("%c", ..)] byte by byte, nothing sent for a NUL, a
    carriage return after a line feed, windows and pixels left alone)
    in every other case: descriptor 0, negative, larger than 2, or no
    window. On the console route it always returns. On the window
    route it returns exactly when the drawing of
    [compositor_window_write] stays inside the pixel buffers, and that
    is not always so: a process that owns a window of 8x8 pixels and
    writes one byte to descriptor 1 makes the terminal scroll a window
    of no rows, the length of the [memmove] wraps to [2^64 - 256], and
    the call does not return. *)
Theorem sys_write_returns_count :
  (∀ font umem fd buf count k p,
     0 <= count < 2 ^ 64 →
     current_pid_or_0 (procs k) = Some p →
     u64 (s64 count) = count ∧
     (∀ r k', sys_write font umem fd buf count k = Some (r, k') →
        r = s64 count ∧ procs k' = procs k ∧
        (∀ regs a0, regs !! 0%nat = Some a0 → regs !! 1%nat = Some buf →
                    regs !! 2%nat = Some count → s32 a0 = fd →
           ∃ k'', syscall_handler_write font umem regs k
                    = Some (<[0%nat := count]> regs, k'')) ∧
        match write_route fd p (gfx k) with
        | Some win_id =>
            uart_dr k' = uart_dr k ∧
            gfx k' = Compositor.compositor_window_write font win_id
                       (read_bytes umem buf count) (Compositor.local_irq_enable (gfx k)) ∧
            Compositor.intact (Compositor.pixels (gfx k')) = true
        | None =>
            uart_dr k' = uart_dr k ++ concat (map console_bytes (read_bytes umem buf count)) ∧
            Compositor.windows (gfx k') = Compositor.windows (gfx k) ∧
            Compositor.pixels (gfx k') = Compositor.pixels (gfx k)
        end) ∧
     match write_route fd p (gfx k) with
     | Some win_id =>
         sys_write font umem fd buf count k = None ↔
         Compositor.intact
           (Compositor.pixels
              (Compositor.compositor_window_write font win_id (read_bytes umem buf count)
                 (Compositor.local_irq_enable (gfx k)))) = false
     | None => ∃ k', sys_write font umem fd buf count k = Some (s64 count, k')
     end) ∧
  current_pid_or_0 (procs kernel_small_window) = Some 1 ∧
  write_route 1 1 (gfx kernel_small_window) = Some 3 ∧
  Compositor.intact (Compositor.pixels (gfx kernel_small_window)) = true ∧
  sys_write Compositor.demo_font umem_demo 1 4096 1 kernel_small_window = None ∧
  syscall_handler_write Compositor.demo_font umem_demo [1; 4096; 1] kernel_small_window = None.
Proof.
  split.
  - intros font umem fd buf count k p Hcount Hp.
    assert (Hret : u64 (s64 count) = count) by (by apply u64_s64).
    assert (Hirq : current_pid_or_0 (procs (set_gfx (Compositor.local_irq_enable (gfx k)) k))
                   = Some p) by exact Hp.
    pose proof (sys_write_routes font umem fd buf count k p Hp) as Hr.
    pose proof (sys_write_routes font umem fd buf count
                  (set_gfx (Compositor.local_irq_enable (gfx k)) k) p Hirq) as Hr'.
    assert (Hsame : write_route fd p (gfx (set_gfx (Compositor.local_irq_enable (gfx k)) k))
                    = write_route fd p (gfx k)) by reflexivity.
    rewrite Hsame in Hr'. clear Hsame.
    split; [exact Hret |].
    destruct (write_route fd p (gfx k)) as [win_id |].
    + cbv zeta in Hr, Hr'.
      change (Compositor.local_irq_enable
                (gfx (set_gfx (Compositor.local_irq_enable (gfx k)) k)))
        with (Compositor.local_irq_enable (gfx k)) in Hr'.
      destruct (Compositor.intact _) eqn:Hin.
      * split.
        -- intros r k' Hw. rewrite Hr in Hw. injection Hw as <- <-.
           split; [done |]. split; [done |]. split; [| done].
           intros regs a0 H0 H1 H2 Hfd. unfold syscall_handler_write. cbv zeta.
           rewrite H0, H1, H2. simpl. rewrite Hfd, Hr'. simpl. rewrite Hret. by eexists.
        -- rewrite Hr. split; discriminate.
      * split; [intros r k' Hw; rewrite Hr in Hw; discriminate |].
        rewrite Hr. done.
    + split; [| eexists; exact Hr].
      intros r k' Hw. rewrite Hr in Hw. injection Hw as <- <-.
      split; [done |]. split; [done |]. split.
      * intros regs a0 H0 H1 H2 Hfd. unfold syscall_handler_write. cbv zeta.
        rewrite H0, H1, H2. simpl. rewrite Hfd, Hr'. simpl. rewrite Hret. by eexists.
      * simpl. split; [done |]. by destruct ((fd =? 1) || (fd =? 2)).
  - vm_compute. repeat split; reflexivity.
Qed.

(** Two bytes written by process 2 to descriptor 1 reach its window of
    24x32 pixels, and the call returns 2. *)
Lemma sys_write_returns_count_witness :
  current_pid_or_0 (procs kernel_demo) = Some 2 ∧
  write_route 1 2 (gfx kernel_demo) = Some 1 ∧
  (λ r, (r.1, uart_dr r.2)) <$> sys_write Compositor.demo_font umem_demo 1 4096 2 kernel_demo
    = Some (2, []) ∧
  ∀ r k', sys_write Compositor.demo_font umem_demo 1 4096 2 kernel_demo = Some (r, k') →
    r = s64 2 ∧ procs k' = procs kernel_demo ∧
    uart_dr k' = uart_dr kernel_demo ∧
    gfx k' = Compositor.compositor_window_write Compositor.demo_font 1
               (read_bytes umem_demo 4096 2) (Compositor.local_irq_enable (gfx kernel_demo)) ∧
    Compositor.intact (Compositor.pixels (gfx k')) = true.
Proof.
  split; [reflexivity |]. split; [reflexivity |].
  split; [vm_compute; reflexivity |].
  intros r k' Hw.
  destruct sys_write_returns_count as [Hgen _].
  destruct (Hgen Compositor.demo_font umem_demo 1 4096 2 kernel_demo 2 ltac:(lia) eq_refl)
    as (_ & Hsome & _).
  destruct (Hsome r k' Hw) as (Hr & Hprocs & _ & Hroute).
  split; [exact Hr |]. split; [exact Hprocs |]. exact Hroute.
Defined.

End Syscall.

(** ** Byte strings and memory blocks (string.c) *)

Module Strings.

(** Memory by byte: the value ([0] to [255]) at each address. Pointers
    are 64-bit addresses; stepping one wraps at [2^64]. *)
Definition mem : Type := Z → Z.

Definition store (a v : Z) (m : mem) : mem := λ x, if x =? a then v else m x.

(** [while (n--) *p++ = (unsigned char)c;] *)
Fixpoint memset_loop (n : nat) (p c : Z) (m : mem) : mem :=
  match n with
  | O => m
  | S n' => memset_loop n' (u64 (p + 1)) c (store p (c mod 256) m)
  end.

(** [memset]: the pointer returned and the memory left. *)
Definition memset (s c n : Z) (m : mem) : Z * mem :=
  (s, memset_loop (Z.to_nat n) s c m).

Definition bzero (s n : Z) (m : mem) : mem := (memset s 0 n m).2.

(** [while (n--) *d++ = *s++;] *)
Fixpoint copy_up (n : nat) (d s : Z) (m : mem) : mem :=
  match n with
  | O => m
  | S n' => copy_up n' (u64 (d + 1)) (u64 (s + 1)) (store d (m s) m)
  end.

(** [while (n--) *--d = *--s;] *)
Fixpoint copy_down (n : nat) (d s : Z) (m : mem) : mem :=
  match n with
  | O => m
  | S n' =>
      let d := u64 (d - 1) in
      let s := u64 (s - 1) in
      copy_down n' d s (store d (m s) m)
  end.

Definition memcpy (dest src n : Z) (m : mem) : Z * mem :=
  (dest, copy_up (Z.to_nat n) dest src m).

Definition memmove (dest src n : Z) (m : mem) : Z * mem :=
  if dest <? src then (dest, copy_up (Z.to_nat n) dest src m)
  else (dest, copy_down (Z.to_nat n) (u64 (dest + n)) (u64 (src + n)) m).

(** [memcmp]: the loop over [n] bytes. *)
Fixpoint memcmp_loop (n : nat) (p1 p2 : Z) (m : mem) : Z :=
  match n with
  | O => 0
  | S n' =>
      if negb (m p1 =? m p2) then s32 (m p1 - m p2)
      else memcmp_loop n' (u64 (p1 + 1)) (u64 (p2 + 1)) m
  end.

Definition memcmp (s1 s2 n : Z) (m : mem) : Z := memcmp_loop (Z.to_nat n) s1 s2 m.

(** [memchr]; [0] is [NULL]. *)
Fixpoint memchr_loop (n : nat) (p c : Z) (m : mem) : Z :=
  match n with
  | O => 0
  | S n' => if m p =? c mod 256 then p else memchr_loop n' (u64 (p + 1)) c m
  end.

Definition memchr (s c n : Z) (m : mem) : Z := memchr_loop (Z.to_nat n) s c m.

(** [strlen]: the walk to the terminator, [fuel] bytes at most; [None]
    when no terminator is met within them. *)
Fixpoint strlen_loop (fuel : nat) (p : Z) (m : mem) : option Z :=
  match fuel with
  | O => None
  | S fuel' => if m p =? 0 then Some p else strlen_loop fuel' (u64 (p + 1)) m
  end.

Definition strlen (fuel : nat) (s : Z) (m : mem) : option Z :=
  p ← strlen_loop fuel s m; Some (u64 (p - s)).

(** [strnlen]: [while (maxlen-- && *p) p++;] *)
Fixpoint strnlen_loop (maxlen : nat) (p : Z) (m : mem) : Z :=
  match maxlen with
  | O => p
  | S n' => if m p =? 0 then p else strnlen_loop n' (u64 (p + 1)) m
  end.

Definition strnlen (s maxlen : Z) (m : mem) : Z :=
  u64 (strnlen_loop (Z.to_nat maxlen) s m - s).

(** [strcmp]: the difference of the first two bytes that differ, or of
    the terminator and the byte facing it. *)
Fixpoint strcmp (fuel : nat) (s1 s2 : Z) (m : mem) : option Z :=
  match fuel with
  | O => None
  | S fuel' =>
      if negb (m s1 =? 0) && (m s1 =? m s2)
      then strcmp fuel' (u64 (s1 + 1)) (u64 (s2 + 1)) m
      else Some (s32 (m s1 mod 256 - m s2 mod 256))
  end.

(** [strncmp] *)
Fixpoint strncmp_loop (n : nat) (s1 s2 : Z) (m : mem) : Z :=
  match n with
  | O => 0
  | S n' =>
      if negb (m s1 =? 0) && (m s1 =? m s2)
      then strncmp_loop n' (u64 (s1 + 1)) (u64 (s2 + 1)) m
      else s32 (m s1 mod 256 - m s2 mod 256)
  end.

Definition strncmp (s1 s2 n : Z) (m : mem) : Z := strncmp_loop (Z.to_nat n) s1 s2 m.

(** [strncpy], first loop: the copy up to and including the terminator, [n] counted down for
    every byte but the terminator. The
    result is the count left, the destination pointer and the memory. *)
Fixpoint strncpy_copy (n : nat) (d s : Z) (m : mem) : nat * Z * mem :=
  match n with
  | O => (O, d, m)
  | S n' =>
      let c := m s in
      let m' := store d c m in
      if negb (c =? 0) then strncpy_copy n' (u64 (d + 1)) (u64 (s + 1)) m'
      else (S n', u64 (d + 1), m')
  end.

(** [strncpy]: the copy, then [while (n--) *d++ = 0;]. *)
Definition strncpy (dest src n : Z) (m : mem) : Z * mem :=
  let r := strncpy_copy (Z.to_nat n) dest src m in
  (dest, memset_loop r.1.1 r.1.2 0 r.2).

(** *** What the loops store *)

Lemma store_eq a v m : store a v m a = v.
Proof. unfold store. by rewrite Z.eqb_refl. Qed.

Lemma store_ne a v m x : x ≠ a → store a v m x = m x.
Proof. unfold store. intros H. by destruct (Z.eqb_spec x a). Qed.

Lemma u64_step p k : 0 <= p → p + 1 + Z.of_nat k <= 2 ^ 64 → k ≠ O → u64 (p + 1) = p + 1.
Proof. intros. apply u64_small. lia. Qed.

Lemma memset_loop_spec n : ∀ p c m a,
  0 <= p → p + Z.of_nat n <= 2 ^ 64 →
  memset_loop n p c m a =
    if (p <=? a) && (a <? p + Z.of_nat n) then c mod 256 else m a.
Proof.
  induction n as [| n IH]; intros p c m a Hp Hn; cbn [memset_loop].
  - destruct (Z.leb_spec p a), (Z.ltb_spec a (p + Z.of_nat 0)); try lia; done.
  - destruct n as [| n'].
    + cbn [memset_loop]. unfold store.
      destruct (Z.eqb_spec a p), (Z.leb_spec p a), (Z.ltb_spec a (p + Z.of_nat 1));
        try lia; done.
    + rewrite (u64_step p (S n')) by (done || lia).
      rewrite IH by lia. unfold store.
      destruct (Z.eqb_spec a p), (Z.leb_spec p a), (Z.leb_spec (p + 1) a),
        (Z.ltb_spec a (p + Z.of_nat (S (S n')))),
        (Z.ltb_spec a (p + 1 + Z.of_nat (S n'))); try lia; done.
Qed.

(** The forward copy is right as long as no byte is overwritten before
    it is read: the destination does not start inside the source. *)
Lemma copy_up_spec n : ∀ d s m,
  0 <= d → 0 <= s → d + Z.of_nat n <= 2 ^ 64 → s + Z.of_nat n <= 2 ^ 64 →
  d <= s ∨ s + Z.of_nat n <= d →
  (∀ i, 0 <= i < Z.of_nat n → copy_up n d s m (d + i) = m (s + i)) ∧
  (∀ a, ¬ (d <= a < d + Z.of_nat n) → copy_up n d s m a = m a).
Proof.
  induction n as [| n IH]; intros d s m Hd Hs Hdn Hsn Hov; cbn [copy_up].
  - split; [lia | done].
  - destruct n as [| n'].
    + cbn [copy_up]. split.
      * intros i Hi. replace i with 0 by lia. rewrite !Z.add_0_r. apply store_eq.
      * intros a Ha. apply store_ne. lia.
    + rewrite (u64_step d (S n')), (u64_step s (S n')) by (done || lia).
      destruct (IH (d + 1) (s + 1) (store d (m s) m)) as [Hc Hf]; try lia.
      split.
      * intros i Hi. destruct (Z.eq_dec i 0) as [-> | Hi0].
        -- rewrite !Z.add_0_r. rewrite Hf by lia. apply store_eq.
        -- replace (d + i) with (d + 1 + (i - 1)) by lia. rewrite Hc by lia.
           replace (s + 1 + (i - 1)) with (s + i) by lia. apply store_ne. lia.
      * intros a Ha. rewrite Hf by lia. apply store_ne. lia.
Qed.

(** The backward copy is right when the source does not end inside the
    destination. *)
Lemma copy_down_spec n : ∀ d s m,
  0 <= d → 0 <= s → d + Z.of_nat n <= 2 ^ 64 → s + Z.of_nat n <= 2 ^ 64 →
  s <= d ∨ d + Z.of_nat n <= s →
  (∀ i, 0 <= i < Z.of_nat n →
     copy_down n (u64 (d + Z.of_nat n)) (u64 (s + Z.of_nat n)) m (d + i) = m (s + i)) ∧
  (∀ a, ¬ (d <= a < d + Z.of_nat n) →
     copy_down n (u64 (d + Z.of_nat n)) (u64 (s + Z.of_nat n)) m a = m a).
Proof.
  induction n as [| n IH]; intros d s m Hd Hs Hdn Hsn Hov; cbn [copy_down].
  - split; [lia | done].
  - cbv zeta.
    assert (Hstep : ∀ p, 0 <= p → p + Z.of_nat (S n) <= 2 ^ 64 →
              u64 (u64 (p + Z.of_nat (S n)) - 1) = p + Z.of_nat n).
    { intros p Hp Hpn. unfold u64.
      destruct (Z.eq_dec (p + Z.of_nat (S n)) (2 ^ 64)) as [He | Hne].
      - rewrite He, Z.mod_same by lia. change ((0 - 1) mod 2 ^ 64) with (2 ^ 64 - 1). lia.
      - rewrite (Z.mod_small (p + Z.of_nat (S n))) by lia.
        rewrite Z.mod_small by lia. lia. }
    rewrite (Hstep d), (Hstep s) by done.
    set (m1 := store (d + Z.of_nat n) (m (s + Z.of_nat n)) m).
    replace (copy_down n (d + Z.of_nat n) (s + Z.of_nat n) m1)
      with (copy_down n (u64 (d + Z.of_nat n)) (u64 (s + Z.of_nat n)) m1)
      by (rewrite !u64_small by lia; done).
    destruct (IH d s m1) as [Hc Hf]; try lia. subst m1.
    split.
    + intros i Hi. destruct (Z.eq_dec i (Z.of_nat n)) as [-> | Hin].
      * rewrite Hf by lia. apply store_eq.
      * rewrite Hc by lia. apply store_ne. lia.
    + intros a Ha. rewrite Hf by lia. apply store_ne. lia.
Qed.

(** X1. [memset(s, c, n)] returns [s] and stores the low byte of [c] in
    the [n] bytes from [s]; every other byte keeps its value. *)
Theorem memset_fills s c n m :
  0 <= s → 0 <= n → s + n <= 2 ^ 64 →
  (memset s c n m).1 = s ∧
  ∀ a, (memset s c n m).2 a = if (s <=? a) && (a <? s + n) then c mod 256 else m a.
Proof.
  intros Hs Hn Hsn. split; [done |]. intros a. unfold memset. cbn [snd].
  rewrite memset_loop_spec by lia. rewrite Z2Nat.id by lia. done.
Qed.

Lemma memset_fills_witness :
  (memset 4096 0x1FF 3 (λ a, a mod 7)).1 = 4096 ∧
  ∀ a, (memset 4096 0x1FF 3 (λ a, a mod 7)).2 a
       = if (4096 <=? a) && (a <? 4096 + 3) then 0x1FF mod 256 else a mod 7.
Proof. apply (memset_fills 4096 0x1FF 3 (λ a, a mod 7)); lia. Defined.

(** X2. [memmove(dest, src, n)] copies the [n] bytes at [src] to [dest]
    whatever the overlap of the two ranges: afterwards byte [i] of the
    destination is what byte [i] of the source was before the call, and
    no byte outside the destination has changed. *)
Theorem memmove_overlap dest src n m :
  0 <= dest → 0 <= src → 0 <= n → dest + n <= 2 ^ 64 → src + n <= 2 ^ 64 →
  (memmove dest src n m).1 = dest ∧
  (∀ i, 0 <= i < n → (memmove dest src n m).2 (dest + i) = m (src + i)) ∧
  (∀ a, ¬ (dest <= a < dest + n) → (memmove dest src n m).2 a = m a).
Proof.
  intros Hd Hs Hn Hdn Hsn. unfold memmove.
  destruct (Z.ltb_spec dest src) as [Hlt | Hge]; cbn [fst snd]; (split; [done |]).
  - destruct (copy_up_spec (Z.to_nat n) dest src m) as [Hc Hf]; try lia.
    split.
    + intros i Hi. apply Hc. lia.
    + intros a Ha. apply Hf. lia.
  - destruct (copy_down_spec (Z.to_nat n) dest src m) as [Hc Hf]; try lia.
    rewrite Z2Nat.id in Hc, Hf by lia. split.
    + intros i Hi. apply Hc. lia.
    + intros a Ha. apply Hf. lia.
Qed.

Lemma memmove_overlap_witness :
  (memmove 4098 4096 8 (λ a, a mod 251)).1 = 4098 ∧
  (∀ i, 0 <= i < 8 →
     (memmove 4098 4096 8 (λ a, a mod 251)).2 (4098 + i) = (4096 + i) mod 251) ∧
  (∀ a, ¬ (4098 <= a < 4098 + 8) → (memmove 4098 4096 8 (λ a, a mod 251)).2 a = a mod 251).
Proof. apply (memmove_overlap 4098 4096 8 (λ a, a mod 251)); lia. Defined.

(** X3. [memcpy(dest, src, n)] copies forward: it is right, and leaves
    the memory [memmove] would leave, whenever the destination does not
    start inside the source (the ranges are apart, or the destination
    starts at or below the source). *)
Theorem memcpy_forward dest src n m :
  0 <= dest → 0 <= src → 0 <= n → dest + n <= 2 ^ 64 → src + n <= 2 ^ 64 →
  dest <= src ∨ src + n <= dest →
  (∀ i, 0 <= i < n → (memcpy dest src n m).2 (dest + i) = m (src + i)) ∧
  (∀ a, ¬ (dest <= a < dest + n) → (memcpy dest src n m).2 a = m a) ∧
  (∀ a, (memcpy dest src n m).2 a = (memmove dest src n m).2 a).
Proof.
  intros Hd Hs Hn Hdn Hsn Hov. unfold memcpy. cbn [snd].
  destruct (copy_up_spec (Z.to_nat n) dest src m) as [Hc Hf]; try lia.
  assert (Hc' : ∀ i, 0 <= i < n → copy_up (Z.to_nat n) dest src m (dest + i) = m (src + i))
    by (intros i Hi; apply Hc; lia).
  assert (Hf' : ∀ a, ¬ (dest <= a < dest + n) → copy_up (Z.to_nat n) dest src m a = m a)
    by (intros a Ha; apply Hf; lia).
  split; [exact Hc' |]. split; [exact Hf' |].
  intros a. unfold memmove.
  destruct (Z.ltb_spec dest src) as [Hlt | Hge]; cbn [snd]; [done |].
  destruct (copy_down_spec (Z.to_nat n) dest src m) as [Hc2 Hf2]; try lia.
  rewrite Z2Nat.id in Hc2, Hf2 by lia.
  destruct (Z_lt_ge_dec a dest) as [Ha | Ha]; [rewrite Hf', Hf2 by lia; done |].
  destruct (Z_lt_ge_dec a (dest + n)) as [Ha' | Ha']; [| rewrite Hf', Hf2 by lia; done].
  replace a with (dest + (a - dest)) by lia. rewrite Hc', Hc2 by lia. done.
Qed.

Lemma memcpy_forward_witness :
  (∀ i, 0 <= i < 8 → (memcpy 4096 4100 8 (λ a, a mod 251)).2 (4096 + i) = (4100 + i) mod 251) ∧
  (∀ a, ¬ (4096 <= a < 4096 + 8) → (memcpy 4096 4100 8 (λ a, a mod 251)).2 a = a mod 251) ∧
  (∀ a, (memcpy 4096 4100 8 (λ a, a mod 251)).2 a
        = (memmove 4096 4100 8 (λ a, a mod 251)).2 a).
Proof. apply (memcpy_forward 4096 4100 8 (λ a, a mod 251)); lia. Defined.

(** *** Comparison and strings *)

(** Every cell of the memory holds a byte. *)
Definition bytes (m : mem) : Prop := ∀ a, 0 <= m a < 256.

Lemma s32_byte_diff x y : 0 <= x < 256 → 0 <= y < 256 → s32 (x - y) = x - y.
Proof. intros. apply s32_small. lia. Qed.

Lemma memcmp_loop_spec n : ∀ p1 p2 m,
  bytes m → 0 <= p1 → 0 <= p2 → p1 + Z.of_nat n <= 2 ^ 64 → p2 + Z.of_nat n <= 2 ^ 64 →
  (memcmp_loop n p1 p2 m = 0 ∧ ∀ i, 0 <= i < Z.of_nat n → m (p1 + i) = m (p2 + i)) ∨
  (∃ k, 0 <= k < Z.of_nat n ∧ (∀ i, 0 <= i < k → m (p1 + i) = m (p2 + i)) ∧
        m (p1 + k) ≠ m (p2 + k) ∧ memcmp_loop n p1 p2 m = m (p1 + k) - m (p2 + k)).
Proof.
  induction n as [| n IH]; intros p1 p2 m Hb H1 H2 H1n H2n; cbn [memcmp_loop].
  - left. split; [done | lia].
  - destruct (Z.eqb_spec (m p1) (m p2)) as [He | Hne]; cbn [negb].
    + destruct n as [| n'].
      * left. split; [done |]. intros i Hi. replace i with 0 by lia. by rewrite !Z.add_0_r.
      * rewrite (u64_step p1 (S n')), (u64_step p2 (S n')) by (done || lia).
        destruct (IH (p1 + 1) (p2 + 1) m) as [[Hr Ha] | (k & Hk & Ha & Hd & Hr)];
          try (done || lia).
        -- left. split; [done |]. intros i Hi.
           destruct (Z.eq_dec i 0) as [-> |]; [by rewrite !Z.add_0_r |].
           replace (p1 + i) with (p1 + 1 + (i - 1)) by lia.
           replace (p2 + i) with (p2 + 1 + (i - 1)) by lia. apply Ha. lia.
        -- right. exists (k + 1).
           replace (p1 + (k + 1)) with (p1 + 1 + k) by lia.
           replace (p2 + (k + 1)) with (p2 + 1 + k) by lia.
           split; [lia |]. split; [| done]. intros i Hi.
           destruct (Z.eq_dec i 0) as [-> |]; [by rewrite !Z.add_0_r |].
           replace (p1 + i) with (p1 + 1 + (i - 1)) by lia.
           replace (p2 + i) with (p2 + 1 + (i - 1)) by lia. apply Ha. lia.
    + right. exists 0. rewrite !Z.add_0_r. split; [lia |]. split; [lia |].
      split; [done |]. apply s32_byte_diff; apply Hb.
Qed.

(** X4. [memcmp(s1, s2, n)] is 0 exactly when the two ranges hold the
    same [n] bytes; otherwise it is the difference of the bytes at the
    first offset where they differ. *)
Theorem memcmp_first_difference s1 s2 n m :
  bytes m → 0 <= s1 → 0 <= s2 → 0 <= n → s1 + n <= 2 ^ 64 → s2 + n <= 2 ^ 64 →
  (memcmp s1 s2 n m = 0 ↔ ∀ i, 0 <= i < n → m (s1 + i) = m (s2 + i)) ∧
  (memcmp s1 s2 n m ≠ 0 →
   ∃ k, 0 <= k < n ∧ (∀ i, 0 <= i < k → m (s1 + i) = m (s2 + i)) ∧
        memcmp s1 s2 n m = m (s1 + k) - m (s2 + k)).
Proof.
  intros Hb H1 H2 Hn H1n H2n. unfold memcmp.
  destruct (memcmp_loop_spec (Z.to_nat n) s1 s2 m) as [[Hr Ha] | (k & Hk & Ha & Hd & Hr)];
    try (done || lia).
  - split; [| done]. split; [| done]. intros _ i Hi. apply Ha. lia.
  - split.
    + split.
      * intros H0. rewrite Hr in H0. lia.
      * intros Hall. destruct Hd. apply Hall. lia.
    + intros _. exists k. split; [lia |]. by split.
Qed.

Lemma memcmp_first_difference_witness :
  (memcmp 4096 4103 3 (λ a, a mod 7) = 0
     ↔ ∀ i, 0 <= i < 3 → (4096 + i) mod 7 = (4103 + i) mod 7) ∧
  (memcmp 4096 4103 3 (λ a, a mod 7) ≠ 0 →
   ∃ k, 0 <= k < 3 ∧ (∀ i, 0 <= i < k → (4096 + i) mod 7 = (4103 + i) mod 7) ∧
        memcmp 4096 4103 3 (λ a, a mod 7) = (4096 + k) mod 7 - (4103 + k) mod 7).
Proof.
  apply (memcmp_first_difference 4096 4103 3 (λ a, a mod 7)); try lia.
  intros a. pose proof (Z.mod_pos_bound a 7). lia.
Defined.

(** The string [l] (no byte of it zero) lies at [s], terminator
    included, below the top of the address space. *)
Record cstring (m : mem) (s : Z) (l : list Z) : Prop := mkCstring {
  cs_low : 0 <= s;
  cs_high : s + Z.of_nat (length l) < 2 ^ 64;
  cs_bytes : ∀ i c, l !! i = Some c → m (s + Z.of_nat i) = c ∧ 0 < c < 256;
  cs_nul : m (s + Z.of_nat (length l)) = 0
}.

Lemma cstring_tail m s c l : cstring m s (c :: l) → cstring m (s + 1) l.
Proof.
  intros [Hl Hh Hb Hn]. simpl length in *. constructor; try lia.
  - intros i x Hi. replace (s + 1 + Z.of_nat i) with (s + Z.of_nat (S i)) by lia.
    by apply Hb.
  - replace (s + 1 + Z.of_nat (length l)) with (s + Z.of_nat (S (length l))) by lia. done.
Qed.

Lemma cstring_head m s c l : cstring m s (c :: l) → m s = c ∧ 0 < c < 256.
Proof.
  intros [Hl Hh Hb Hn]. destruct (Hb O c eq_refl) as [H1 H2].
  change (Z.of_nat 0) with 0 in H1. by rewrite Z.add_0_r in H1.
Qed.

Lemma cstring_nil m s : cstring m s [] → m s = 0.
Proof. intros [_ _ _ Hn]. simpl in Hn. by rewrite Z.add_0_r in Hn. Qed.

Lemma cstring_step m s c l : cstring m s (c :: l) → u64 (s + 1) = s + 1.
Proof. intros [Hl Hh _ _]. simpl length in Hh. apply u64_small. lia. Qed.

Lemma strlen_loop_spec l : ∀ fuel s m,
  cstring m s l → (length l < fuel)%nat →
  strlen_loop fuel s m = Some (s + Z.of_nat (length l)).
Proof.
  induction l as [| c l IH]; intros fuel s m Hs Hf;
    (destruct fuel as [| fuel]; [lia |]); cbn [strlen_loop].
  - rewrite (cstring_nil m s Hs). simpl. by rewrite Z.add_0_r.
  - destruct (cstring_head m s c l Hs) as [Hc Hr]. rewrite Hc.
    destruct (Z.eqb_spec c 0); [lia |].
    rewrite (cstring_step m s c l Hs).
    rewrite (IH fuel (s + 1) m) by (eauto using cstring_tail || (simpl in Hf; lia)).
    f_equal. simpl length. lia.
Qed.

Lemma strnlen_loop_spec l : ∀ n s m,
  cstring m s l →
  strnlen_loop n s m = s + Z.of_nat (Nat.min (length l) n).
Proof.
  induction l as [| c l IH]; intros n s m Hs; (destruct n as [| n]); cbn [strnlen_loop].
  - simpl. lia.
  - rewrite (cstring_nil m s Hs). simpl. lia.
  - simpl. lia.
  - destruct (cstring_head m s c l Hs) as [Hc Hr]. rewrite Hc.
    destruct (Z.eqb_spec c 0); [lia |].
    rewrite (cstring_step m s c l Hs).
    rewrite (IH n (s + 1) m) by eauto using cstring_tail. simpl length. simpl Nat.min. lia.
Qed.

(** X5. For a string of [k] bytes at [s], [strlen(s)] returns [k] once
    it is given more than [k] steps, and [strnlen(s, maxlen)] returns
    the smaller of [k] and [maxlen]. *)
Theorem strlen_counts (fuel : nat) s maxlen l m :
  cstring m s l → (length l < fuel)%nat → 0 <= maxlen →
  strlen fuel s m = Some (Z.of_nat (length l)) ∧
  strnlen s maxlen m = Z.min (Z.of_nat (length l)) maxlen.
Proof.
  intros Hs Hf Hmax. pose proof Hs as [Hl Hh _ _]. split.
  - unfold strlen. rewrite (strlen_loop_spec l) by done. simpl. f_equal.
    replace (s + Z.of_nat (length l) - s) with (Z.of_nat (length l)) by lia.
    apply u64_small. lia.
  - unfold strnlen. rewrite (strnlen_loop_spec l) by done.
    replace (s + Z.of_nat (Nat.min (length l) (Z.to_nat maxlen)) - s)
      with (Z.min (Z.of_nat (length l)) maxlen) by lia.
    apply u64_small. lia.
Qed.

(** A memory with the string "OK" at 4096 and the string "OKAY" at
    8192. *)
Definition mem_demo : mem :=
  λ a, default 0 ([79; 75] !! Z.to_nat (a - 4096))
       + (if 8192 <=? a then default 0 ([79; 75; 65; 89] !! Z.to_nat (a - 8192)) else 0).

Lemma mem_demo_ok : cstring mem_demo 4096 [79; 75].
Proof.
  constructor; [lia | simpl; lia | | reflexivity].
  intros [| [| i]] c Hc; simpl in Hc; try discriminate; injection Hc as <-;
    (split; [reflexivity | lia]).
Qed.

Lemma mem_demo_okay : cstring mem_demo 8192 [79; 75; 65; 89].
Proof.
  constructor; [lia | simpl; lia | | reflexivity].
  intros [| [| [| [| i]]]] c Hc; simpl in Hc; try discriminate; injection Hc as <-;
    (split; [reflexivity | lia]).
Qed.

Lemma strlen_counts_witness :
  strlen 3 4096 mem_demo = Some (Z.of_nat (length [79; 75])) ∧
  strnlen 4096 1 mem_demo = Z.min (Z.of_nat (length [79; 75])) 1.
Proof. apply (strlen_counts 3 4096 1 [79; 75] mem_demo mem_demo_ok); simpl; lia. Defined.

Lemma strcmp_spec la : ∀ lb fuel s1 s2 m,
  cstring m s1 la → cstring m s2 lb → (length la < fuel)%nat →
  ∃ r, strcmp fuel s1 s2 m = Some r ∧ (r = 0 ↔ la = lb) ∧
       strcmp fuel s2 s1 m = Some (- r).
Proof.
  induction la as [| a la IH]; intros lb fuel s1 s2 m H1 H2 Hf;
    (destruct fuel as [| fuel]; [simpl in Hf; lia |]); cbn [strcmp].
  - rewrite (cstring_nil m s1 H1). cbn [Z.eqb negb andb].
    destruct lb as [| b lb].
    + rewrite (cstring_nil m s2 H2). exists 0. cbn. done.
    + destruct (cstring_head m s2 b lb H2) as [Hb Hr]. rewrite Hb.
      destruct (Z.eqb_spec b 0); [lia |]. cbn [negb andb].
      destruct (Z.eqb_spec b 0); [lia |]. cbn [andb].
      rewrite Z.mod_0_l, (Z.mod_small b) by lia.
      exists (- b). rewrite !s32_small by lia.
      split; [f_equal; lia |]. split; [| f_equal; lia].
      split; [lia | discriminate].
  - destruct (cstring_head m s1 a la H1) as [Ha Hra]. rewrite Ha.
    destruct (Z.eqb_spec a 0); [lia |]. cbn [negb andb].
    destruct lb as [| b lb].
    + rewrite (cstring_nil m s2 H2).
      destruct (Z.eqb_spec a 0); [lia |]. cbn [Z.eqb negb andb].
      rewrite Z.mod_0_l, (Z.mod_small a) by lia.
      exists a. rewrite !s32_small by lia.
      split; [f_equal; lia |]. split; [| f_equal; lia].
      split; [lia | discriminate].
    + destruct (cstring_head m s2 b lb H2) as [Hb Hrb]. rewrite Hb.
      destruct (Z.eqb_spec b 0); [lia |]. cbn [negb andb].
      rewrite (Z.eqb_sym b a).
      destruct (Z.eqb_spec a b) as [-> | Hne].
      * rewrite (cstring_step m s1 b la H1), (cstring_step m s2 b lb H2).
        destruct (IH lb fuel (s1 + 1) (s2 + 1) m) as (r & Hr & Hiff & Hsym);
          eauto using cstring_tail; [simpl in Hf; lia |].
        exists r. split; [done |]. split; [| done].
        rewrite Hiff. split; [by intros -> | by intros [= ->]].
      * rewrite !Z.mod_small by lia. exists (a - b). rewrite !s32_small by lia.
        split; [done |]. split; [| f_equal; lia].
        split; [lia | intros [= -> _]; done].
Qed.

(** X6. For two strings in memory, [strcmp] returns 0 exactly when they
    are the same string, and swapping the arguments negates the
    result. *)
Theorem strcmp_equal_iff (fuel : nat) s1 s2 la lb m :
  cstring m s1 la → cstring m s2 lb → (length la < fuel)%nat →
  ∃ r, strcmp fuel s1 s2 m = Some r ∧ (r = 0 ↔ la = lb) ∧
       strcmp fuel s2 s1 m = Some (- r).
Proof. intros H1 H2 Hf. by apply strcmp_spec. Qed.

Lemma strcmp_equal_iff_witness :
  ∃ r, strcmp 5 4096 8192 mem_demo = Some r ∧ (r = 0 ↔ [79; 75] = [79; 75; 65; 89]) ∧
       strcmp 5 8192 4096 mem_demo = Some (- r).
Proof.
  apply (strcmp_equal_iff 5 4096 8192 [79; 75] [79; 75; 65; 89] mem_demo
           mem_demo_ok mem_demo_okay); simpl; lia.
Defined.

(** The first loop of [strncpy] on a string of [k] bytes that the
    destination does not touch: it stops after [n] bytes when [n <= k],
    and after the terminator, with [n - k] still to go, when [k < n]. *)
Ltac cases_cmp :=
  repeat match goal with
  | |- context [?a <=? ?b] => destruct (Z.leb_spec a b)
  | |- context [?a <? ?b] => destruct (Z.ltb_spec a b)
  | |- context [?a =? ?b] => destruct (Z.eqb_spec a b)
  end; cbn [andb orb negb]; try lia.

Lemma strncpy_copy_spec l : ∀ n d s m,
  cstring m s l → 0 <= d → d + Z.of_nat n + 1 <= 2 ^ 64 →
  d + Z.of_nat n < s ∨ s + Z.of_nat (length l) < d →
  let r := strncpy_copy n d s m in
  (∀ a, r.2 a =
     if (d <=? a) && (a <? d + Z.min (Z.of_nat n) (Z.of_nat (length l) + 1))
     then default 0 (l !! Z.to_nat (a - d)) else m a) ∧
  (if (n <=? length l)%nat then r.1.1 = O
   else r.1.1 = (n - length l)%nat ∧ r.1.2 = d + Z.of_nat (length l) + 1).
Proof.
  induction l as [| c l IH]; intros n d s m Hs Hd Hdn Hdis; cbv zeta;
    (destruct n as [| n]; cbn [strncpy_copy]).
  - split; [| done]. intros a. cbn [snd]. simpl length. cases_cmp; done.
  - rewrite (cstring_nil m s Hs). cbn [Z.eqb negb fst snd]. split.
    + intros a. unfold store. simpl length. cases_cmp; try done;
        subst a; rewrite Z.sub_diag; done.
    + simpl length. cbn [Nat.leb]. split; [lia |]. rewrite u64_small by lia. lia.
  - split; [| done]. intros a. cbn [snd]. simpl length. cases_cmp; done.
  - destruct (cstring_head m s c l Hs) as [Hc Hr]. rewrite Hc.
    destruct (Z.eqb_spec c 0); [lia |]. cbn [negb].
    rewrite (cstring_step m s c l Hs). rewrite (u64_small (d + 1)) by lia.
    pose proof Hs as [Hsl Hsh _ _]. simpl length in *.
    assert (Hs' : cstring (store d c m) (s + 1) l).
    { pose proof (cstring_tail m s c l Hs) as [Hl' Hh' Hb' Hn'].
      constructor; try done.
      - intros i x Hi. rewrite store_ne; [by apply Hb' |].
        apply lookup_lt_Some in Hi. lia.
      - rewrite store_ne by lia. done. }
    destruct (IH n (d + 1) (s + 1) (store d c m) Hs') as [Hm Hrest]; try lia.
    split.
    + intros a. rewrite Hm. unfold store. cases_cmp; try done;
        first [ subst a; rewrite Z.sub_diag; done
              | replace (Z.to_nat (a - d)) with (S (Z.to_nat (a - (d + 1)))) by lia; done ].
    + cbn [Nat.leb]. destruct (n <=? length l)%nat eqn:Hle; [done |].
      destruct Hrest as [Hr1 Hr2]. split; [lia | lia].
Qed.

(** X7. [strncpy(dest, src, n)] for a source string of [k] bytes apart
    from the destination. When [n <= k] it writes the first [n] bytes
    of the string and no terminator. When [k < n] it writes the string
    and then zeros up to and including offset [n]: one byte more than
    the [n] it was given. *)
Theorem strncpy_writes dest src n l m :
  cstring m src l → 0 <= dest → 0 <= n → dest + n + 1 <= 2 ^ 64 →
  dest + n < src ∨ src + Z.of_nat (length l) < dest →
  (strncpy dest src n m).1 = dest ∧
  ∀ a, (strncpy dest src n m).2 a =
    if n <=? Z.of_nat (length l) then
      if (dest <=? a) && (a <? dest + n) then default 0 (l !! Z.to_nat (a - dest)) else m a
    else
      if (dest <=? a) && (a <? dest + Z.of_nat (length l))
      then default 0 (l !! Z.to_nat (a - dest))
      else if (dest + Z.of_nat (length l) <=? a) && (a <=? dest + n) then 0
      else m a.
Proof.
  intros Hs Hd Hn Hdn Hdis. split; [done |]. intros a. unfold strncpy. cbn [snd].
  destruct (strncpy_copy_spec l (Z.to_nat n) dest src m Hs) as [Hm Hrest]; try lia.
  set (r := strncpy_copy (Z.to_nat n) dest src m) in *.
  destruct (Z.leb_spec n (Z.of_nat (length l))) as [Hle | Hgt].
  - destruct (Nat.leb_spec (Z.to_nat n) (length l)) as [_ | Hc]; [| lia].
    rewrite Hrest. cbn [memset_loop]. rewrite Hm.
    replace (Z.min (Z.of_nat (Z.to_nat n)) (Z.of_nat (length l) + 1)) with n by lia. done.
  - destruct (Nat.leb_spec (Z.to_nat n) (length l)) as [Hc | _]; [lia |].
    destruct Hrest as [Hr1 Hr2]. rewrite Hr1, Hr2.
    rewrite memset_loop_spec by lia. rewrite Hm. rewrite Z.mod_0_l by lia.
    replace (Z.min (Z.of_nat (Z.to_nat n)) (Z.of_nat (length l) + 1))
      with (Z.of_nat (length l) + 1) by lia.
    cases_cmp; try done;
      replace (Z.to_nat (a - dest)) with (length l) by lia;
      by rewrite lookup_ge_None_2.
Qed.

Lemma strncpy_writes_witness :
  (strncpy 100 4096 5 mem_demo).1 = 100 ∧
  ∀ a, (strncpy 100 4096 5 mem_demo).2 a =
    if 5 <=? Z.of_nat (length [79; 75]) then
      if (100 <=? a) && (a <? 100 + 5) then default 0 ([79; 75] !! Z.to_nat (a - 100))
      else mem_demo a
    else
      if (100 <=? a) && (a <? 100 + Z.of_nat (length [79; 75]))
      then default 0 ([79; 75] !! Z.to_nat (a - 100))
      else if (100 + Z.of_nat (length [79; 75]) <=? a) && (a <=? 100 + 5) then 0
      else mem_demo a.
Proof. apply (strncpy_writes 100 4096 5 [79; 75] mem_demo mem_demo_ok); simpl; lia. Defined.

End Strings.

(** ** Integer and fixed-point arithmetic (math.c) *)

Module Math.

Definition FP_SHIFT : Z := 16.
Definition FP_ONE : Z := Z.shiftl 1 FP_SHIFT.
Definition FP_HALF : Z := Z.shiftl 1 (FP_SHIFT - 1).

(** What a loop with a division in it comes to: a value, a division by
    zero, or more iterations than it was given. *)
Inductive outcome :=
  | Value (v : Z)
  | Division_by_zero
  | Out_of_fuel.

(** [while (y < x) { x = y; y = (x + n / x) >> 1; }] on [uint32_t]. *)
Fixpoint isqrt_loop (fuel : nat) (n x y : Z) : outcome :=
  if y <? x then
    match fuel with
    | O => Out_of_fuel
    | S fuel' =>
        let x := y in
        if x =? 0 then Division_by_zero
        else isqrt_loop fuel' n x (Z.shiftr (u32 (x + n / x)) 1)
    end
  else Value x.

(** [k_isqrt] *)
Definition k_isqrt (fuel : nat) (n : Z) : outcome :=
  if n =? 0 then Value 0
  else isqrt_loop fuel n n (Z.shiftr (u32 (n + 1)) 1).

(** [k_fixmul]: the product in 64 bits, shifted, cut to 32. *)
Definition k_fixmul (a b : Z) : Z := s32 (Z.shiftr (s64 (a * b)) FP_SHIFT).

(** [k_fixdiv] *)
Definition k_fixdiv (a b : Z) : Z :=
  if b =? 0 then 0 else s32 (Z.quot (s64 (Z.shiftl a FP_SHIFT)) b).

Definition k_int_to_fp (x : Z) : Z := s32 (Z.shiftl x FP_SHIFT).
Definition k_fp_to_int (x : Z) : Z := Z.shiftr x FP_SHIFT.
Definition k_fp_to_int_round (x : Z) : Z := Z.shiftr (s32 (x + FP_HALF)) FP_SHIFT.
Definition k_fabs_fp (x : Z) : Z := if x <? 0 then s32 (- x) else x.

(** [x & ~((1 << FP_SHIFT) - 1)] *)
Definition k_floor_fp (x : Z) : Z := Z.land x (Z.lnot (Z.shiftl 1 FP_SHIFT - 1)).

Definition k_ceil_fp (x : Z) : Z :=
  let frac := Z.land x (Z.shiftl 1 FP_SHIFT - 1) in
  if frac =? 0 then x
  else if 0 <=? x then s32 (Z.land x (Z.lnot (Z.shiftl 1 FP_SHIFT - 1)) + FP_ONE)
  else Z.land x (Z.lnot (Z.shiftl 1 FP_SHIFT - 1)).

(** *** The Newton iteration *)

(** One step from any positive [x] lands at or above the root. *)
Lemma newton_step_above n x :
  0 <= n → 0 < x → n < ((x + n / x) / 2 + 1) * ((x + n / x) / 2 + 1).
Proof.
  intros Hn Hx.
  pose proof (Z.div_mod n x ltac:(lia)) as Hq.
  pose proof (Z.mod_pos_bound n x Hx) as Hr.
  pose proof (Z.div_pos n x Hn Hx) as Hq0.
  set (q := n / x) in *. set (r := n mod x) in *.
  pose proof (Z.div_mod (x + q) 2 ltac:(lia)) as Hy.
  pose proof (Z.mod_pos_bound (x + q) 2 ltac:(lia)) as Hy2.
  set (y := (x + q) / 2) in *. set (e := (x + q) mod 2) in *.
  assert (H1 : x + q + 1 <= 2 * (y + 1)) by lia.
  pose proof (Z.square_nonneg (x - q - 1)) as Hsq.
  assert (H2 : 4 * n < (x + q + 1) * (x + q + 1)) by nia.
  assert (H3 : (x + q + 1) * (x + q + 1) <= (2 * (y + 1)) * (2 * (y + 1))) by nia.
  nia.
Qed.

Lemma isqrt_loop_spec fuel : ∀ n x y,
  0 < n < 2 ^ 32 - 1 → 0 < x <= n → x - 1 <= Z.of_nat fuel →
  n < (x + 1) * (x + 1) →
  0 <= y → n < (y + 1) * (y + 1) →
  (x <= y → x * x <= n) →
  ∃ r, isqrt_loop fuel n x y = Value r ∧ r * r <= n < (r + 1) * (r + 1).
Proof.
  induction fuel as [| fuel IH]; intros n x y Hn Hx Hf Hxs Hy Hys Hstop;
    cbn [isqrt_loop]; destruct (Z.ltb_spec y x) as [Hlt | Hge].
  - assert (y = 0) by lia. subst y. lia.
  - exists x. split; [done |]. split; [apply Hstop; lia | lia].
  - assert (Hy0 : 0 < y) by nia.
    destruct (Z.eqb_spec y 0); [lia |].
    assert (Hq : 0 <= n / y) by (apply Z.div_pos; lia).
    assert (Hqb : n / y <= n + 1 - y).
    { apply Z.div_le_upper_bound; [lia |].
      assert (0 <= (y - 1) * (n - y)) by (apply Z.mul_nonneg_nonneg; lia). nia. }
    assert (Hsum : u32 (y + n / y) = y + n / y).
    { unfold u32. apply Z.mod_small. lia. }
    rewrite Hsum, Z.shiftr_div_pow2 by lia. change (2 ^ 1) with 2.
    apply IH; try lia.
    + apply Z.div_pos; lia.
    + apply newton_step_above; lia.
    + intros Hle.
      assert (H2 : 2 * y <= y + n / y).
      { pose proof (Z.div_mod (y + n / y) 2 ltac:(lia)).
        pose proof (Z.mod_pos_bound (y + n / y) 2 ltac:(lia)). lia. }
      assert (H3 : y <= n / y) by lia.
      pose proof (Z.mul_div_le n y Hy0). nia.
  - exists x. split; [done |]. split; [apply Hstop; lia | lia].
Qed.

(** X8. [k_isqrt(n)] is the integer square root for every [n] below
    [2^32 - 1], given at least [n] iterations. On [n = 2^32 - 1] the
    first estimate [(n + 1) >> 1] wraps to 0 and the loop divides by
    zero. *)
Theorem k_isqrt_floor (fuel : nat) (n : Z) :
  0 <= n < 2 ^ 32 - 1 → n <= Z.of_nat fuel →
  (∃ r, k_isqrt fuel n = Value r ∧ r * r <= n < (r + 1) * (r + 1)) ∧
  k_isqrt (S fuel) (2 ^ 32 - 1) = Division_by_zero.
Proof.
  intros Hn Hf. split; [| reflexivity].
  unfold k_isqrt. destruct (Z.eqb_spec n 0) as [-> | Hn0].
  - exists 0. split; [done | lia].
  - assert (Hu : u32 (n + 1) = n + 1) by (unfold u32; apply Z.mod_small; lia).
    rewrite Hu, Z.shiftr_div_pow2 by lia. change (2 ^ 1) with 2.
    pose proof (Z.div_mod (n + 1) 2 ltac:(lia)) as Hd.
    pose proof (Z.mod_pos_bound (n + 1) 2 ltac:(lia)) as Hm.
    apply isqrt_loop_spec; try lia; try nia;
      intros Hle; assert (n = 1) by lia; subst n; lia.
Qed.

Lemma k_isqrt_floor_witness :
  (∃ r, k_isqrt 10 10 = Value r ∧ r * r <= 10 < (r + 1) * (r + 1)) ∧
  k_isqrt 11 (2 ^ 32 - 1) = Division_by_zero.
Proof. apply (k_isqrt_floor 10 10); lia. Defined.

(** *** Floor and ceiling in 16.16 *)

Lemma mask_low x : Z.land x (Z.shiftl 1 FP_SHIFT - 1) = x mod 65536.
Proof. change (Z.shiftl 1 FP_SHIFT - 1) with (Z.ones 16). by rewrite Z.land_ones. Qed.

Lemma mask_high x : Z.land x (Z.lnot (Z.shiftl 1 FP_SHIFT - 1)) = 65536 * (x / 65536).
Proof.
  change (Z.shiftl 1 FP_SHIFT - 1) with (Z.ones 16).
  rewrite <- Z.ldiff_land, Z.ldiff_ones_r by lia.
  rewrite Z.shiftl_mul_pow2, Z.shiftr_div_pow2 by lia. change (2 ^ 16) with 65536. lia.
Qed.

(** X9. For every 32-bit [x], [k_floor_fp(x)] is the largest multiple
    of [1.0] (65536) not above [x]. [k_ceil_fp(x)] returns [x] when [x]
    is such a multiple. For a positive [x] with a fractional part it
    returns the next multiple above [x] as long as that multiple is
    below [2^31]; for [x] above [2^31 - 65536] the addition wraps and
    it returns [-2^31]. For a negative [x] with a fractional part it
    returns the floor: one whole unit below the ceiling. *)
Theorem k_ceil_fp_negative x :
  - 2 ^ 31 <= x < 2 ^ 31 →
  k_floor_fp x = 65536 * (x / 65536) ∧
  k_floor_fp x <= x < k_floor_fp x + 65536 ∧
  (x mod 65536 = 0 → k_ceil_fp x = x) ∧
  (0 <= x < 2 ^ 31 - 65536 → x mod 65536 ≠ 0 →
     k_ceil_fp x = k_floor_fp x + 65536 ∧
     k_ceil_fp x = 65536 * ((x + 65535) / 65536) ∧
     x < k_ceil_fp x < x + 65536) ∧
  (2 ^ 31 - 65536 < x → k_ceil_fp x = - 2 ^ 31) ∧
  (x < 0 → x mod 65536 ≠ 0 → k_ceil_fp x = k_floor_fp x ∧ k_ceil_fp x < x).
Proof.
  intros Hx. unfold k_floor_fp, k_ceil_fp. cbv zeta. rewrite mask_low, !mask_high.
  pose proof (Z.div_mod x 65536 ltac:(lia)) as Hd.
  pose proof (Z.mod_pos_bound x 65536 ltac:(lia)) as Hm.
  unfold FP_ONE, FP_SHIFT. change (Z.shiftl 1 16) with 65536.
  split; [done |]. split; [lia |]. split; [| split; [| split]].
  - intros He. by destruct (Z.eqb_spec (x mod 65536) 0).
  - intros H0 Hne. destruct (Z.eqb_spec (x mod 65536) 0); [done |].
    destruct (Z.leb_spec 0 x); [| lia].
    assert (Hq : (x + 65535) / 65536 = x / 65536 + 1).
    { symmetry. apply (Z.div_unique _ _ _ (x mod 65536 - 1)); lia. }
    rewrite Hq. rewrite s32_small by lia. lia.
  - intros Hbig.
    assert (Hq : x / 65536 = 32767).
    { symmetry. apply (Z.div_unique _ _ _ (x - 32767 * 65536)); lia. }
    destruct (Z.eqb_spec (x mod 65536) 0); [lia |].
    destruct (Z.leb_spec 0 x); [| lia].
    rewrite Hq. reflexivity.
  - intros Hneg Hfrac. destruct (Z.eqb_spec (x mod 65536) 0); [done |].
    destruct (Z.leb_spec 0 x); [lia |]. lia.
Qed.

Lemma k_ceil_fp_negative_witness :
  k_floor_fp (-1234) = 65536 * (-1234 / 65536) ∧
  k_floor_fp (-1234) <= -1234 < k_floor_fp (-1234) + 65536 ∧
  k_ceil_fp (-1234) = k_floor_fp (-1234) ∧ k_ceil_fp (-1234) < -1234.
Proof.
  destruct (k_ceil_fp_negative (-1234) ltac:(lia)) as (H1 & H2 & _ & _ & _ & H3).
  split; [exact H1 |]. split; [exact H2 |].
  apply H3; [lia | vm_compute; discriminate].
Defined.

Lemma s64_small x : - 2 ^ 63 <= x < 2 ^ 63 → s64 x = x.
Proof. intros H. unfold s64. rewrite Z.mod_small; lia. Qed.

(** X10. In 16.16, [1.0] is neutral: [k_fixmul(a, FP_ONE)] and
    [k_fixdiv(a, FP_ONE)] are [a] for every 32-bit [a]; and an integer
    of 16 bits survives the trip through [k_int_to_fp] and
    [k_fp_to_int]. *)
Theorem fixed_point_one a :
  - 2 ^ 31 <= a < 2 ^ 31 →
  k_fixmul a FP_ONE = a ∧ k_fixmul FP_ONE a = a ∧ k_fixdiv a FP_ONE = a ∧
  (- 2 ^ 15 <= a < 2 ^ 15 → k_fp_to_int (k_int_to_fp a) = a).
Proof.
  intros Ha. unfold k_fixmul, k_fixdiv, k_fp_to_int, k_int_to_fp, FP_ONE, FP_SHIFT.
  change (Z.shiftl 1 16) with 65536. change (65536 =? 0) with false. cbv iota.
  rewrite (Z.mul_comm 65536 a).
  rewrite Z.shiftl_mul_pow2 by lia. change (2 ^ 16) with 65536.
  rewrite (s64_small (a * 65536)) by lia.
  rewrite Z.shiftr_div_pow2 by lia. change (2 ^ 16) with 65536.
  rewrite Z.div_mul by lia. rewrite Z.quot_mul by lia. rewrite s32_small by lia.
  repeat split. intros Hs. rewrite s32_small by lia.
  rewrite Z.shiftr_div_pow2 by lia. change (2 ^ 16) with 65536. by rewrite Z.div_mul by lia.
Qed.

Lemma fixed_point_one_witness :
  k_fixmul (-1234) FP_ONE = -1234 ∧ k_fixmul FP_ONE (-1234) = -1234 ∧
  k_fixdiv (-1234) FP_ONE = -1234 ∧
  (- 2 ^ 15 <= -1234 < 2 ^ 15 → k_fp_to_int (k_int_to_fp (-1234)) = -1234).
Proof. apply (fixed_point_one (-1234)). lia. Defined.

End Math.

(** ** More on the page-frame allocator (pmm.c) *)

Module PageFrames.

Import Pmm.

Lemma zone_alloc_page_counts zid s :
  (zone_alloc_page zid s).1 ≠ 0 →
  free_pages (zone_alloc_page zid s).2 = u64 (free_pages s - 1).
Proof.
  unfold zone_alloc_page. cbv zeta. destruct (_ <? 0); simpl; [done |].
  intros _. by destruct zid.
Qed.

Lemma pmm_alloc_page_counts s :
  wf s → (pmm_alloc_page s).1 ≠ 0 →
  free_pages (pmm_alloc_page s).2 = u64 (free_pages s - 1).
Proof.
  intros Hwf. unfold pmm_alloc_page. cbv zeta.
  destruct (zone_alloc_page ZONE_NORMAL s) as [a1 s1] eqn:H1. simpl.
  destruct (Z.eqb_spec a1 0) as [-> | Hne].
  - destruct (zone_alloc_page_spec ZONE_NORMAL s 0 s1 Hwf H1) as [[_ ->] | [Hc _]];
      [| done].
    apply zone_alloc_page_counts.
  - intros _. pose proof (zone_alloc_page_counts ZONE_NORMAL s) as Hc.
    rewrite H1 in Hc. by apply Hc.
Qed.

(** [pmm_free_page] on the frame [p], whatever its descriptor says. *)
Lemma pmm_free_page_frame s a :
  wf s → 0 <= a < 2 ^ 64 →
  let s' := pmm_free_page a s in
  wf s' ∧ total_pages s' = total_pages s ∧
  end_pfn (zone_dma s') = end_pfn (zone_dma s) ∧
  (∀ q, 0 <= q → pfn_used s' q = true → pfn_used s q = true) ∧
  (∀ q, 0 <= q → q ≠ phys_to_pfn (a - MEMORY_BASE) →
        pfn_used s' q = pfn_used s q ∧ get_page s' q = get_page s q).
Proof.
  intros Hwf Ha. pose proof Hwf as [Hds Hde Hns Hne Htot Hpg Hdb Hnb]. cbv zeta.
  unfold pmm_free_page. cbv zeta.
  assert (Hmax : MAX_PAGES = 262144) by reflexivity.
  destruct (Z.eqb_spec a 0); [done |].
  destruct (Z.ltb_spec a MEMORY_BASE); [done |].
  set (p := phys_to_pfn (a - MEMORY_BASE)).
  assert (Hp0 : 0 <= p).
  { subst p. unfold phys_to_pfn. apply Z.shiftr_nonneg. lia. }
  destruct (Z.leb_spec (total_pages s) p); [done |].
  destruct (negb (Z.land (flags (get_page s p)) PG_RESERVED =? 0)).
  { split; [by constructor |]. done. }
  destruct (0 <? u32 (refcount (get_page s p) - 1)).
  { split; [constructor; simpl; rewrite ?length_insert; auto |].
    split; [done |]. split; [done |]. split; [done |].
    intros q Hq Hqp. split; [done |]. unfold get_page. simpl.
    by rewrite list_lookup_insert_ne by lia. }
  cbn [set_page zone_dma end_pfn].
  destruct (Z.ltb_spec p (end_pfn (zone_dma s))) as [Hlt | Hge];
    cbn [get_zone set_zone set_free_pages set_page zone_dma zone_normal page_array
         total_pages free_pages warned end_pfn start_pfn zone_free_pages bitmap].
  - split; [constructor; simpl; rewrite ?length_insert, ?bitmap_clear_length; auto |].
    split; [done |]. split; [done |]. split.
    + intros q Hq. unfold pfn_used. simpl.
      destruct (Z.ltb_spec q (end_pfn (zone_dma s))); [| done].
      rewrite bitmap_test_clear by lia. by intros [_ ?]%andb_prop.
    + intros q Hq Hqp. split.
      * unfold pfn_used. simpl.
        destruct (Z.ltb_spec q (end_pfn (zone_dma s))); [| done].
        rewrite bitmap_test_clear by lia. destruct (Z.eqb_spec p q); [lia | done].
      * unfold get_page. simpl. by rewrite list_lookup_insert_ne by lia.
  - split; [constructor; simpl; rewrite ?length_insert, ?bitmap_clear_length; auto |].
    split; [done |]. split; [done |]. split.
    + intros q Hq. unfold pfn_used. simpl.
      destruct (Z.ltb_spec q (end_pfn (zone_dma s))); [done |].
      rewrite bitmap_test_clear by lia. by intros [_ ?]%andb_prop.
    + intros q Hq Hqp. split.
      * unfold pfn_used. simpl.
        destruct (Z.ltb_spec q (end_pfn (zone_dma s))); [done |].
        rewrite bitmap_test_clear by lia.
        destruct (Z.eqb_spec (p - end_pfn (zone_dma s)) (q - end_pfn (zone_dma s)));
          [lia | done].
      * unfold get_page. simpl. by rewrite list_lookup_insert_ne by lia.
Qed.

Lemma pmm_free_page_counts s p :
  wf s → 0 <= p < total_pages s → get_page s p = mkPage 0 1 →
  free_pages (pmm_free_page (MEMORY_BASE + p * 4096) s) = u64 (free_pages s + 1) ∧
  get_page (pmm_free_page (MEMORY_BASE + p * 4096) s) p = mkPage 0 0.
Proof.
  intros Hwf Hp Hd. pose proof Hwf as [Hds Hde Hns Hne Htot Hpg Hdb Hnb].
  unfold pmm_free_page.
  assert (Hmax : MAX_PAGES = 262144) by reflexivity.
  destruct (Z.eqb_spec (MEMORY_BASE + p * 4096) 0); [unfold MEMORY_BASE in *; lia |].
  destruct (Z.ltb_spec (MEMORY_BASE + p * 4096) MEMORY_BASE); [lia |].
  destruct (pfn_phys_roundtrip p ltac:(lia)) as [_ ->].
  destruct (Z.leb_spec (total_pages s) p); [lia |].
  rewrite Hd. cbn [flags refcount].
  change (negb (Z.land 0 PG_RESERVED =? 0)) with false. cbv iota.
  change (u32 (1 - 1)) with 0. change (0 <? 0) with false. cbv iota zeta.
  cbn [set_page zone_dma end_pfn].
  destruct (Z.ltb_spec p (end_pfn (zone_dma s)));
    cbn [get_zone set_zone set_free_pages set_page zone_dma zone_normal page_array
         total_pages free_pages warned end_pfn start_pfn zone_free_pages bitmap];
    (split; [done |]); unfold get_page, set_free_pages;
    cbn [page_array]; by rewrite list_lookup_insert_eq by lia.
Qed.

Lemma pmm_free_page_again s p :
  wf s → 0 <= p < total_pages s → get_page s p = mkPage 0 0 →
  pmm_free_page (MEMORY_BASE + p * 4096) s = set_page p (mkPage 0 (2 ^ 32 - 1)) s.
Proof.
  intros Hwf Hp Hd. pose proof Hwf as [Hds Hde Hns Hne Htot Hpg Hdb Hnb].
  unfold pmm_free_page.
  assert (Hmax : MAX_PAGES = 262144) by reflexivity.
  destruct (Z.eqb_spec (MEMORY_BASE + p * 4096) 0); [unfold MEMORY_BASE in *; lia |].
  destruct (Z.ltb_spec (MEMORY_BASE + p * 4096) MEMORY_BASE); [lia |].
  destruct (pfn_phys_roundtrip p ltac:(lia)) as [_ ->].
  destruct (Z.leb_spec (total_pages s) p); [lia |].
  rewrite Hd. cbn [flags refcount].
  change (negb (Z.land 0 PG_RESERVED =? 0)) with false. cbv iota.
  change (u32 (0 - 1)) with (2 ^ 32 - 1). change (0 <? 2 ^ 32 - 1) with true. done.
Qed.

(** X11. A page handed out by [pmm_alloc_page] and given back with
    [pmm_free_page] leaves the allocator as it was: every frame is
    marked as before the allocation and the count of free pages is
    back. *)
Theorem pmm_alloc_free_roundtrip (s s' : pmm) (addr : Z) :
  wf s → 0 < free_pages s < 2 ^ 64 →
  pmm_alloc_page s = (addr, s') → addr ≠ 0 →
  wf (pmm_free_page addr s') ∧
  (∀ q, 0 <= q → pfn_used (pmm_free_page addr s') q = pfn_used s q) ∧
  free_pages (pmm_free_page addr s') = free_pages s.
Proof.
  intros Hwf Hfree Hall Hne.
  destruct (pmm_alloc_page_spec s addr s' Hwf Hall) as [[H0 _] | [_ [first Hal]]]; [done |].
  destruct Hal as [Haddr Hwf' Htot Hdma Hrange Hzone Hused Hfresh Hdesc].
  pose proof (pmm_alloc_page_counts s Hwf) as Hcnt. rewrite Hall in Hcnt. simpl in Hcnt.
  specialize (Hcnt Hne). subst addr.
  destruct (pmm_free_page_spec s' first Hwf' ltac:(lia) (Hdesc first ltac:(lia)))
    as (Hwf2 & _ & _ & Hused2 & _).
  destruct (pmm_free_page_counts s' first Hwf' ltac:(lia) (Hdesc first ltac:(lia)))
    as [Hc2 _].
  split; [done |]. split.
  - intros q Hq. rewrite Hused2, Hused by done. rewrite in_run_one.
    destruct (Z.eqb_spec first q) as [<- |]; [| done].
    simpl. symmetry. apply Hfresh. lia.
  - rewrite Hc2, Hcnt. rewrite (u64_small (free_pages s - 1)) by lia.
    rewrite u64_small by lia. lia.
Qed.

Lemma pmm_alloc_free_roundtrip_witness :
  wf (pmm_free_page (pmm_alloc_page pmm_demo).1 (pmm_alloc_page pmm_demo).2) ∧
  (∀ q, 0 <= q →
     pfn_used (pmm_free_page (pmm_alloc_page pmm_demo).1 (pmm_alloc_page pmm_demo).2) q
     = pfn_used pmm_demo q) ∧
  free_pages (pmm_free_page (pmm_alloc_page pmm_demo).1 (pmm_alloc_page pmm_demo).2)
    = free_pages pmm_demo.
Proof.
  apply (pmm_alloc_free_roundtrip pmm_demo (pmm_alloc_page pmm_demo).2
           (pmm_alloc_page pmm_demo).1 pmm_demo_wf).
  - vm_compute. split; reflexivity.
  - reflexivity.
  - vm_compute. discriminate.
Defined.

(** X12. Freeing the same page twice: the second [pmm_free_page] finds
    the reference count at 0, decrements it to [2^32 - 1] and returns;
    no frame changes its mark and no counter moves, but the descriptor
    is left with that count. *)
Theorem pmm_free_page_twice (s : pmm) (p : Z) :
  wf s → 0 <= p < total_pages s → get_page s p = mkPage 0 1 →
  let a := MEMORY_BASE + p * 4096 in
  let s1 := pmm_free_page a s in
  let s2 := pmm_free_page a s1 in
  (∀ q, 0 <= q → pfn_used s2 q = pfn_used s1 q) ∧
  free_pages s2 = free_pages s1 ∧
  zone_dma s2 = zone_dma s1 ∧ zone_normal s2 = zone_normal s1 ∧
  get_page s2 p = mkPage 0 (2 ^ 32 - 1).
Proof.
  intros Hwf Hp Hd. cbv zeta.
  destruct (pmm_free_page_spec s p Hwf Hp Hd) as (Hwf1 & Htot1 & _ & _ & _).
  destruct (pmm_free_page_counts s p Hwf Hp Hd) as [_ Hd1].
  rewrite (pmm_free_page_again _ p Hwf1 ltac:(lia) Hd1).
  split; [done |]. split; [done |]. split; [done |]. split; [done |].
  unfold get_page, set_page. cbn [page_array].
  destruct Hwf1 as [_ _ _ _ _ Hpg _ _]. by rewrite list_lookup_insert_eq by lia.
Qed.

(** The example machine after one allocation: frame 67 is out. *)
Definition pmm_one : pmm := (pmm_alloc_page pmm_demo).2.

Lemma pmm_one_wf : wf pmm_one.
Proof.
  constructor; vm_compute; try reflexivity; try discriminate; split; discriminate.
Qed.

Lemma pmm_free_page_twice_witness :
  (∀ q, 0 <= q →
     pfn_used (pmm_free_page (MEMORY_BASE + 67 * 4096)
                 (pmm_free_page (MEMORY_BASE + 67 * 4096) pmm_one)) q
     = pfn_used (pmm_free_page (MEMORY_BASE + 67 * 4096) pmm_one) q) ∧
  free_pages (pmm_free_page (MEMORY_BASE + 67 * 4096)
                (pmm_free_page (MEMORY_BASE + 67 * 4096) pmm_one))
    = free_pages (pmm_free_page (MEMORY_BASE + 67 * 4096) pmm_one) ∧
  get_page (pmm_free_page (MEMORY_BASE + 67 * 4096)
              (pmm_free_page (MEMORY_BASE + 67 * 4096) pmm_one)) 67
    = mkPage 0 (2 ^ 32 - 1).
Proof.
  destruct (pmm_free_page_twice pmm_one 67 pmm_one_wf) as (H1 & H2 & _ & _ & H3).
  - vm_compute. split; [discriminate | reflexivity].
  - reflexivity.
  - split; [exact H1 |]. split; [exact H2 | exact H3].
Defined.

(** X13. [pmm_free_page(a)], for any address and any state of the
    descriptors, leaves the allocator well formed, never marks a frame
    as used, and changes neither the mark nor the descriptor of a frame
    other than the one [a] lies in. *)
Theorem pmm_free_page_only_its_frame (s : pmm) (a : Z) :
  wf s → 0 <= a < 2 ^ 64 →
  wf (pmm_free_page a s) ∧
  (∀ q, 0 <= q → pfn_used (pmm_free_page a s) q = true → pfn_used s q = true) ∧
  (∀ q, 0 <= q → q ≠ phys_to_pfn (a - MEMORY_BASE) →
        pfn_used (pmm_free_page a s) q = pfn_used s q ∧
        get_page (pmm_free_page a s) q = get_page s q).
Proof.
  intros Hwf Ha. destruct (pmm_free_page_frame s a Hwf Ha) as (H1 & _ & _ & H2 & H3).
  done.
Qed.

Lemma pmm_free_page_only_its_frame_witness :
  wf (pmm_free_page 0x40043123 pmm_one) ∧
  (∀ q, 0 <= q → pfn_used (pmm_free_page 0x40043123 pmm_one) q = true →
        pfn_used pmm_one q = true) ∧
  (∀ q, 0 <= q → q ≠ phys_to_pfn (0x40043123 - MEMORY_BASE) →
        pfn_used (pmm_free_page 0x40043123 pmm_one) q = pfn_used pmm_one q ∧
        get_page (pmm_free_page 0x40043123 pmm_one) q = get_page pmm_one q).
Proof. apply (pmm_free_page_only_its_frame pmm_one 0x40043123 pmm_one_wf). lia. Defined.

Lemma find_free_from_none fuel : ∀ b i,
  0 <= i → find_free_from b i fuel = -1 →
  ∀ j, i <= j < i + Z.of_nat fuel → bitmap_test b j = true.
Proof.
  induction fuel as [| fuel IH]; intros b i Hi Hr j Hj; [lia |].
  cbn [find_free_from] in Hr. destruct (bitmap_test b i) eqn:Hb; cbn [negb] in Hr; [| lia].
  destruct (Z.eq_dec j i) as [-> |]; [done |]. apply (IH b (i + 1)); [lia | done | lia].
Qed.

Lemma zone_alloc_page_null zid s :
  wf s →
  (zone_alloc_page zid s).1 = 0 ↔
  ∀ j, 0 <= j < end_pfn (get_zone zid s) - start_pfn (get_zone zid s) →
       bitmap_test (bitmap (get_zone zid s)) j = true.
Proof.
  intros Hwf. pose proof Hwf as [Hds Hde Hns Hne Htot Hpg Hdb Hnb].
  unfold zone_alloc_page, bitmap_find_free. cbv zeta.
  set (z := get_zone zid s). set (stop := end_pfn z - start_pfn z).
  assert (Hstop : 0 <= stop) by (subst stop z; destruct zid; simpl; lia).
  destruct (find_free_from_spec (Z.to_nat (stop - 0)) (bitmap z) 0 ltac:(lia))
    as [Hr | [Hr Hfree]].
  - rewrite Hr. simpl. split; [| done]. intros _ j Hj.
    apply (find_free_from_none (Z.to_nat (stop - 0)) (bitmap z) 0); [lia | done | lia].
  - set (pfn := find_free_from (bitmap z) 0 (Z.to_nat (stop - 0))) in *.
    destruct (Z.ltb_spec pfn 0); [lia |]. cbn [fst].
    split.
    + intros H0. unfold pfn_to_phys, u64, MEMORY_BASE in H0.
      pose proof (Z.mod_pos_bound (Z.shiftl (start_pfn z + pfn) PAGE_SHIFT) (2 ^ 64)). lia.
    + intros Hall. rewrite Hall in Hfree by lia. discriminate.
Qed.

(** X14. [pmm_alloc_page] returns [NULL] exactly when every frame of
    the machine is marked used; as long as one frame is free, in either
    zone, it returns a page. *)
Theorem pmm_alloc_page_exhausted (s : pmm) :
  wf s →
  (pmm_alloc_page s).1 = 0 ↔ ∀ p, 0 <= p < total_pages s → pfn_used s p = true.
Proof.
  intros Hwf. pose proof Hwf as [Hds Hde Hns Hne Htot Hpg Hdb Hnb].
  unfold pmm_alloc_page. cbv zeta.
  destruct (zone_alloc_page ZONE_NORMAL s) as [a1 s1] eqn:H1. cbn [fst snd].
  pose proof (zone_alloc_page_null ZONE_NORMAL s Hwf) as Hn. rewrite H1 in Hn.
  cbn [fst get_zone] in Hn.
  destruct (Z.eqb_spec a1 0) as [-> | Hne1].
  - destruct (zone_alloc_page_spec ZONE_NORMAL s 0 s1 Hwf H1) as [[_ ->] | [Hc _]]; [| done].
    rewrite (zone_alloc_page_null ZONE_DMA s Hwf). cbn [get_zone].
    split.
    + intros Hd p Hp. unfold pfn_used.
      destruct (Z.ltb_spec p (end_pfn (zone_dma s))).
      * apply Hd. lia.
      * apply (proj1 Hn eq_refl). lia.
    + intros Hall j Hj. specialize (Hall j ltac:(lia)). unfold pfn_used in Hall.
      destruct (Z.ltb_spec j (end_pfn (zone_dma s))); [done | lia].
  - split; [done |]. intros Hall. destruct Hne1. apply Hn. intros j Hj.
    specialize (Hall (j + end_pfn (zone_dma s)) ltac:(lia)). unfold pfn_used in Hall.
    destruct (Z.ltb_spec (j + end_pfn (zone_dma s)) (end_pfn (zone_dma s))); [lia |].
    by replace (j + end_pfn (zone_dma s) - end_pfn (zone_dma s)) with j in Hall by lia.
Qed.

Lemma pmm_alloc_page_exhausted_witness :
  (pmm_alloc_page pmm_demo).1 = 0
  ↔ ∀ p, 0 <= p < total_pages pmm_demo → pfn_used pmm_demo p = true.
Proof. apply (pmm_alloc_page_exhausted pmm_demo pmm_demo_wf). Defined.

End PageFrames.

(** ** More on the kernel heap (kmalloc.c) *)

Module Heap.

Import Kmalloc.

(** [(size + 15) & ~15] *)
Lemma round16 sz :
  0 <= sz → sz + 15 < 2 ^ 64 →
  Z.land (u64 (sz + 15)) (u64 (Z.lnot 15)) = (sz + 15) / 16 * 16.
Proof.
  intros H0 H1. pose proof (Pmm.align_up_spec sz 4 ltac:(lia) H0) as Ha.
  change (2 ^ 4) with 16 in Ha. change (u64 (16 - 1)) with 15 in Ha.
  replace (sz + 16 - 1) with (sz + 15) in Ha by lia. apply Ha. lia.
Qed.

(** X15. With nothing on the free list, [kmalloc(size)] tests the
    64-bit sum of the bump pointer and the rounded size plus header
    against the end of the heap. When that sum is above the end it
    returns [NULL], logs [Out_of_memory] and moves nothing. Otherwise
    it carves the block at the bump pointer and moves the pointer to
    the sum: when the addition does not wrap, the pointer returned is 32
    bytes above the old bump pointer and 16-byte aligned, and the
    payload of [size] bytes ends at or before the new bump pointer,
    which stays aligned and inside the heap; when the addition wraps
    past [2^64] (a size close to [2^64]) the test passes all the same
    and the bump pointer moves backwards. *)
Theorem kmalloc_bump (sz : Z) (h : kheap) :
  heap_initialized h = true → free_list h = 0 →
  0 < sz → sz + 47 < 2 ^ 64 →
  0 <= heap_ptr h <= heap_end h → heap_end h < 2 ^ 64 → heap_ptr h mod 16 = 0 →
  let total := (sz + 15) / 16 * 16 + 32 in
  if heap_end h <? u64 (heap_ptr h + total) then
    ∃ h', kmalloc sz h = Some (0, h') ∧
      klog h' = Out_of_memory :: klog h ∧
      heap_ptr h' = heap_ptr h ∧ headers h' = headers h ∧ free_list h' = 0
  else
    ∃ h', kmalloc sz h = Some (u64 (heap_ptr h + 32), h') ∧
      heap_ptr h' = u64 (heap_ptr h + total) ∧
      klog h' = klog h ∧ free_list h' = 0 ∧ heap_initialized h' = true ∧
      (magic <$> headers h' !! heap_ptr h) = Some BLOCK_MAGIC ∧
      (size <$> headers h' !! heap_ptr h) = Some (u32 total) ∧
      (∀ a, a ≠ heap_ptr h → headers h' !! a = headers h !! a) ∧
      (heap_ptr h + total < 2 ^ 64 →
         u64 (heap_ptr h + 32) = heap_ptr h + 32 ∧
         heap_ptr h + 32 + sz <= heap_ptr h' <= heap_end h ∧
         (heap_ptr h + 32) mod 16 = 0 ∧ heap_ptr h' mod 16 = 0) ∧
      (2 ^ 64 <= heap_ptr h + total →
         heap_ptr h' = heap_ptr h + total - 2 ^ 64 ∧ heap_ptr h' < heap_ptr h).
Proof.
  intros Hinit Hfl Hsz Hmax Hp Hend Hal. cbv zeta.
  unfold kmalloc. unfold kmalloc_init at 1. rewrite Hinit. cbv zeta.
  unfold kmalloc_init. rewrite Hinit.
  destruct (Z.eqb_spec sz 0); [lia |].
  rewrite round16 by lia.
  pose proof (Z.div_mod (sz + 15) 16 ltac:(lia)) as Hd.
  pose proof (Z.mod_pos_bound (sz + 15) 16 ltac:(lia)) as Hm.
  set (R := (sz + 15) / 16 * 16) in *.
  assert (HR : sz <= R < sz + 16) by lia.
  unfold HEADER_SIZE. rewrite (u64_small (R + 32)) by lia.
  rewrite Hfl. cbn [take_first_fit Z.eqb]. cbn [mbind option_bind].
  destruct (Z.ltb_spec (heap_end h) (u64 (heap_ptr h + (R + 32)))) as [Hoom | Hfit].
  - eexists. split; [reflexivity |]. cbn [klog heap_ptr headers free_list].
    split; [done |]. split; [done |]. split; done.
  - eexists. split; [reflexivity |].
    cbn [heap_ptr free_list heap_initialized headers klog].
    split; [done |]. split; [done |]. split; [done |]. split; [done |].
    rewrite lookup_insert_eq. cbn. split; [done |]. split; [done |].
    split; [intros a Ha; by rewrite lookup_insert_ne |].
    split.
    + intros Hno. rewrite (u64_small (heap_ptr h + (R + 32))) in * by lia.
      rewrite (u64_small (heap_ptr h + 32)) by lia.
      split; [done |]. split; [lia |].
      pose proof (Z.div_mod (heap_ptr h) 16 ltac:(lia)) as Hq. rewrite Hal in Hq.
      split.
      { replace (heap_ptr h + 32) with ((heap_ptr h / 16 + 2) * 16) by lia.
        apply Z.mod_mul. lia. }
      replace (heap_ptr h + (R + 32))
        with ((heap_ptr h / 16 + (sz + 15) / 16 + 2) * 16) by (unfold R; lia).
      apply Z.mod_mul. lia.
    + intros Hwrap.
      assert (Hu : u64 (heap_ptr h + (R + 32)) = heap_ptr h + (R + 32) - 2 ^ 64).
      { unfold u64.
        replace (heap_ptr h + (R + 32))
          with (heap_ptr h + (R + 32) - 2 ^ 64 + 1 * 2 ^ 64) at 1 by lia.
        rewrite Z.mod_add by lia. apply Z.mod_small. lia. }
      rewrite Hu. split; lia.
Qed.

Lemma kmalloc_bump_witness :
  ∃ h', kmalloc 24 heap_demo = Some (0x40100090, h') ∧
        heap_ptr h' = 0x401000B0 ∧
        (size <$> headers h' !! 0x40100070) = Some 64.
Proof.
  pose proof (kmalloc_bump 24 heap_demo eq_refl eq_refl ltac:(lia) ltac:(lia)
                ltac:(vm_compute; split; discriminate) ltac:(reflexivity) eq_refl) as H.
  cbv zeta in H.
  change (heap_end heap_demo <? u64 (heap_ptr heap_demo + ((24 + 15) / 16 * 16 + 32)))
    with false in H.
  cbv iota in H.
  destruct H as (h' & H1 & H2 & _ & _ & _ & _ & H3 & _).
  exists h'. split; [exact H1 |]. split; [exact H2 | exact H3].
Defined.

(** A size close to [2^64]: the sum wraps, the test passes, a pointer
    comes back and the bump pointer has moved 64 bytes back. *)
Lemma kmalloc_bump_wrapped :
  ∃ h', kmalloc (2 ^ 64 - 100) heap_demo = Some (0x40100090, h') ∧
        heap_ptr h' = 0x40100030 ∧ klog h' = [].
Proof. eexists. split; [vm_compute; reflexivity |]. split; reflexivity. Qed.

(** X16. The block freed last is the first one [kmalloc] looks at: when
    a live block (its link clear, as [kmalloc] leaves it) is freed and
    a size that fits it is asked for next, the same pointer comes back
    and the heap is exactly as it was before the [kfree]. *)
Theorem kmalloc_reuses_freed (p sz : Z) (h : kheap) (b : block_header) :
  heap_initialized h = true →
  32 < p < 2 ^ 64 →
  headers h !! (p - 32) = Some b → magic b = BLOCK_MAGIC → next b = 0 →
  0 < sz → (sz + 15) / 16 * 16 + 32 <= size b → size b < 2 ^ 64 →
  ∃ h1, kfree p h = Some h1 ∧ kmalloc sz h1 = Some (p, h).
Proof.
  intros Hinit Hp Hb Hm Hn Hsz Hfit Hsize.
  assert (Hblock : u64 (p - HEADER_SIZE) = p - 32) by (apply u64_small; unfold HEADER_SIZE; lia).
  unfold kfree. destruct (Z.eqb_spec p 0); [lia |]. cbv zeta.
  rewrite Hblock, Hb. cbn [mbind option_bind]. rewrite Hm, Z.eqb_refl. cbn [negb].
  eexists. split; [reflexivity |].
  unfold kmalloc, kmalloc_init. cbn [heap_initialized]. rewrite Hinit. cbv zeta iota.
  destruct (Z.eqb_spec sz 0); [lia |].
  pose proof (Z.div_mod (sz + 15) 16 ltac:(lia)) as Hd.
  pose proof (Z.mod_pos_bound (sz + 15) 16 ltac:(lia)) as Hmd.
  rewrite round16 by lia.
  unfold HEADER_SIZE. rewrite (u64_small (_ + 32)) by lia.
  cbn [free_list headers]. cbn [take_first_fit].
  destruct (Z.eqb_spec (p - 32) 0); [lia |].
  cbn [headers free_list heap_base heap_end heap_ptr heap_initialized klog frames].
  rewrite lookup_insert_eq. cbn [mbind option_bind size next].
  destruct (Z.leb_spec ((sz + 15) / 16 * 16 + 32) (size b)); [| lia].
  change (0 =? 0) with true. cbv iota. cbn [mbind option_bind fst snd].
  rewrite lookup_insert_eq. cbn [mbind option_bind size reserved].
  rewrite insert_insert_eq.
  replace (u64 (p - 32 + 32)) with p by (rewrite u64_small by lia; lia).
  f_equal. f_equal.
  assert (Hb' : mkHeader BLOCK_MAGIC (size b) 0 (reserved b) = b).
  { destruct b as [bm bs bn br]. simpl in *. by subst. }
  rewrite Hb'. rewrite insert_id by done. rewrite <- Hinit. by destruct h.
Qed.

Lemma kmalloc_reuses_freed_witness :
  ∃ h1, kfree 0x40100020 heap_demo = Some h1 ∧ kmalloc 10 h1 = Some (0x40100020, heap_demo).
Proof.
  apply (kmalloc_reuses_freed 0x40100020 10 heap_demo (mkHeader BLOCK_MAGIC 48 0 0));
    try reflexivity; try lia; vm_compute; discriminate.
Defined.

End Heap.

(** ** More on the compositor (compositor.c) *)

Module Desktop.

Import Compositor.

(** *** The focused window *)

(** [compositor_get_focus_pid]: the owner of the visible window with
    the highest z-order, [-1] when there is none. *)
Definition compositor_get_focus_pid (st : comp) : Z * comp :=
  let st := local_irq_disable st in
  let r :=
    foldl (λ acc win,
             if negb (id win =? 0) && negb (visible win =? 0) then
               if acc.1 <? z_order win then (z_order win, pid win) else acc
             else acc)
          (-1, -1) (take 16 (windows st)) in
  (r.2, local_irq_enable st).

(** A slot in use whose window is shown. *)
Definition shown (win : window) : bool := negb (id win =? 0) && negb (visible win =? 0).

Lemma focus_scan l : ∀ z0 p0,
  let r := foldl (λ acc win,
                    if negb (id win =? 0) && negb (visible win =? 0) then
                      if acc.1 <? z_order win then (z_order win, pid win) else acc
                    else acc) (z0, p0) l in
  (r = (z0, p0) ∧ ∀ k win, l !! k = Some win → shown win = true → z_order win <= z0) ∨
  (∃ j win, l !! j = Some win ∧ shown win = true ∧ r = (z_order win, pid win) ∧
            z0 < z_order win ∧
            ∀ k win', l !! k = Some win' → shown win' = true →
                      z_order win' <= z_order win ∧ ((k < j)%nat → z_order win' < z_order win)).
Proof.
  induction l as [| a l IH]; intros z0 p0; cbv zeta; cbn [foldl].
  - left. split; [done |]. intros k win Hk. by rewrite lookup_nil in Hk.
  - fold (shown a). destruct (shown a) eqn:Hs; cbn [fst].
    + destruct (Z.ltb_spec z0 (z_order a)) as [Hlt | Hge].
      * destruct (IH (z_order a) (pid a)) as [[Hr Hall] | (j & win & Hj & Hsw & Hr & Hz & Hall)].
        -- right. exists O, a. split; [done |]. split; [done |]. split; [exact Hr |].
           split; [done |]. intros [| k] win' Hk Hs'.
           ++ injection Hk as <-. split; [lia | lia].
           ++ split; [by eapply Hall | lia].
        -- right. exists (S j), win. split; [done |]. split; [done |]. split; [exact Hr |].
           split; [lia |]. intros [| k] win' Hk Hs'.
           ++ injection Hk as <-. split; [lia | intros _; lia].
           ++ destruct (Hall k win' Hk Hs') as [H1 H2]. split; [done |]. intros ?. apply H2. lia.
      * destruct (IH z0 p0) as [[Hr Hall] | (j & win & Hj & Hsw & Hr & Hz & Hall)].
        -- left. split; [exact Hr |]. intros [| k] win' Hk Hs'.
           ++ injection Hk as <-. lia.
           ++ by eapply Hall.
        -- right. exists (S j), win. split; [done |]. split; [done |]. split; [exact Hr |].
           split; [lia |]. intros [| k] win' Hk Hs'.
           ++ injection Hk as <-. split; [lia | intros _; lia].
           ++ destruct (Hall k win' Hk Hs') as [H1 H2]. split; [done |]. intros ?. apply H2. lia.
    + destruct (IH z0 p0) as [[Hr Hall] | (j & win & Hj & Hsw & Hr & Hz & Hall)].
      * left. split; [exact Hr |]. intros [| k] win' Hk Hs'.
        -- injection Hk as <-. congruence.
        -- by eapply Hall.
      * right. exists (S j), win. split; [done |]. split; [done |]. split; [exact Hr |].
        split; [lia |]. intros [| k] win' Hk Hs'.
        -- injection Hk as <-. congruence.
        -- destruct (Hall k win' Hk Hs') as [H1 H2]. split; [done |]. intros ?. apply H2. lia.
Qed.

(** X18. [compositor_get_focus_pid] returns the owner of the first
    window, in slot order, among the shown windows of highest z-order,
    provided that z-order is not negative; it returns [-1] when no
    shown window has a z-order of 0 or more. It changes nothing but the
    interrupt mask, which it leaves enabled. *)
Theorem get_focus_pid_topmost (st : comp) :
  (compositor_get_focus_pid st).2 = local_irq_enable st ∧
  (((compositor_get_focus_pid st).1 = -1 ∧
    ∀ k win, take 16 (windows st) !! k = Some win → shown win = true → z_order win < 0) ∨
   (∃ j win, take 16 (windows st) !! j = Some win ∧ shown win = true ∧
             (compositor_get_focus_pid st).1 = pid win ∧ 0 <= z_order win ∧
             ∀ k win', take 16 (windows st) !! k = Some win' → shown win' = true →
                       z_order win' <= z_order win ∧
                       ((k < j)%nat → z_order win' < z_order win))).
Proof.
  unfold compositor_get_focus_pid. cbv zeta. split; [done |].
  change (windows (local_irq_disable st)) with (windows st).
  destruct (focus_scan (take 16 (windows st)) (-1) (-1))
    as [[Hr Hall] | (j & win & Hj & Hs & Hr & Hz & Hall)]; cbv zeta in Hr; rewrite Hr; cbn [snd].
  - left. split; [done |]. intros k win Hk Hs. specialize (Hall k win Hk Hs). lia.
  - right. exists j, win. split; [done |]. split; [done |]. split; [done |].
    split; [lia | done].
Qed.

(** *** A new window and its owner *)

(** X19. A process that owned no window finds the window it has just
    created: after a [compositor_create_window] that returned an
    identifier other than -1 and 0, [compositor_get_window_by_pid] for
    the creating process gives that identifier, so its output goes to
    the new window. *)
Theorem create_window_then_lookup wx wy w h title p st r st' :
  compositor_create_window wx wy w h title p st = Some (r, st') →
  r ≠ -1 → r ≠ 0 →
  list_find (λ win, id win ≠ 0 ∧ pid win = p) (take 16 (windows st)) = None →
  (compositor_get_window_by_pid p st').1 = r.
Proof.
  unfold compositor_create_window. cbv zeta.
  change (window_count (local_irq_disable st)) with (window_count st).
  change (windows (local_irq_disable st)) with (windows st).
  destruct (MAX_WINDOWS <=? window_count st); [intros [= <- _]; done |].
  destruct (list_find _ (take 16 (windows st))) as [[slot old] |] eqn:Hfind;
    [| intros [= <- _]; done].
  destruct (Kmalloc.kmalloc _ _) as [[addr hp] |]; [| done].
  cbn [mbind option_bind fst snd]. destruct (addr =? 0); [intros [= <- _]; done |].
  intros [= <- <-] _ Hr0 Hnone.
  apply list_find_Some in Hfind as (Hslot & _ & _).
  apply lookup_take_Some in Hslot as [Hslot Hlt].
  unfold compositor_get_window_by_pid. cbv zeta.
  set (win := mkWindow _ _ _ _ _ _ _ _ _ _ _ _ _ _ _ _ _ _) in *.
  match goal with |- context [list_find ?P (take 16 (windows ?s))] =>
    assert (Hw : windows s = <[slot := win]> (windows st)) by reflexivity;
    assert (Hf : list_find P (take 16 (windows s)) = Some (slot, win)) end.
  { rewrite Hw. apply list_find_Some. split; [| split].
    - rewrite lookup_take_lt by done. apply list_lookup_insert_eq.
      by eapply lookup_lt_Some.
    - split; [exact Hr0 | done].
    - intros j y Hj Hjs [Hid Hpid].
      apply lookup_take_Some in Hj as [Hj Hj16].
      rewrite list_lookup_insert_ne in Hj by lia.
      apply list_find_None in Hnone. rewrite Forall_forall in Hnone.
      apply (Hnone y); [| done].
      apply list_elem_of_lookup. exists j. by rewrite lookup_take_lt. }
  rewrite Hf. done.
Qed.

Lemma create_window_then_lookup_witness :
  (compositor_get_window_by_pid 7
     (default (0, comp_demo) (compositor_create_window 10 10 8 8 [119] 7 comp_demo)).2).1 = 3.
Proof.
  apply (create_window_then_lookup 10 10 8 8 [119] 7 comp_demo 3).
  - vm_compute. reflexivity.
  - lia.
  - lia.
  - vm_compute. reflexivity.
Defined.

(** *** The order of drawing *)

Lemma swap_adjacent {A} (l : list A) (j : nat) a b :
  l !! j = Some a → l !! S j = Some b →
  <[S j := a]> (<[j := b]> l) ≡ₚ l.
Proof.
  revert j. induction l as [| x l IH]; intros j Ha Hb; [done |].
  destruct j as [| j].
  - injection Ha as ->. destruct l as [| y l]; [done |]. injection Hb as ->.
    cbn. apply perm_swap.
  - cbn. constructor. apply IH; done.
Qed.

(** One pass of the bubble sort over the first [m + 1] elements: they
    are permuted among themselves, the largest z-order ends at index
    [m], the rest of the list is untouched. *)
Lemma bubble_pass_spec (l : list window) (m : nat) :
  (m < length l)%nat →
  length (bubble_pass (Z.of_nat m) l) = length l ∧
  take (S m) (bubble_pass (Z.of_nat m) l) ≡ₚ take (S m) l ∧
  drop (S m) (bubble_pass (Z.of_nat m) l) = drop (S m) l ∧
  ∀ i x y, (i <= m)%nat → bubble_pass (Z.of_nat m) l !! i = Some x →
           bubble_pass (Z.of_nat m) l !! m = Some y → z_order x <= z_order y.
Proof.
  intros Hm. unfold bubble_pass.
  set (body := λ (j : Z) (l : list window), _).
  assert (Hinv :
    (λ j c, length c = length l ∧ take (S m) c ≡ₚ take (S m) l ∧
            drop (S m) c = drop (S m) l ∧
            ∀ i x y, (i <= Z.to_nat j)%nat → c !! i = Some x →
                     c !! Z.to_nat j = Some y → z_order x <= z_order y)
      (Z.of_nat m) (for_range 0 (Z.of_nat m) body l)).
  { apply for_range_invariant; [lia | |].
    - split; [done |]. split; [done |]. split; [done |].
      intros i x y Hi Hx Hy. replace i with (Z.to_nat 0) in Hx by lia.
      rewrite Hx in Hy. injection Hy as ->. lia.
    - intros j c Hj (Hlen & Hperm & Hdrop & Hmax). unfold body.
      destruct (lookup_lt_is_Some_2 c (Z.to_nat j) ltac:(lia)) as [a Ha].
      destruct (lookup_lt_is_Some_2 c (Z.to_nat (j + 1)) ltac:(lia)) as [b Hb].
      rewrite Ha, Hb.
      replace (Z.to_nat (j + 1)) with (S (Z.to_nat j)) in * by lia.
      destruct (Z.ltb_spec (z_order b) (z_order a)) as [Hlt | Hge].
      + split; [by rewrite !length_insert |].
        split.
        { rewrite <- Hperm. rewrite !take_insert_lt by lia.
          apply swap_adjacent; rewrite lookup_take_lt by lia; done. }
        split.
        { rewrite <- Hdrop. rewrite !drop_insert_lt by lia. done. }
        intros i x y Hi Hx Hy.
        rewrite list_lookup_insert_eq in Hy by (rewrite length_insert; lia).
        injection Hy as <-.
        destruct (decide (i = S (Z.to_nat j))) as [-> | Hne].
        * rewrite list_lookup_insert_eq in Hx by (rewrite length_insert; lia).
          injection Hx as <-. lia.
        * rewrite list_lookup_insert_ne in Hx by lia.
          destruct (decide (i = Z.to_nat j)) as [-> | Hne'].
          -- rewrite list_lookup_insert_eq in Hx by lia. injection Hx as <-. lia.
          -- rewrite list_lookup_insert_ne in Hx by lia.
             apply (Hmax i x a); [lia | done | done].
      + split; [done |]. split; [done |]. split; [done |].
        intros i x y Hi Hx Hy. rewrite Hb in Hy. injection Hy as <-.
        destruct (decide (i = S (Z.to_nat j))) as [-> | Hne].
        * rewrite Hb in Hx. injection Hx as <-. lia.
        * pose proof (Hmax i x a ltac:(lia) Hx Ha). lia. }
  cbv beta in Hinv. rewrite Nat2Z.id in Hinv. exact Hinv.
Qed.

(** X20. The order of drawing. The bubble sort of [compositor_render]
    returns the shown windows, each exactly once, in ascending z-order:
    a window is drawn after every window with a smaller z-order, so the
    one with the largest z-order ends on top. *)
Theorem sort_by_z_sorted (l : list window) :
  sort_by_z l ≡ₚ l ∧
  ∀ i j a b, (i <= j)%nat → sort_by_z l !! i = Some a → sort_by_z l !! j = Some b →
             z_order a <= z_order b.
Proof.
  unfold sort_by_z. cbv zeta. set (n := length l).
  destruct (decide (n <= 1)%nat) as [Hsmall | Hbig].
  { rewrite for_range_empty by lia. split; [done |].
    intros i j a b Hij Ha Hb.
    pose proof (lookup_lt_Some _ _ _ Ha). pose proof (lookup_lt_Some _ _ _ Hb).
    assert (i = j) as -> by (fold n in H, H0; lia).
    rewrite Ha in Hb. injection Hb as ->. lia. }
  assert (Hinv :
    (λ k c, length c = n ∧ c ≡ₚ l ∧
            (∀ i j x y, (n - Z.to_nat k <= i)%nat → (i <= j)%nat →
                        c !! i = Some x → c !! j = Some y → z_order x <= z_order y) ∧
            (∀ i j x y, (i < n - Z.to_nat k)%nat → (n - Z.to_nat k <= j)%nat →
                        c !! i = Some x → c !! j = Some y → z_order x <= z_order y))
      (Z.of_nat n - 1)
      (for_range 0 (Z.of_nat n - 1) (λ k l0, bubble_pass (Z.of_nat n - k - 1) l0) l)).
  { apply for_range_invariant; [lia | |].
    - split; [done |]. split; [done |]. split.
      + intros i j x y Hi _ Hx. apply lookup_lt_Some in Hx. fold n in Hx. lia.
      + intros i j x y _ Hj _ Hy. apply lookup_lt_Some in Hy. fold n in Hy. lia.
    - intros k c Hk (Hlen & Hperm & Hsuf & Hsplit).
      set (m := (n - 1 - Z.to_nat k)%nat).
      replace (Z.of_nat n - k - 1) with (Z.of_nat m) by lia.
      destruct (bubble_pass_spec c m ltac:(lia)) as (Hlen' & Htake & Hdrop & Hmax).
      set (c' := bubble_pass (Z.of_nat m) c) in *.
      assert (Hhi : ∀ i, (m < i)%nat → c' !! i = c !! i).
      { intros i Hi. replace i with (S m + (i - S m))%nat by lia.
        rewrite <- !lookup_drop, Hdrop. done. }
      assert (Hlo : ∀ i x, (i <= m)%nat → c' !! i = Some x →
                ∃ i', (i' <= m)%nat ∧ c !! i' = Some x).
      { intros i x Hi Hx.
        assert (Hin : x ∈ take (S m) c').
        { apply list_elem_of_lookup. exists i. rewrite lookup_take_lt by lia. done. }
        rewrite Htake in Hin. apply list_elem_of_lookup in Hin as [i' Hi'].
        apply lookup_take_Some in Hi' as [Hi' Hlt]. exists i'. split; [lia | done]. }
      replace (n - Z.to_nat (k + 1))%nat with m by lia.
      replace (n - Z.to_nat k)%nat with (S m) in Hsuf, Hsplit by lia.
      split; [lia |]. split.
      { rewrite <- Hperm, <- (take_drop (S m) c'), <- (take_drop (S m) c), Htake, Hdrop. done. }
      split.
      + intros i j x y Hi Hij Hx Hy.
        destruct (decide (i = m)) as [-> | Hne].
        * destruct (decide (j = m)) as [-> | Hnej].
          -- rewrite Hx in Hy. injection Hy as ->. lia.
          -- destruct (Hlo m x ltac:(lia) Hx) as (i' & Hi' & Hx').
             rewrite Hhi in Hy by lia.
             apply (Hsplit i' j x y); [lia | lia | done | done].
        * rewrite Hhi in Hx by lia. rewrite Hhi in Hy by lia.
          apply (Hsuf i j x y); [lia | lia | done | done].
      + intros i j x y Hi Hj Hx Hy.
        destruct (decide (j = m)) as [-> | Hnej].
        * apply (Hmax i x y); [lia | done | done].
        * destruct (Hlo i x ltac:(lia) Hx) as (i' & Hi' & Hx').
          rewrite Hhi in Hy by lia.
          apply (Hsplit i' j x y); [lia | lia | done | done]. }
  cbv beta in Hinv. destruct Hinv as (Hlen & Hperm & Hsuf & Hsplit).
  replace (n - Z.to_nat (Z.of_nat n - 1))%nat with 1%nat in Hsuf, Hsplit by lia.
  split; [exact Hperm |]. intros i j a b Hij Ha Hb.
  destruct (decide (1 <= i)%nat) as [Hi | Hi].
  - apply (Hsuf i j a b); done.
  - destruct (decide (j = i)) as [-> | Hne].
    + rewrite Ha in Hb. injection Hb as ->. lia.
    + apply (Hsplit i j a b); [lia | lia | done | done].
Qed.

(** *** The terminal loop stays inside the window's buffer *)

(** The fields of a window that the terminal never writes. *)
Definition same_geometry (w w' : window) : Prop :=
  id w' = id w ∧ x w' = x w ∧ y w' = y w ∧ width w' = width w ∧ height w' = height w ∧
  buffer w' = buffer w ∧ pid w' = pid w ∧ bg_color w' = bg_color w ∧
  visible w' = visible w ∧ z_order w' = z_order w ∧ protected w' = protected w ∧
  title w' = title w.

(** Where one byte can move the cursor, before the wrap and scroll. *)
Definition cursor_moves (w w' : window) : Prop :=
  (cursor_x w' = cursor_x w ∧ cursor_y w' = cursor_y w) ∨
  (cursor_x w' = 0 ∧ cursor_y w' = s32 (cursor_y w + 1)) ∨
  (cursor_x w' = 0 ∧ cursor_y w' = cursor_y w) ∨
  (0 < cursor_x w ∧ cursor_x w' = s32 (cursor_x w - 1) ∧ cursor_y w' = cursor_y w) ∨
  (cursor_x w' = s32 (cursor_x w + 1) ∧ cursor_y w' = cursor_y w) ∨
  (cursor_x w' = 0 ∧ cursor_y w' = 0).

Lemma same_geometry_refl w : same_geometry w w.
Proof. unfold same_geometry. done. Qed.

Lemma same_geometry_trans a b c : same_geometry a b → same_geometry b c → same_geometry a c.
Proof.
  unfold same_geometry.
  intros (? & ? & ? & ? & ? & ? & ? & ? & ? & ? & ? & ?)
         (? & ? & ? & ? & ? & ? & ? & ? & ? & ? & ? & ?).
  repeat split; congruence.
Qed.

Lemma handle_sgr_fields w :
  same_geometry w (handle_sgr w) ∧
  cursor_x (handle_sgr w) = cursor_x w ∧ cursor_y (handle_sgr w) = cursor_y w.
Proof.
  unfold handle_sgr, same_geometry.
  repeat match goal with
  | |- context [if ?b then _ else _] => destruct b
  end; done.
Qed.

Lemma buffer_ok_geometry w w' m : same_geometry w w' → buffer_ok w m → buffer_ok w' m.
Proof.
  intros (_ & _ & _ & Hw & Hh & Hb & _) [? ? ? ?].
  constructor; rewrite ?Hw, ?Hh, ?Hb; done.
Qed.

Lemma fill_shape p lo hi v m l :
  m !! p = Some l → 0 <= lo → hi <= Z.of_nat (length l) →
  same_shape p m (fill p lo hi v m).
Proof.
  intros Hl Hlo Hhi. unfold fill.
  destruct (Z_lt_ge_dec hi lo) as [Hlt | Hge].
  { rewrite for_range_empty by lia. apply same_shape_refl. }
  apply (for_range_invariant (λ _ acc, same_shape p m acc)); [lia | apply same_shape_refl |].
  intros j acc Hj Hs.
  pose proof Hs as (_ & Hlen & _). rewrite Hl in Hlen. simpl in Hlen.
  destruct (acc !! p) as [l' |] eqn:Hl'; [| done]. simpl in Hlen. injection Hlen as Hlen.
  eapply same_shape_trans; [exact Hs |].
  apply (same_shape_poke _ _ _ _ l'); [done | lia].
Qed.

Lemma move_up_shape p src n m l :
  m !! p = Some l → 0 <= src → 0 <= n → src + n <= Z.of_nat (length l) →
  same_shape p m (move_up p src n m).
Proof.
  intros Hl Hsrc Hn Hfit. unfold move_up.
  destruct (Z.eqb_spec n 0); [apply same_shape_refl |].
  rewrite Hl. destruct (Z.leb_spec (src + n) (Z.of_nat (length l))); [| lia].
  split; [intros k Hk; by apply pix_lookup_insert_ne |].
  split; [| reflexivity].
  rewrite pix_lookup_insert_eq, Hl. simpl. f_equal.
  rewrite length_app, length_take, !length_drop. lia.
Qed.

Section Loop.

Variable font : Z → Z → Z → bool.
Variable wid : Z.
Variable i : nat.
Variable st0 : comp.
Hypothesis Hi : (i < length (windows st0))%nat.
Hypothesis Hi16 : (i < 16)%nat.
Hypothesis Hfirst : ∀ j wj, windows st0 !! j = Some wj → (j < i)%nat → id wj ≠ wid.

(** The pixel memory after a character cell is cleared and its glyph
    drawn, after a scroll, and after the window is cleared. *)
Definition cell_drawn (c : Z) (w : window) (m : pixmem) : pixmem :=
  draw_char_in font (g_ctx st0) (u32 (s32 (cursor_x w * 8))) (u32 (s32 (cursor_y w * 16)))
    c (fg_color w)
    (fill_rect w (s32 (cursor_x w * 8)) (s32 (cursor_y w * 16)) 8 16 (bg_color w) m).

Definition scrolled (w : window) (m : pixmem) : pixmem :=
  fill (buffer w) (s32 (width w * s32 (height w - 16))) (s32 (width w * height w))
    (bg_color w)
    (move_up (buffer w) (u64 (s32 (width w * 16)))
       (u64 (s32 (s32 (width w * s32 (height w - 16)) * 4)) / 4) m).

Definition cleared (w : window) (m : pixmem) : pixmem :=
  fill (buffer w) 0 (s32 (width w * height w)) (bg_color w) m.

Lemma terminal_byte_tstate w m b c :
  id w = wid → buffer w ≠ 0 →
  ∃ w' m' b', terminal_byte font wid i c (tstate i st0 w m b) = tstate i st0 w' m' b' ∧
    same_geometry w w' ∧ cursor_moves w w' ∧
    (m' = m ∨ m' = cell_drawn c w m ∨ m' = cleared w m).
Proof.
  intros Hid Hbuf.
  assert (Hstay : ∃ w' m' b', tstate i st0 w m b = tstate i st0 w' m' b' ∧
            same_geometry w w' ∧ cursor_moves w w' ∧
            (m' = m ∨ m' = cell_drawn c w m ∨ m' = cleared w m)).
  { exists w, m, b. split; [done |]. split; [apply same_geometry_refl |].
    split; [by left | by left]. }
  unfold terminal_byte. cbv zeta. rewrite (win_at_tstate i st0 Hi).
  destruct (escape_state w =? 0).
  { destruct (c =? 27).
    { rewrite set_win_tstate. eexists _, _, _. split; [reflexivity |].
      split; [done |]. split; [by left | by left]. }
    destruct (c =? 10).
    { rewrite set_win_tstate. eexists _, _, _. split; [reflexivity |].
      split; [done |]. split; [right; by left | by left]. }
    destruct (c =? 13).
    { rewrite set_win_tstate. eexists _, _, _. split; [reflexivity |].
      split; [done |]. split; [right; right; by left | by left]. }
    destruct ((c =? 8) || (c =? 127)).
    { destruct (Z.ltb_spec 0 (cursor_x w)); [| exact Hstay].
      rewrite set_win_tstate. eexists _, _, _. split; [reflexivity |].
      split; [done |]. split; [do 3 right; by left | by left]. }
    destruct ((32 <=? c) && (c <? 127)); [| exact Hstay].
    rewrite (draw_rect_tstate wid i st0 Hi Hi16 Hfirst) by done.
    rewrite (win_at_tstate i st0 Hi), draw_char_tstate, (win_at_tstate i st0 Hi), set_win_tstate.
    eexists _, _, _. split; [reflexivity |].
    split; [done |]. split; [do 4 right; by left | right; by left]. }
  destruct (escape_state w =? 1).
  { destruct (c =? 91); rewrite set_win_tstate; eexists _, _, _; (split; [reflexivity |]);
      (split; [done |]); (split; [by left | by left]). }
  destruct (escape_state w =? 2); [| exact Hstay].
  destruct (is_letter c).
  - destruct (handle_sgr_fields w) as (Hg & Hx & Hy).
    destruct (c =? 109).
    { rewrite set_win_tstate, (win_at_tstate i st0 Hi), set_win_tstate.
      eexists _, _, _. split; [reflexivity |].
      split; [exact Hg |]. split; [left; done | by left]. }
    destruct (c =? 74).
    { change (pixels (tstate i st0 w m b)) with m.
      match goal with
      | |- context [set_pixels ?m' (tstate i st0 w m b)] =>
          change (set_pixels m' (tstate i st0 w m b)) with (tstate i st0 w m' b)
      end.
      rewrite set_win_tstate, (win_at_tstate i st0 Hi), set_win_tstate.
      eexists _, _, _. split; [reflexivity |].
      split; [done |]. split; [do 5 right; done | right; by right]. }
    destruct (c =? 72).
    { rewrite set_win_tstate, (win_at_tstate i st0 Hi), set_win_tstate.
      eexists _, _, _. split; [reflexivity |].
      split; [done |]. split; [do 5 right; done | by left]. }
    rewrite (win_at_tstate i st0 Hi), set_win_tstate.
    eexists _, _, _. split; [reflexivity |]. split; [done |]. split; [by left | by left].
  - destruct (escape_len w <? 31); rewrite set_win_tstate; eexists _, _, _;
      (split; [reflexivity |]); (split; [done |]); (split; [by left | by left]).
Qed.

Lemma wrap_and_scroll_tstate w m b cols rows :
  0 < cols → 0 < rows < 2 ^ 31 →
  0 <= cursor_x w → 0 <= cursor_y w < 2 ^ 31 - 1 →
  ∃ w' m', wrap_and_scroll i cols rows (tstate i st0 w m b) = tstate i st0 w' m' b ∧
    same_geometry w w' ∧
    0 <= cursor_x w' < cols ∧ 0 <= cursor_y w' < rows ∧
    (m' = m ∨ m' = scrolled w m).
Proof.
  intros Hcols Hrows Hx Hy.
  unfold wrap_and_scroll. cbv zeta. rewrite (win_at_tstate i st0 Hi).
  destruct (Z.leb_spec cols (cursor_x w)) as [Hwrap | Hno].
  - rewrite set_win_tstate, (win_at_tstate i st0 Hi).
    cbn [set_cursor set_terminal cursor_x cursor_y width height buffer bg_color].
    rewrite (s32_small (cursor_y w + 1)) by lia.
    destruct (Z.leb_spec rows (cursor_y w + 1)).
    + change (pixels (tstate i st0 ?a m b)) with m.
      match goal with
      | |- context [set_pixels ?m' (tstate i st0 ?a m b)] =>
          change (set_pixels m' (tstate i st0 a m b)) with (tstate i st0 a m' b)
      end.
      rewrite set_win_tstate. eexists _, _. split; [reflexivity |].
      split; [done |]. cbn [set_cursor set_terminal cursor_x cursor_y].
      rewrite s32_small by lia. split; [lia |]. split; [lia |]. right. reflexivity.
    + eexists _, _. split; [reflexivity |]. split; [done |].
      cbn [set_cursor set_terminal cursor_x cursor_y]. split; [lia |]. split; [lia |]. by left.
  - rewrite (win_at_tstate i st0 Hi).
    destruct (Z.leb_spec rows (cursor_y w)).
    + change (pixels (tstate i st0 w m b)) with m.
      match goal with
      | |- context [set_pixels ?m' (tstate i st0 w m b)] =>
          change (set_pixels m' (tstate i st0 w m b)) with (tstate i st0 w m' b)
      end.
      rewrite set_win_tstate. eexists _, _. split; [reflexivity |].
      split; [done |]. cbn [set_cursor set_terminal cursor_x cursor_y].
      rewrite s32_small by lia. split; [lia |]. split; [lia |]. right. reflexivity.
    + exists w, m. split; [done |]. split; [apply same_geometry_refl |].
      split; [lia |]. split; [lia |]. by left.
Qed.

(** The window written to, as [compositor_window_write] found it: at
    least one character cell, and small enough for the byte count of
    the scroll to fit an [int]. *)
Variable w0 : window.
Variable screen : graphics_context.
Hypothesis Hctx : g_ctx st0 = window_ctx w0 screen.
Hypothesis Hid0 : id w0 = wid.
Hypothesis Hbuf0 : buffer w0 ≠ 0.
Hypothesis Hw0 : 8 <= width w0.
Hypothesis Hh0 : 16 <= height w0.
Hypothesis Harea : 4 * (width w0 * height w0) < 2 ^ 31.

Lemma grid_bounds :
  0 < Z.quot (width w0) 8 < 2 ^ 31 - 1 ∧ 0 < Z.quot (height w0) 16 < 2 ^ 31 - 1 ∧
  8 * Z.quot (width w0) 8 <= width w0 ∧ 16 * Z.quot (height w0) 16 <= height w0 ∧
  width w0 < 2 ^ 29 ∧ height w0 < 2 ^ 29.
Proof.
  assert (width w0 < 2 ^ 29 ∧ height w0 < 2 ^ 29) as [Hw Hh] by nia.
  rewrite !Z.quot_div_nonneg by lia.
  pose proof (Z.div_mod (width w0) 8 ltac:(lia)).
  pose proof (Z.mod_pos_bound (width w0) 8 ltac:(lia)).
  pose proof (Z.div_mod (height w0) 16 ltac:(lia)).
  pose proof (Z.mod_pos_bound (height w0) 16 ltac:(lia)).
  lia.
Qed.

Lemma cell_drawn_shape w m c :
  same_geometry w0 w → buffer_ok w0 m →
  0 <= cursor_x w < Z.quot (width w0) 8 → 0 <= cursor_y w < Z.quot (height w0) 16 →
  same_shape (buffer w0) m (cell_drawn c w m).
Proof.
  intros Hg Hok Hx Hy. pose proof grid_bounds as (_ & _ & Hc & Hr & Hw & Hh).
  pose proof (buffer_ok_geometry _ _ _ Hg Hok) as Hokw.
  destruct Hg as (_ & _ & _ & Hgw & Hgh & Hgb & _).
  unfold cell_drawn.
  destruct (fill_rect_spec w (s32 (cursor_x w * 8)) (s32 (cursor_y w * 16)) 8 16 (bg_color w) m
              Hokw (s32_range _) (s32_range _) ltac:(lia) ltac:(lia)) as (Hok1 & Hs1 & _).
  assert (Hctxw : g_ctx st0 = window_ctx w screen).
  { rewrite Hctx. unfold window_ctx. by rewrite Hgw, Hgh, Hgb. }
  rewrite Hctxw.
  rewrite (s32_small (cursor_x w * 8)), (s32_small (cursor_y w * 16)) in * by lia.
  rewrite (u32_small (cursor_x w * 8)), (u32_small (cursor_y w * 16)) by lia.
  destruct (draw_char_in_spec font w screen (cursor_x w * 8) (cursor_y w * 16) c (fg_color w)
              _ Hok1 ltac:(congruence) ltac:(lia) ltac:(lia)) as (_ & Hs2 & _).
  rewrite <- Hgb. eapply same_shape_trans; [exact Hs1 | exact Hs2].
Qed.

Lemma cleared_shape w m :
  same_geometry w0 w → buffer_ok w0 m → same_shape (buffer w0) m (cleared w m).
Proof.
  intros (_ & _ & _ & Hgw & Hgh & Hgb & _) [HW HH HA Hlen].
  unfold cleared. rewrite Hgw, Hgh, Hgb.
  destruct (m !! buffer w0) as [l |] eqn:Hl; [| done]. simpl in Hlen. injection Hlen as Hlen.
  rewrite s32_small by lia. apply (fill_shape _ _ _ _ _ l); [done | lia | lia].
Qed.

Lemma scrolled_shape w m :
  same_geometry w0 w → buffer_ok w0 m → same_shape (buffer w0) m (scrolled w m).
Proof.
  intros (_ & _ & _ & Hgw & Hgh & Hgb & _) [HW HH HA Hlen].
  pose proof grid_bounds as (_ & _ & _ & _ & Hw & Hh).
  unfold scrolled. rewrite Hgw, Hgh, Hgb.
  destruct (m !! buffer w0) as [l |] eqn:Hl; [| done]. simpl in Hlen. injection Hlen as Hlen.
  rewrite (s32_small (height w0 - 16)) by lia.
  assert (Hrest : 0 <= width w0 * (height w0 - 16) <= width w0 * height w0) by nia.
  rewrite (s32_small (width w0 * (height w0 - 16))) by lia.
  rewrite (s32_small (width w0 * (height w0 - 16) * 4)) by lia.
  rewrite (u64_small (width w0 * (height w0 - 16) * 4)) by lia.
  rewrite Z.div_mul by lia.
  rewrite (s32_small (width w0 * 16)) by lia. rewrite (u64_small (width w0 * 16)) by lia.
  rewrite (s32_small (width w0 * height w0)) by lia.
  pose proof (move_up_shape (buffer w0) (width w0 * 16) (width w0 * (height w0 - 16)) m l Hl
                ltac:(lia) ltac:(lia) ltac:(lia)) as Hs1.
  eapply same_shape_trans; [exact Hs1 |].
  pose proof Hs1 as (_ & Hlen1 & _). rewrite Hl in Hlen1. simpl in Hlen1.
  destruct (move_up _ _ _ m !! buffer w0) as [l1 |] eqn:Hl1; [| done].
  simpl in Hlen1. injection Hlen1 as Hlen1.
  apply (fill_shape _ _ _ _ _ l1); [done | lia | lia].
Qed.

Lemma write_loop_tstate buf : ∀ w m b,
  same_geometry w0 w → buffer_ok w0 m →
  0 <= cursor_x w < Z.quot (width w0) 8 → 0 <= cursor_y w < Z.quot (height w0) 16 →
  ∃ w' m' b',
    foldl (λ st c, wrap_and_scroll i (Z.quot (width w0) 8) (Z.quot (height w0) 16)
                     (terminal_byte font wid i c st))
          (tstate i st0 w m b) buf = tstate i st0 w' m' b' ∧
    same_geometry w0 w' ∧
    0 <= cursor_x w' < Z.quot (width w0) 8 ∧ 0 <= cursor_y w' < Z.quot (height w0) 16 ∧
    same_shape (buffer w0) m m'.
Proof.
  pose proof grid_bounds as (Hcols & Hrows & _).
  induction buf as [| c buf IH]; intros w m b Hg Hok Hx Hy; cbn [foldl].
  - exists w, m, b. split; [done |]. split; [done |]. split; [done |]. split; [done |].
    apply same_shape_refl.
  - pose proof Hg as (Hgid & _ & _ & _ & _ & Hgb & _).
    destruct (terminal_byte_tstate w m b c ltac:(congruence) ltac:(congruence))
      as (w1 & m1 & b1 & -> & Hg1 & Hmove & Hm1).
    assert (Hs1 : same_shape (buffer w0) m m1).
    { destruct Hm1 as [-> | [-> | ->]];
        [apply same_shape_refl | by apply cell_drawn_shape | by apply cleared_shape]. }
    assert (Hb1 : 0 <= cursor_x w1 ∧ 0 <= cursor_y w1 < 2 ^ 31 - 1).
    { destruct Hmove as [[-> ->] | [[-> ->] | [[-> ->] | [(? & -> & ->) | [[-> ->] | [-> ->]]]]]];
        rewrite ?s32_small by lia; lia. }
    assert (Hg01 : same_geometry w0 w1) by eauto using same_geometry_trans.
    assert (Hok1 : buffer_ok w0 m1) by (eapply buffer_ok_shape; eauto).
    destruct (wrap_and_scroll_tstate w1 m1 b1 (Z.quot (width w0) 8) (Z.quot (height w0) 16))
      as (w2 & m2 & -> & Hg2 & Hx2 & Hy2 & Hm2); try lia.
    assert (Hs2 : same_shape (buffer w0) m1 m2).
    { destruct Hm2 as [-> | ->]; [apply same_shape_refl | by apply scrolled_shape]. }
    assert (Hg02 : same_geometry w0 w2) by eauto using same_geometry_trans.
    assert (Hok2 : buffer_ok w0 m2) by (eapply buffer_ok_shape; eauto).
    destruct (IH w2 m2 b1 Hg02 Hok2 Hx2 Hy2) as (w' & m' & b' & Hrun & Hg' & Hx' & Hy' & Hs').
    exists w', m', b'. split; [exact Hrun |]. split; [done |]. split; [done |].
    split; [done |]. eauto using same_shape_trans.
Qed.

End Loop.

(** *** Rendering stays inside the back buffer and the framebuffer *)

(** The screen as [graphics_init] sets it up: the back buffer holds the
    [width * height] pixels of the context, the framebuffer at least as
    many, and the byte count of the copy between them fits 32 bits. *)
Record screen_ok (st : comp) : Prop := mkScreenOk {
  sk_width : 0 <= ctx_width (g_ctx st) < 2 ^ 31;
  sk_height : 0 <= ctx_height (g_ctx st) < 2 ^ 31;
  sk_area : ctx_width (g_ctx st) * ctx_height (g_ctx st) * 4 < 2 ^ 32;
  sk_back : length <$> pixels st !! ctx_buffer (g_ctx st)
            = Some (Z.to_nat (ctx_width (g_ctx st) * ctx_height (g_ctx st)));
  sk_front : ∃ n, length <$> pixels st !! fb_base_addr st = Some n ∧
                  ctx_width (g_ctx st) * ctx_height (g_ctx st) <= Z.of_nat n
}.

(** A window whose frame reaches the screen: the column left of it is
    not beyond the right edge, the column right of it not before the
    left edge, and the same for the rows above the title bar and below
    the window. (The border stores of [draw_window_decorations] test
    one side only.) *)
Record placed (c : graphics_context) (win : window) : Prop := mkPlaced {
  pl_left : - 2 ^ 31 <= x win - 1 < ctx_width c;
  pl_right : 0 <= x win + width win < 2 ^ 31;
  pl_top : - 2 ^ 31 <= y win - 21 < ctx_height c;
  pl_bottom : 0 <= y win + height win < 2 ^ 31
}.

(** What drawing on the screen keeps: the context, the framebuffer
    address, the mouse, the window records, the length of every buffer,
    and every access inside its buffer. *)
Record kept (st st' : comp) : Prop := mkKept {
  kp_ctx : g_ctx st' = g_ctx st;
  kp_fb : fb_base_addr st' = fb_base_addr st;
  kp_mouse : mouse_x st' = mouse_x st ∧ mouse_y st' = mouse_y st;
  kp_windows : windows st' = windows st;
  kp_intact : intact (pixels st') = intact (pixels st);
  kp_lengths : ∀ k, length <$> pixels st' !! k = length <$> pixels st !! k
}.

Lemma kept_refl st : kept st st.
Proof. by constructor. Qed.

Lemma kept_trans s1 s2 s3 : kept s1 s2 → kept s2 s3 → kept s1 s3.
Proof.
  intros [A1 A2 [A3 A3'] A4 A5 A6] [B1 B2 [B3 B3'] B4 B5 B6].
  constructor.
  - congruence.
  - congruence.
  - split; congruence.
  - congruence.
  - congruence.
  - intros k. by rewrite B6, A6.
Qed.

Lemma screen_ok_kept st st' : kept st st' → screen_ok st → screen_ok st'.
Proof.
  intros [A1 A2 _ _ _ A6] [HW HH HA Hback [n [Hfront Hn]]].
  constructor; rewrite ?A1, ?A2, ?A6; try done. by exists n.
Qed.

Lemma buffer_ok_lengths win m m' :
  (∀ k, length <$> m' !! k = length <$> m !! k) → buffer_ok win m → buffer_ok win m'.
Proof. intros Hl [? ? ? ?]. constructor; try done. by rewrite Hl. Qed.

Lemma for_range_rel_in {A : Type} (R : A → A → Prop) (body : Z → A → A) lo hi a :
  (∀ s, R s s) → (∀ s1 s2 s3, R s1 s2 → R s2 s3 → R s1 s3) →
  (∀ j s, lo <= j < hi → R s (body j s)) → R a (for_range lo hi body a).
Proof.
  intros Hrefl Htrans Hbody. destruct (Z_lt_ge_dec hi lo) as [Hlt | Hge].
  - rewrite for_range_empty by lia. apply Hrefl.
  - apply (for_range_invariant (λ _ s, R a s)); [lia | apply Hrefl |].
    intros j b Hj Hb. eapply Htrans; [exact Hb | by apply Hbody].
Qed.

Lemma poke_lengths p idx v m k : length <$> poke p idx v m !! k = length <$> m !! k.
Proof.
  destruct (decide (k = p)) as [-> | Hne]; [apply poke_length |].
  by rewrite poke_other.
Qed.

Lemma kept_store px py color st :
  screen_ok st → 0 <= px < ctx_width (g_ctx st) → 0 <= py < ctx_height (g_ctx st) →
  kept st (ctx_store px py color st).
Proof.
  intros [HW HH HA Hback _] Hpx Hpy. unfold ctx_store.
  assert (Hidx : 0 <= py * ctx_width (g_ctx st) + px
                 < ctx_width (g_ctx st) * ctx_height (g_ctx st)) by nia.
  rewrite (u32_small (py * ctx_width (g_ctx st))) by nia.
  rewrite u32_small by lia.
  destruct (pixels st !! ctx_buffer (g_ctx st)) as [l |] eqn:Hl; [| done].
  simpl in Hback. injection Hback as Hback.
  constructor; cbn [g_ctx fb_base_addr mouse_x mouse_y windows pixels set_pixels]; try done.
  - apply (poke_intact _ _ _ _ l); [done | lia].
  - intros k. apply poke_lengths.
Qed.

Lemma on_screen_bounds px py st :
  screen_ok st → on_screen px py st = true →
  0 <= px < ctx_width (g_ctx st) ∧ 0 <= py < ctx_height (g_ctx st).
Proof.
  intros [HW HH _ _ _]. unfold on_screen. rewrite !s32_small by lia. lia.
Qed.

Lemma u32_nonneg a : 0 <= u32 a.
Proof. unfold u32. pose proof (Z.mod_pos_bound a (2 ^ 32)). lia. Qed.

Section Render.

(** The context of the screen and the windows drawn on it. *)
Variable c0 : graphics_context.
Variable ws : list window.

Definition ready (st : comp) : Prop :=
  g_ctx st = c0 ∧ screen_ok st ∧ Forall (λ win, buffer_ok win (pixels st)) ws.

Definition drawn (st st' : comp) : Prop := ready st → kept st st'.

Lemma ready_kept st st' : ready st → kept st st' → ready st'.
Proof.
  intros (Hc & Hok & Hws) Hk. split; [by rewrite (kp_ctx _ _ Hk) |].
  split; [by eapply screen_ok_kept |].
  eapply Forall_impl; [exact Hws |]. intros win Hwin.
  eapply buffer_ok_lengths; [apply (kp_lengths _ _ Hk) | done].
Qed.

Lemma drawn_refl st : drawn st st.
Proof. intros _. apply kept_refl. Qed.

Lemma drawn_trans s1 s2 s3 : drawn s1 s2 → drawn s2 s3 → drawn s1 s3.
Proof.
  intros H12 H23 Hr. eapply kept_trans; [by apply H12 |].
  apply H23. eapply ready_kept; [exact Hr | by apply H12].
Qed.

Lemma drawn_if (b : bool) st s1 s2 : drawn st s1 → drawn st s2 → drawn st (if b then s1 else s2).
Proof. by destruct b. Qed.

Lemma drawn_store px py color st :
  0 <= px < ctx_width c0 → 0 <= py < ctx_height c0 → drawn st (ctx_store px py color st).
Proof.
  intros Hpx Hpy (Hc & Hok & _). apply kept_store; [done | by rewrite Hc | by rewrite Hc].
Qed.

Lemma drawn_on_screen px py color st :
  on_screen px py st = true → drawn st (ctx_store px py color st).
Proof.
  intros Hon (Hc & Hok & _). destruct (on_screen_bounds px py st Hok Hon). by apply kept_store.
Qed.

Lemma drawn_guarded px py color st :
  drawn st (if on_screen px py st then ctx_store px py color st else st).
Proof.
  destruct (on_screen px py st) eqn:Hon; [by apply drawn_on_screen | apply drawn_refl].
Qed.

Lemma drawn_put_pixel px py color st :
  0 <= px → 0 <= py → drawn st (graphics_put_pixel px py color st).
Proof.
  intros Hpx Hpy (Hc & Hok & Hws). unfold graphics_put_pixel.
  destruct (ctx_buffer (g_ctx st) =? 0); [apply kept_refl |].
  destruct (Z.leb_spec (ctx_width (g_ctx st)) px); cbn [orb]; [apply kept_refl |].
  destruct (Z.leb_spec (ctx_height (g_ctx st)) py); [apply kept_refl |].
  apply (kept_store px py color st Hok); lia.
Qed.

Ltac drawn_loop :=
  apply (for_range_rel drawn); [apply drawn_refl | apply drawn_trans | intros ? ?].

Ltac paint :=
  repeat match goal with
  | |- drawn ?s ?t => constr_eq s t; apply drawn_refl
  | |- drawn ?s (if on_screen ?px ?py ?t then ctx_store ?px ?py _ ?t else ?t) =>
      first [ constr_eq s t; apply drawn_guarded
            | apply drawn_trans with t; [| apply drawn_guarded] ]
  | |- drawn _ (if _ then _ else _) => apply drawn_if
  | |- drawn ?s (for_range _ _ _ ?t) =>
      first [ constr_eq s t; drawn_loop
            | apply drawn_trans with t; [| drawn_loop] ]
  | |- drawn ?s (graphics_put_pixel (u32 _) (u32 _) _ ?t) =>
      constr_eq s t; apply drawn_put_pixel; apply u32_nonneg
  end.

Lemma drawn_draw_char font px py ch color st :
  drawn st (graphics_draw_char font px py ch color st).
Proof. unfold graphics_draw_char. paint. Qed.

(** The blit loads inside the window's buffer. *)
Lemma drawn_blit win st : win ∈ ws → drawn st (blit_window win st).
Proof.
  intros Hin. unfold blit_window. cbv zeta.
  apply (for_range_rel_in drawn); [apply drawn_refl | apply drawn_trans |]. intros wy s Hwy.
  apply (for_range_rel_in drawn); [apply drawn_refl | apply drawn_trans |]. intros wx s' Hwx.
  destruct (on_screen _ _ s') eqn:Hon; [| apply drawn_refl].
  intros Hr. pose proof Hr as (_ & _ & Hws).
  rewrite Forall_forall in Hws. destruct (Hws win Hin) as [HW HH HA Hlen].
  assert (Hidx : 0 <= wy * width win + wx < width win * height win) by nia.
  rewrite (s32_small (wy * width win)) by nia. rewrite s32_small by lia.
  unfold in_buffer.
  destruct (pixels s' !! buffer win) as [l |] eqn:Hl; [| done].
  simpl in Hlen. injection Hlen as Hlen.
  destruct (Z.leb_spec 0 (wy * width win + wx)); [| lia].
  destruct (Z.ltb_spec (wy * width win + wx) (Z.of_nat (length l))); [| lia]. cbn [andb].
  by apply drawn_on_screen.
Qed.

Lemma drawn_cursor st : drawn st (draw_mouse_cursor st).
Proof.
  unfold draw_mouse_cursor. cbv zeta. drawn_loop. drawn_loop.
  match goal with
  | |- drawn ?s (if on_screen ?px ?py ?s then _ else _) =>
      destruct (on_screen px py s) eqn:Hon; [| apply drawn_refl]
  end.
  repeat apply drawn_if; try apply drawn_refl; by apply drawn_on_screen.
Qed.

Lemma drawn_foldl {A : Type} (f : comp → A → comp) (l : list A) :
  (∀ s a, a ∈ l → drawn s (f s a)) → ∀ st, drawn st (foldl f st l).
Proof.
  induction l as [| a l IH]; intros Hf st; simpl; [apply drawn_refl |].
  eapply drawn_trans; [apply Hf; by left |].
  apply IH. intros s b Hb. apply Hf. by right.
Qed.

(** The border loops: each store is tested on one side only, the
    placement of the window gives the other. *)
Lemma drawn_sides win color st :
  placed c0 win →
  drawn st
    (for_range (Z.opp 20) (height win + 1) (λ by_ st,
       if (0 <=? s32 (y win + by_)) && (s32 (y win + by_) <? s32 (ctx_height (g_ctx st))) then
         if s32 (x win + width win)
              <? s32 (ctx_width (g_ctx (if 0 <=? s32 (x win - 1)
                                        then ctx_store (s32 (x win - 1)) (s32 (y win + by_)) color st
                                        else st)))
         then ctx_store (s32 (x win + width win)) (s32 (y win + by_)) color
                (if 0 <=? s32 (x win - 1)
                 then ctx_store (s32 (x win - 1)) (s32 (y win + by_)) color st else st)
         else (if 0 <=? s32 (x win - 1)
               then ctx_store (s32 (x win - 1)) (s32 (y win + by_)) color st else st)
       else st) st).
Proof.
  intros [Hl Hr Ht Hb].
  apply (for_range_rel drawn); [apply drawn_refl | apply drawn_trans | intros j s].
  intros (Hc & Hok & Hws).
  pose proof Hok as [HW HH _ _ _]. rewrite Hc in HW, HH.
  rewrite (s32_small (x win - 1)), (s32_small (x win + width win)) by lia.
  set (py := s32 (y win + j)).
  rewrite (s32_small (ctx_height (g_ctx s))) by (rewrite Hc; lia).
  destruct (Z.leb_spec 0 py); cbn [andb]; [| apply kept_refl].
  destruct (Z.ltb_spec py (ctx_height (g_ctx s))); [| apply kept_refl].
  assert (Hfirst : kept s (if 0 <=? x win - 1 then ctx_store (x win - 1) py color s else s)).
  { destruct (Z.leb_spec 0 (x win - 1)); [| apply kept_refl].
    apply kept_store; [done | rewrite Hc; lia | lia]. }
  set (s1 := if 0 <=? x win - 1 then ctx_store (x win - 1) py color s else s) in *.
  pose proof (kp_ctx _ _ Hfirst) as A1.
  rewrite (s32_small (ctx_width (g_ctx s1))) by (rewrite A1, Hc; lia).
  destruct (Z.ltb_spec (x win + width win) (ctx_width (g_ctx s1))); [| exact Hfirst].
  eapply kept_trans; [exact Hfirst |].
  apply kept_store; [by eapply screen_ok_kept | lia | rewrite A1; lia].
Qed.

Lemma drawn_top_bottom win color st :
  placed c0 win →
  drawn st
    (for_range (-1) (width win + 1) (λ bx st,
       if (0 <=? s32 (x win + bx)) && (s32 (x win + bx) <? s32 (ctx_width (g_ctx st))) then
         if s32 (y win + height win)
              <? s32 (ctx_height (g_ctx (if 0 <=? s32 (s32 (y win - 20) - 1)
                                         then ctx_store (s32 (x win + bx))
                                                (s32 (s32 (y win - 20) - 1)) color st
                                         else st)))
         then ctx_store (s32 (x win + bx)) (s32 (y win + height win)) color
                (if 0 <=? s32 (s32 (y win - 20) - 1)
                 then ctx_store (s32 (x win + bx)) (s32 (s32 (y win - 20) - 1)) color st
                 else st)
         else (if 0 <=? s32 (s32 (y win - 20) - 1)
               then ctx_store (s32 (x win + bx)) (s32 (s32 (y win - 20) - 1)) color st
               else st)
       else st) st).
Proof.
  intros [Hl Hr Ht Hb].
  apply (for_range_rel drawn); [apply drawn_refl | apply drawn_trans | intros j s].
  intros (Hc & Hok & Hws).
  pose proof Hok as [HW HH _ _ _]. rewrite Hc in HW, HH.
  rewrite (s32_small (y win - 20)) by lia.
  replace (y win - 20 - 1) with (y win - 21) by lia.
  rewrite (s32_small (y win - 21)), (s32_small (y win + height win)) by lia.
  set (px := s32 (x win + j)).
  rewrite (s32_small (ctx_width (g_ctx s))) by (rewrite Hc; lia).
  destruct (Z.leb_spec 0 px); cbn [andb]; [| apply kept_refl].
  destruct (Z.ltb_spec px (ctx_width (g_ctx s))); [| apply kept_refl].
  assert (Hfirst : kept s (if 0 <=? y win - 21 then ctx_store px (y win - 21) color s else s)).
  { destruct (Z.leb_spec 0 (y win - 21)); [| apply kept_refl].
    apply kept_store; [done | lia | rewrite Hc; lia]. }
  set (s1 := if 0 <=? y win - 21 then ctx_store px (y win - 21) color s else s) in *.
  pose proof (kp_ctx _ _ Hfirst) as A1.
  rewrite (s32_small (ctx_height (g_ctx s1))) by (rewrite A1, Hc; lia).
  destruct (Z.ltb_spec (y win + height win) (ctx_height (g_ctx s1))); [| exact Hfirst].
  eapply kept_trans; [exact Hfirst |].
  apply kept_store; [by eapply screen_ok_kept | rewrite A1; lia | lia].
Qed.

Lemma drawn_decorations font win st :
  placed c0 win → drawn st (draw_window_decorations font win st).
Proof.
  intros Hpl. unfold draw_window_decorations.
  destruct (ctx_buffer (g_ctx st) =? 0); [apply drawn_refl |]. cbv zeta.
  assert (Hd : ∀ a b c d s, drawn s (graphics_draw_char font a b c d s))
    by (intros; apply drawn_draw_char).
  match goal with
  | |- drawn _ (if _ then ?a else ?b) =>
      assert (Hb : drawn st b); [| apply drawn_if; [| exact Hb] ]
  end.
  - match goal with
    | |- drawn _ (for_range (-1) _ _ ?t) =>
        apply drawn_trans with t; [| by apply drawn_top_bottom]
    end.
    match goal with
    | |- drawn _ (for_range (Z.opp 20) _ _ ?t) =>
        apply drawn_trans with t; [| by apply drawn_sides]
    end.
    paint; apply Hd.
  - match goal with
    | |- drawn _ (for_range 2 _ _ (for_range 0 _ _ ?t)) =>
        apply drawn_trans with t; [exact Hb |]
    end.
    paint.
Qed.

Lemma drawn_swap st : drawn st (graphics_swap_buffers st).
Proof.
  intros (Hc & Hok & Hws). unfold graphics_swap_buffers. cbv zeta.
  destruct ((ctx_buffer (g_ctx st) =? 0) || (fb_base_addr st =? 0)); [apply kept_refl |].
  pose proof Hok as [HW HH HA Hback [n [Hfront Hn]]].
  assert (Harea : 0 <= ctx_width (g_ctx st) * ctx_height (g_ctx st)) by nia.
  rewrite (u32_small (ctx_width (g_ctx st) * ctx_height (g_ctx st))) by lia.
  rewrite u32_small by lia. rewrite Z.div_mul by lia.
  set (N := ctx_width (g_ctx st) * ctx_height (g_ctx st)) in *.
  match goal with
  | |- kept _ (log_flush _ (set_pixels ?m0 _)) => set (m := m0)
  end.
  assert (Hm : intact m = intact (pixels st) ∧
               ∀ k, length <$> m !! k = length <$> pixels st !! k).
  { subst m. destruct (Z.eqb_spec N 0); [done |].
    destruct (pixels st !! ctx_buffer (g_ctx st)) as [src |] eqn:Hsrc; [| done].
    destruct (pixels st !! fb_base_addr st) as [dst |] eqn:Hdst; [| done].
    simpl in Hback, Hfront. injection Hback as Hback. injection Hfront as Hfront.
    destruct (Z.leb_spec N (Z.of_nat (length src))); [| lia].
    destruct (Z.leb_spec N (Z.of_nat (length dst))); [| lia]. cbn [andb].
    split; [reflexivity |].
    intros k. destruct (decide (k = fb_base_addr st)) as [-> | Hne].
    - rewrite pix_lookup_insert_eq, Hdst. simpl. f_equal.
      rewrite length_app, length_take, length_drop. lia.
    - by rewrite pix_lookup_insert_ne. }
  clearbody m. destruct Hm as [Hin Hlens].
  constructor; cbn [g_ctx fb_base_addr mouse_x mouse_y windows pixels log_flush set_pixels];
    done.
Qed.

End Render.

(** The bubble sort returns the windows it was given. *)
Lemma sort_by_z_perm (l : list window) : sort_by_z l ≡ₚ l.
Proof.
  unfold sort_by_z. cbv zeta. set (n := length l).
  destruct (decide (n <= 1)%nat) as [Hsmall | Hbig].
  { by rewrite for_range_empty by lia. }
  apply (for_range_invariant (λ _ c, c ≡ₚ l)); [lia | done |].
  intros k c Hk Hperm.
  assert (Hlen : length c = n) by (by rewrite Hperm).
  set (m := (n - 1 - Z.to_nat k)%nat).
  replace (Z.of_nat n - k - 1) with (Z.of_nat m) by lia.
  destruct (bubble_pass_spec c m ltac:(lia)) as (_ & Htake & Hdrop & _).
  rewrite <- Hperm.
  rewrite <- (take_drop (S m) (bubble_pass (Z.of_nat m) c)), Htake, Hdrop.
  by rewrite take_drop.
Qed.

(** A shown window that [compositor_render] can draw: its frame is
    within reach of the screen and its buffer holds its pixels. *)
Definition drawable (st : comp) (win : window) : Prop :=
  id win ≠ 0 → visible win ≠ 0 → placed (g_ctx st) win ∧ buffer_ok win (pixels st).

Lemma render_kept font st :
  screen_ok st → Forall (drawable st) (take 16 (windows st)) →
  kept st (compositor_render font st).
Proof.
  intros Hok Hpl. set (c0 := g_ctx st).
  set (ws := filter (λ win, id win ≠ 0 ∧ visible win ≠ 0) (take 16 (windows st))).
  assert (Hws : ∀ a, a ∈ ws → placed c0 a ∧ buffer_ok a (pixels st)).
  { intros a Ha. apply list_elem_of_filter in Ha as [[Hid Hvis] Hin].
    rewrite Forall_forall in Hpl. by apply Hpl. }
  assert (Hr : ready c0 ws st).
  { split; [done |]. split; [done |]. apply Forall_forall. intros a Ha. by apply Hws. }
  assert (Hd : drawn c0 ws st (compositor_render font st)); [| by apply Hd].
  unfold compositor_render.
  destruct (ctx_buffer (g_ctx st) =? 0); [apply (drawn_refl c0 ws) |]. cbv zeta.
  match goal with
  | |- drawn _ _ _ (graphics_swap_buffers (draw_mouse_cursor (foldl _ ?a _))) => set (st1 := a)
  end.
  assert (H1 : drawn c0 ws st st1).
  { subst st1.
    apply (for_range_rel_in (drawn c0 ws));
      [apply (drawn_refl c0 ws) | apply (drawn_trans c0 ws) |].
    intros gy s Hgy.
    apply (for_range_rel_in (drawn c0 ws));
      [apply (drawn_refl c0 ws) | apply (drawn_trans c0 ws) |].
    intros gx s' Hgx. by apply (drawn_store c0 ws). }
  pose proof (kp_windows _ _ (H1 Hr)) as Hw1.
  apply (drawn_trans c0 ws _ (draw_mouse_cursor
           (foldl (λ st win, blit_window win (draw_window_decorations font win st)) st1
              (sort_by_z (filter (λ win, id win ≠ 0 ∧ visible win ≠ 0)
                                 (take 16 (windows st1)))))));
    [| apply (drawn_swap c0 ws)].
  apply (drawn_trans c0 ws _
           (foldl (λ st win, blit_window win (draw_window_decorations font win st)) st1
              (sort_by_z (filter (λ win, id win ≠ 0 ∧ visible win ≠ 0)
                                 (take 16 (windows st1))))));
    [| apply (drawn_cursor c0 ws)].
  apply (drawn_trans c0 ws _ st1); [exact H1 |]. rewrite Hw1. fold ws. clearbody st1.
  apply (drawn_foldl c0 ws). intros s a Ha. rewrite sort_by_z_perm in Ha.
  apply (drawn_trans c0 ws _ (draw_window_decorations font a s));
    [| by apply (drawn_blit c0 ws)].
  apply (drawn_decorations c0 ws). by apply Hws.
Qed.

Lemma same_shape_lengths p m m' k :
  same_shape p m m' → length <$> m' !! k = length <$> m !! k.
Proof.
  intros (Ho & Hl & _). destruct (decide (k = p)) as [-> | Hne]; [done |]. by rewrite Ho.
Qed.

Lemma placed_geometry c c' w w' :
  ctx_width c' = ctx_width c → ctx_height c' = ctx_height c → same_geometry w w' →
  placed c w → placed c' w'.
Proof.
  intros Hcw Hch (_ & Hx & Hy & Hw & Hh & _) [? ? ? ?].
  constructor; rewrite ?Hcw, ?Hch, ?Hx, ?Hy, ?Hw, ?Hh; done.
Qed.

(** X17. Writing to a window that holds at least one character cell
    stays inside the pixel buffers, and the cursor of its terminal stays
    on the grid. For a window of at least 8x16 pixels whose buffer
    holds its [width * height] pixels, less than [2^29] of them, over a
    screen whose back buffer and framebuffer hold the pixels of the
    context, and whose shown windows have their frames within reach of
    the screen and buffers that hold their pixels: whatever bytes are
    written, no store, load or copy of [compositor_window_write] (the
    terminal loop with its scrolls, and the rendering that follows)
    leaves the buffer it is aimed at; no window record changes but that
    of the window written to, whose identifier, position, size, buffer
    and owner stay as they were; and the cursor column ends below
    [width / 8] and the cursor row below [height / 16] if they began
    that way. *)
Theorem window_write_cursor_on_grid font wid buf st i w :
  list_find (λ win, id win = wid) (take 16 (windows st)) = Some (i, w) →
  buffer_ok w (pixels st) →
  8 <= width w → 16 <= height w → 4 * (width w * height w) < 2 ^ 31 →
  0 <= cursor_x w < Z.quot (width w) 8 → 0 <= cursor_y w < Z.quot (height w) 16 →
  screen_ok st → Forall (drawable st) (take 16 (windows st)) →
  intact (pixels st) = true →
  ∃ w', windows (compositor_window_write font wid buf st) = <[i := w']> (windows st) ∧
        id w' = id w ∧ x w' = x w ∧ y w' = y w ∧ width w' = width w ∧ height w' = height w ∧
        buffer w' = buffer w ∧ pid w' = pid w ∧
        0 <= cursor_x w' < Z.quot (width w') 8 ∧
        0 <= cursor_y w' < Z.quot (height w') 16 ∧
        intact (pixels (compositor_window_write font wid buf st)) = true.
Proof.
  intros Hfind Hbok Hw Hh Harea Hx Hy Hscreen Hpl Hin.
  pose proof Hfind as Hf. apply list_find_Some in Hf as (Hlk & Hid & Hfirst).
  apply lookup_take_Some in Hlk as [Hlk Hi16].
  assert (Hi : (i < length (windows st))%nat) by (eapply lookup_lt_Some; eauto).
  unfold compositor_window_write. rewrite Hfind.
  destruct (Z.eqb_spec (buffer w) 0) as [| Hbuf].
  { exists w. split; [by rewrite list_insert_id |]. done. }
  cbv zeta.
  match goal with
  | |- context [foldl _ ?a buf] => set (st0 := a)
  end.
  pose proof (tstate_self i st0 Hi w Hlk) as Hst0.
  change (pixels st0) with (pixels st) in Hst0.
  change (irq_enabled st0) with false in Hst0.
  assert (Hfirst' : ∀ j wj, windows st0 !! j = Some wj → (j < i)%nat → id wj ≠ wid).
  { intros j wj Hj Hlt. apply (Hfirst j wj); [| done].
    apply lookup_take_Some. split; [exact Hj | lia]. }
  destruct (write_loop_tstate font wid i st0 Hi Hi16 Hfirst' w
              (g_ctx (local_irq_disable st)) eq_refl Hid Hbuf Hw Hh Harea buf
              w (pixels st) false (same_geometry_refl w) Hbok Hx Hy)
    as (w' & m' & b' & Hrun & Hg & Hx' & Hy' & Hshape).
  rewrite Hst0 in Hrun. rewrite Hrun. clear Hrun.
  match goal with
  | |- context [compositor_render font ?a] => set (str := a)
  end.
  assert (Hwin : windows str = <[i := w']> (windows st)) by reflexivity.
  assert (Hokr : screen_ok str).
  { destruct Hscreen as [HW HH HA Hback [n [Hfront Hn]]].
    constructor; try done.
    - change (length <$> m' !! ctx_buffer (g_ctx st)
              = Some (Z.to_nat (ctx_width (g_ctx st) * ctx_height (g_ctx st)))).
      by rewrite (same_shape_lengths _ _ _ _ Hshape).
    - exists n. split; [| done].
      change (length <$> m' !! fb_base_addr st = Some n).
      by rewrite (same_shape_lengths _ _ _ _ Hshape). }
  assert (Hlens : ∀ k, length <$> pixels str !! k = length <$> pixels st !! k).
  { intros k. change (pixels str) with m'. by apply (same_shape_lengths (buffer w)). }
  assert (Hplr : Forall (drawable str) (take 16 (windows str))).
  { rewrite Hwin. rewrite Forall_forall in Hpl. apply Forall_forall. intros win Hwin' Hidw Hvis.
    apply list_elem_of_lookup in Hwin' as [j Hj].
    apply lookup_take_Some in Hj as [Hj Hj16].
    pose proof Hg as (Hgid & _ & _ & _ & _ & _ & _ & _ & Hgv & _).
    destruct (decide (j = i)) as [-> | Hne].
    - rewrite list_lookup_insert_eq in Hj by done. injection Hj as <-.
      destruct (Hpl w) as [Hp _]; [| congruence | congruence |].
      { apply list_elem_of_lookup. exists i. by rewrite lookup_take_lt. }
      split; [by apply (placed_geometry (g_ctx st) _ w) |].
      apply (buffer_ok_geometry w); [done |]. by apply (buffer_ok_lengths _ (pixels st)).
    - rewrite list_lookup_insert_ne in Hj by done.
      destruct (Hpl win) as [Hp Hb]; [| done | done |].
      { apply list_elem_of_lookup. exists j. by rewrite lookup_take_lt. }
      split; [by apply (placed_geometry (g_ctx st) _ win); try apply same_geometry_refl |].
      by apply (buffer_ok_lengths _ (pixels st)). }
  destruct (render_kept font str Hokr Hplr) as [_ _ _ Hwr Hir _].
  exists w'. change (windows (local_irq_enable ?s)) with (windows s).
  change (pixels (local_irq_enable ?s)) with (pixels s).
  rewrite Hwr, Hir, Hwin.
  destruct Hg as (Hg1 & Hg2 & Hg3 & Hg4 & Hg5 & Hg6 & Hg7 & _).
  split; [done |]. rewrite Hg4, Hg5.
  split; [done |]. split; [done |]. split; [done |]. split; [done |]. split; [done |].
  split; [done |]. split; [done |]. split; [done |]. split; [done |].
  change (pixels str) with m'. destruct Hshape as (_ & _ & ->). exact Hin.
Qed.

Lemma comp_demo_screen_ok : screen_ok comp_demo.
Proof.
  constructor; try (vm_compute; split; (discriminate || reflexivity)); try reflexivity.
  exists 3072%nat. split; [reflexivity | vm_compute; discriminate].
Qed.

Lemma comp_demo_drawable : Forall (drawable comp_demo) (take 16 (windows comp_demo)).
Proof.
  change (take 16 (windows comp_demo))
    with ([demo_window 1 4 24 24 32 2 0x40100020; demo_window 2 34 24 16 16 3 0x40100c40]
            ++ replicate 14 zero_window).
  apply Forall_app. split.
  - apply Forall_cons. split.
    { intros _ _. split; constructor; vm_compute; try reflexivity;
        split; (discriminate || reflexivity). }
    apply Forall_cons. split; [| by constructor].
    intros _ _. split; constructor; vm_compute; try reflexivity;
      split; (discriminate || reflexivity).
  - apply Forall_replicate. intros Hid. by exfalso.
Qed.

Lemma window_write_cursor_on_grid_witness :
  ∃ w', windows (compositor_window_write demo_font 2 [79; 75; 10; 27; 91; 74; 8] comp_demo)
          = <[1%nat := w']> (windows comp_demo) ∧
        id w' = 2 ∧ x w' = 34 ∧ y w' = 24 ∧ width w' = 16 ∧ height w' = 16 ∧
        buffer w' = 0x40100c40 ∧ pid w' = 3 ∧
        0 <= cursor_x w' < Z.quot (width w') 8 ∧
        0 <= cursor_y w' < Z.quot (height w') 16 ∧
        intact (pixels (compositor_window_write demo_font 2 [79; 75; 10; 27; 91; 74; 8]
                          comp_demo)) = true.
Proof.
  apply (window_write_cursor_on_grid demo_font 2 [79; 75; 10; 27; 91; 74; 8] comp_demo 1
           (demo_window 2 34 24 16 16 3 0x40100c40)).
  - reflexivity.
  - constructor; vm_compute; repeat split; try reflexivity; discriminate.
  - vm_compute; discriminate.
  - vm_compute; discriminate.
  - vm_compute; reflexivity.
  - vm_compute; split; (discriminate || reflexivity).
  - vm_compute; split; (discriminate || reflexivity).
  - exact comp_demo_screen_ok.
  - exact comp_demo_drawable.
  - reflexivity.
Defined.

End Desktop.

(** ** Page tables: walks, unmapping and the table tree (vmm.c) *)

Module PageTables.
Import Vmm.

(** [vmm_unmap_page]; the TLB maintenance that follows the store is not
    part of the memory modelled. *)
Definition vmm_unmap_page (pgd virt : Z) (st : vm) : vm :=
  let r1 := get_next_table pgd (PGD_INDEX virt) false st in
  if r1.1 =? 0 then r1.2
  else
    let r2 := get_next_table r1.1 (PUD_INDEX virt) false r1.2 in
    if r2.1 =? 0 then r2.2
    else
      let r3 := get_next_table r2.1 (PMD_INDEX virt) false r2.2 in
      if r3.1 =? 0 then r3.2
      else mkVm (<[r3.1 + 8 * PT_INDEX virt := 0]> (words r3.2)) (frames r3.2).

(** The three lookups of [vmm_unmap_page]: the address of the leaf of
    [virt], when every level on the way is present. *)
Definition leaf_slot (pgd virt : Z) (st : vm) : option Z :=
  let r1 := get_next_table pgd (PGD_INDEX virt) false st in
  if r1.1 =? 0 then None
  else
    let r2 := get_next_table r1.1 (PUD_INDEX virt) false r1.2 in
    if r2.1 =? 0 then None
    else
      let r3 := get_next_table r2.1 (PMD_INDEX virt) false r2.2 in
      if r3.1 =? 0 then None else Some (r3.1 + 8 * PT_INDEX virt).

(** [table[index]], the test [table[index] & PTE_VALID] and the table
    address an entry holds. *)
Definition entry (st : vm) (t i : Z) : Z := read64 (words st) (t + 8 * i).
Definition entry_valid (e : Z) : bool := negb (Z.land e PTE_VALID =? 0).
Definition entry_table (e : Z) : Z := Z.land e 0x0000FFFFFFFFF000.

(** A page the allocator has handed out. *)
Definition is_frame (s : Pmm.pmm) (t : Z) : Prop :=
  ∃ p, t = Pmm.MEMORY_BASE + 4096 * p ∧ 0 <= p < Pmm.total_pages s ∧
       Pmm.pfn_used s p = true.

(** The shape [vmm_init] builds from a zeroed root with [vmm_map_page]:
    every table is an allocated page with a level ([0] for a root), and
    a valid entry of a table above the last level holds the address of
    a table of the next level. Tables may be shared between roots. *)
Record tree (L : Z → option nat) (st : vm) : Prop := mkTree {
  tr_frame : ∀ t k, L t = Some k → is_frame (frames st) t;
  tr_child : ∀ t k i, L t = Some k → (k < 3)%nat → 0 <= i < 512 →
    entry_valid (entry st t i) = true → L (entry_table (entry st t i)) = Some (S k)
}.

Lemma get_next_table_lookup t i st :
  get_next_table t i false st =
  (if entry_valid (entry st t i) then entry_table (entry st t i) else 0, st).
Proof.
  unfold get_next_table, entry, entry_valid, entry_table.
  by destruct (negb _).
Qed.

Lemma index_range x : 0 <= Z.land x 0x1FF < 512.
Proof.
  change 0x1FF with (Z.ones 9). rewrite Z.land_ones by lia.
  change (2 ^ 9) with 512. apply Z.mod_pos_bound. lia.
Qed.

Lemma read_zero_page_in page m i :
  0 <= i < 512 → read64 (zero_page page m) (page + 8 * i) = 0.
Proof.
  intros Hi. unfold zero_page.
  assert (Hin : i ∈ seqZ 0 512) by (apply elem_of_seqZ; lia).
  induction (seqZ 0 512) as [| j l IH]; [by apply elem_of_nil in Hin |].
  cbn [foldr]. unfold read64.
  destruct (Z.eq_dec j i) as [-> | Hne]; [by rewrite lookup_insert_eq |].
  rewrite lookup_insert_ne by lia. apply IH.
  apply elem_of_cons in Hin as [-> | Hin]; [done | exact Hin].
Qed.

Lemma read_zero_page_out page m a :
  (∀ i, 0 <= i < 512 → a ≠ page + 8 * i) →
  read64 (zero_page page m) a = read64 m a.
Proof.
  intros Ha. unfold zero_page.
  assert (Hin : ∀ i, i ∈ seqZ 0 512 → a ≠ page + 8 * i).
  { intros i Hi. apply elem_of_seqZ in Hi. apply Ha. lia. }
  induction (seqZ 0 512) as [| j l IH]; [done |].
  cbn [foldr]. unfold read64. rewrite lookup_insert_ne.
  - apply IH. intros i Hi. apply Hin. by apply elem_of_cons; right.
  - intros Heq. apply (Hin j); [by apply elem_of_cons; left | done].
Qed.

Lemma table_entry_bits n : 12 <= n < 48 → Z.testbit TABLE_ENTRY n = false.
Proof.
  intros Hn.
  assert (Hc : ∀ k : nat, Z.testbit TABLE_ENTRY (12 + Z.of_nat k) = true → (36 <= k)%nat).
  { intros k. do 36 (destruct k as [| k]; [vm_compute; discriminate |]). lia. }
  destruct (Z.testbit TABLE_ENTRY n) eqn:Hb; [| done].
  replace n with (12 + Z.of_nat (Z.to_nat (n - 12))) in Hb by lia.
  apply Hc in Hb. lia.
Qed.

Lemma mask_bits n : 0 <= n → Z.testbit 0x0000FFFFFFFFF000 n = (12 <=? n) && (n <? 48).
Proof.
  intros Hn. change 0x0000FFFFFFFFF000 with (Z.shiftl (Z.ones 36) 12).
  destruct (Z.leb_spec 12 n); cbn [andb].
  - rewrite Z.shiftl_spec by lia. destruct (Z.ltb_spec n 48).
    + apply Z.ones_spec_low. lia.
    + apply Z.ones_spec_high. lia.
  - apply Z.shiftl_spec_low. lia.
Qed.

(** The entry [get_next_table] writes for a new table reads back as
    valid and gives the table's address. *)
Lemma table_entry_reads s t :
  Pmm.wf s → is_frame s t →
  entry_valid (Z.lor t TABLE_ENTRY) = true ∧ entry_table (Z.lor t TABLE_ENTRY) = t.
Proof.
  intros Hwf (p & -> & Hp & _).
  pose proof (Pmm.wf_total s Hwf) as Ht.
  change Pmm.MAX_PAGES with 262144 in Ht. unfold Pmm.MEMORY_BASE.
  set (t := 1073741824 + 4096 * p).
  assert (Hr : 0 <= t < 2 ^ 48) by (unfold t; lia).
  assert (Hm : t mod 4096 = 0).
  { unfold t. replace (1073741824 + 4096 * p) with ((262144 + p) * 4096) by lia.
    apply Z.mod_mul. lia. }
  split.
  - unfold entry_valid, PTE_VALID. rewrite Pmm.land_bit_eqb by lia.
    rewrite Z.lor_spec. replace (Z.testbit TABLE_ENTRY 0) with true by (vm_compute; done).
    by rewrite orb_true_r.
  - unfold entry_table. apply Z.bits_inj'. intros n Hn.
    rewrite Z.land_spec, Z.lor_spec, mask_bits by done.
    destruct (Z.leb_spec 12 n); cbn [andb].
    + destruct (Z.ltb_spec n 48).
      * rewrite table_entry_bits by lia. by rewrite orb_false_r, andb_true_r.
      * rewrite andb_false_r. symmetry. apply frame_bits; [done | done | lia].
    + rewrite andb_false_r. symmetry. apply frame_bits; [done | done | lia].
Qed.

Lemma slot_inj s a j t i :
  is_frame s a → is_frame s t → 0 <= j < 512 → 0 <= i < 512 →
  a + 8 * j = t + 8 * i → a = t ∧ j = i.
Proof. intros (p & -> & _) (q & -> & _) Hj Hi Heq. lia. Qed.

Lemma is_frame_nonzero s t : is_frame s t → t ≠ 0.
Proof. intros (p & -> & Hp & _). unfold Pmm.MEMORY_BASE. lia. Qed.

Lemma allocated_keeps_frame s s' addr first a :
  Pmm.allocated s s' addr first 1 → is_frame s a → is_frame s' a.
Proof.
  intros Hal (p & -> & Hp & Hu). exists p. split; [done |].
  rewrite (Pmm.al_total _ _ _ _ _ Hal). split; [done |].
  rewrite (Pmm.al_used _ _ _ _ _ Hal) by lia. by rewrite Hu, orb_true_r.
Qed.

Lemma allocated_is_frame s s' addr first :
  Pmm.allocated s s' addr first 1 → is_frame s' addr.
Proof.
  intros Hal. exists first. pose proof (Pmm.al_range _ _ _ _ _ Hal) as Hr.
  split; [rewrite (Pmm.al_addr _ _ _ _ _ Hal); lia |].
  rewrite (Pmm.al_total _ _ _ _ _ Hal). split; [lia |].
  rewrite (Pmm.al_used _ _ _ _ _ Hal) by lia.
  rewrite Pmm.in_run_one, Z.eqb_refl. done.
Qed.

Lemma allocated_apart s s' addr first a j i :
  Pmm.allocated s s' addr first 1 → is_frame s a → 0 <= j < 512 → 0 <= i < 512 →
  a + 8 * j ≠ addr + 8 * i.
Proof.
  intros Hal (p & -> & Hp & Hu) Hj Hi Heq.
  rewrite (Pmm.al_addr _ _ _ _ _ Hal) in Heq.
  assert (p = first) as -> by lia.
  rewrite (Pmm.al_fresh _ _ _ _ _ Hal) in Hu by lia. done.
Qed.

(** What one [get_next_table(table, index, 1)] does to a tree: it fails
    and changes nothing, or it gives the table of the next level,
    either the one the entry held or a new one it entered there; no
    other entry of a table changes. *)
Lemma get_next_table_step L st t k i :
  tree L st → Pmm.wf (frames st) → L t = Some k → (k < 3)%nat → 0 <= i < 512 →
  Pmm.wf (frames (get_next_table t i true st).2) ∧
  (((get_next_table t i true st).1 = 0 ∧ (get_next_table t i true st).2 = st) ∨
   ((get_next_table t i true st).1 ≠ 0 ∧
    ∃ L', tree L' (get_next_table t i true st).2 ∧
          (∀ a n, L a = Some n → L' a = Some n) ∧
          L' (get_next_table t i true st).1 = Some (S k) ∧
          entry_valid (entry (get_next_table t i true st).2 t i) = true ∧
          entry_table (entry (get_next_table t i true st).2 t i)
            = (get_next_table t i true st).1 ∧
          ∀ a n j, L a = Some n → 0 <= j < 512 →
                   entry_valid (entry st a j) = true ∨ a ≠ t ∨ j ≠ i →
                   entry (get_next_table t i true st).2 a j = entry st a j)).
Proof.
  intros Htree Hwf Ht Hk Hi. unfold get_next_table.
  change (negb (Z.land (read64 (words st) (t + 8 * i)) PTE_VALID =? 0))
    with (entry_valid (entry st t i)).
  change (Z.land (read64 (words st) (t + 8 * i)) 0x0000FFFFFFFFF000)
    with (entry_table (entry st t i)).
  destruct (entry_valid (entry st t i)) eqn:Hv; cbn [negb fst snd].
  - split; [done |]. right.
    pose proof (tr_child L st Htree t k i Ht Hk Hi Hv) as Hc.
    split; [exact (is_frame_nonzero _ _ (tr_frame L st Htree _ _ Hc)) |].
    exists L. split; [exact Htree |]. split; [done |]. split; [exact Hc |].
    split; [exact Hv |]. split; done.
  - destruct (Pmm.pmm_alloc_page (frames st)) as [addr s'] eqn:Ha. cbn [fst snd].
    destruct (Pmm.pmm_alloc_page_spec _ _ _ Hwf Ha) as [[-> ->] | [Hne [first Hal]]].
    + change (0 =? 0) with true. cbn [fst snd]. split; [done |]. left.
      split; [done |]. by destruct st.
    + destruct (Z.eqb_spec addr 0) as [| _]; [done |]. cbn [fst snd frames words].
      pose proof (Pmm.al_wf _ _ _ _ _ Hal) as Hwf'.
      pose proof (allocated_is_frame _ _ _ _ Hal) as Hfa.
      pose proof (tr_frame L st Htree t k Ht) as Hft.
      assert (Hnew : ∀ a n, L a = Some n → a ≠ addr).
      { intros a n Hl ->.
        apply (allocated_apart _ _ _ _ addr 0 0 Hal (tr_frame L st Htree _ _ Hl)); lia. }
      assert (Hold : ∀ a n j, L a = Some n → 0 <= j < 512 → a ≠ t ∨ j ≠ i →
                entry (mkVm (<[t + 8 * i := Z.lor addr TABLE_ENTRY]>
                               (zero_page addr (words st))) s') a j = entry st a j).
      { intros a n j Hl Hj Hd. unfold entry, read64 at 1. cbn [words].
        rewrite lookup_insert_ne.
        - apply read_zero_page_out. intros j' Hj'.
          apply (allocated_apart _ _ _ _ a j j' Hal (tr_frame L st Htree _ _ Hl)); lia.
        - intros Heq.
          destruct (slot_inj _ _ _ _ _ (tr_frame L st Htree _ _ Hl) Hft Hj Hi (eq_sym Heq)).
          destruct Hd; done. }
      assert (Hwr : entry (mkVm (<[t + 8 * i := Z.lor addr TABLE_ENTRY]>
                                   (zero_page addr (words st))) s') t i
                    = Z.lor addr TABLE_ENTRY).
      { unfold entry, read64. cbn [words]. by rewrite lookup_insert_eq. }
      destruct (table_entry_reads s' addr Hwf' Hfa) as [Hev Het].
      split; [done |]. right. split; [done |].
      exists (λ a, if a =? addr then Some (S k) else L a).
      split; [| split; [| split; [| split; [| split]]]].
      * constructor.
        -- intros a n. destruct (Z.eqb_spec a addr) as [-> | Hd]; cbn [frames].
           ++ intros _. exact Hfa.
           ++ intros Hl. eapply allocated_keeps_frame; [exact Hal |].
              exact (tr_frame L st Htree _ _ Hl).
        -- intros a n j. destruct (Z.eqb_spec a addr) as [-> | Hd].
           ++ intros _ _ Hj.
              assert (Hz : entry (mkVm (<[t + 8 * i := Z.lor addr TABLE_ENTRY]>
                                          (zero_page addr (words st))) s') addr j = 0).
              { unfold entry, read64. cbn [words]. rewrite lookup_insert_ne.
                - apply (read_zero_page_in addr (words st) j Hj).
                - apply (allocated_apart _ _ _ _ t i j Hal Hft); lia. }
              rewrite Hz. intros Hv0. vm_compute in Hv0. discriminate.
           ++ intros Hl Hn Hj.
              destruct (Z.eq_dec a t) as [-> | Hat].
              ** destruct (Z.eq_dec j i) as [-> | Hji].
                 --- rewrite Hwr, Het. rewrite Z.eqb_refl. intros _. congruence.
                 --- rewrite (Hold t n j Hl Hj) by (by right). intros Hvj.
                     pose proof (tr_child L st Htree _ _ _ Hl Hn Hj Hvj) as Hc.
                     destruct (Z.eqb_spec (entry_table (entry st t j)) addr) as [He |]; [| done].
                     rewrite He in Hc. by destruct (Hnew _ _ Hc).
              ** rewrite (Hold a n j Hl Hj) by (by left). intros Hvj.
                 pose proof (tr_child L st Htree _ _ _ Hl Hn Hj Hvj) as Hc.
                 destruct (Z.eqb_spec (entry_table (entry st a j)) addr) as [He |]; [| done].
                 rewrite He in Hc. by destruct (Hnew _ _ Hc).
      * intros a n Hl. destruct (Z.eqb_spec a addr) as [-> |]; [| done].
        by destruct (Hnew _ _ Hl).
      * by rewrite Z.eqb_refl.
      * by rewrite Hwr.
      * by rewrite Hwr.
      * intros a n j Hl Hj [Hvj | Hd].
        -- destruct (Z.eq_dec a t) as [-> | Hat]; [| apply (Hold a n j Hl Hj); by left].
           destruct (Z.eq_dec j i) as [-> | Hji]; [congruence |].
           apply (Hold t n j Hl Hj). by right.
        -- apply (Hold a n j Hl Hj Hd).
Qed.

(** The entries of the tables of [L] that [st'] has as [st] had them:
    every valid entry above the last level, and the whole last level. *)
Definition keeps (L : Z → option nat) (st st' : vm) : Prop :=
  ∀ a n j, L a = Some n → 0 <= j < 512 →
           entry_valid (entry st a j) = true ∨ n = 3%nat →
           entry st' a j = entry st a j.

Lemma keeps_refl L st : keeps L st st.
Proof. by intros a n j _ _ _. Qed.

Lemma keeps_trans L L' st st1 st2 :
  (∀ a n, L a = Some n → L' a = Some n) →
  keeps L st st1 → keeps L' st1 st2 → keeps L st st2.
Proof.
  intros Hsub H1 H2 a n j Hl Hj Hc.
  rewrite <- (H1 a n j Hl Hj Hc). apply (H2 a n j (Hsub _ _ Hl) Hj).
  destruct Hc as [Hv | ->]; [left | by right].
  by rewrite (H1 a n j Hl Hj (or_introl Hv)).
Qed.

(** The path [vmm_map_page] follows and extends, level by level. *)
Lemma vmm_map_page_path L st pgd virt phys flags :
  tree L st → Pmm.wf (frames st) → L pgd = Some 0%nat →
  Pmm.wf (frames (vmm_map_page pgd virt phys flags st).2) ∧
  ∃ L', (∀ a n, L a = Some n → L' a = Some n) ∧
        tree L' (vmm_map_page pgd virt phys flags st).2 ∧
        (((vmm_map_page pgd virt phys flags st).1 = (-1, None) ∧
          keeps L st (vmm_map_page pgd virt phys flags st).2) ∨
         (∃ t1 t2 t3 st3,
            (vmm_map_page pgd virt phys flags st).1 = (0, Some (t3 + 8 * PT_INDEX virt)) ∧
            (vmm_map_page pgd virt phys flags st).2
              = mkVm (<[t3 + 8 * PT_INDEX virt := Z.lor phys flags]> (words st3))
                     (frames st3) ∧
            keeps L st st3 ∧
            L' t1 = Some 1%nat ∧ L' t2 = Some 2%nat ∧ L' t3 = Some 3%nat ∧
            entry_valid (entry st3 pgd (PGD_INDEX virt)) = true ∧
            entry_table (entry st3 pgd (PGD_INDEX virt)) = t1 ∧
            entry_valid (entry st3 t1 (PUD_INDEX virt)) = true ∧
            entry_table (entry st3 t1 (PUD_INDEX virt)) = t2 ∧
            entry_valid (entry st3 t2 (PMD_INDEX virt)) = true ∧
            entry_table (entry st3 t2 (PMD_INDEX virt)) = t3)).
Proof.
  intros Htree Hwf Hpgd. unfold vmm_map_page.
  pose proof (index_range (Z.shiftr virt 39)) as Hi1. fold (PGD_INDEX virt) in Hi1.
  pose proof (index_range (Z.shiftr virt 30)) as Hi2. fold (PUD_INDEX virt) in Hi2.
  pose proof (index_range (Z.shiftr virt 21)) as Hi3. fold (PMD_INDEX virt) in Hi3.
  pose proof (index_range (Z.shiftr virt 12)) as Hi4. fold (PT_INDEX virt) in Hi4.
  (* level 0 *)
  pose proof (get_next_table_step L st pgd 0%nat _ Htree Hwf Hpgd ltac:(lia) Hi1) as H1.
  destruct (get_next_table pgd (PGD_INDEX virt) true st) as [t1 st1].
  cbn [fst snd] in H1 |- *.
  destruct H1 as [Hwf1 [[-> ->] | (Hn1 & L1 & Ht1 & Hs1 & Hl1 & Hv1 & He1 & Hk1)]].
  { change (0 =? 0) with true. cbn [fst snd]. split; [done |]. exists L.
    split; [done |]. split; [done |]. left. split; [done | apply keeps_refl]. }
  destruct (Z.eqb_spec t1 0) as [| _]; [done |].
  assert (K1 : keeps L st st1).
  { intros a n j Hl Hj [Hv | ->]; [apply (Hk1 a n j Hl Hj); by left |].
    apply (Hk1 a _ j Hl Hj). right. left. intros ->. congruence. }
  (* level 1 *)
  pose proof (get_next_table_step L1 st1 t1 1%nat _ Ht1 Hwf1 Hl1 ltac:(lia) Hi2) as H2.
  destruct (get_next_table t1 (PUD_INDEX virt) true st1) as [t2 st2].
  cbn [fst snd] in H2 |- *.
  destruct H2 as [Hwf2 [[-> ->] | (Hn2 & L2 & Ht2 & Hs2 & Hl2 & Hv2 & He2 & Hk2)]].
  { change (0 =? 0) with true. cbn [fst snd]. split; [done |]. exists L1.
    split; [done |]. split; [done |]. left. split; [done | exact K1]. }
  destruct (Z.eqb_spec t2 0) as [| _]; [done |].
  assert (K2 : keeps L1 st1 st2).
  { intros a n j Hl Hj [Hv | ->]; [apply (Hk2 a n j Hl Hj); by left |].
    apply (Hk2 a _ j Hl Hj). right. left. intros ->. congruence. }
  (* level 2 *)
  pose proof (get_next_table_step L2 st2 t2 2%nat _ Ht2 Hwf2 Hl2 ltac:(lia) Hi3) as H3.
  destruct (get_next_table t2 (PMD_INDEX virt) true st2) as [t3 st3].
  cbn [fst snd] in H3 |- *.
  destruct H3 as [Hwf3 [[-> ->] | (Hn3 & L3 & Ht3 & Hs3 & Hl3 & Hv3 & He3 & Hk3)]].
  { change (0 =? 0) with true. cbn [fst snd]. split; [done |]. exists L2.
    split; [by auto |]. split; [done |]. left. split; [done |].
    exact (keeps_trans L L1 st st1 st2 Hs1 K1 K2). }
  destruct (Z.eqb_spec t3 0) as [| _]; [done |].
  assert (K3 : keeps L2 st2 st3).
  { intros a n j Hl Hj [Hv | ->]; [apply (Hk3 a n j Hl Hj); by left |].
    apply (Hk3 a _ j Hl Hj). right. left. intros ->. congruence. }
  (* the leaf *)
  cbn [fst snd frames]. split; [done |]. exists L3. split; [by auto |].
  pose proof (tr_frame L3 st3 Ht3 t3 _ Hl3) as Hf3.
  assert (Hup : ∀ a n j, L3 a = Some n → (n < 3)%nat → 0 <= j < 512 →
            entry (mkVm (<[t3 + 8 * PT_INDEX virt := Z.lor phys flags]> (words st3))
                        (frames st3)) a j = entry st3 a j).
  { intros a n j Hl Hn Hj. unfold entry, read64. cbn [words].
    rewrite lookup_insert_ne; [done |]. intros Heq.
    destruct (slot_inj _ _ _ _ _ (tr_frame L3 st3 Ht3 _ _ Hl) Hf3 Hj Hi4 (eq_sym Heq))
      as [-> _].
    rewrite Hl3 in Hl. injection Hl as <-. lia. }
  split.
  - constructor; [exact (tr_frame L3 st3 Ht3) |].
    intros a n j Hl Hn Hj. rewrite (Hup a n j Hl Hn Hj).
    exact (tr_child L3 st3 Ht3 a n j Hl Hn Hj).
  - right. exists t1, t2, t3, st3. split; [done |]. split; [done |].
    assert (K13 : keeps L1 st1 st3) by exact (keeps_trans L1 L2 st1 st2 st3 Hs2 K2 K3).
    split; [exact (keeps_trans L L1 st st1 st3 Hs1 K1 K13) |].
    split; [by auto |]. split; [by auto |]. split; [done |].
    assert (E1 : entry st3 pgd (PGD_INDEX virt) = entry st1 pgd (PGD_INDEX virt)).
    { apply (K13 pgd 0%nat _ (Hs1 _ _ Hpgd) Hi1). by left. }
    assert (E2 : entry st3 t1 (PUD_INDEX virt) = entry st2 t1 (PUD_INDEX virt)).
    { apply (K3 t1 1%nat _ (Hs2 _ _ Hl1) Hi2). by left. }
    rewrite E1, E2. done.
Qed.

(** [get_next_table(table, index, 0)] reads one entry and writes nothing. *)
Definition look (st : vm) (t i : Z) : Z :=
  if entry_valid (entry st t i) then entry_table (entry st t i) else 0.

Lemma leaf_slot_look pgd virt st :
  leaf_slot pgd virt st =
  if look st pgd (PGD_INDEX virt) =? 0 then None
  else if look st (look st pgd (PGD_INDEX virt)) (PUD_INDEX virt) =? 0 then None
  else if look st (look st (look st pgd (PGD_INDEX virt)) (PUD_INDEX virt))
                  (PMD_INDEX virt) =? 0 then None
  else Some (look st (look st (look st pgd (PGD_INDEX virt)) (PUD_INDEX virt))
                  (PMD_INDEX virt) + 8 * PT_INDEX virt).
Proof. unfold leaf_slot. rewrite !get_next_table_lookup. cbn [fst snd]. done. Qed.

Lemma vmm_unmap_page_leaf pgd virt st :
  vmm_unmap_page pgd virt st =
  match leaf_slot pgd virt st with
  | Some slot => mkVm (<[slot := 0]> (words st)) (frames st)
  | None => st
  end.
Proof.
  unfold vmm_unmap_page, leaf_slot. rewrite !get_next_table_lookup. cbn [fst snd].
  repeat (match goal with |- context [if ?b =? 0 then _ else _] =>
            destruct (b =? 0); [done |] end).
  done.
Qed.

(** A store into a table of the last level leaves the entries of the
    tables above it alone. *)
Lemma leaf_store_above L st t3 i v a n j :
  (∀ t k, L t = Some k → is_frame (frames st) t) →
  L t3 = Some 3%nat → 0 <= i < 512 → L a = Some n → (n < 3)%nat → 0 <= j < 512 →
  entry (mkVm (<[t3 + 8 * i := v]> (words st)) (frames st)) a j = entry st a j.
Proof.
  intros Hf H3 Hi Hl Hn Hj. unfold entry, read64. cbn [words].
  rewrite lookup_insert_ne; [done |]. intros Heq.
  destruct (slot_inj _ _ _ _ _ (Hf _ _ Hl) (Hf _ _ H3) Hj Hi (eq_sym Heq)) as [-> _].
  rewrite H3 in Hl. injection Hl as <-. lia.
Qed.

(** A walk that reaches a leaf in [st] reaches the same leaf in any
    state that has the valid entries of the upper tables as [st] had
    them. *)
Lemma leaf_slot_kept L st st' root virt s :
  tree L st → L root = Some 0%nat →
  (∀ a n j, L a = Some n → (n < 3)%nat → 0 <= j < 512 →
            entry_valid (entry st a j) = true → entry st' a j = entry st a j) →
  leaf_slot root virt st = Some s →
  leaf_slot root virt st' = Some s ∧
  ∃ a3, L a3 = Some 3%nat ∧ s = a3 + 8 * PT_INDEX virt.
Proof.
  intros Htree Hroot Hk. rewrite !leaf_slot_look.
  pose proof (index_range (Z.shiftr virt 39)) as Hi1. fold (PGD_INDEX virt) in Hi1.
  pose proof (index_range (Z.shiftr virt 30)) as Hi2. fold (PUD_INDEX virt) in Hi2.
  pose proof (index_range (Z.shiftr virt 21)) as Hi3. fold (PMD_INDEX virt) in Hi3.
  assert (Hstep : ∀ a n j, L a = Some n → (n < 3)%nat → 0 <= j < 512 →
            look st a j ≠ 0 → look st' a j = look st a j ∧ L (look st a j) = Some (S n)).
  { intros a n j Hl Hn Hj. unfold look.
    destruct (entry_valid (entry st a j)) eqn:Hv; [| done]. intros _.
    rewrite (Hk a n j Hl Hn Hj Hv), Hv. split; [done |].
    exact (tr_child L st Htree a n j Hl Hn Hj Hv). }
  destruct (Z.eqb_spec (look st root (PGD_INDEX virt)) 0) as [| H1]; [done |].
  destruct (Hstep _ _ _ Hroot ltac:(lia) Hi1 H1) as [E1 L1]. rewrite E1.
  destruct (Z.eqb_spec (look st root (PGD_INDEX virt)) 0) as [| _]; [done |].
  destruct (Z.eqb_spec (look st (look st root (PGD_INDEX virt)) (PUD_INDEX virt)) 0)
    as [| H2]; [done |].
  destruct (Hstep _ _ _ L1 ltac:(lia) Hi2 H2) as [E2 L2]. rewrite E2.
  destruct (Z.eqb_spec (look st (look st root (PGD_INDEX virt)) (PUD_INDEX virt)) 0)
    as [| _]; [done |].
  destruct (Z.eqb_spec (look st (look st (look st root (PGD_INDEX virt)) (PUD_INDEX virt))
                                (PMD_INDEX virt)) 0) as [| H3]; [done |].
  destruct (Hstep _ _ _ L2 ltac:(lia) Hi3 H3) as [E3 L3]. rewrite E3.
  destruct (Z.eqb_spec (look st (look st (look st root (PGD_INDEX virt)) (PUD_INDEX virt))
                                (PMD_INDEX virt)) 0) as [| _]; [done |].
  intros [= <-]. split; [done |]. eexists. split; [exact L3 | done].
Qed.


(** [vmm_map_page] leaves every valid entry of the upper tables as it
    was. *)
Lemma vmm_map_page_keeps_upper L st pgd virt phys flags a n j :
  tree L st → Pmm.wf (frames st) → L pgd = Some 0%nat →
  L a = Some n → (n < 3)%nat → 0 <= j < 512 → entry_valid (entry st a j) = true →
  entry (vmm_map_page pgd virt phys flags st).2 a j = entry st a j.
Proof.
  intros Htree Hwf Hpgd Hl Hn Hj Hv.
  pose proof (index_range (Z.shiftr virt 12)) as Hi4. fold (PT_INDEX virt) in Hi4.
  destruct (vmm_map_page_path L st pgd virt phys flags Htree Hwf Hpgd)
    as (Hwf' & L' & Hsub & Ht' & [[Hr HK] | (t1 & t2 & t3 & st3 & Hr & Hst & HK & Hl1 & Hl2 &
          Hl3 & _)]).
  - apply (HK a n j Hl Hj). by left.
  - rewrite Hst in Ht' |- *.
    rewrite (leaf_store_above L' st3 t3 _ _ a n j (tr_frame L' _ Ht') Hl3 Hi4 (Hsub _ _ Hl)
               Hn Hj).
    apply (HK a n j Hl Hj). by left.
Qed.

(** After a successful [vmm_map_page] the walk of [virt] from [pgd]
    ends at the leaf the call wrote. *)
Lemma vmm_map_page_found L st pgd virt phys flags :
  tree L st → Pmm.wf (frames st) → L pgd = Some 0%nat →
  (vmm_map_page pgd virt phys flags st).1.1 = 0 →
  ∃ slot, (vmm_map_page pgd virt phys flags st).1.2 = Some slot ∧
          leaf_slot pgd virt (vmm_map_page pgd virt phys flags st).2 = Some slot ∧
          read64 (words (vmm_map_page pgd virt phys flags st).2) slot = Z.lor phys flags.
Proof.
  intros Htree Hwf Hpgd Hret.
  pose proof (index_range (Z.shiftr virt 39)) as Hi1. fold (PGD_INDEX virt) in Hi1.
  pose proof (index_range (Z.shiftr virt 30)) as Hi2. fold (PUD_INDEX virt) in Hi2.
  pose proof (index_range (Z.shiftr virt 21)) as Hi3. fold (PMD_INDEX virt) in Hi3.
  pose proof (index_range (Z.shiftr virt 12)) as Hi4. fold (PT_INDEX virt) in Hi4.
  destruct (vmm_map_page_path L st pgd virt phys flags Htree Hwf Hpgd)
    as (Hwf' & L' & Hsub & Ht' & [[Hr _] | (t1 & t2 & t3 & st3 & Hr & Hst & HK & Hl1 & Hl2 &
          Hl3 & Hv1 & He1 & Hv2 & He2 & Hv3 & He3)]).
  { rewrite Hr in Hret. done. }
  exists (t3 + 8 * PT_INDEX virt). rewrite Hr. split; [done |].
  rewrite Hst in Ht' |- *.
  assert (Hf : ∀ t k, L' t = Some k → is_frame (frames st3) t)
    by exact (tr_frame L' _ Ht').
  split.
  - rewrite leaf_slot_look. unfold look.
    rewrite (leaf_store_above L' st3 t3 _ _ pgd 0%nat _ Hf Hl3 Hi4 (Hsub _ _ Hpgd)
               ltac:(lia) Hi1), Hv1, He1.
    destruct (Z.eqb_spec t1 0) as [-> | _];
      [by destruct (is_frame_nonzero _ _ (Hf _ _ Hl1)) |].
    rewrite (leaf_store_above L' st3 t3 _ _ t1 1%nat _ Hf Hl3 Hi4 Hl1 ltac:(lia) Hi2),
      Hv2, He2.
    destruct (Z.eqb_spec t2 0) as [-> | _];
      [by destruct (is_frame_nonzero _ _ (Hf _ _ Hl2)) |].
    rewrite (leaf_store_above L' st3 t3 _ _ t2 2%nat _ Hf Hl3 Hi4 Hl2 ltac:(lia) Hi3),
      Hv3, He3.
    destruct (Z.eqb_spec t3 0) as [-> | _];
      [by destruct (is_frame_nonzero _ _ (Hf _ _ Hl3)) |].
    done.
  - unfold read64. cbn [words]. by rewrite lookup_insert_eq.
Qed.

(** *** A root on the small machine *)

(** The root of the small machine: the page of frame 64, which the
    allocator holds as reserved, with every entry empty. *)
Definition pgd_demo : Z := 0x40040000.

Definition levels_demo (a : Z) : option nat :=
  if a =? pgd_demo then Some 0%nat else None.

Lemma tree_demo : tree levels_demo vm_demo.
Proof.
  constructor.
  - intros t k. unfold levels_demo. destruct (Z.eqb_spec t pgd_demo) as [-> |]; [| done].
    intros _. exists 64. vm_compute. repeat split; congruence.
  - intros t k i _ _ _. unfold entry, vm_demo, read64. cbn [words].
    rewrite lookup_empty. vm_compute. discriminate.
Qed.

(** The small machine after its first mapping, of the page at
    [0xC0000000]: the allocator gave frames 67, 68 and 69 for the three
    tables below the root. *)
Definition vm_mapped : vm := (vmm_map_page pgd_demo 0xC0000000 0x40050000 PAGE_USER vm_demo).2.

Definition levels_mapped (a : Z) : option nat :=
  if a =? pgd_demo then Some 0%nat
  else if a =? 0x40043000 then Some 1%nat
  else if a =? 0x40044000 then Some 2%nat
  else if a =? 0x40045000 then Some 3%nat
  else None.

Lemma tree_mapped : tree levels_mapped vm_mapped.
Proof.
  assert (Hall : ∀ t k, levels_mapped t = Some k →
            forallb (λ i, implb (entry_valid (entry vm_mapped t i))
                                (bool_decide (levels_mapped (entry_table (entry vm_mapped t i))
                                              = Some (S k))))
                    (seqZ 0 512) = true ∨ k = 3%nat).
  { intros t k. unfold levels_mapped.
    repeat (match goal with |- context [if ?a =? ?b then _ else _] =>
              destruct (Z.eqb_spec a b) as [-> |] end);
      intros [= <-]; try (by right); left; vm_compute; reflexivity. }
  constructor.
  - intros t k. unfold levels_mapped.
    repeat (match goal with |- context [if ?a =? ?b then _ else _] =>
              destruct (Z.eqb_spec a b) as [-> |] end); intros [= <-].
    + exists 64. vm_compute. repeat split; congruence.
    + exists 67. vm_compute. repeat split; congruence.
    + exists 68. vm_compute. repeat split; congruence.
    + exists 69. vm_compute. repeat split; congruence.
  - intros t k i Hl Hk Hi Hv. destruct (Hall t k Hl) as [Hf | ->]; [| lia].
    rewrite forallb_forall in Hf.
    assert (Hin : In i (seqZ 0 512)).
    { apply list_elem_of_In, elem_of_seqZ. lia. }
    specialize (Hf i Hin). rewrite Hv in Hf. cbn [implb] in Hf.
    by apply bool_decide_eq_true in Hf.
Qed.

Lemma wf_mapped : Pmm.wf (frames vm_mapped).
Proof.
  exact (proj1 (vmm_map_page_path levels_demo vm_demo pgd_demo 0xC0000000 0x40050000
                  PAGE_USER tree_demo Pmm.pmm_demo_wf eq_refl)).
Qed.

(** X21. [vmm_map_page] keeps the page tables in levels: starting
    from tables in which every valid upper-level entry points to an
    allocated table of the next level, the tables after the call,
    whether it succeeded or ran out of pages, have that shape again,
    with every old table at its old level, and the allocator is still
    well formed. *)
Theorem vmm_map_page_keeps_tree L st pgd virt phys flags :
  tree L st → Pmm.wf (frames st) → L pgd = Some 0%nat →
  ∃ L', tree L' (vmm_map_page pgd virt phys flags st).2 ∧
        Pmm.wf (frames (vmm_map_page pgd virt phys flags st).2) ∧
        ∀ a n, L a = Some n → L' a = Some n.
Proof.
  intros Htree Hwf Hpgd.
  destruct (vmm_map_page_path L st pgd virt phys flags Htree Hwf Hpgd)
    as (Hwf' & L' & Hsub & Ht' & _).
  exists L'. done.
Qed.

Lemma vmm_map_page_keeps_tree_witness :
  ∃ L', tree L' (vmm_map_page pgd_demo 0xC0000000 0x40050000 PAGE_USER vm_demo).2 ∧
        Pmm.wf (frames (vmm_map_page pgd_demo 0xC0000000 0x40050000 PAGE_USER vm_demo).2) ∧
        ∀ a n, levels_demo a = Some n → L' a = Some n.
Proof.
  apply (vmm_map_page_keeps_tree levels_demo vm_demo pgd_demo 0xC0000000 0x40050000 PAGE_USER).
  - exact tree_demo.
  - exact Pmm.pmm_demo_wf.
  - reflexivity.
Defined.

(** X22. Mapping then unmapping: after a successful
    [vmm_map_page(pgd, virt, phys, flags)] on a tree, the walk of
    [virt] from [pgd] ends at the leaf the call wrote, which holds
    [phys | flags], and [vmm_unmap_page(pgd, virt)] stores 0 in that
    leaf and changes nothing else: no other word, no table, and no
    page goes back to the allocator. *)
Theorem vmm_map_then_unmap L st pgd virt phys flags :
  tree L st → Pmm.wf (frames st) → L pgd = Some 0%nat →
  (vmm_map_page pgd virt phys flags st).1.1 = 0 →
  ∃ slot, (vmm_map_page pgd virt phys flags st).1.2 = Some slot ∧
          leaf_slot pgd virt (vmm_map_page pgd virt phys flags st).2 = Some slot ∧
          read64 (words (vmm_map_page pgd virt phys flags st).2) slot = Z.lor phys flags ∧
          vmm_unmap_page pgd virt (vmm_map_page pgd virt phys flags st).2
            = mkVm (<[slot := 0]> (words (vmm_map_page pgd virt phys flags st).2))
                   (frames (vmm_map_page pgd virt phys flags st).2).
Proof.
  intros Htree Hwf Hpgd Hret.
  destruct (vmm_map_page_found L st pgd virt phys flags Htree Hwf Hpgd Hret)
    as (slot & Hs & Hleaf & Hread).
  exists slot. split; [exact Hs |]. split; [exact Hleaf |]. split; [exact Hread |].
  by rewrite vmm_unmap_page_leaf, Hleaf.
Qed.

Lemma vmm_map_then_unmap_witness :
  ∃ slot, (vmm_map_page pgd_demo 0xC0000000 0x40050000 PAGE_USER vm_demo).1.2 = Some slot ∧
          leaf_slot pgd_demo 0xC0000000 vm_mapped = Some slot ∧
          read64 (words vm_mapped) slot = Z.lor 0x40050000 PAGE_USER ∧
          vmm_unmap_page pgd_demo 0xC0000000 vm_mapped
            = mkVm (<[slot := 0]> (words vm_mapped)) (frames vm_mapped).
Proof.
  apply (vmm_map_then_unmap levels_demo vm_demo pgd_demo 0xC0000000 0x40050000 PAGE_USER).
  - exact tree_demo.
  - exact Pmm.pmm_demo_wf.
  - reflexivity.
  - vm_compute. reflexivity.
Defined.

(** X23. Mapping a page does not disturb the others: a walk from any
    root of the tree that reached a leaf before [vmm_map_page] reaches
    the same leaf after it, and the leaf holds what it held unless it
    is the very leaf the call wrote. *)
Theorem vmm_map_page_other_pages L st pgd virt phys flags root virt' s :
  tree L st → Pmm.wf (frames st) → L pgd = Some 0%nat → L root = Some 0%nat →
  leaf_slot root virt' st = Some s →
  leaf_slot root virt' (vmm_map_page pgd virt phys flags st).2 = Some s ∧
  ((vmm_map_page pgd virt phys flags st).1.2 ≠ Some s →
   read64 (words (vmm_map_page pgd virt phys flags st).2) s = read64 (words st) s).
Proof.
  intros Htree Hwf Hpgd Hroot Hs.
  pose proof (index_range (Z.shiftr virt 12)) as Hi4. fold (PT_INDEX virt) in Hi4.
  pose proof (index_range (Z.shiftr virt' 12)) as Hj4. fold (PT_INDEX virt') in Hj4.
  destruct (vmm_map_page_path L st pgd virt phys flags Htree Hwf Hpgd)
    as (Hwf' & L' & Hsub & Ht' & [[Hr HK] | (t1 & t2 & t3 & st3 & Hr & Hst & HK & Hl1 & Hl2 &
          Hl3 & _)]).
  - assert (Hup : ∀ a n j, L a = Some n → (n < 3)%nat → 0 <= j < 512 →
              entry_valid (entry st a j) = true →
              entry (vmm_map_page pgd virt phys flags st).2 a j = entry st a j).
    { intros a n j Hl _ Hj Hv. apply (HK a n j Hl Hj). by left. }
    destruct (leaf_slot_kept L st _ root virt' s Htree Hroot Hup Hs)
      as [Hs' (a3 & Ha3 & ->)].
    split; [exact Hs' |]. intros _.
    apply (HK a3 3%nat (PT_INDEX virt') Ha3 Hj4). by right.
  - rewrite Hr, Hst in *. cbn [fst snd].
    assert (Hf : ∀ t k, L' t = Some k → is_frame (frames st3) t)
      by exact (tr_frame L' _ Ht').
    assert (Hup : ∀ a n j, L a = Some n → (n < 3)%nat → 0 <= j < 512 →
              entry_valid (entry st a j) = true →
              entry (mkVm (<[t3 + 8 * PT_INDEX virt := Z.lor phys flags]> (words st3))
                          (frames st3)) a j = entry st a j).
    { intros a n j Hl Hn Hj Hv.
      rewrite (leaf_store_above L' st3 t3 _ _ a n j Hf Hl3 Hi4 (Hsub _ _ Hl) Hn Hj).
      apply (HK a n j Hl Hj). by left. }
    destruct (leaf_slot_kept L st _ root virt' s Htree Hroot Hup Hs)
      as [Hs' (a3 & Ha3 & ->)].
    split; [exact Hs' |]. intros Hne.
    unfold read64. cbn [words]. rewrite lookup_insert_ne by congruence.
    apply (HK a3 3%nat (PT_INDEX virt') Ha3 Hj4). by right.
Qed.

Lemma vmm_map_page_other_pages_witness :
  leaf_slot pgd_demo 0xC0000000
    (vmm_map_page pgd_demo 0xC0001000 0x40051000 PAGE_USER vm_mapped).2 = Some 0x40045000 ∧
  ((vmm_map_page pgd_demo 0xC0001000 0x40051000 PAGE_USER vm_mapped).1.2 ≠ Some 0x40045000 →
   read64 (words (vmm_map_page pgd_demo 0xC0001000 0x40051000 PAGE_USER vm_mapped).2)
          0x40045000 = read64 (words vm_mapped) 0x40045000).
Proof.
  apply (vmm_map_page_other_pages levels_mapped vm_mapped pgd_demo 0xC0001000 0x40051000
           PAGE_USER pgd_demo 0xC0000000 0x40045000).
  - exact tree_mapped.
  - exact wf_mapped.
  - reflexivity.
  - reflexivity.
  - vm_compute. reflexivity.
Defined.

(** *** New address spaces *)

(** The [memcpy] of one page, word by word from the lowest address. *)
Definition copy_page (dst src : Z) (m : gmap Z Z) : gmap Z Z :=
  foldl (λ m i, <[dst + 8 * i := read64 m (src + 8 * i)]> m) m (seqZ 0 512).

(** [vmm_create_pgd]; [ttbr0] is the value read from [ttbr0_el1]. *)
Definition vmm_create_pgd (ttbr0 : Z) (st : vm) : Z * vm :=
  let r := Pmm.pmm_alloc_page (frames st) in
  if r.1 =? 0 then (0, mkVm (words st) r.2)
  else
    let src_pgd := Z.land ttbr0 0x0000FFFFFFFFF000 in
    (r.1, mkVm (copy_page r.1 src_pgd (zero_page r.1 (words st))) r.2).

Lemma read_copy_words dst src l : ∀ m,
  (∀ i j, i ∈ l → 0 <= j < 512 → dst + 8 * i ≠ src + 8 * j) →
  (∀ i, i ∈ l → 0 <= i < 512) →
  (∀ a, (∀ i, i ∈ l → a ≠ dst + 8 * i) →
        read64 (foldl (λ m i, <[dst + 8 * i := read64 m (src + 8 * i)]> m) m l) a
        = read64 m a) ∧
  (∀ i, i ∈ l →
        read64 (foldl (λ m i, <[dst + 8 * i := read64 m (src + 8 * i)]> m) m l)
               (dst + 8 * i) = read64 m (src + 8 * i)).
Proof.
  induction l as [| j l IH]; intros m Hd Hr.
  - split; [done |]. intros i Hi. by apply elem_of_nil in Hi.
  - cbn [foldl].
    destruct (IH (<[dst + 8 * j := read64 m (src + 8 * j)]> m)) as [IH1 IH2].
    { intros i k Hi. apply Hd. by apply elem_of_cons; right. }
    { intros i Hi. apply Hr. by apply elem_of_cons; right. }
    assert (Hsrc : ∀ i, 0 <= i < 512 →
              read64 (<[dst + 8 * j := read64 m (src + 8 * j)]> m) (src + 8 * i)
              = read64 m (src + 8 * i)).
    { intros i Hi. unfold read64 at 1. rewrite lookup_insert_ne; [done |].
      apply Hd; [by apply elem_of_cons; left | done]. }
    split.
    + intros a Ha. rewrite IH1.
      * unfold read64 at 1. rewrite lookup_insert_ne; [done |].
        intros Heq. apply (Ha j); [by apply elem_of_cons; left | done].
      * intros i Hi. apply Ha. by apply elem_of_cons; right.
    + intros i Hi. destruct (decide (i ∈ l)) as [Hin | Hnin].
      * rewrite (IH2 i Hin). apply Hsrc. apply Hr. by apply elem_of_cons; right.
      * apply elem_of_cons in Hi as [-> | Hi]; [| done].
        rewrite IH1.
        -- unfold read64 at 1. by rewrite lookup_insert_eq.
        -- intros i Hi Heq. assert (i = j) by lia. by subst.
Qed.

(** A page mapped through a new root under a top-level entry copied
    from the current root. *)
Lemma create_pgd_then_map L st ttbr0 virt phys flags new st1 slot st2 :
  tree L st → Pmm.wf (frames st) →
  L (Z.land ttbr0 0x0000FFFFFFFFF000) = Some 0%nat →
  entry_valid (entry st (Z.land ttbr0 0x0000FFFFFFFFF000) (PGD_INDEX virt)) = true →
  vmm_create_pgd ttbr0 st = (new, st1) → new ≠ 0 →
  vmm_map_page new virt phys flags st1 = (0, Some slot, st2) →
  new ≠ Z.land ttbr0 0x0000FFFFFFFFF000 ∧
  leaf_slot new virt st2 = Some slot ∧
  leaf_slot (Z.land ttbr0 0x0000FFFFFFFFF000) virt st2 = Some slot ∧
  read64 (words st2) slot = Z.lor phys flags.
Proof.
  set (cur := Z.land ttbr0 0x0000FFFFFFFFF000).
  intros Htree Hwf Hcur Hv Hcreate Hnew Hmap.
  pose proof (index_range (Z.shiftr virt 39)) as Hi1. fold (PGD_INDEX virt) in Hi1.
  unfold vmm_create_pgd in Hcreate.
  destruct (Pmm.pmm_alloc_page (frames st)) as [addr s'] eqn:Ha. cbn [fst snd] in Hcreate.
  destruct (Pmm.pmm_alloc_page_spec _ _ _ Hwf Ha) as [[-> ->] | [Hne [first Hal]]].
  { change (0 =? 0) with true in Hcreate. injection Hcreate as <- _. done. }
  destruct (Z.eqb_spec addr 0) as [| _]; [done |]. fold cur in Hcreate.
  injection Hcreate as -> <-.
  pose proof (Pmm.al_wf _ _ _ _ _ Hal) as Hwf'.
  pose proof (allocated_is_frame _ _ _ _ Hal) as Hfa.
  assert (Hfresh : ∀ a n, L a = Some n → a ≠ new).
  { intros a n Hl ->.
    apply (allocated_apart _ _ _ _ new 0 0 Hal (tr_frame L st Htree _ _ Hl)); lia. }
  set (st1 := mkVm (copy_page new cur (zero_page new (words st))) s') in *.
  destruct (read_copy_words new cur (seqZ 0 512) (zero_page new (words st))) as [Hout Hin].
  { intros i j Hi Hj Heq. apply elem_of_seqZ in Hi.
    apply (allocated_apart _ _ _ _ cur j i Hal (tr_frame L st Htree _ _ Hcur)); [lia.. |].
    done. }
  { intros i Hi. apply elem_of_seqZ in Hi. lia. }
  assert (Hold : ∀ a n j, L a = Some n → 0 <= j < 512 → entry st1 a j = entry st a j).
  { intros a n j Hl Hj. unfold entry, st1, copy_page. cbn [words]. rewrite Hout.
    - apply read_zero_page_out. intros i Hi.
      apply (allocated_apart _ _ _ _ a j i Hal (tr_frame L st Htree _ _ Hl)); lia.
    - intros i Hi. apply elem_of_seqZ in Hi.
      apply (allocated_apart _ _ _ _ a j i Hal (tr_frame L st Htree _ _ Hl)); lia. }
  assert (Hcopy : ∀ j, 0 <= j < 512 → entry st1 new j = entry st cur j).
  { intros j Hj. unfold entry at 1, st1, copy_page. cbn [words]. rewrite Hin.
    - apply read_zero_page_out. intros i Hi.
      apply (allocated_apart _ _ _ _ cur j i Hal (tr_frame L st Htree _ _ Hcur)); lia.
    - apply elem_of_seqZ. lia. }
  assert (Htree1 : tree (λ a, if a =? new then Some 0%nat else L a) st1).
  { constructor.
    - intros a n. destruct (Z.eqb_spec a new) as [-> | Hd]; cbn [frames st1].
      + intros _. exact Hfa.
      + intros Hl. eapply allocated_keeps_frame; [exact Hal |].
        exact (tr_frame L st Htree _ _ Hl).
    - intros a n j. destruct (Z.eqb_spec a new) as [-> | Hd].
      + intros [= <-] _ Hj. rewrite (Hcopy j Hj). intros Hvj.
        pose proof (tr_child L st Htree _ _ _ Hcur ltac:(lia) Hj Hvj) as Hc.
        destruct (Z.eqb_spec (entry_table (entry st cur j)) new) as [He |]; [| done].
        rewrite He in Hc. by destruct (Hfresh _ _ Hc).
      + intros Hl Hn Hj. rewrite (Hold a n j Hl Hj). intros Hvj.
        pose proof (tr_child L st Htree _ _ _ Hl Hn Hj Hvj) as Hc.
        destruct (Z.eqb_spec (entry_table (entry st a j)) new) as [He |]; [| done].
        rewrite He in Hc. by destruct (Hfresh _ _ Hc). }
  assert (Hroot : (λ a, if a =? new then Some 0%nat else L a) new = Some 0%nat)
    by (cbv beta; by rewrite Z.eqb_refl).
  assert (Hcur1 : (λ a, if a =? new then Some 0%nat else L a) cur = Some 0%nat).
  { cbv beta. destruct (Z.eqb_spec cur new); done. }
  assert (Hret : (vmm_map_page new virt phys flags st1).1.1 = 0) by (by rewrite Hmap).
  destruct (vmm_map_page_found _ st1 new virt phys flags Htree1 Hwf' Hroot Hret)
    as (slot' & Hs & Hleaf & Hread).
  rewrite Hmap in Hs, Hleaf, Hread. cbn [fst snd] in Hs, Hleaf, Hread.
  injection Hs as <-.
  split; [exact (not_eq_sym (Hfresh _ _ Hcur)) |].
  split; [exact Hleaf |]. split; [| exact Hread].
  assert (Hvn : entry_valid (entry st1 new (PGD_INDEX virt)) = true)
    by (by rewrite (Hcopy _ Hi1)).
  assert (Hvc : entry_valid (entry st1 cur (PGD_INDEX virt)) = true)
    by (by rewrite (Hold _ _ _ Hcur Hi1)).
  pose proof (vmm_map_page_keeps_upper _ st1 new virt phys flags new 0%nat _
                Htree1 Hwf' Hroot Hroot ltac:(lia) Hi1 Hvn) as En.
  pose proof (vmm_map_page_keeps_upper _ st1 new virt phys flags cur 0%nat _
                Htree1 Hwf' Hroot Hcur1 ltac:(lia) Hi1 Hvc) as Ec.
  rewrite Hmap in En, Ec. cbn [snd] in En, Ec.
  rewrite <- Hleaf. rewrite !leaf_slot_look.
  assert (Hlook : look st2 cur (PGD_INDEX virt) = look st2 new (PGD_INDEX virt)).
  { unfold look. rewrite En, Ec, (Hcopy _ Hi1), (Hold _ _ _ Hcur Hi1). done. }
  by rewrite Hlook.
Qed.

(** X24. Address spaces share their tables. A root made by
    [vmm_create_pgd] is a copy of the current root, so a page mapped
    through the new root under a top-level entry that the current root
    already had lands in the tables of the current address space: the
    walk from the current root reaches the very leaf just written. *)
Theorem vmm_create_pgd_shares_tables L st ttbr0 virt phys flags :
  tree L st → Pmm.wf (frames st) →
  L (Z.land ttbr0 0x0000FFFFFFFFF000) = Some 0%nat →
  entry_valid (entry st (Z.land ttbr0 0x0000FFFFFFFFF000) (PGD_INDEX virt)) = true →
  (vmm_create_pgd ttbr0 st).1 ≠ 0 →
  (vmm_map_page (vmm_create_pgd ttbr0 st).1 virt phys flags
                (vmm_create_pgd ttbr0 st).2).1.1 = 0 →
  ∃ slot,
    (vmm_create_pgd ttbr0 st).1 ≠ Z.land ttbr0 0x0000FFFFFFFFF000 ∧
    (vmm_map_page (vmm_create_pgd ttbr0 st).1 virt phys flags
                  (vmm_create_pgd ttbr0 st).2).1.2 = Some slot ∧
    leaf_slot (vmm_create_pgd ttbr0 st).1 virt
              (vmm_map_page (vmm_create_pgd ttbr0 st).1 virt phys flags
                            (vmm_create_pgd ttbr0 st).2).2 = Some slot ∧
    leaf_slot (Z.land ttbr0 0x0000FFFFFFFFF000) virt
              (vmm_map_page (vmm_create_pgd ttbr0 st).1 virt phys flags
                            (vmm_create_pgd ttbr0 st).2).2 = Some slot ∧
    read64 (words (vmm_map_page (vmm_create_pgd ttbr0 st).1 virt phys flags
                                (vmm_create_pgd ttbr0 st).2).2) slot = Z.lor phys flags.
Proof.
  intros Htree Hwf Hcur Hv.
  destruct (vmm_create_pgd ttbr0 st) as [new st1] eqn:Hcreate. cbn [fst snd].
  intros Hnew Hret.
  destruct (vmm_map_page_leaf new virt phys flags st1 Hret) as (slot & Hslot & _).
  destruct (vmm_map_page new virt phys flags st1) as [[ret oslot] st2] eqn:Hmap.
  cbn [fst snd] in Hret, Hslot |- *. subst ret oslot.
  exists slot.
  destruct (create_pgd_then_map L st ttbr0 virt phys flags new st1 slot st2
              Htree Hwf Hcur Hv Hcreate Hnew Hmap) as (H1 & H2 & H3 & H4).
  exact (conj H1 (conj eq_refl (conj H2 (conj H3 H4)))).
Qed.

Lemma vmm_create_pgd_shares_tables_witness :
  ∃ slot,
    (vmm_create_pgd pgd_demo vm_mapped).1 ≠ Z.land pgd_demo 0x0000FFFFFFFFF000 ∧
    (vmm_map_page (vmm_create_pgd pgd_demo vm_mapped).1 0xC0001000 0x40051000 PAGE_USER
                  (vmm_create_pgd pgd_demo vm_mapped).2).1.2 = Some slot ∧
    leaf_slot (vmm_create_pgd pgd_demo vm_mapped).1 0xC0001000
              (vmm_map_page (vmm_create_pgd pgd_demo vm_mapped).1 0xC0001000 0x40051000
                            PAGE_USER (vmm_create_pgd pgd_demo vm_mapped).2).2 = Some slot ∧
    leaf_slot (Z.land pgd_demo 0x0000FFFFFFFFF000) 0xC0001000
              (vmm_map_page (vmm_create_pgd pgd_demo vm_mapped).1 0xC0001000 0x40051000
                            PAGE_USER (vmm_create_pgd pgd_demo vm_mapped).2).2 = Some slot ∧
    read64 (words (vmm_map_page (vmm_create_pgd pgd_demo vm_mapped).1 0xC0001000 0x40051000
                                PAGE_USER (vmm_create_pgd pgd_demo vm_mapped).2).2) slot
      = Z.lor 0x40051000 PAGE_USER.
Proof.
  apply (vmm_create_pgd_shares_tables levels_mapped vm_mapped pgd_demo 0xC0001000 0x40051000
           PAGE_USER).
  - exact tree_mapped.
  - exact wf_mapped.
  - reflexivity.
  - vm_compute. reflexivity.
  - vm_compute. discriminate.
  - vm_compute. reflexivity.
Defined.

End PageTables.

(** ** Formatted output (printk.c) *)

Module Printk.

Definition FLAG_ZEROPAD : Z := 0x01.
Definition FLAG_UPPERCASE : Z := 0x40.

(** ["0123456789abcdef"] and ["0123456789ABCDEF"]. *)
Definition digits_lower : list Z :=
  [48; 49; 50; 51; 52; 53; 54; 55; 56; 57; 97; 98; 99; 100; 101; 102].
Definition digits_upper : list Z :=
  [48; 49; 50; 51; 52; 53; 54; 55; 56; 57; 65; 66; 67; 68; 69; 70].

(** The loop that fills [tmp], lowest digit first. [fuel] is the room
    left in [tmp]; [None] is a division by zero or a store past the end
    of [tmp]. *)
Fixpoint tmp_loop (fuel : nat) (digits : list Z) (num base : Z) (tmp : list Z)
    : option (list Z) :=
  if num =? 0 then Some tmp
  else
    match fuel with
    | O => None
    | S f =>
        if base =? 0 then None
        else tmp_loop f digits (num / base) base
                      (tmp ++ [default 0 (digits !! Z.to_nat (num mod base))])
    end.

(** The padding loop: [buf] holds the bytes stored so far, so that
    [written] is its length. *)
Fixpoint pad_loop (fuel : nat) (i width lim pad : Z) (buf : list Z) : list Z :=
  match fuel with
  | O => buf
  | S f =>
      if (i <? width) && (Z.of_nat (length buf) <? lim)
      then pad_loop f i (width - 1) lim pad (buf ++ [pad])
      else buf
  end.

(** The loop that stores the digits, highest first. *)
Fixpoint out_loop (fuel : nat) (i lim : Z) (tmp buf : list Z) : list Z :=
  match fuel with
  | O => buf
  | S f =>
      if (0 <? i) && (Z.of_nat (length buf) <? lim)
      then out_loop f (i - 1) lim tmp (buf ++ [default 0 (tmp !! Z.to_nat (i - 1))])
      else buf
  end.

(** [print_num]: the bytes it stores from [buf[0]] on; the value it
    returns is their number. *)
Definition print_num (size num base width flags : Z) : option (list Z) :=
  let digits := if Z.land flags FLAG_UPPERCASE =? 0 then digits_lower else digits_upper in
  tmp ← (if num =? 0 then Some [48] else tmp_loop 66 digits num (u64 base) []);
  let i := Z.of_nat (length tmp) in
  let lim := s32 (s32 size - 1) in
  let pad := if Z.land flags FLAG_ZEROPAD =? 0 then 32 else 48 in
  let buf := pad_loop (Z.to_nat lim) i width lim pad [] in
  Some (out_loop (length tmp) i lim tmp buf).

(** The value of a digit character, and of a numeral read from the
    left. *)
Definition digit_of (c : Z) : Z :=
  if (48 <=? c) && (c <=? 57) then c - 48
  else if (97 <=? c) && (c <=? 102) then c - 87
  else if (65 <=? c) && (c <=? 70) then c - 55
  else -1.

Definition number (base : Z) (l : list Z) : Z :=
  foldl (λ acc c, acc * base + digit_of c) 0 l.

Lemma number_snoc base l c : number base (l ++ [c]) = number base l * base + digit_of c.
Proof. unfold number. by rewrite foldl_app. Qed.

Lemma digit_of_digits flags d :
  0 <= d < 16 →
  digit_of (default 0 ((if Z.land flags FLAG_UPPERCASE =? 0 then digits_lower
                        else digits_upper) !! Z.to_nat d)) = d.
Proof.
  intros Hd.
  assert (Hall : ∀ k : nat, (k < 16)%nat →
            digit_of (default 0 (digits_lower !! k)) = Z.of_nat k ∧
            digit_of (default 0 (digits_upper !! k)) = Z.of_nat k).
  { intros k Hk. do 16 (destruct k as [| k]; [by vm_compute |]). lia. }
  destruct (Hall (Z.to_nat d) ltac:(lia)) as [Hl Hu].
  destruct (Z.land flags FLAG_UPPERCASE =? 0); [rewrite Hl | rewrite Hu]; lia.
Qed.

(** The digits [tmp_loop] appends, read from the highest, are the
    numeral of [num]. *)
Lemma tmp_loop_spec flags base fuel : ∀ num tmp,
  2 <= base <= 16 → 0 <= num < base ^ Z.of_nat fuel →
  ∃ ds, tmp_loop fuel (if Z.land flags FLAG_UPPERCASE =? 0 then digits_lower
                       else digits_upper) num base tmp = Some (tmp ++ ds) ∧
        (length ds <= fuel)%nat ∧
        number base (rev ds) = num ∧
        Forall (λ c, 0 <= digit_of c < base) ds ∧
        (num ≠ 0 → ds ≠ [] ∧ ∀ c, last ds = Some c → digit_of c ≠ 0).
Proof.
  induction fuel as [| f IH]; intros num tmp Hb Hn.
  - assert (num = 0) as -> by (change (base ^ Z.of_nat 0) with 1 in Hn; lia).
    exists []. cbn. rewrite app_nil_r. repeat split; try done; try lia.
  - cbn [tmp_loop]. destruct (Z.eqb_spec num 0) as [-> | Hne].
    { exists []. rewrite app_nil_r. cbn. repeat split; try done; try lia. }
    destruct (Z.eqb_spec base 0) as [| _]; [lia |].
    assert (Hq : 0 <= num / base < base ^ Z.of_nat f).
    { split; [apply Z.div_pos; lia |].
      apply Z.div_lt_upper_bound; [lia |].
      replace (Z.of_nat (S f)) with (Z.of_nat f + 1) in Hn by lia.
      rewrite Z.pow_add_r, Z.pow_1_r in Hn by lia. lia. }
    pose proof (Z.mod_pos_bound num base ltac:(lia)) as Hm.
    set (d := default 0 ((if Z.land flags FLAG_UPPERCASE =? 0 then digits_lower
                          else digits_upper) !! Z.to_nat (num mod base))).
    assert (Hd : digit_of d = num mod base) by (apply digit_of_digits; lia).
    destruct (IH (num / base) (tmp ++ [d]) Hb Hq) as (ds & Hrun & Hlen & Hval & Hall & Hlead).
    exists (d :: ds). rewrite Hrun, <- app_assoc. split; [done |].
    split; [cbn; lia |]. split.
    + cbn [rev]. rewrite number_snoc, Hval, Hd.
      pose proof (Z.div_mod num base ltac:(lia)). lia.
    + split; [constructor; [lia | done] |]. intros _. split; [done |].
      intros c. destruct (Z.eq_dec (num / base) 0) as [Hz | Hnz].
      * assert (ds = []) as ->.
        { destruct ds as [| c' ds']; [done |].
          rewrite Hz in Hrun. destruct f; cbn in Hrun; injection Hrun as Hrun;
            apply (f_equal length) in Hrun; rewrite !length_app in Hrun; cbn in Hrun; lia. }
        cbn. intros [= <-]. rewrite Hd.
        pose proof (Z.div_mod num base ltac:(lia)). lia.
      * destruct (Hlead Hnz) as [Hne' Hl]. intros Hc. apply Hl.
        destruct ds; [done |]. exact Hc.
Qed.

Lemma pad_loop_spec i lim pad fuel : ∀ width buf,
  lim - Z.of_nat (length buf) <= Z.of_nat fuel →
  pad_loop fuel i width lim pad buf
  = buf ++ replicate (Z.to_nat (Z.min (width - i) (lim - Z.of_nat (length buf)))) pad.
Proof.
  induction fuel as [| f IH]; intros width buf Hf; cbn [pad_loop].
  - replace (Z.to_nat _) with O by lia. by rewrite app_nil_r.
  - destruct (Z.ltb_spec i width); cbn [andb];
      [destruct (Z.ltb_spec (Z.of_nat (length buf)) lim) |].
    + rewrite IH by (rewrite length_app; cbn [length]; lia).
      rewrite <- app_assoc, length_app. cbn [length app]. f_equal.
      replace (Z.to_nat (Z.min (width - i) (lim - Z.of_nat (length buf))))
        with (S (Z.to_nat (Z.min (width - 1 - i) (lim - Z.of_nat (length buf + 1)))))
        by lia.
      done.
    + replace (Z.to_nat _) with O by lia. by rewrite app_nil_r.
    + replace (Z.to_nat _) with O by lia. by rewrite app_nil_r.
Qed.

Lemma out_loop_spec lim tmp fuel : ∀ buf,
  (fuel <= length tmp)%nat →
  out_loop fuel (Z.of_nat fuel) lim tmp buf
  = buf ++ take (Z.to_nat (lim - Z.of_nat (length buf))) (rev (take fuel tmp)).
Proof.
  induction fuel as [| f IH]; intros buf Hf.
  - cbn [out_loop]. rewrite take_0. cbn [rev]. by rewrite take_nil, app_nil_r.
  - cbn [out_loop]. destruct (Z.ltb_spec 0 (Z.of_nat (S f))) as [_ |]; [| lia].
    cbn [andb]. destruct (lookup_lt_is_Some_2 tmp f ltac:(lia)) as [c Hc].
    assert (Hrev : rev (take (S f) tmp) = c :: rev (take f tmp)).
    { rewrite (take_S_r _ _ _ Hc), rev_app_distr. done. }
    rewrite Hrev.
    destruct (Z.ltb_spec (Z.of_nat (length buf)) lim).
    + replace (Z.of_nat (S f) - 1) with (Z.of_nat f) by lia.
      rewrite Nat2Z.id, Hc. cbn [default from_option].
      rewrite IH by lia. rewrite <- app_assoc, length_app. cbn [length app]. f_equal.
      replace (Z.to_nat (lim - Z.of_nat (length buf)))
        with (S (Z.to_nat (lim - Z.of_nat (length buf + 1)))) by lia.
      done.
    + replace (Z.to_nat _) with O by lia. by rewrite app_nil_r.
Qed.

(** What [print_num] stores. For a base from 2 to 16 and a
    64-bit number it stores the padding (up to [width] characters in
    all) followed by the digits of the number, highest first, cut
    after [(int)size - 1] bytes: the digits read back in that base give
    the number, there are at most 64 of them and the first is not 0
    unless the number is 0. So it never stores past [buf[size - 2]],
    and when the room is short it is the low digits that are lost. *)
Lemma print_num_spec size num base width flags :
  2 <= base <= 16 → 0 <= num < 2 ^ 64 →
  ∃ ds, print_num size num base width flags
        = Some (take (Z.to_nat (s32 (s32 size - 1)))
                     (replicate (Z.to_nat (width - Z.of_nat (length ds)))
                                (if Z.land flags FLAG_ZEROPAD =? 0 then 32 else 48) ++ ds)) ∧
        number base ds = num ∧
        Forall (λ c, 0 <= digit_of c < base) ds ∧
        (1 <= length ds <= 64)%nat ∧
        (num ≠ 0 → ∀ c, head ds = Some c → digit_of c ≠ 0) ∧
        (num ≠ 0 → base ^ (Z.of_nat (length ds) - 1) <= num) ∧
        (num = 0 → ds = [48]).
Proof.
  intros Hb Hn. unfold print_num.
  set (lim := s32 (s32 size - 1)).
  set (pad := if Z.land flags FLAG_ZEROPAD =? 0 then 32 else 48).
  assert (Hfin : ∀ tmp,
            out_loop (length tmp) (Z.of_nat (length tmp)) lim tmp
              (pad_loop (Z.to_nat lim) (Z.of_nat (length tmp)) width lim pad [])
            = take (Z.to_nat lim)
                   (replicate (Z.to_nat (width - Z.of_nat (length (rev tmp)))) pad ++ rev tmp)).
  { intros tmp. rewrite pad_loop_spec by (cbn [length]; lia).
    rewrite out_loop_spec by lia. cbn [app length].
    rewrite firstn_all, length_replicate, length_rev, take_app, take_replicate,
      length_replicate.
    f_equal; f_equal; lia. }
  destruct (Z.eqb_spec num 0) as [-> | Hne].
  - cbn [mbind option_bind]. exists [48]. rewrite (Hfin [48]). split; [done |].
    split; [done |]. split; [constructor; [change (digit_of 48) with 0; lia | done] |].
    split; [cbn; lia |]. split; [done |]. split; done.
  - assert (Hbase : u64 base = base) by (apply u64_small; lia).
    rewrite Hbase.
    destruct (tmp_loop_spec flags base 66 num [] Hb) as (ds & Hrun & Hlen & Hval & Hall & Hlead).
    { split; [lia |]. apply Z.lt_le_trans with (2 ^ 64); [lia |].
      apply Z.le_trans with (2 ^ Z.of_nat 66); [by apply Z.pow_le_mono_r |].
      apply Z.pow_le_mono_l. lia. }
    rewrite Hrun. cbn [mbind option_bind app]. exists (rev ds). rewrite (Hfin ds).
    split; [done |]. split; [done |].
    split; [by apply Forall_rev |].
    destruct (Hlead Hne) as [Hnil Hl].
    assert (Hpow : base ^ (Z.of_nat (length ds) - 1) <= num).
    { rewrite <- Hval. clear - Hnil Hall Hl Hb.
      revert Hall Hnil Hl. induction ds as [| c l IHl]; [done |]. intros Hf _ Hlast.
      apply Forall_cons in Hf as [Hc Hf]. cbn [rev length].
      rewrite number_snoc. destruct l as [| c' l'].
      - cbn. specialize (Hlast c eq_refl). lia.
      - specialize (IHl Hf ltac:(done) Hlast).
        replace (Z.of_nat (S (length (c' :: l'))) - 1)
          with (Z.of_nat (length (c' :: l')) - 1 + 1) by lia.
        rewrite Z.pow_add_r, Z.pow_1_r by (cbn [length]; lia). nia. }
    assert (Hlen64 : (length ds <= 64)%nat).
    { destruct (Nat.le_gt_cases (length ds) 64) as [| Hgt]; [done |].
      assert (base ^ 64 <= base ^ (Z.of_nat (length ds) - 1))
        by (apply Z.pow_le_mono_r; lia).
      assert (2 ^ 64 <= base ^ 64) by (apply Z.pow_le_mono_l; lia). lia. }
    rewrite length_rev. split; [| split; [| split]].
    + split; [| done]. destruct ds; [done | cbn; lia].
    + intros _ c Hc. apply Hl. rewrite <- Hc, rev_alt. symmetry. apply head_reverse.
    + done.
    + done.
Qed.

(** X25. What [print_num] stores. For a base from 2 to 16 and a
    64-bit number it stores the padding (up to [width] characters in
    all) followed by the digits of the number, highest first, cut
    after [(int)size - 1] bytes: the digits read back in that base give
    the number, there are at most 64 of them and the first is not 0
    unless the number is 0. When the room is short it is the low digits
    that are lost. *)
Theorem print_num_numeral size num base width flags :
  2 <= base <= 16 → 0 <= num < 2 ^ 64 →
  ∃ ds, print_num size num base width flags
        = Some (take (Z.to_nat (s32 (s32 size - 1)))
                     (replicate (Z.to_nat (width - Z.of_nat (length ds)))
                                (if Z.land flags FLAG_ZEROPAD =? 0 then 32 else 48) ++ ds)) ∧
        number base ds = num ∧
        Forall (λ c, 0 <= digit_of c < base) ds ∧
        (1 <= length ds <= 64)%nat ∧
        (num ≠ 0 → ∀ c, head ds = Some c → digit_of c ≠ 0).
Proof.
  intros Hb Hn.
  destruct (print_num_spec size num base width flags Hb Hn)
    as (ds & Hrun & Hval & Hall & Hlen & Hlead & _).
  exists ds. done.
Qed.

Lemma print_num_numeral_witness :
  ∃ ds, print_num 6 1234 10 6 FLAG_ZEROPAD
        = Some (take (Z.to_nat (s32 (s32 6 - 1)))
                     (replicate (Z.to_nat (6 - Z.of_nat (length ds)))
                                (if Z.land FLAG_ZEROPAD FLAG_ZEROPAD =? 0 then 32 else 48)
                      ++ ds)) ∧
        number 10 ds = 1234 ∧
        Forall (λ c, 0 <= digit_of c < 10) ds ∧
        (1 <= length ds <= 64)%nat ∧
        (1234 ≠ 0 → ∀ c, head ds = Some c → digit_of c ≠ 0).
Proof. apply (print_num_numeral 6 1234 10 6 FLAG_ZEROPAD); lia. Defined.

Lemma print_num_length size num base width flags out :
  print_num size num base width flags = Some out →
  Z.of_nat (length out) <= Z.max 0 (s32 (s32 size - 1)).
Proof.
  unfold print_num.
  destruct (if num =? 0 then Some [48] else _) as [tmp |]; [| done].
  cbn [mbind option_bind]. intros [= <-].
  rewrite pad_loop_spec by (cbn [length]; lia). rewrite out_loop_spec by lia.
  rewrite length_app, length_take, length_app, length_replicate. cbn [length app].
  lia.
Qed.

Lemma print_num_defined size num base width flags :
  2 <= base <= 16 → 0 <= num < 2 ^ 64 →
  is_Some (print_num size num base width flags).
Proof.
  intros Hb Hn.
  destruct (print_num_spec size num base width flags Hb Hn) as (ds & Hrun & _).
  rewrite Hrun. by eexists.
Qed.

(** *** [vsnprintf] *)

(** How a run ends: with a result; in behaviour the C standard leaves
    undefined (a read past the terminator of the format, an argument
    that was not passed); or with the model's fuel used up. *)
Inductive run (A : Type) : Type :=
  | Returned (a : A)
  | Undefined
  | Out_of_fuel.
Arguments Returned {A} a.
Arguments Undefined {A}.
Arguments Out_of_fuel {A}.

Section Format.

(** The bytes, before its terminator, of the string at an address. *)
Variable str_at : Z → list Z.

(** The character [fmt] points to, where [fmt] is the rest of the
    format before its terminator. *)
Definition cur (fmt : list Z) : Z :=
  match fmt with
  | [] => 0
  | c :: _ => c
  end.

(** The loop that reads the decimal field width. *)
Fixpoint width_loop (fmt : list Z) (width : Z) : list Z * Z :=
  match fmt with
  | c :: t =>
      if (48 <=? c) && (c <=? 57) then width_loop t (s32 (s32 (width * 10) + (c - 48)))
      else (fmt, width)
  | [] => (fmt, width)
  end.

(** [if (written < (int)size - 1) buf[written++] = c;] *)
Definition put (lim c : Z) (buf : list Z) : list Z :=
  if Z.of_nat (length buf) <? lim then buf ++ [c] else buf.

(** [written += print_num(buf + written, size - written, ...)] *)
Definition put_num (size unum base width flags : Z) (buf : list Z) : option (list Z) :=
  out ← print_num (u64 (size - Z.of_nat (length buf))) unum base width flags;
  Some (buf ++ out).

(** The [switch] on the conversion character [c]: the bytes stored and
    the arguments left; [None] when an argument is missing. *)
Definition conversion (size lim c flags width : Z) (is_long is_longlong : bool)
    (args buf : list Z) : option (list Z * list Z) :=
  if c =? 99 then
    match args with
    | a :: args => Some (buf ++ [a mod 256], args)
    | [] => None
    end
  else if c =? 115 then
    match args with
    | a :: args =>
        let s := if a =? 0 then [40; 110; 117; 108; 108; 41] else str_at a in
        Some (buf ++ take (Z.to_nat (lim - Z.of_nat (length buf))) s, args)
    | [] => None
    end
  else if (c =? 100) || (c =? 105) then
    match args with
    | a :: args =>
        let num := if is_longlong then s64 a else if is_long then s64 a else s32 a in
        let buf' := if num <? 0 then buf ++ [45] else buf in
        let unum := if num <? 0 then u64 (- num) else u64 num in
        buf'' ← put_num size unum 10 width flags buf';
        Some (buf'', args)
    | [] => None
    end
  else if (c =? 117) || (c =? 120) || (c =? 88) then
    match args with
    | a :: args =>
        let unum := if is_longlong then u64 a else if is_long then u64 a else u32 a in
        let flags := if c =? 88 then Z.lor flags FLAG_UPPERCASE else flags in
        buf' ← put_num size unum (if c =? 117 then 10 else 16) width flags buf;
        Some (buf', args)
    | [] => None
    end
  else if c =? 112 then
    match args with
    | a :: args =>
        buf' ← put_num size (u64 a) 16 16 FLAG_ZEROPAD (put lim 120 (buf ++ [48]));
        Some (buf', args)
    | [] => None
    end
  else if c =? 37 then Some (buf ++ [37], args)
  else Some (put lim c (buf ++ [37]), args).

(** The main loop. *)
Fixpoint format_loop (fuel : nat) (size lim : Z) (fmt args buf : list Z)
    : run (list Z) :=
  match fuel with
  | O => Out_of_fuel
  | S f =>
      if (cur fmt =? 0) || negb (Z.of_nat (length buf) <? lim) then Returned buf
      else if negb (cur fmt =? 37) then
        format_loop f size lim (tail fmt) args (buf ++ [cur fmt])
      else
        let fmt := tail fmt in
        let flags := if cur fmt =? 48 then FLAG_ZEROPAD else 0 in
        let fmt := if cur fmt =? 48 then tail fmt else fmt in
        let w := width_loop fmt 0 in
        let fmt := w.1 in
        let is_long := cur fmt =? 108 in
        let fmt := if is_long then tail fmt else fmt in
        let is_longlong := is_long && (cur fmt =? 108) in
        let fmt := if is_longlong then tail fmt else fmt in
        match conversion size lim (cur fmt) flags w.2 is_long is_longlong args buf with
        | None => Undefined
        | Some r =>
            (* [fmt++] after the [switch]: from the terminator it steps
               past the end of the format, where the loop test reads *)
            if cur fmt =? 0 then Undefined
            else format_loop f size lim (tail fmt) r.2 r.1
        end
  end.

(** [vsnprintf]: the bytes stored from [buf[0]] on, terminator
    included, and the value returned. [args] are the variable
    arguments, one 64-bit slot each. *)
Definition vsnprintf (size : Z) (fmt args : list Z) : run (list Z * Z) :=
  if size =? 0 then Returned ([], 0)
  else
    match format_loop (S (length fmt)) size (s32 (s32 size - 1)) fmt args [] with
    | Returned buf => Returned (buf ++ [0], Z.of_nat (length buf))
    | Undefined => Undefined
    | Out_of_fuel => Out_of_fuel
    end.

Lemma limit_below size : 0 < size → s32 (s32 size - 1) <= size - 1.
Proof.
  intros Hs. pose proof (s32_range size) as Hr.
  assert (Hle : s32 size <= size).
  { unfold s32. pose proof (Z.mod_le (size + 2 ^ 31) (2 ^ 32) ltac:(lia) ltac:(lia)). lia. }
  destruct (Z.eq_dec (s32 size) (- 2 ^ 31)) as [He | Hne].
  - rewrite He. change (s32 (- 2 ^ 31 - 1)) with (2 ^ 31 - 1).
    assert (Hmod : (size + 2 ^ 31) mod 2 ^ 32 = 0) by (unfold s32 in He; lia).
    apply Z.mod_divide in Hmod; [| lia]. destruct Hmod as [k Hk]. lia.
  - rewrite s32_small by lia. lia.
Qed.

Lemma width_loop_length fmt : ∀ width,
  (length (width_loop fmt width).1 <= length fmt)%nat.
Proof.
  induction fmt as [| c t IH]; intros width; cbn [width_loop]; [done |].
  destruct ((48 <=? c) && (c <=? 57)); [| done].
  specialize (IH (s32 (s32 (width * 10) + (c - 48)))). cbn [length]. lia.
Qed.

Lemma put_length lim c buf :
  Z.of_nat (length buf) <= Z.max 0 lim →
  Z.of_nat (length (put lim c buf)) <= Z.max 0 lim.
Proof.
  intros H. unfold put. destruct (Z.ltb_spec (Z.of_nat (length buf)) lim); [| done].
  rewrite length_app. cbn [length]. lia.
Qed.

Lemma put_num_length size unum base width flags buf buf' :
  size < 2 ^ 64 → Z.of_nat (length buf) <= size - 1 →
  put_num size unum base width flags buf = Some buf' →
  Z.of_nat (length buf') <= size - 1.
Proof.
  intros Hs Hb. unfold put_num.
  destruct (print_num _ unum base width flags) as [out |] eqn:Hp; [| done].
  cbn [mbind option_bind]. intros [= <-].
  apply print_num_length in Hp. rewrite u64_small in Hp by lia.
  pose proof (limit_below (size - Z.of_nat (length buf)) ltac:(lia)).
  rewrite length_app. lia.
Qed.

Lemma conversion_length size c flags width is_long is_longlong args buf r :
  0 < size < 2 ^ 64 →
  Z.of_nat (length buf) < s32 (s32 size - 1) →
  conversion size (s32 (s32 size - 1)) c flags width is_long is_longlong args buf = Some r →
  Z.of_nat (length r.1) <= size - 1.
Proof.
  intros Hs Hb. pose proof (limit_below size ltac:(lia)) as Hlim.
  set (lim := s32 (s32 size - 1)) in *. unfold conversion.
  assert (H1 : ∀ x : Z, Z.of_nat (length (buf ++ [x])) <= lim)
    by (intros x; rewrite length_app; cbn [length]; lia).
  destruct (c =? 99).
  { destruct args as [| a args]; [done |]. intros [= <-]. cbn [fst]. specialize (H1 (a mod 256)). lia. }
  destruct (c =? 115).
  { destruct args as [| a args]; [done |]. intros [= <-]. cbn [fst].
    rewrite length_app, length_take. lia. }
  destruct ((c =? 100) || (c =? 105)).
  { destruct args as [| a args]; [done |]. cbv zeta.
    destruct (put_num _ _ _ _ _ _) as [buf'' |] eqn:Hp; [| done].
    cbn [mbind option_bind]. intros [= <-]. cbn [fst].
    apply put_num_length in Hp; [done | lia |].
    destruct (_ <? 0); [specialize (H1 45) |]; lia. }
  destruct ((c =? 117) || (c =? 120) || (c =? 88)).
  { destruct args as [| a args]; [done |]. cbv zeta.
    destruct (put_num _ _ _ _ _ _) as [buf'' |] eqn:Hp; [| done].
    cbn [mbind option_bind]. intros [= <-]. cbn [fst].
    apply put_num_length in Hp; [done | lia | lia]. }
  destruct (c =? 112).
  { destruct args as [| a args]; [done |].
    destruct (put_num _ _ _ _ _ _) as [buf'' |] eqn:Hp; [| done].
    cbn [mbind option_bind]. intros [= <-]. cbn [fst].
    apply put_num_length in Hp; [done | lia |].
    pose proof (put_length lim 120 (buf ++ [48]) ltac:(specialize (H1 48); lia)). lia. }
  destruct (c =? 37).
  { intros [= <-]. cbn [fst]. specialize (H1 37). lia. }
  intros [= <-]. cbn [fst].
  pose proof (put_length lim c (buf ++ [37]) ltac:(specialize (H1 37); lia)). lia.
Qed.

Lemma tail_length (l : list Z) : (length (tail l) <= length l)%nat.
Proof. destruct l; cbn; lia. Qed.

Lemma tail_shorter (l : list Z) : cur l ≠ 0 → (length (tail l) < length l)%nat.
Proof. destruct l; cbn; [done | lia]. Qed.

Lemma format_loop_bound size fuel : ∀ fmt args buf,
  0 < size < 2 ^ 64 → (length fmt < fuel)%nat → Z.of_nat (length buf) <= size - 1 →
  format_loop fuel size (s32 (s32 size - 1)) fmt args buf ≠ Out_of_fuel ∧
  ∀ buf', format_loop fuel size (s32 (s32 size - 1)) fmt args buf = Returned buf' →
          Z.of_nat (length buf') <= size - 1.
Proof.
  induction fuel as [| f IH]; intros fmt args buf Hs Hf Hb; [lia |].
  pose proof (limit_below size ltac:(lia)) as Hlim.
  cbn [format_loop]. set (lim := s32 (s32 size - 1)) in *.
  destruct (Z.eqb_spec (cur fmt) 0) as [Hz | Hnz]; cbn [orb].
  { split; [done |]. by intros buf' [= <-]. }
  destruct (Z.ltb_spec (Z.of_nat (length buf)) lim) as [Hroom | Hfull]; cbn [negb].
  2: { split; [done |]. by intros buf' [= <-]. }
  pose proof (tail_shorter fmt Hnz) as Ht.
  destruct (Z.eqb_spec (cur fmt) 37) as [Hpc | Hnpc]; cbn [negb].
  2: { apply IH; [done | lia |]. rewrite length_app. cbn [length]. lia. }
  cbv zeta.
  set (f1 := if cur (tail fmt) =? 48 then tail (tail fmt) else tail fmt).
  assert (H1 : (length f1 <= length (tail fmt))%nat).
  { unfold f1. destruct (cur (tail fmt) =? 48); [apply tail_length | done]. }
  set (w := width_loop f1 0).
  pose proof (width_loop_length f1 0) as H2. fold w in H2.
  set (f2 := if cur w.1 =? 108 then tail w.1 else w.1).
  assert (H3 : (length f2 <= length w.1)%nat).
  { unfold f2. destruct (cur w.1 =? 108); [apply tail_length | done]. }
  set (f3 := if (cur w.1 =? 108) && (cur f2 =? 108) then tail f2 else f2).
  assert (H4 : (length f3 <= length f2)%nat).
  { unfold f3. destruct ((cur w.1 =? 108) && (cur f2 =? 108)); [apply tail_length | done]. }
  destruct (conversion size lim (cur f3) _ _ _ _ args buf) as [r |] eqn:Hc.
  2: { split; done. }
  destruct (Z.eqb_spec (cur f3) 0) as [| Hn3]; [split; done |].
  pose proof (tail_shorter f3 Hn3).
  apply IH; [done | lia |].
  exact (conversion_length size _ _ _ _ _ args buf r Hs Hroom Hc).
Qed.

(** X26. [vsnprintf] stays inside its buffer. For a buffer of [size]
    bytes, [size] not 0, whatever the format and the arguments, the
    loop ends, and a call that returns has stored at most [size] bytes,
    counted from [buf[0]]; the last of them is the terminator, and the
    value returned is the index of that terminator, from 0 to
    [size - 1]: the number of bytes stored before it. (That number is
    the length of the string left only when none of those bytes is 0;
    a [%c] conversion of 0 stores one.) *)
Theorem vsnprintf_in_bounds (size : Z) (fmt args : list Z) :
  0 < size < 2 ^ 64 →
  vsnprintf size fmt args ≠ Out_of_fuel ∧
  ∀ stored ret, vsnprintf size fmt args = Returned (stored, ret) →
    Z.of_nat (length stored) <= size ∧
    last stored = Some 0 ∧
    0 <= ret <= size - 1 ∧
    ret = Z.of_nat (length stored) - 1 ∧
    stored !! Z.to_nat ret = Some 0.
Proof.
  intros Hs. unfold vsnprintf. destruct (Z.eqb_spec size 0) as [| _]; [lia |].
  destruct (format_loop_bound size (S (length fmt)) fmt args [] Hs ltac:(lia)
              ltac:(cbn [length]; lia)) as [Hfuel Hbound].
  destruct (format_loop _ _ _ _ _ _) as [buf | |]; [| done | done].
  split; [done |]. intros stored ret [= <- <-].
  specialize (Hbound buf eq_refl).
  rewrite length_app, last_snoc. cbn [length].
  split; [lia |]. split; [done |]. split; [lia |]. split; [lia |].
  rewrite Nat2Z.id. rewrite lookup_app_r by lia. by rewrite Nat.sub_diag.
Qed.

(** Characters copied as they are: neither the terminator nor ['%']. *)
Definition plain (c : Z) : Prop := c ≠ 0 ∧ c ≠ 37.

Lemma format_loop_plain size lim rest args pre : ∀ fuel buf,
  Forall plain pre →
  Z.of_nat (length buf) + Z.of_nat (length pre) <= Z.max lim (Z.of_nat (length buf)) →
  format_loop (length pre + fuel) size lim (pre ++ rest) args buf
  = format_loop fuel size lim rest args (buf ++ pre).
Proof.
  induction pre as [| c pre IH]; intros fuel buf Hp Hroom.
  - by rewrite app_nil_r.
  - apply Forall_cons in Hp as [[Hc0 Hc37] Hp]. cbn [length] in Hroom.
    cbn [length Nat.add app format_loop cur tail].
    destruct (Z.eqb_spec c 0) as [| _]; [done |].
    destruct (Z.ltb_spec (Z.of_nat (length buf)) lim) as [_ |]; [| lia].
    destruct (Z.eqb_spec c 37) as [| _]; [done |]. cbn [orb negb].
    rewrite IH; [| done | rewrite length_app; cbn [length]; lia].
    by rewrite <- app_assoc.
Qed.

(** X27. A format without conversions is copied: [vsnprintf] stores
    the characters of the format, cut after [(int)size - 1] of them,
    then the terminator, and returns the number of characters kept. *)
Theorem vsnprintf_plain (size : Z) (fmt args : list Z) :
  size ≠ 0 → Forall plain fmt →
  vsnprintf size fmt args
  = Returned (take (Z.to_nat (s32 (s32 size - 1))) fmt ++ [0],
              Z.of_nat (length (take (Z.to_nat (s32 (s32 size - 1))) fmt))).
Proof.
  intros Hs Hp. unfold vsnprintf. destruct (Z.eqb_spec size 0) as [| _]; [done |].
  set (lim := s32 (s32 size - 1)).
  set (k := Nat.min (Z.to_nat lim) (length fmt)).
  assert (Htake : take (Z.to_nat lim) fmt = take k fmt).
  { unfold k. destruct (Nat.le_gt_cases (Z.to_nat lim) (length fmt)).
    - by rewrite Nat.min_l.
    - rewrite Nat.min_r by lia. by rewrite !take_ge by lia. }
  rewrite Htake.
  assert (Hrun : format_loop (S (length fmt)) size lim fmt args [] = Returned (take k fmt)).
  { rewrite <- (take_drop k fmt) at 2.
    replace (S (length fmt)) with (length (take k fmt) + S (length fmt - k))%nat
      by (rewrite length_take; unfold k; lia).
    rewrite format_loop_plain.
    - cbn [app format_loop].
      destruct (decide (k = length fmt)) as [Hk | Hk].
      + rewrite Hk, drop_all. done.
      + assert (Hfull : ¬ Z.of_nat (length (take k fmt)) < lim)
          by (rewrite length_take; unfold k in *; lia).
        destruct (Z.ltb_spec (Z.of_nat (length (take k fmt))) lim); [done |].
        by rewrite orb_true_r.
    - by apply Forall_take.
    - rewrite length_take. cbn [length]. unfold k. lia. }
  rewrite Hrun. done.
Qed.

(** X28. A format that ends in a lone ['%'] sends [vsnprintf] past the
    terminator. When the characters before the ['%'] are plain and fit
    in the buffer, the conversion switch sees the terminator, its
    default case stores ['%'], and the pointer is then moved beyond the
    end of the format, from where the loop test reads. *)
Theorem vsnprintf_lone_percent (size : Z) (pre args : list Z) :
  size ≠ 0 → Forall plain pre → Z.of_nat (length pre) < s32 (s32 size - 1) →
  vsnprintf size (pre ++ [37]) args = Undefined.
Proof.
  intros Hs Hp Hroom. unfold vsnprintf. destruct (Z.eqb_spec size 0) as [| _]; [done |].
  rewrite length_app. cbn [length].
  replace (S (length pre + 1)) with (length pre + 2)%nat by lia.
  rewrite format_loop_plain by (cbn [length]; done || lia).
  cbn [app format_loop cur tail width_loop fst snd].
  change (37 =? 0) with false. change (37 =? 37) with true. change (0 =? 48) with false.
  change (0 =? 108) with false. cbn [orb negb andb].
  destruct (Z.ltb_spec (Z.of_nat (length pre)) (s32 (s32 size - 1))); [| lia].
  cbn [negb]. unfold conversion.
  change (0 =? 99) with false. change (0 =? 115) with false. change (0 =? 100) with false.
  change (0 =? 105) with false. change (0 =? 117) with false. change (0 =? 120) with false.
  change (0 =? 88) with false. change (0 =? 112) with false. change (0 =? 37) with false.
  cbn [orb]. change (0 =? 0) with true. done.
Qed.

(** One number of 32 bits printed, without padding, into a buffer
    with room for it. *)
Lemma put_num_roomy size unum base buf :
  base = 10 ∨ base = 16 → 0 <= unum < 2 ^ 32 → 12 <= size < 2 ^ 31 →
  (length buf <= 1)%nat →
  ∃ ds, put_num size unum base 0 0 buf = Some (buf ++ ds) ∧
        number base ds = unum ∧ Forall (λ c, 0 <= digit_of c < base) ds.
Proof.
  intros Hbase Hu Hs Hlen. unfold put_num.
  assert (Hb : 2 <= base <= 16) by lia.
  destruct (print_num_spec (u64 (size - Z.of_nat (length buf))) unum base 0 0 Hb ltac:(lia))
    as (ds & Hrun & Hval & Hall & Hl & _ & Hpow & Hzero).
  rewrite Hrun. cbn [mbind option_bind]. exists ds.
  assert (Hshort : (length ds <= 10)%nat).
  { destruct (Z.eq_dec unum 0) as [Hz | Hnz]; [rewrite (Hzero Hz); cbn; lia |].
    specialize (Hpow Hnz).
    destruct (Nat.le_gt_cases (length ds) 10) as [| Hgt]; [done |].
    assert (base ^ 10 <= base ^ (Z.of_nat (length ds) - 1)) by (apply Z.pow_le_mono_r; lia).
    assert (2 ^ 32 <= base ^ 10) by (destruct Hbase as [-> | ->]; vm_compute; discriminate).
    lia. }
  split; [| done].
  replace (Z.to_nat (0 - Z.of_nat (length ds))) with O by lia. cbn [replicate app].
  rewrite u64_small by lia. rewrite (s32_small (size - _)) by lia.
  rewrite s32_small by lia. by rewrite take_ge by lia.
Qed.

Lemma format_loop_end f size lim args buf :
  format_loop (S f) size lim [] args buf = Returned buf.
Proof. done. Qed.

(** One conversion without flag, width or length modifier. *)
Lemma format_loop_conversion f size lim c rest args buf :
  Z.of_nat (length buf) < lim → c ≠ 0 → c ≠ 48 → c ≠ 108 → ¬ (48 <= c <= 57) →
  format_loop (S f) size lim (37 :: c :: rest) args buf
  = match conversion size lim c 0 0 false false args buf with
    | None => Undefined
    | Some r => format_loop f size lim rest r.2 r.1
    end.
Proof.
  intros Hroom H0 H48 H108 Hdigit. cbn [format_loop cur tail].
  change (37 =? 0) with false. change (37 =? 37) with true.
  destruct (Z.ltb_spec (Z.of_nat (length buf)) lim) as [_ |]; [| lia].
  cbn [orb negb]. destruct (Z.eqb_spec c 48) as [| _]; [done |].
  cbn [width_loop].
  destruct (Z.leb_spec 48 c), (Z.leb_spec c 57); cbn [andb fst snd cur]; try lia;
    destruct (Z.eqb_spec c 108) as [| _]; try done; cbn [andb cur tail];
    destruct (Z.eqb_spec c 0) as [| _]; done.
Qed.

(** X29. Numbers come out as their numerals. With room for them
    (a size from 12 to [2^31 - 1]), the formats ["%d"], ["%u"] and ["%x"] make
    [vsnprintf] store the numeral of the argument, read as an [int]
    (with a minus sign before the digits of a negative one) or as an
    [unsigned int], in base 10 or 16, then the terminator; reading the
    digits back gives the number. *)
Theorem vsnprintf_number (size c a : Z) (args : list Z) :
  12 <= size < 2 ^ 31 → c = 100 ∨ c = 117 ∨ c = 120 →
  ∃ ds,
    vsnprintf size [37; c] (a :: args)
    = Returned ((if (c =? 100) && (s32 a <? 0) then [45] else []) ++ ds ++ [0],
                Z.of_nat (length ((if (c =? 100) && (s32 a <? 0) then [45] else []) ++ ds))) ∧
    number (if c =? 120 then 16 else 10) ds = (if c =? 100 then Z.abs (s32 a) else u32 a) ∧
    Forall (λ d, 0 <= digit_of d < (if c =? 120 then 16 else 10)) ds.
Proof.
  intros Hs Hc. unfold vsnprintf. destruct (Z.eqb_spec size 0) as [| _]; [lia |].
  rewrite (s32_small size) by lia. rewrite s32_small by lia.
  pose proof (s32_range a) as Hr.
  assert (Hu : 0 <= u32 a < 2 ^ 32) by (apply Z.mod_pos_bound; lia).
  change (S (length [37; c])) with 3%nat.
  rewrite format_loop_conversion by (cbn [length]; lia).
  unfold conversion.
  destruct Hc as [-> | [-> | ->]].
  - change (100 =? 99) with false. change (100 =? 115) with false.
    change (100 =? 100) with true. change (100 =? 120) with false.
    cbn [orb andb]. cbv zeta.
    destruct (Z.ltb_spec (s32 a) 0) as [Hneg | Hpos].
    + destruct (put_num_roomy size (u64 (- s32 a)) 10 ([] ++ [45]))
        as (ds & Hrun & Hval & Hall);
        [by left | rewrite u64_small by lia; lia | lia | cbn; lia |].
      rewrite Hrun. cbn [mbind option_bind fst snd]. rewrite format_loop_end.
      exists ds. split; [| split; [| done]].
      * cbn [app]. done.
      * rewrite Hval, u64_small by lia. lia.
    + destruct (put_num_roomy size (u64 (s32 a)) 10 []) as (ds & Hrun & Hval & Hall);
        [by left | rewrite u64_small by lia; lia | lia | cbn; lia |].
      rewrite Hrun. cbn [mbind option_bind fst snd]. rewrite format_loop_end.
      exists ds. split; [done |]. split; [| done].
      rewrite Hval, u64_small by lia. lia.
  - change (117 =? 99) with false. change (117 =? 115) with false.
    change (117 =? 100) with false. change (117 =? 105) with false.
    change (117 =? 117) with true. change (117 =? 88) with false.
    change (117 =? 120) with false. cbn [orb andb]. cbv zeta.
    destruct (put_num_roomy size (u32 a) 10 []) as (ds & Hrun & Hval & Hall);
      [by left | lia | lia | cbn; lia |].
    rewrite Hrun. cbn [mbind option_bind fst snd]. rewrite format_loop_end.
    exists ds. done.
  - change (120 =? 99) with false. change (120 =? 115) with false.
    change (120 =? 100) with false. change (120 =? 105) with false.
    change (120 =? 117) with false. change (120 =? 120) with true.
    change (120 =? 88) with false. cbn [orb andb]. cbv zeta.
    destruct (put_num_roomy size (u32 a) 16 []) as (ds & Hrun & Hval & Hall);
      [by right | lia | lia | cbn; lia |].
    rewrite Hrun. cbn [mbind option_bind fst snd]. rewrite format_loop_end.
    exists ds. done.
Qed.

(** [kputs]: the bytes of [s] before the first NUL go to the UART. *)
Fixpoint kputs (s : list Z) (tx : list Z) : list Z :=
  match s with
  | [] => tx
  | c :: s' => if c =? 0 then tx else kputs s' (Syscall.uart_putc c tx)
  end.

(** [vprintk]: the value returned and the bytes the UART has
    received. *)
Definition vprintk (fmt args : list Z) (tx : list Z) : run (Z * list Z) :=
  match vsnprintf 512 fmt args with
  | Returned r => Returned (r.2, kputs r.1 tx)
  | Undefined => Undefined
  | Out_of_fuel => Out_of_fuel
  end.

(** X30. One character through [printk]. [printk("%c", c)], the call
    the console fallback of [sys_write] makes for each byte, returns 1
    and sends the byte to the UART, followed by a carriage return when
    it is a line feed; for the byte 0 it still returns 1 but sends
    nothing, since [kputs] stops at the first NUL. *)
Theorem printk_char (c : Z) (args tx : list Z) :
  vprintk [37; 99] (c :: args) tx = Returned (1, Syscall.printk_c (c mod 256) tx).
Proof.
  unfold vprintk, vsnprintf. change (512 =? 0) with false.
  change (s32 (s32 512 - 1)) with 511. change (S (length [37; 99])) with 3%nat.
  rewrite format_loop_conversion by (cbn [length]; lia).
  unfold conversion. change (99 =? 99) with true. cbv iota. rewrite format_loop_end.
  cbn [app length fst snd kputs]. unfold Syscall.printk_c.
  destruct (c mod 256 =? 0); [done |]. change (0 =? 0) with true. done.
Qed.

End Format.

Lemma vsnprintf_in_bounds_witness :
  vsnprintf (λ _, []) 8 [120; 61; 37; 100; 33; 37; 53; 117] [4294967254; 77] ≠ Out_of_fuel ∧
  ∀ stored ret,
    vsnprintf (λ _, []) 8 [120; 61; 37; 100; 33; 37; 53; 117] [4294967254; 77]
      = Returned (stored, ret) →
    Z.of_nat (length stored) <= 8 ∧ last stored = Some 0 ∧
    0 <= ret <= 8 - 1 ∧
    ret = Z.of_nat (length stored) - 1 ∧
    stored !! Z.to_nat ret = Some 0.
Proof.
  apply (vsnprintf_in_bounds (λ _, []) 8 [120; 61; 37; 100; 33; 37; 53; 117]
           [4294967254; 77]).
  lia.
Defined.

(** The format [a%cb] with the argument 0: the value returned is 3, the
    string left in the buffer is [a]. *)
Lemma vsnprintf_char_nul :
  vsnprintf (λ _, []) 16 [97; 37; 99; 98] [0] = Returned ([97; 0; 98; 0], 3).
Proof. vm_compute. reflexivity. Qed.

Lemma vsnprintf_plain_witness :
  vsnprintf (λ _, []) 4 [104; 101; 108; 108; 111] []
  = Returned (take (Z.to_nat (s32 (s32 4 - 1))) [104; 101; 108; 108; 111] ++ [0],
              Z.of_nat (length (take (Z.to_nat (s32 (s32 4 - 1))) [104; 101; 108; 108; 111]))).
Proof.
  apply (vsnprintf_plain (λ _, []) 4 [104; 101; 108; 108; 111] []).
  - lia.
  - repeat (constructor; [split; lia |]). constructor.
Defined.

Lemma vsnprintf_lone_percent_witness :
  vsnprintf (λ _, []) 8 ([97; 98] ++ [37]) [] = Undefined.
Proof.
  apply (vsnprintf_lone_percent (λ _, []) 8 [97; 98] []).
  - lia.
  - repeat (constructor; [split; lia |]). constructor.
  - vm_compute. reflexivity.
Defined.

Lemma vsnprintf_number_witness :
  ∃ ds,
    vsnprintf (λ _, []) 16 [37; 100] [4294967254]
    = Returned ((if (100 =? 100) && (s32 4294967254 <? 0) then [45] else []) ++ ds ++ [0],
                Z.of_nat (length ((if (100 =? 100) && (s32 4294967254 <? 0) then [45]
                                   else []) ++ ds))) ∧
    number (if 100 =? 120 then 16 else 10) ds
      = (if 100 =? 100 then Z.abs (s32 4294967254) else u32 4294967254) ∧
    Forall (λ d, 0 <= digit_of d < (if 100 =? 120 then 16 else 10)) ds.
Proof.
  apply (vsnprintf_number (λ _, []) 16 100 4294967254 []).
  - lia.
  - left. reflexivity.
Defined.

End Printk.
